(** * Order-fill indexer: trade decoder, store and indexing run

  A shallow embedding of the Python sources
    - [src/indexer/trade_decoder.py]  (module [TradeDecoder]),
    - [src/db/store.py], [src/db/schema.py]  (module [Store]),
    - [src/indexer/run.py]  (module [Indexer]),
  together with the parts of the Python runtime they lean on: [str]
  methods and [int()] parsing (module [Py]) and the [decimal] module at
  the precision the decoder sets (module [PyDecimal]).

  Conventions.
    - A Python [str] is a [string] whose characters are the code points
      U+0000..U+00FF; the classification of these code points is the
      one of CPython.
    - A Python [int] is a [Z].
    - A raised exception is a value [Raise e]; functions that commit to
      the database before they can raise return the store as well. *)

From Stdlib Require Import ZArith Ascii String List Lia Bool.
From stdpp Require Import gmap strings list fin_maps sorting.

Local Open Scope Z_scope.

(* ===================================================================== *)
(** * Python runtime                                                      *)
(* ===================================================================== *)

Module Py.

(** Exceptions the modelled code can raise. *)
Inductive exn : Type :=
| ValueError (msg : string)
| KeyError (key : string)
| AttributeError
| IntegrityError (constraint : string)
| OverflowError
| DecimalOverflow
| DivisionByZero
| External (what : string).

Inductive res (A : Type) : Type :=
| Ok (a : A)
| Raise (e : exn).
Arguments Ok {A} a.
Arguments Raise {A} e.

Definition bind {A B} (m : res A) (k : A -> res B) : res B :=
  match m with
  | Ok a => k a
  | Raise e => Raise e
  end.

Definition is_ok {A} (m : res A) : bool :=
  match m with Ok _ => true | Raise _ => false end.

(** ** Characters *)

Definition code (c : ascii) : Z := Z.of_N (N_of_ascii c).
Definition chr (z : Z) : ascii := ascii_of_N (Z.to_N z).

Definition between (lo hi z : Z) : bool := (lo <=? z) && (z <=? hi).

(** [str.isspace] on one character: general category Zs or
    bidirectional class WS, B or S. Below U+0100 these are TAB..CR,
    FS..US, SPACE, NEL and NBSP. *)
Definition isspace (c : ascii) : bool :=
  let n := code c in
  between 9 13 n || between 28 32 n || (n =? 133) || (n =? 160).

(** [Py_ISSPACE] after [_PyUnicode_TransformDecimalAndSpaceToASCII]:
    what [int()] skips around a literal. The C table holds TAB..CR and
    SPACE; the transformation turns the non-ASCII spaces NEL and NBSP
    into SPACE and leaves FS..US alone. *)
Definition int_space (c : ascii) : bool :=
  let n := code c in
  between 9 13 n || (n =? 32) || (n =? 133) || (n =? 160).

Definition is_ascii_digit (c : ascii) : bool := between 48 57 (code c).

(** [str.isdigit] on one character: Numeric_Type Digit or Decimal.
    Below U+0100: 0-9 and the superscripts U+00B2, U+00B3, U+00B9. *)
Definition isdigit_char (c : ascii) : bool :=
  let n := code c in
  between 48 57 n || (n =? 178) || (n =? 179) || (n =? 185).

(** [_PyLong_DigitValue]: 0-9, a-z and A-Z map to 0..35, all other
    characters to 37. *)
Definition digit_value (c : ascii) : Z :=
  let n := code c in
  if between 48 57 n then n - 48
  else if between 97 122 n then n - 87
  else if between 65 90 n then n - 55
  else 37.

(** The character of a digit [0 <= d < 36], lower case. *)
Definition digit_char (d : Z) : ascii :=
  if d <? 10 then chr (48 + d) else chr (87 + d).

(** ** Strings *)

Fixpoint lstrip (p : ascii -> bool) (s : string) : string :=
  match s with
  | EmptyString => EmptyString
  | String c r => if p c then lstrip p r else s
  end.

Fixpoint rstrip (p : ascii -> bool) (s : string) : string :=
  match s with
  | EmptyString => EmptyString
  | String c r =>
      match rstrip p r with
      | EmptyString => if p c then EmptyString else String c EmptyString
      | r' => String c r'
      end
  end.

(** [s.strip()] is [strip isspace s]; [s.strip(ch)] is
    [strip (Ascii.eqb ch) s]. *)
Definition strip (p : ascii -> bool) (s : string) : string :=
  rstrip p (lstrip p s).

Definition startswith (pre s : string) : bool := String.prefix pre s.

Fixpoint all_chars (p : ascii -> bool) (s : string) : bool :=
  match s with
  | EmptyString => true
  | String c r => p c && all_chars p r
  end.

(** [s.isdigit()]: at least one character and all of them digits. *)
Definition isdigit (s : string) : bool :=
  match s with
  | EmptyString => false
  | _ => all_chars isdigit_char s
  end.

Definition len (s : string) : Z := Z.of_nat (String.length s).

Fixpoint drop (n : nat) (s : string) : string :=
  match n, s with
  | O, _ => s
  | S n', String _ r => drop n' r
  | S _, EmptyString => EmptyString
  end.

Fixpoint take (n : nat) (s : string) : string :=
  match n, s with
  | O, _ => EmptyString
  | S n', String c r => String c (take n' r)
  | S _, EmptyString => EmptyString
  end.

(** [s[-n:]] for [n > 0]: the last [n] characters, all of [s] when it
    is shorter. *)
Definition last_chars (n : nat) (s : string) : string :=
  drop (String.length s - n) s.

Fixpoint zeros (n : nat) : string :=
  match n with
  | O => EmptyString
  | S n' => String "0" (zeros n')
  end.

(** ** Integers and their literals *)

(** Digits of [n >= 0] in [base], least significant first. *)
Fixpoint le_digits (base : Z) (fuel : nat) (n : Z) : list Z :=
  match fuel with
  | O => []
  | S f =>
      if n <? base then [n]
      else (n mod base) :: le_digits base f (n / base)
  end.

Definition digit_fuel (n : Z) : nat := S (Z.to_nat (Z.log2 n)).

(** The numeral of [n >= 0] in [base], most significant digit first. *)
Definition numeral (base n : Z) : string :=
  fold_left (fun acc d => String (digit_char d) acc)
            (le_digits base (digit_fuel n) n) EmptyString.

(** The decimal text of an [int]: what [str(n)] returns when it
    returns (see [str_] below). *)
Definition str_of_int (n : Z) : string :=
  if n <? 0 then String "-" (numeral 10 (- n)) else numeral 10 n.

(** The interpreter's limit on the digits of a conversion between an
    [int] and its decimal text, [sys.int_max_str_digits]; the program
    leaves it at its default. *)
Definition max_str_digits : Z := 4300.

(** ["%+d" % n]. *)
Definition signed_str (n : Z) : string :=
  if n <? 0 then String "-" (numeral 10 (- n))
  else String "+" (numeral 10 n).

(** [format(n, "064x")]: lower-case hexadecimal, zero-padded after the
    sign to a total width of 64. *)
Definition format_064x (n : Z) : string :=
  if n <? 0 then
    let d := numeral 16 (- n) in
    String "-" (zeros (63 - String.length d) +:+ d)
  else
    let d := numeral 16 n in
    zeros (64 - String.length d) +:+ d.

(** The digit loop of [long_from_string_base]: digits below [base] and
    single underscores between them. Returns the value and the rest of
    the text, or [None] on a doubled or trailing underscore. *)
Fixpoint scan_digits (base : Z) (s : string) (prev_us : bool) (acc : Z)
  : option (Z * string) :=
  match s with
  | EmptyString => if prev_us then None else Some (acc, EmptyString)
  | String c r =>
      if Ascii.eqb c "_" then
        if prev_us then None else scan_digits base r true acc
      else if digit_value c <? base then
        scan_digits base r false (acc * base + digit_value c)
      else if prev_us then None else Some (acc, s)
  end.

(** The [ValueError] of a conversion between [str] and [int]: the
    text is no literal of the base, or the number has more decimal digits
    than [max_str_digits]. The message, which quotes the text or the
    limit, is not modelled. *)
Definition invalid_literal : exn := ValueError "invalid literal for int()".

(** [str(n)] for an [int]: the decimal text, unless [n] has more than
    [max_str_digits] digits. *)
Definition str_ (n : Z) : res string :=
  if max_str_digits <? len (numeral 10 (Z.abs n))
  then Raise invalid_literal
  else Ok (str_of_int n).

(** The digits the loop of [long_from_string_base] counts: the digits
    below [base] at the front of the text, the underscores between them
    left out. *)
Fixpoint count_digits (base : Z) (s : string) : Z :=
  match s with
  | EmptyString => 0
  | String c r =>
      if Ascii.eqb c "_" then count_digits base r
      else if digit_value c <? base then 1 + count_digits base r
      else 0
  end.

(** The bases whose conversion is linear, for which the digit limit
    does not apply: the powers of two. *)
Definition is_binary_base (base : Z) : bool := Z.land base (base - 1) =? 0.

(** [int(s, base)] for a [str] and [base] 10 or 16, as
    [PyLong_FromString]: optional surrounding white space, an optional
    sign, for base 16 an optional [0x]/[0X] prefix that may be followed
    by one underscore, then at least one digit; in base 10 at most
    [max_str_digits] digits. *)
Definition int_of_str (base : Z) (s : string) : res Z :=
  let s1 := lstrip int_space s in
  let '(sign, s2) :=
    match s1 with
    | String c r =>
        if Ascii.eqb c "+" then (1, r)
        else if Ascii.eqb c "-" then (-1, r)
        else (1, s1)
    | EmptyString => (1, s1)
    end in
  let s3 :=
    match s2 with
    | String c (String x r) =>
        if Ascii.eqb c "0" && (base =? 16)
           && (Ascii.eqb x "x" || Ascii.eqb x "X")
        then
          match r with
          | String u r' => if Ascii.eqb u "_" then r' else r
          | EmptyString => r
          end
        else s2
    | _ => s2
    end in
  match s3 with
  | EmptyString => Raise invalid_literal
  | String c _ =>
      if Ascii.eqb c "_" then Raise invalid_literal
      else if digit_value c <? base then
        match scan_digits base s3 false 0 with
        | Some (v, rest) =>
            match lstrip int_space rest with
            | EmptyString =>
                if negb (is_binary_base base)
                   && (max_str_digits <? count_digits base s3)
                then Raise invalid_literal
                else Ok (sign * v)
            | _ => Raise invalid_literal
            end
        | None => Raise invalid_literal
        end
      else Raise invalid_literal
  end.

End Py.

Notation "'let*' x ':=' m 'in' k" := (Py.bind m (fun x => k))
(at level 10, x pattern, m at level 100, k at level 200,
 only parsing).

(* ===================================================================== *)
(** * The [decimal] module: finite numbers under one context              *)
(* ===================================================================== *)

Module PyDecimal.
Import Py.

(** A finite [Decimal]: the value is [(-1)^sign * coeff * 10^exp], with
    [coeff >= 0] kept by the module as a digit string [_int]. *)
Record Decimal : Type := mkDec { sign : bool; coeff : Z; exp : Z }.

(** The fields of the arithmetic context the operations read. Rounding
    is ROUND_HALF_EVEN, [clamp] is 0 and the traps are the default ones
    (InvalidOperation, DivisionByZero, Overflow), as in the context
    that [getcontext()] returns. *)
Record Context : Type := mkCtx { prec : Z; Emax : Z; Emin : Z }.

Definition Etiny (ctx : Context) : Z := Emin ctx - prec ctx + 1.
Definition Etop (ctx : Context) : Z := Emax ctx - prec ctx + 1.

(** [len(self._int)]. *)
Definition ndigits (c : Z) : Z := len (numeral 10 c).

(** [Decimal(n)] for an [int]: exact. *)
Definition of_int (n : Z) : Decimal :=
  {| sign := n <? 0; coeff := Z.abs n; exp := 0 |}.

(** The loop [while exp < limit and coeff % 10 == 0: coeff //= 10;
    exp += 1], run at most [fuel] times. *)
Fixpoint strip_zeros (fuel : nat) (c e limit : Z) : Z * Z :=
  match fuel with
  | O => (c, e)
  | S f =>
      if (e <? limit) && (c mod 10 =? 0)
      then strip_zeros f (c / 10) (e + 1) limit
      else (c, e)
  end.

(** [Decimal._fix]: round to the context's precision and exponent
    range. Dropping the last [r] digits of [coeff] rounds up when the
    dropped part is above one half, or is one half with an odd kept
    part ([_round_half_even]). *)
Definition fix_ (ctx : Context) (d : Decimal) : res Decimal :=
  if coeff d =? 0 then
    let new_exp := Z.min (Z.max (exp d) (Etiny ctx)) (Emax ctx) in
    Ok {| sign := sign d; coeff := 0; exp := new_exp |}
  else
    let exp_min0 := ndigits (coeff d) + exp d - prec ctx in
    if exp_min0 >? Etop ctx then Raise DecimalOverflow
    else
      let exp_min := if exp_min0 <? Etiny ctx then Etiny ctx else exp_min0 in
      if exp d <? exp_min then
        let r := exp_min - exp d in
        let q := coeff d / 10 ^ r in
        let rem := coeff d mod 10 ^ r in
        let half := 5 * 10 ^ (r - 1) in
        let up := (rem >? half) || ((rem =? half) && Z.odd q) in
        let '(c', e') :=
          if up then
            if ndigits (q + 1) >? prec ctx
            then ((q + 1) / 10, exp_min + 1)
            else (q + 1, exp_min)
          else (q, exp_min) in
        if e' >? Etop ctx then Raise DecimalOverflow
        else Ok {| sign := sign d; coeff := c'; exp := e' |}
      else Ok d.

(** [Decimal.__truediv__]. *)
Definition truediv (ctx : Context) (a b : Decimal) : res Decimal :=
  let sg := xorb (sign a) (sign b) in
  if coeff b =? 0 then Raise DivisionByZero
  else
    let '(c, e) :=
      if coeff a =? 0 then (0, exp a - exp b)
      else
        let shift := ndigits (coeff b) - ndigits (coeff a) + prec ctx + 1 in
        let e := exp a - exp b - shift in
        let num := if 0 <=? shift then coeff a * 10 ^ shift else coeff a in
        let den := if 0 <=? shift then coeff b else coeff b * 10 ^ (- shift) in
        let q := num / den in
        let rem := num mod den in
        if rem =? 0 then
          strip_zeros (Z.to_nat (exp a - exp b - e)) q e (exp a - exp b)
        else ((if q mod 5 =? 0 then q + 1 else q), e) in
    fix_ ctx {| sign := sg; coeff := c; exp := e |}.

(** [Decimal.normalize]: the shortest coefficient for the value. *)
Definition normalize (ctx : Context) (d : Decimal) : res Decimal :=
  let* dup := fix_ ctx d in
  if coeff dup =? 0 then Ok {| sign := sign dup; coeff := 0; exp := 0 |}
  else
    let '(c, e) :=
      strip_zeros (Z.to_nat (ndigits (coeff dup))) (coeff dup) (exp dup)
                  (Emax ctx) in
    Ok {| sign := sign dup; coeff := c; exp := e |}.

(** [Decimal.__str__]: plain notation when the exponent is at most 0
    and the number needs at most five zeros after the point,
    scientific notation otherwise. *)
Definition to_str (d : Decimal) : string :=
  let int := numeral 10 (coeff d) in
  let n := len int in
  let leftdigits := exp d + n in
  let dotplace :=
    if (exp d <=? 0) && (leftdigits >? -6) then leftdigits else 1 in
  let body :=
    if dotplace <=? 0 then
      "0." +:+ zeros (Z.to_nat (- dotplace)) +:+ int
    else if dotplace >=? n then
      int +:+ zeros (Z.to_nat (dotplace - n))
    else
      take (Z.to_nat dotplace) int +:+ "." +:+ drop (Z.to_nat dotplace) int in
  let e :=
    if leftdigits =? dotplace then ""
    else "E" +:+ signed_str (leftdigits - dotplace) in
  (if sign d then "-" else "") +:+ body +:+ e.

(** ** [Decimal(text)] *)

Fixpoint remove_underscores (s : string) : string :=
  match s with
  | EmptyString => EmptyString
  | String c r =>
      if Ascii.eqb c "_" then remove_underscores r
      else String c (remove_underscores r)
  end.

(** The longest prefix of decimal digits, and the rest. *)
Fixpoint span_digits (s : string) : string * string :=
  match s with
  | EmptyString => (EmptyString, EmptyString)
  | String c r =>
      if is_ascii_digit c then
        let '(d, t) := span_digits r in (String c d, t)
      else (EmptyString, s)
  end.

(** The value of a string of decimal digits read after [acc]. *)
Fixpoint digits_value (s : string) (acc : Z) : Z :=
  match s with
  | EmptyString => acc
  | String c r => digits_value r (acc * 10 + digit_value c)
  end.

Definition split_sign (s : string) : bool * string :=
  match s with
  | String c r =>
      if Ascii.eqb c "-" then (true, r)
      else if Ascii.eqb c "+" then (false, r)
      else (false, s)
  | EmptyString => (false, s)
  end.

(** The optional exponent part: the letter E, an optional sign and at
    least one digit, then the end of the text. *)
Definition parse_exponent (s : string) : option Z :=
  match s with
  | EmptyString => Some 0
  | String c r =>
      if Ascii.eqb c "E" || Ascii.eqb c "e" then
        let '(neg, r1) := split_sign r in
        match span_digits r1 with
        | (EmptyString, _) => None
        | (ds, EmptyString) =>
            let v := digits_value ds 0 in
            Some (if neg then - v else v)
        | _ => None
        end
      else None
  end.

(** The finite numerals the constructor's pattern accepts: white space
    stripped, underscores removed, then an optional sign, an integer
    part, an optional point with a fractional part and an optional
    exponent, with a digit in the integer or the fractional part. [None] when the text is not such a
    numeral: Python then builds an infinity or a NaN, or raises
    [InvalidOperation]. *)
Definition of_str (s : string) : option Decimal :=
  let s0 := remove_underscores (strip isspace s) in
  let '(neg, s1) := split_sign s0 in
  let '(ip, r1) := span_digits s1 in
  let '(fp, r2) :=
    match r1 with
    | String c r =>
        if Ascii.eqb c "." then span_digits r else (EmptyString, r1)
    | EmptyString => (EmptyString, r1)
    end in
  match ip +:+ fp with
  | EmptyString => None
  | ds =>
      match parse_exponent r2 with
      | Some e =>
          Some {| sign := neg; coeff := digits_value ds 0;
                  exp := e - len fp |}
      | None => None
      end
  end.

End PyDecimal.

(* ===================================================================== *)
(** * [src/db/store.py] over the schema of [src/db/schema.py]             *)
(* ===================================================================== *)

Module Store.
Import Py.

Definition dquote : ascii := chr 34.
Definition squote : ascii := chr 39.

(** [normalize_token_id]. The argument is [None] or a [str]. *)
Definition normalize_token_id (token_id : option string)
  : res (option string) :=
  match token_id with
  | None => Ok None
  | Some t =>
      let value :=
        strip (Ascii.eqb squote) (strip (Ascii.eqb dquote) (strip isspace t)) in
      match value with
      | EmptyString => Ok None
      | _ =>
          if startswith "0x" value then
            let* n := int_of_str 16 value in
            let* text := str_ n in Ok (Some text)
          else if isdigit value then
            let* n := int_of_str 10 value in
            let* text := str_ n in Ok (Some text)
          else Ok (Some value)
      end
  end.

(** ** Tables

    A table is the list of its rows in rowid order. [TEXT] columns are
    [option string], [None] being NULL; [INTEGER] columns are [Z]. *)

Record EventRow : Type := mkEventRow {
  e_id : Z;
  e_event_id : option string;          (* UNIQUE *)
  e_slug : string;                     (* UNIQUE NOT NULL *)
  e_title : option string;
  e_description : option string;
  e_neg_risk : Z;
  e_active : Z;
  e_closed : Z;
  e_created_at : option string;
  e_updated_at : option string
}.

Record MarketRow : Type := mkMarketRow {
  m_id : Z;
  m_event_id : option Z;
  m_slug : string;                     (* UNIQUE NOT NULL *)
  m_title : option string;
  m_description : option string;
  m_condition_id : option string;
  m_question_id : option string;
  m_oracle : option string;
  m_collateral_token : option string;
  m_yes_token_id : option string;
  m_no_token_id : option string;
  m_enable_neg_risk : Z;
  m_status : option string;
  m_created_at : option string;
  m_updated_at : option string
}.

Record TradeRow : Type := mkTradeRow {
  t_id : Z;
  t_market_id : Z;                     (* NOT NULL *)
  t_tx_hash : string;                  (* NOT NULL *)
  t_log_index : Z;                     (* NOT NULL *)
  t_block_number : option Z;
  t_block_hash : option string;
  t_timestamp : option string;
  t_maker : option string;
  t_taker : option string;
  t_side : option string;
  t_outcome : option string;
  t_price : string;
  t_size : string;
  t_token_id : option string;
  t_maker_asset_id : option string;
  t_taker_asset_id : option string;
  t_maker_amount_filled : option string;
  t_taker_amount_filled : option string;
  t_exchange_address : option string;
  t_created_at : string
}.

(** The connection: the four tables and the connection's
    [total_changes] counter. [sync_state] has [key] as primary key and
    holds [(last_block, updated_at)]. *)
Record Conn : Type := mkConn {
  events : list EventRow;
  markets : list MarketRow;
  trades : list TradeRow;
  sync_state : gmap string (Z * string);
  total_changes : Z
}.

Definition empty_conn : Conn :=
  {| events := []; markets := []; trades := []; sync_state := ∅;
     total_changes := 0 |}.

(** The rowid of a new row: one more than the largest in the table.
    Rows are never deleted, so this is also what AUTOINCREMENT gives. *)
Definition next_id (ids : list Z) : Z := 1 + fold_right Z.max 0 ids.

(** Binding a Python [int] to a statement parameter: SQLite integers
    have 64 bits. *)
Definition bind_int (n : Z) : res Z :=
  if between (- 2 ^ 63) (2 ^ 63 - 1) n then Ok n else Raise OverflowError.

Definition bind_opt_int (n : option Z) : res (option Z) :=
  match n with
  | None => Ok None
  | Some z => let* z' := bind_int z in Ok (Some z')
  end.

(** [int(bool(x))]. *)
Definition int_of_bool (b : bool) : Z := if b then 1 else 0.

(** ** [upsert_event] *)

(** The [payload] dict: [ep_slug] is [payload["slug"]]; the other
    fields are what [payload.get] returns, the three flags already as
    their truth values with the defaults of the call applied. *)
Record EventPayload : Type := mkEventPayload {
  ep_event_id : option string;
  ep_slug : option string;
  ep_title : option string;
  ep_description : option string;
  ep_neg_risk : bool;
  ep_active : bool;
  ep_closed : bool;
  ep_created_at : option string
}.

(** Another row already holds this non-NULL [event_id]. *)
Definition event_id_taken (eid : option string) (skip : option Z)
    (rows : list EventRow) : bool :=
  match eid with
  | None => false
  | Some _ =>
      existsb (fun r => bool_decide (e_event_id r = eid)
                        && negb (bool_decide (Some (e_id r) = skip))) rows
  end.

Definition update_event (now : string) (p : EventPayload) (r : EventRow)
  : EventRow :=
  {| e_id := e_id r;
     e_event_id := ep_event_id p;
     e_slug := e_slug r;
     e_title := ep_title p;
     e_description := ep_description p;
     e_neg_risk := int_of_bool (ep_neg_risk p);
     e_active := int_of_bool (ep_active p);
     e_closed := int_of_bool (ep_closed p);
     e_created_at := e_created_at r;
     e_updated_at := Some now |}.

Definition new_event (now : string) (p : EventPayload) (slug : string)
    (id : Z) : EventRow :=
  {| e_id := id;
     e_event_id := ep_event_id p;
     e_slug := slug;
     e_title := ep_title p;
     e_description := ep_description p;
     e_neg_risk := int_of_bool (ep_neg_risk p);
     e_active := int_of_bool (ep_active p);
     e_closed := int_of_bool (ep_closed p);
     e_created_at := ep_created_at p;
     e_updated_at := Some now |}.

(** [INSERT INTO events ... ON CONFLICT(slug) DO UPDATE SET ...], then
    [SELECT id ... WHERE slug = ?], then commit. [now] is
    [_utc_now_iso()]. A conflict on [slug] is resolved first and turns
    the statement into an update of that row; the UNIQUE constraint on
    [event_id] is not a conflict target and fails the statement. *)
Definition upsert_event (now : string) (conn : Conn) (p : EventPayload)
  : res (Z * Conn) :=
  match ep_slug p with
  | None => Raise (IntegrityError "NOT NULL constraint failed: events.slug")
  | Some slug =>
      match find (fun r => bool_decide (e_slug r = slug)) (events conn) with
      | Some old =>
          if event_id_taken (ep_event_id p) (Some (e_id old)) (events conn)
          then Raise (IntegrityError "UNIQUE constraint failed: events.event_id")
          else
            let rows :=
              map (fun r => if bool_decide (e_slug r = slug)
                            then update_event now p r else r) (events conn) in
            Ok (e_id old,
                {| events := rows; markets := markets conn;
                   trades := trades conn; sync_state := sync_state conn;
                   total_changes := total_changes conn + 1 |})
      | None =>
          if event_id_taken (ep_event_id p) None (events conn)
          then Raise (IntegrityError "UNIQUE constraint failed: events.event_id")
          else
            let id := next_id (map e_id (events conn)) in
            Ok (id,
                {| events := events conn ++ [new_event now p slug id];
                   markets := markets conn;
                   trades := trades conn; sync_state := sync_state conn;
                   total_changes := total_changes conn + 1 |})
      end
  end.

(** ** [upsert_market] *)

(** The [payload] dict. [mp_status] is [None] when the key is absent
    (the call then stores ["unknown"]). *)
Record MarketPayload : Type := mkMarketPayload {
  mp_event_id : option Z;
  mp_slug : option string;
  mp_title : option string;
  mp_description : option string;
  mp_condition_id : option string;
  mp_question_id : option string;
  mp_oracle : option string;
  mp_collateral_token : option string;
  mp_yes_token_id : option string;
  mp_no_token_id : option string;
  mp_enable_neg_risk : bool;
  mp_status : option (option string);
  mp_created_at : option string
}.

Definition status_of (p : MarketPayload) : option string :=
  match mp_status p with
  | None => Some "unknown"
  | Some v => v
  end.

Definition update_market (now : string) (p : MarketPayload)
    (eid : option Z) (yes no : option string) (r : MarketRow) : MarketRow :=
  {| m_id := m_id r;
     m_event_id := eid;
     m_slug := m_slug r;
     m_title := mp_title p;
     m_description := mp_description p;
     m_condition_id := mp_condition_id p;
     m_question_id := mp_question_id p;
     m_oracle := mp_oracle p;
     m_collateral_token := mp_collateral_token p;
     m_yes_token_id := yes;
     m_no_token_id := no;
     m_enable_neg_risk := int_of_bool (mp_enable_neg_risk p);
     m_status := status_of p;
     m_created_at := m_created_at r;
     m_updated_at := Some now |}.

Definition new_market (now : string) (p : MarketPayload)
    (eid : option Z) (yes no : option string) (slug : string) (id : Z)
  : MarketRow :=
  {| m_id := id;
     m_event_id := eid;
     m_slug := slug;
     m_title := mp_title p;
     m_description := mp_description p;
     m_condition_id := mp_condition_id p;
     m_question_id := mp_question_id p;
     m_oracle := mp_oracle p;
     m_collateral_token := mp_collateral_token p;
     m_yes_token_id := yes;
     m_no_token_id := no;
     m_enable_neg_risk := int_of_bool (mp_enable_neg_risk p);
     m_status := status_of p;
     m_created_at := mp_created_at p;
     m_updated_at := Some now |}.

(** [INSERT INTO markets ... ON CONFLICT(slug) DO UPDATE SET ...]. The
    parameters are built first, the token ids through
    [normalize_token_id]. Foreign keys are not enforced (the
    connection never turns them on). *)
Definition upsert_market (now : string) (conn : Conn) (p : MarketPayload)
  : res (Z * Conn) :=
  let* yes := normalize_token_id (mp_yes_token_id p) in
  let* no := normalize_token_id (mp_no_token_id p) in
  let* eid := bind_opt_int (mp_event_id p) in
  match mp_slug p with
  | None => Raise (IntegrityError "NOT NULL constraint failed: markets.slug")
  | Some slug =>
      match find (fun r => bool_decide (m_slug r = slug)) (markets conn) with
      | Some old =>
          let rows :=
            map (fun r => if bool_decide (m_slug r = slug)
                          then update_market now p eid yes no r else r)
                (markets conn) in
          Ok (m_id old,
              {| events := events conn; markets := rows;
                 trades := trades conn; sync_state := sync_state conn;
                 total_changes := total_changes conn + 1 |})
      | None =>
          let id := next_id (map m_id (markets conn)) in
          Ok (id,
              {| events := events conn;
                 markets := markets conn ++ [new_market now p eid yes no slug id];
                 trades := trades conn; sync_state := sync_state conn;
                 total_changes := total_changes conn + 1 |})
      end
  end.

(** ** [insert_trades] *)

(** One trade dict. [td_market_id], [td_tx_hash] and [td_log_index]
    are read with [t[...]], the others with [t.get(...)]; [None] is
    Python's [None]. The amounts and asset ids are [int]s. [td_price]
    and [td_size] are [None] when the key is absent. *)
Record TradeDict : Type := mkTradeDict {
  td_market_id : option Z;
  td_tx_hash : option string;
  td_log_index : option Z;
  td_block_number : option Z;
  td_block_hash : option string;
  td_timestamp : option string;
  td_maker : option string;
  td_taker : option string;
  td_side : option string;
  td_outcome : option string;
  td_price : option string;
  td_size : option string;
  td_token_id : option string;
  td_maker_asset_id : option Z;
  td_taker_asset_id : option Z;
  td_maker_amount_filled : option Z;
  td_taker_amount_filled : option Z;
  td_exchange_address : option string
}.

(** The parameter tuple of one row. *)
Record TradeParams : Type := mkTradeParams {
  tp_market_id : option Z;
  tp_tx_hash : option string;
  tp_log_index : option Z;
  tp_block_number : option Z;
  tp_block_hash : option string;
  tp_timestamp : option string;
  tp_maker : option string;
  tp_taker : option string;
  tp_side : option string;
  tp_outcome : option string;
  tp_price : string;
  tp_size : string;
  tp_token_id : option string;
  tp_maker_asset_id : option string;
  tp_taker_asset_id : option string;
  tp_maker_amount_filled : option string;
  tp_taker_amount_filled : option string;
  tp_exchange_address : option string
}.

(** [str(x) if x is not None else None] for an [int]. *)
Definition str_opt (x : option Z) : res (option string) :=
  match x with
  | None => Ok None
  | Some n => let* text := str_ n in Ok (Some text)
  end.

Definition trade_params (t : TradeDict) : res TradeParams :=
  let* tok := normalize_token_id (td_token_id t) in
  let* maker_asset := str_opt (td_maker_asset_id t) in
  let* taker_asset := str_opt (td_taker_asset_id t) in
  let* maker_amount := str_opt (td_maker_amount_filled t) in
  let* taker_amount := str_opt (td_taker_amount_filled t) in
  Ok {| tp_market_id := td_market_id t;
        tp_tx_hash := td_tx_hash t;
        tp_log_index := td_log_index t;
        tp_block_number := td_block_number t;
        tp_block_hash := td_block_hash t;
        tp_timestamp := td_timestamp t;
        tp_maker := td_maker t;
        tp_taker := td_taker t;
        tp_side := td_side t;
        tp_outcome := td_outcome t;
        tp_price := default "0" (td_price t);
        tp_size := default "0" (td_size t);
        tp_token_id := tok;
        tp_maker_asset_id := maker_asset;
        tp_taker_asset_id := taker_asset;
        tp_maker_amount_filled := maker_amount;
        tp_taker_amount_filled := taker_amount;
        tp_exchange_address := td_exchange_address t |}.

Fixpoint all_params (ts : list TradeDict) : res (list TradeParams) :=
  match ts with
  | [] => Ok []
  | t :: r =>
      let* p := trade_params t in
      let* ps := all_params r in
      Ok (p :: ps)
  end.

(** The integers of one parameter tuple fit SQLite's 64 bits. *)
Definition bind_params (p : TradeParams) : res unit :=
  let* _ := bind_opt_int (tp_market_id p) in
  let* _ := bind_opt_int (tp_log_index p) in
  let* _ := bind_opt_int (tp_block_number p) in
  Ok tt.

Definition same_key (tx : string) (li : Z) (r : TradeRow) : bool :=
  bool_decide (t_tx_hash r = tx) && bool_decide (t_log_index r = li).

Definition new_trade (now : string) (p : TradeParams) (mid : Z)
    (tx : string) (li : Z) (id : Z) : TradeRow :=
  {| t_id := id; t_market_id := mid; t_tx_hash := tx; t_log_index := li;
     t_block_number := tp_block_number p;
     t_block_hash := tp_block_hash p;
     t_timestamp := tp_timestamp p;
     t_maker := tp_maker p; t_taker := tp_taker p;
     t_side := tp_side p; t_outcome := tp_outcome p;
     t_price := tp_price p; t_size := tp_size p;
     t_token_id := tp_token_id p;
     t_maker_asset_id := tp_maker_asset_id p;
     t_taker_asset_id := tp_taker_asset_id p;
     t_maker_amount_filled := tp_maker_amount_filled p;
     t_taker_amount_filled := tp_taker_amount_filled p;
     t_exchange_address := tp_exchange_address p;
     t_created_at := now |}.

(** One [INSERT OR IGNORE INTO trades ...]: a row that violates a
    NOT NULL constraint or UNIQUE(tx_hash, log_index) is skipped. The
    result is the table and the number of rows changed. *)
Definition insert_or_ignore (now : string) (rows : list TradeRow)
    (p : TradeParams) : list TradeRow * Z :=
  match tp_market_id p, tp_tx_hash p, tp_log_index p with
  | Some mid, Some tx, Some li =>
      if existsb (same_key tx li) rows then (rows, 0)
      else (rows ++ [new_trade now p mid tx li (next_id (map t_id rows))], 1)
  | _, _, _ => (rows, 0)
  end.

(** [executemany]: the statement once per parameter tuple, in order. *)
Fixpoint executemany (now : string) (rows : list TradeRow)
    (ps : list TradeParams) : res (list TradeRow * Z) :=
  match ps with
  | [] => Ok (rows, 0)
  | p :: r =>
      let* _ := bind_params p in
      let '(rows1, n1) := insert_or_ignore now rows p in
      let* (rows2, n2) := executemany now rows1 r in
      Ok (rows2, n1 + n2)
  end.

(** [insert_trades]. [now] is CURRENT_TIMESTAMP, the default of
    [created_at]. When binding fails nothing has been committed. *)
Definition insert_trades (now : string) (conn : Conn) (ts : list TradeDict)
  : res (Z * Conn) :=
  match ts with
  | [] => Ok (0, conn)
  | _ =>
      let before := total_changes conn in
      let* ps := all_params ts in
      let* (rows, n) := executemany now (trades conn) ps in
      let conn' :=
        {| events := events conn; markets := markets conn;
           trades := rows; sync_state := sync_state conn;
           total_changes := total_changes conn + n |} in
      Ok (total_changes conn' - before, conn')
  end.

(** ** Sync cursor *)

(** [update_sync_state]: [INSERT ... ON CONFLICT(key) DO UPDATE]. *)
Definition update_sync_state (now : string) (conn : Conn) (key : string)
    (last_block : Z) : res Conn :=
  let* b := bind_int last_block in
  Ok {| events := events conn; markets := markets conn;
        trades := trades conn;
        sync_state := <[key := (b, now)]> (sync_state conn);
        total_changes := total_changes conn + 1 |}.

(** [get_sync_state]. *)
Definition get_sync_state (conn : Conn) (key : string) : option Z :=
  fst <$> sync_state conn !! key.

(** ** Lookups *)

Definition fetch_event_by_slug (conn : Conn) (slug : string)
  : option EventRow :=
  find (fun r => bool_decide (e_slug r = slug)) (events conn).

Definition fetch_market_by_slug (conn : Conn) (slug : string)
  : option MarketRow :=
  find (fun r => bool_decide (m_slug r = slug)) (markets conn).

(** [WHERE yes_token_id = ? OR no_token_id = ?]. *)
Definition token_matches (tok : string) (r : MarketRow) : bool :=
  bool_decide (m_yes_token_id r = Some tok)
  || bool_decide (m_no_token_id r = Some tok).

(** [fetch_market_by_token_id]: [fetchone()] of the matching rows. The
    query has no ORDER BY; the rows are taken in table order. *)
Definition fetch_market_by_token_id (conn : Conn) (token_id : option string)
  : res (option MarketRow) :=
  let* normalized := normalize_token_id token_id in
  match normalized with
  | None => Ok None
  | Some tok => Ok (find (token_matches tok) (markets conn))
  end.

End Store.

(* ===================================================================== *)
(** * [src/indexer/trade_decoder.py]                                      *)
(* ===================================================================== *)

Module TradeDecoder.
Import Py.

(** [getcontext().prec = 40] on the default context. *)
Definition ctx : PyDecimal.Context :=
  {| PyDecimal.prec := 40; PyDecimal.Emax := 999999;
     PyDecimal.Emin := -999999 |}.

(** [USDC_SCALE = Decimal("1000000")]. *)
Definition USDC_SCALE : PyDecimal.Decimal :=
  {| PyDecimal.sign := false; PyDecimal.coeff := 1000000;
     PyDecimal.exp := 0 |}.

(** [Decimal("0")]. *)
Definition dec_zero : PyDecimal.Decimal :=
  {| PyDecimal.sign := false; PyDecimal.coeff := 0; PyDecimal.exp := 0 |}.

(** A value given to [_hex_to_int]. [IHex h] is an object with a
    [hex()] method returning [h]. *)
Inductive IntLike : Type :=
| IInt (n : Z)
| IBytes (b : list Byte.byte)
| IHex (h : string)
| IStr (s : string)
| INone.

(** A transaction or block hash as the provider hands it over: a
    [str], an object with a [hex()] method, or anything else, of which
    only [str(x)] is used. *)
Inductive HashLike : Type :=
| HStr (s : string)
| HHex (h : string)
| HOther (repr : string).

(** One raw log. [data] is [None] when the key is absent; [topics] is
    empty when the key is absent. *)
Record RawLog : Type := mkRawLog {
  topics : list string;
  data : option string;
  transactionHash : HashLike;
  blockHash : HashLike;
  logIndex : IntLike;
  blockNumber : IntLike;
  address : option string
}.

Definition _topic_to_address (topic_hex : string) : string :=
  let compact :=
    if startswith "0x" topic_hex then drop 2 topic_hex else topic_hex in
  "0x" +:+ last_chars 40 compact.

(** [int.from_bytes(value, byteorder="big")]. *)
Definition from_bytes_big (b : list Byte.byte) : Z :=
  fold_left (fun acc x => acc * 256 + Z.of_N (Byte.to_N x)) b 0.

Definition _hex_to_int (value : IntLike) : res Z :=
  match value with
  | IInt n => Ok n
  | IBytes b => Ok (from_bytes_big b)
  | IHex h => int_of_str 16 h
  | IStr s => if startswith "0x" s then int_of_str 16 s else int_of_str 10 s
  | INone => Raise AttributeError
  end.

(** [[data[i : i + 64] for i in range(0, len(data), 64)]] for [n]
    slices. *)
Fixpoint slices64 (n : nat) (s : string) : list string :=
  match n with
  | O => []
  | S n' => take 64 s :: slices64 n' (drop 64 s)
  end.

Fixpoint parse_words (l : list string) : res (list Z) :=
  match l with
  | [] => Ok []
  | w :: r =>
      let* v := int_of_str 16 w in
      let* vs := parse_words r in
      Ok (v :: vs)
  end.

Definition _chunk_data_words (data_hex : string) : res (list Z) :=
  let data := if startswith "0x" data_hex then drop 2 data_hex else data_hex in
  if negb (len data mod 64 =? 0)
  then Raise (ValueError "unexpected log data length")
  else parse_words (slices64 (String.length data / 64) data).

Definition hash_value (h : HashLike) : string :=
  match h with
  | HStr s => s
  | HHex x => x
  | HOther r => r
  end.

(** The dict [decode_order_filled_log] returns. *)
Record Decoded : Type := mkDecoded {
  order_hash : string;
  maker : string;
  taker : string;
  maker_asset_id : Z;
  taker_asset_id : Z;
  maker_amount_filled : Z;
  taker_amount_filled : Z;
  fee : Z;
  side : string;
  token_id : string;
  price : string;
  size : string;
  tx_hash : string;
  log_index : Z;
  block_number : Z;
  block_hash : string;
  exchange_address : option string
}.

(** [str(d.normalize())]. *)
Definition normalized_str (d : PyDecimal.Decimal) : res string :=
  let* n := PyDecimal.normalize ctx d in Ok (PyDecimal.to_str n).

Definition decode_order_filled_log (log : RawLog) : res Decoded :=
  match topics log with
  | _ :: topic1 :: topic2 :: _ =>
      let* words := _chunk_data_words (default "0x" (data log)) in
      match words with
      | order_hash_word :: maker_asset :: taker_asset
          :: maker_amount :: taker_amount :: fee_word :: _ =>
          let mk := _topic_to_address topic1 in
          let tk := _topic_to_address topic2 in
          let buy := (maker_asset =? 0) && negb (taker_asset =? 0) in
          let sd := if buy then "BUY" else "SELL" in
          let tok := if buy then taker_asset else maker_asset in
          let token_amount := if buy then taker_amount else maker_amount in
          let usdc_amount := if buy then maker_amount else taker_amount in
          let* sz :=
            if negb (token_amount =? 0)
            then PyDecimal.truediv ctx (PyDecimal.of_int token_amount) USDC_SCALE
            else Ok dec_zero in
          let* pr :=
            if negb (token_amount =? 0)
            then PyDecimal.truediv ctx (PyDecimal.of_int usdc_amount)
                                   (PyDecimal.of_int token_amount)
            else Ok dec_zero in
          let* token_text := str_ tok in
          let* price_s := normalized_str pr in
          let* size_s := normalized_str sz in
          let* li := _hex_to_int (logIndex log) in
          let* bn := _hex_to_int (blockNumber log) in
          Ok {| order_hash := "0x" +:+ format_064x order_hash_word;
                maker := mk;
                taker := tk;
                maker_asset_id := maker_asset;
                taker_asset_id := taker_asset;
                maker_amount_filled := maker_amount;
                taker_amount_filled := taker_amount;
                fee := fee_word;
                side := sd;
                token_id := token_text;
                price := price_s;
                size := size_s;
                tx_hash := hash_value (transactionHash log);
                log_index := li;
                block_number := bn;
                block_hash := hash_value (blockHash log);
                exchange_address := address log |}
      | _ => Raise (ValueError "OrderFilled data payload too short")
      end
  | _ => Raise (ValueError "OrderFilled requires at least 3 topics")
  end.

End TradeDecoder.

(* ===================================================================== *)
(** * [src/indexer/run.py]                                                *)
(* ===================================================================== *)

Module Indexer.
Import Py.
Import Store.
Import TradeDecoder.

(** ** The world outside the process

    The collaborators of a run that are not code of the indexer: the
    metadata service behind [GammaClient] with the payload normalizers
    of [src/gamma/client.py], the chain RPC behind [w3], the
    checksum-address helper, the calendar formatting of
    [datetime.isoformat] and the clock. An answer may depend on how
    many calls of that kind were made before. *)
Record Env : Type := mkEnv {
  (** [gamma.get_markets_for_event(slug)] followed by
      [normalize_event_payload] and, for each market,
      [normalize_market_payload] ([None] when it returns [None]); the
      markets' [event_id] is filled in by [discover_markets]. *)
  gamma_event_with_markets :
    nat -> string -> res (EventPayload * list (option MarketPayload));
  (** [w3.eth.get_logs] for an address list and a block range. *)
  eth_get_logs : list string -> Z -> Z -> res (list RawLog);
  (** [int(w3.eth.get_block(n)["timestamp"])]. *)
  eth_get_block_timestamp : Z -> res Z;
  (** [w3.eth.block_number], by the number of earlier reads. *)
  eth_block_number : nat -> res Z;
  (** [Web3.to_checksum_address]. *)
  to_checksum_address : string -> res string;
  (** [_to_iso_utc]. *)
  _to_iso_utc : Z -> string;
  (** [_utc_now_iso()] and CURRENT_TIMESTAMP, by the number of earlier
      reads. *)
  utc_now : nat -> string
}.

(** The fields of [Settings] a run reads. *)
Record Settings : Type := mkSettings {
  log_chunk_size : Z;
  db_path : string
}.

(** What a run did to its collaborators, oldest first. *)
Inductive Trigger : Type := AtStart | OnCacheMiss.

Inductive Effect : Type :=
| DiscoverCalled (why : Trigger) (slug : option string)
| TradesInserted (attempted : nat) (inserted : Z)
| CursorWritten (key : string) (block : Z).

(** The state a run threads: the connection, the counters that index
    the answers of the world, and the journal of effects. *)
Record World : Type := mkWorld {
  conn : Conn;
  gamma_calls : nat;
  clock_reads : nat;
  journal : list Effect
}.

(** A computation that may raise and that keeps its effects when it
    does: every store operation commits before it returns. *)
Definition M (A : Type) : Type := World -> res A * World.

Definition ret {A} (a : A) : M A := fun w => (Ok a, w).

Definition bindM {A B} (m : M A) (k : A -> M B) : M B :=
  fun w =>
    match m w with
    | (Ok a, w') => k a w'
    | (Raise e, w') => (Raise e, w')
    end.

Definition lift {A} (r : res A) : M A := fun w => (r, w).

Definition log_effect (e : Effect) : M unit :=
  fun w =>
    (Ok tt, {| conn := conn w; gamma_calls := gamma_calls w;
               clock_reads := clock_reads w;
               journal := journal w ++ [e] |}).

Definition read_clock (env : Env) : M string :=
  fun w =>
    (Ok (utc_now env (clock_reads w)),
     {| conn := conn w; gamma_calls := gamma_calls w;
        clock_reads := S (clock_reads w); journal := journal w |}).

Definition call_gamma (env : Env) (slug : string)
  : M (EventPayload * list (option MarketPayload)) :=
  fun w =>
    (gamma_event_with_markets env (gamma_calls w) slug,
     {| conn := conn w; gamma_calls := S (gamma_calls w);
        clock_reads := clock_reads w; journal := journal w |}).

(** Run a store operation on the connection; a raised operation leaves
    the connection as it was. *)
Definition on_conn {A} (op : Conn -> res (A * Conn)) : M A :=
  fun w =>
    match op (conn w) with
    | Ok (a, c) =>
        (Ok a, {| conn := c; gamma_calls := gamma_calls w;
                  clock_reads := clock_reads w; journal := journal w |})
    | Raise e => (Raise e, w)
    end.

Definition read_conn {A} (q : Conn -> res A) : M A :=
  fun w => (q (conn w), w).

Notation "'do' x '<~' m ';' k" := (bindM m (fun x => k))
  (at level 10, x pattern, m at level 100, k at level 200,
   only parsing).

(** Truth value of an optional [str]: [None] and [""] are false. *)
Definition truthy (s : option string) : bool :=
  match s with
  | None | Some EmptyString => false
  | Some _ => true
  end.

Definition _int_token (value : option string) : res (option string) :=
  normalize_token_id value.

(** The dict [discover_markets] returns. *)
Record Discovery : Type := mkDiscovery {
  d_event_slug : option string;
  d_event_id : option Z;
  d_markets : list Z
}.

Definition with_event_id (p : MarketPayload) (eid : Z) : MarketPayload :=
  {| mp_event_id := Some eid;
     mp_slug := mp_slug p;
     mp_title := mp_title p;
     mp_description := mp_description p;
     mp_condition_id := mp_condition_id p;
     mp_question_id := mp_question_id p;
     mp_oracle := mp_oracle p;
     mp_collateral_token := mp_collateral_token p;
     mp_yes_token_id := mp_yes_token_id p;
     mp_no_token_id := mp_no_token_id p;
     mp_enable_neg_risk := mp_enable_neg_risk p;
     mp_status := mp_status p;
     mp_created_at := mp_created_at p |}.

Definition with_slug (p : EventPayload) (slug : string) : EventPayload :=
  {| ep_event_id := ep_event_id p;
     ep_slug := Some slug;
     ep_title := ep_title p;
     ep_description := ep_description p;
     ep_neg_risk := ep_neg_risk p;
     ep_active := ep_active p;
     ep_closed := ep_closed p;
     ep_created_at := ep_created_at p |}.

(** The loop of [discover_markets] over the fetched markets. *)
Fixpoint upsert_markets (env : Env) (event_row_id : Z)
    (ms : list (option MarketPayload)) (ids : list Z) : M (list Z) :=
  match ms with
  | [] => ret ids
  | None :: r => upsert_markets env event_row_id r ids
  | Some p :: r =>
      do now <~ read_clock env;
      do market_row_id <~
        on_conn (fun c => upsert_market now c (with_event_id p event_row_id));
      upsert_markets env event_row_id r (ids ++ [market_row_id])
  end.

Definition discover_markets (env : Env) (event_slug : option string)
  : M Discovery :=
  match event_slug with
  | None | Some EmptyString =>
      ret {| d_event_slug := None; d_event_id := None; d_markets := [] |}
  | Some slug =>
      do em <~ call_gamma env slug;
      let '(ev, ms) := em in
      let event_payload :=
        if truthy (ep_slug ev) then ev else with_slug ev slug in
      do now <~ read_clock env;
      do event_row_id <~ on_conn (fun c => upsert_event now c event_payload);
      do discovered <~ upsert_markets env event_row_id ms [];
      ret {| d_event_slug := ep_slug event_payload;
             d_event_id := Some event_row_id;
             d_markets := discovered |}
  end.

Definition _ensure_market_cached (env : Env) (token_id : option string)
    (event_slug : option string) (market_discovery_attempted : bool)
  : M (option MarketRow * bool) :=
  do market <~ read_conn (fun c => fetch_market_by_token_id c token_id);
  match market with
  | Some _ => ret (market, market_discovery_attempted)
  | None =>
      if truthy event_slug && negb market_discovery_attempted then
        do _ <~ log_effect (DiscoverCalled OnCacheMiss event_slug);
        do _ <~ discover_markets env event_slug;
        do market' <~ read_conn (fun c => fetch_market_by_token_id c token_id);
        ret (market', true)
      else ret (market, market_discovery_attempted)
  end.

(** [_get_block_timestamp_iso] with the run's cache. *)
Definition _get_block_timestamp_iso (env : Env) (cache : gmap Z string)
    (block_number : Z) : res (string * gmap Z string) :=
  match cache !! block_number with
  | Some ts => Ok (ts, cache)
  | None =>
      let* t := eth_get_block_timestamp env block_number in
      let ts := _to_iso_utc env t in
      Ok (ts, <[block_number := ts]> cache)
  end.

(** The [while cursor <= to_block] loop of [_collect_logs]; [n] bounds
    the number of blocks left. *)
Fixpoint collect_from (env : Env) (addresses : list string)
    (to_block chunk_size : Z) (n : nat) (cursor : Z)
    (all_logs : list RawLog) : res (list RawLog) :=
  match n with
  | O => Ok all_logs
  | S n' =>
      if cursor <=? to_block then
        let end_ := Z.min (cursor + chunk_size - 1) to_block in
        let* logs := eth_get_logs env addresses cursor end_ in
        collect_from env addresses to_block chunk_size n' (end_ + 1)
                     (all_logs ++ logs)
      else Ok all_logs
  end.

Definition _collect_logs (env : Env) (addresses : list string)
    (from_block to_block chunk_size : Z) : res (list RawLog) :=
  collect_from env addresses to_block chunk_size
               (Z.to_nat (to_block - from_block + 1)) from_block [].

(** The decoded dict with the three keys the run adds. *)
Definition trade_dict (d : Decoded) (market_id : Z) (outcome timestamp : string)
  : TradeDict :=
  {| td_market_id := Some market_id;
     td_tx_hash := Some (tx_hash d);
     td_log_index := Some (log_index d);
     td_block_number := Some (block_number d);
     td_block_hash := Some (block_hash d);
     td_timestamp := Some timestamp;
     td_maker := Some (maker d);
     td_taker := Some (taker d);
     td_side := Some (side d);
     td_outcome := Some outcome;
     td_price := Some (price d);
     td_size := Some (size d);
     td_token_id := Some (token_id d);
     td_maker_asset_id := Some (maker_asset_id d);
     td_taker_asset_id := Some (taker_asset_id d);
     td_maker_amount_filled := Some (maker_amount_filled d);
     td_taker_amount_filled := Some (taker_amount_filled d);
     td_exchange_address := exchange_address d |}.

(** The state of the [for raw_log in logs] loop. *)
Record Loop : Type := mkLoop {
  timestamp_cache : gmap Z string;
  market_discovery_attempted : bool;
  to_insert : list TradeDict
}.

(** One iteration of the loop. *)
Definition process_log (env : Env) (event_slug : option string)
    (st : Loop) (raw_log : RawLog) : M Loop :=
  do decoded <~ lift (decode_order_filled_log raw_log);
  do token_id <~ lift (_int_token (Some (token_id decoded)));
  match token_id with
  | None => ret st
  | Some tok =>
      do ma <~ _ensure_market_cached env (Some tok) event_slug
                 (market_discovery_attempted st);
      let '(market, attempted) := ma in
      match market with
      | None =>
          ret {| timestamp_cache := timestamp_cache st;
                 market_discovery_attempted := attempted;
                 to_insert := to_insert st |}
      | Some m =>
          do yes <~ lift (_int_token (m_yes_token_id m));
          do outcome <~
            (if bool_decide (Some tok = yes) then ret "YES"
             else
               do no <~ lift (_int_token (m_no_token_id m));
               ret (if bool_decide (Some tok = no) then "NO" else "UNKNOWN"));
          do tc <~ lift (_get_block_timestamp_iso env (timestamp_cache st)
                           (block_number decoded));
          let '(ts, cache) := tc in
          ret {| timestamp_cache := cache;
                 market_discovery_attempted := attempted;
                 to_insert :=
                   to_insert st ++ [trade_dict decoded (m_id m) outcome ts] |}
      end
  end.

Fixpoint process_logs (env : Env) (event_slug : option string)
    (st : Loop) (logs : list RawLog) : M Loop :=
  match logs with
  | [] => ret st
  | raw_log :: r =>
      do st' <~ process_log env event_slug st raw_log;
      process_logs env event_slug st' r
  end.

(** One entry of [sample_trades]. *)
Record Sample : Type := mkSample {
  s_tx_hash : option string;
  s_log_index : option Z;
  s_block_number : option Z;
  s_timestamp : option string;
  s_side : option string;
  s_outcome : option string;
  s_price : option string;
  s_size : option string;
  s_token_id : option string
}.

Definition sample_of (t : TradeDict) : Sample :=
  {| s_tx_hash := td_tx_hash t;
     s_log_index := td_log_index t;
     s_block_number := td_block_number t;
     s_timestamp := td_timestamp t;
     s_side := td_side t;
     s_outcome := td_outcome t;
     s_price := td_price t;
     s_size := td_size t;
     s_token_id := td_token_id t |}.

(** The dict [run_indexer] returns. *)
Record Summary : Type := mkSummary {
  r_from_block : Z;
  r_to_block : Z;
  r_inserted_trades : Z;
  r_market_slug : option string;
  r_market_id : option Z;
  r_sample_trades : list Sample;
  r_db_path : string;
  r_market_discovery : Discovery
}.

(** The enabled exchange addresses, checksummed. *)
Definition enabled_addresses (env : Env)
    (exchange_address neg_risk_exchange : string)
    (include_exchange include_neg_risk : bool) : res (list string) :=
  let* a1 :=
    if include_exchange && truthy (Some exchange_address)
    then let* a := to_checksum_address env exchange_address in Ok [a]
    else Ok [] in
  let* a2 :=
    if include_neg_risk && truthy (Some neg_risk_exchange)
    then let* a := to_checksum_address env neg_risk_exchange in Ok [a]
    else Ok [] in
  Ok (a1 ++ a2).

Definition run_indexer (env : Env) (settings : Settings)
    (from_block to_block : Z)
    (exchange_address neg_risk_exchange : string)
    (include_exchange include_neg_risk : bool)
    (event_slug : option string) : M Summary :=
  do _ <~ log_effect (DiscoverCalled AtStart event_slug);
  do discovery_result <~ discover_markets env event_slug;
  do addresses <~
    lift (enabled_addresses env exchange_address neg_risk_exchange
            include_exchange include_neg_risk);
  match addresses with
  | [] => lift (Raise (ValueError "At least one exchange address must be enabled"))
  | _ =>
      do logs <~
        lift (_collect_logs env addresses from_block to_block
                (Z.max 1 (log_chunk_size settings)));
      do st <~
        process_logs env event_slug
          {| timestamp_cache := ∅; market_discovery_attempted := false;
             to_insert := [] |} logs;
      do now <~ read_clock env;
      do inserted <~ on_conn (fun c => insert_trades now c (to_insert st));
      do _ <~ log_effect (TradesInserted (length (to_insert st)) inserted);
      do now' <~ read_clock env;
      do _ <~
        on_conn (fun c =>
          let* c' := update_sync_state now' c "trade_sync" to_block in
          Ok (tt, c'));
      do _ <~ log_effect (CursorWritten "trade_sync" to_block);
      let sample_trades := map sample_of (firstn 5 (to_insert st)) in
      let market_id :=
        match to_insert st with
        | t :: _ =>
            match td_market_id t with
            | Some 0 => None
            | other => other
            end
        | [] => None
        end in
      ret {| r_from_block := from_block;
             r_to_block := to_block;
             r_inserted_trades := inserted;
             r_market_slug := event_slug;
             r_market_id := market_id;
             r_sample_trades := sample_trades;
             r_db_path := db_path settings;
             r_market_discovery := discovery_result |}
  end.

(** [determine_block_range]. [reads] is the number of reads of
    [w3.eth.block_number] before the call. *)
Definition determine_block_range (env : Env) (c : Conn) (reads : nat)
    (from_block to_block tx_block : option Z) : res (Z * Z) :=
  let from1 :=
    match tx_block, from_block with
    | Some tx, None => Some tx
    | _, _ => from_block
    end in
  let to1 :=
    match tx_block, to_block with
    | Some tx, None => Some tx
    | _, _ => to_block
    end in
  let to2 :=
    match from1, to1 with
    | Some f, None => Some f
    | _, _ => to1
    end in
  let* fr :=
    match from1 with
    | Some f => Ok (f, reads)
    | None =>
        match get_sync_state c "trade_sync" with
        | Some last => Ok (last + 1, reads)
        | None =>
            let* head := eth_block_number env reads in
            Ok (Z.max 0 (head - 10), S reads)
        end
    end in
  let '(from3, reads') := fr in
  let* to3 :=
    match to2 with
    | Some t => Ok t
    | None => eth_block_number env reads'
    end in
  if from3 >? to3
  then Raise (ValueError "from_block must be <= to_block")
  else Ok (from3, to3).

End Indexer.

(* ===================================================================== *)
(** * Concrete collaborators used by the examples                         *)
(* ===================================================================== *)

Module Fixtures.
Import Py Store TradeDecoder Indexer.

(** A chain whose head is at block [head] and that has the logs
    [logs] in block 100; a metadata service that knows one event with
    the markets [ms]. *)
Definition env_with (head : Z) (logs : list RawLog)
    (ms : list (option MarketPayload)) : Env :=
  {| gamma_event_with_markets := fun _ slug =>
       Ok ({| ep_event_id := Some "e1"; ep_slug := Some slug;
              ep_title := None; ep_description := None;
              ep_neg_risk := false; ep_active := true; ep_closed := false;
              ep_created_at := None |}, ms);
     eth_get_logs := fun _ lo hi =>
       Ok (if (lo <=? 100) && (100 <=? hi) then logs else []);
     eth_get_block_timestamp := fun n => Ok (1700000000 + n);
     eth_block_number := fun _ => Ok head;
     to_checksum_address := fun a => Ok a;
     _to_iso_utc := fun t => str_of_int t;
     utc_now := fun k => str_of_int (Z.of_nat k) |}.

Definition settings : Settings :=
  {| log_chunk_size := 4000; db_path := "./data/indexer.db" |}.

Definition world0 : World :=
  {| conn := empty_conn; gamma_calls := 0; clock_reads := 0; journal := [] |}.

(** A data payload of six words. *)
Definition payload (w0 w1 w2 w3 w4 w5 : Z) : string :=
  "0x" +:+ format_064x w0 +:+ format_064x w1 +:+ format_064x w2
       +:+ format_064x w3 +:+ format_064x w4 +:+ format_064x w5.

Definition topics3 : list string :=
  [ "0xd0a08e8c493f9c94f29311604c9de1b4e8c8d4c06bd0c789af57f2d65bfec0f6";
    "0x000000000000000000000000aaaaaaaaaaaaaaaaaaaaaaaaaaaaaaaaaaaaaaaa";
    "0x000000000000000000000000bbbbbbbbbbbbbbbbbbbbbbbbbbbbbbbbbbbbbbbb" ].

Definition log_with (d : string) (idx : Z) : RawLog :=
  {| topics := topics3; data := Some d;
     transactionHash := HStr "0xabc"; blockHash := HStr "0xdef";
     logIndex := IInt idx; blockNumber := IInt 100;
     address := Some "0xexchange" |}.

(** The fill of the end-to-end scenario: collateral for token 555. *)
Definition buy_log : RawLog :=
  log_with (payload 7 0 555 1000000 2000000 0) 3.

(** The opposite fill: token 555 for collateral, at a price of one
    third. *)
Definition sell_log : RawLog :=
  log_with (payload 9 555 0 3000000 1000000 0) 6.

(** A fill of token 777, which no market lists. *)
Definition unknown_log : RawLog :=
  log_with (payload 8 0 777 1000000 4000000 0) 5.

Definition loop0 : Loop :=
  {| timestamp_cache := ∅; market_discovery_attempted := false;
     to_insert := [] |}.

(** A log whose data is one character short of six words. *)
Definition misaligned_log : RawLog :=
  log_with (take 385 (payload 7 0 555 1000000 2000000 0)) 4.

Definition market_555 : MarketPayload :=
  {| mp_event_id := None; mp_slug := Some "will-it-rain";
     mp_title := None; mp_description := None;
     mp_condition_id := Some "0xc0"; mp_question_id := None;
     mp_oracle := None; mp_collateral_token := None;
     mp_yes_token_id := Some "555"; mp_no_token_id := Some "0x22c";
     mp_enable_neg_risk := false; mp_status := None;
     mp_created_at := None |}.

(** A second market that lists the same YES token. *)
Definition market_555_again : MarketPayload :=
  {| mp_event_id := None; mp_slug := Some "will-it-pour";
     mp_title := None; mp_description := None;
     mp_condition_id := Some "0xc1"; mp_question_id := None;
     mp_oracle := None; mp_collateral_token := None;
     mp_yes_token_id := Some "0x22b"; mp_no_token_id := None;
     mp_enable_neg_risk := false; mp_status := None;
     mp_created_at := None |}.

Definition event_rain : EventPayload :=
  {| ep_event_id := Some "e1"; ep_slug := Some "rain";
     ep_title := Some "Rain"; ep_description := None;
     ep_neg_risk := false; ep_active := true; ep_closed := false;
     ep_created_at := Some "2026-01-01" |}.

Definition trade_a : TradeDict :=
  {| td_market_id := Some 1; td_tx_hash := Some "0xabc";
     td_log_index := Some 3; td_block_number := Some 100;
     td_block_hash := Some "0xdef"; td_timestamp := None;
     td_maker := None; td_taker := None;
     td_side := Some "BUY"; td_outcome := Some "YES";
     td_price := Some "0.5"; td_size := Some "2";
     td_token_id := Some "555";
     td_maker_asset_id := Some 0; td_taker_asset_id := Some 555;
     td_maker_amount_filled := Some 1000000;
     td_taker_amount_filled := Some 2000000;
     td_exchange_address := None |}.

(** The connection after the operation [op] on [c]; [c] when it
    raises. *)
Definition after {A} (op : res (A * Conn)) (c : Conn) : Conn :=
  match op with
  | Ok (_, c') => c'
  | Raise _ => c
  end.

Definition conn_one_market : Conn :=
  after (upsert_market "t0" empty_conn market_555) empty_conn.

Definition conn_two_markets : Conn :=
  after (upsert_market "t1" conn_one_market market_555_again)
        conn_one_market.

Definition conn_one_event : Conn :=
  after (upsert_event "t0" empty_conn event_rain) empty_conn.

End Fixtures.


(* ===================================================================== *)
(** * [src/gamma/client.py]: the HTTP client                              *)
(* ===================================================================== *)

Module Gamma.
Import Py.

(** A decoded JSON body. Numbers are kept as their literal. *)
#[warnings="-register-all"] Inductive Json : Type :=
| JNull
| JBool (b : bool)
| JNum (literal : string)
| JStr (s : string)
| JList (items : list Json)
| JDict (fields : list (string * Json)).

(** [d.get(key)] on the fields of a dict. *)
Fixpoint get (fields : list (string * Json)) (key : string) : option Json :=
  match fields with
  | [] => None
  | (k, v) :: r => if bool_decide (k = key) then Some v else get r key
  end.

Definition is_dict (j : Json) : bool :=
  match j with JDict _ => true | _ => false end.

(** A value of the [params] dict of a request. *)
Inductive Param : Type :=
| PStr (s : string)
| PInt (n : Z).

Definition Params : Type := option (list (string * Param)).

(** Exceptions: the ones the [requests] library, the decoding of a
    body or [time.sleep] raise, which the client only passes on, and
    the ones the client raises or provokes itself. *)
Inductive error : Type :=
| Library (what : string)
| RuntimeError (msg : string)
| ValueError (msg : string)
| AttributeError (msg : string).

Inductive outcome (A : Type) : Type :=
| Returned (a : A)
| Raised (e : error).
Arguments Returned {A} a.
Arguments Raised {A} e.

(** The network and the clock. [http k url params] is what
    [requests.get(url, params=params, timeout=...)], then
    [raise_for_status()], then [json()] give for the request made
    after [k] earlier ones. [sleep a] is what evaluating
    [time.sleep(retry_base_delay * (2 ** a))] does: [None] when it
    returns, the exception otherwise. *)
Record Net : Type := mkNet {
  http : nat -> string -> Params -> outcome Json;
  sleep : Z -> option error
}.

(** What the client did, oldest first. *)
Inductive Action : Type :=
| Requested (url : string) (params : Params)
| Slept (attempt : Z).

Record State : Type := mkState {
  requests : nat;
  actions : list Action
}.

(** The fields of [GammaClient] the requests read. *)
Record GammaClient : Type := mkGammaClient {
  base : string;
  max_retries : Z
}.

(** [GammaClient.__init__], from [settings.gamma_api_base] and
    [settings.max_retries]. *)
Definition new_client (gamma_api_base : string) (retries : Z) : GammaClient :=
  {| base := rstrip (Ascii.eqb "/") gamma_api_base; max_retries := retries |}.

(** [range(n)]. *)
Definition range (n : Z) : list Z := map Z.of_nat (seq 0 (Z.to_nat n)).

(** The statements of [_get_json] after the loop. *)
Definition after_loop (url : string) (last_err : option error)
  : outcome Json :=
  match last_err with
  | Some e => Raised e
  | None => Raised (RuntimeError ("Gamma request failed for " +:+ url))
  end.

(** The loop of [_get_json] over the attempts [todo]. *)
Fixpoint attempts (net : Net) (retries : Z) (url : string) (params : Params)
    (todo : list Z) (last_err : option error) (st : State)
  : outcome Json * State :=
  match todo with
  | [] => (after_loop url last_err, st)
  | attempt :: rest =>
      let st1 := {| requests := S (requests st);
                    actions := actions st ++ [Requested url params] |} in
      match http net (requests st) url params with
      | Returned v => (Returned v, st1)
      | Raised exc =>
          if attempt + 1 =? retries then (after_loop url (Some exc), st1)
          else
            let st2 := {| requests := requests st1;
                          actions := actions st1 ++ [Slept attempt] |} in
            match sleep net attempt with
            | Some e => (Raised e, st2)
            | None => attempts net retries url params rest (Some exc) st2
            end
      end
  end.

Definition _get_json (net : Net) (self : GammaClient) (path : string)
    (params : Params) (st : State) : outcome Json * State :=
  attempts net (max_retries self) (base self +:+ path) params
           (range (max_retries self)) None st.

(** The first item of a non-empty list. *)
Definition first_item (j : option Json) : option Json :=
  match j with
  | Some (JList (x :: _)) => Some x
  | _ => None
  end.

Definition get_event_with_markets (net : Net) (self : GammaClient)
    (slug : string) (st : State) : outcome Json * State :=
  let '(preferred, st1) := _get_json net self ("/events/" +:+ slug) None st in
  match preferred with
  | Returned (JDict d) => (Returned (JDict d), st1)
  | _ =>
      let '(fallback, st2) :=
        _get_json net self "/events"
          (Some [("slug", PStr slug); ("limit", PInt 1)]) st1 in
      match fallback with
      | Raised e => (Raised e, st2)
      | Returned data =>
          let not_found :=
            Raised (ValueError ("Gamma event not found for slug=" +:+ slug)) in
          (match data with
           | JList (x :: _) => Returned x
           | JDict d =>
               match first_item (get d "data") with
               | Some x => Returned x
               | None =>
                   match first_item (get d "events") with
                   | Some x => Returned x
                   | None => not_found
                   end
               end
           | _ => not_found
           end, st2)
      end
  end.

(** [isinstance(j, list)], with the items. *)
Definition as_list (j : option Json) : option (list Json) :=
  match j with
  | Some (JList l) => Some l
  | _ => None
  end.

Definition get_markets_for_event (net : Net) (self : GammaClient)
    (event_slug : string) (st : State)
  : outcome (Json * list Json) * State :=
  let '(ev, st1) := get_event_with_markets net self event_slug st in
  match ev with
  | Raised e => (Raised e, st1)
  | Returned event_obj =>
      match event_obj with
      | JDict d =>
          match as_list (get d "markets") with
          | Some (m :: ms) =>
              (Returned (event_obj, List.filter is_dict (m :: ms)),
               st1)
          | _ =>
              let '(payload, st2) :=
                _get_json net self "/markets"
                  (Some [("eventSlug", PStr event_slug); ("limit", PInt 500)])
                  st1 in
              match payload with
              | Raised e => (Raised e, st2)
              | Returned markets_payload =>
                  let markets :=
                    match markets_payload with
                    | JList l => l
                    | JDict p =>
                        match as_list (get p "data") with
                        | Some l => l
                        | None =>
                            match as_list (get p "markets") with
                            | Some l => l
                            | None => []
                            end
                        end
                    | _ => []
                    end in
                  (Returned (event_obj, List.filter is_dict markets),
                   st2)
              end
          end
      | _ => (Raised (AttributeError "object has no attribute 'get'"), st1)
      end
  end.

End Gamma.

(* ===================================================================== *)
(** * [src/db/store.py]: the reading queries                              *)
(* ===================================================================== *)

Module Queries.
Import Py.
Import Store.

(** ** [fetch_markets_for_event] *)

(** [m.event_id = e.id AND e.slug = ?]; a NULL [event_id] joins no
    event. *)
Definition joins (event_slug : string) (m : MarketRow) (e : EventRow)
  : bool :=
  bool_decide (m_event_id m = Some (e_id e))
  && bool_decide (e_slug e = event_slug).

(** [ORDER BY m.id ASC]. *)
Definition by_id (a b : MarketRow) : Prop := m_id a <= m_id b.

#[global] Instance by_id_dec : RelDecision by_id :=
  fun a b => decide (m_id a <= m_id b).

(** [SELECT m.* FROM markets m JOIN events e ON m.event_id = e.id
    WHERE e.slug = ? ORDER BY m.id ASC]: one row for every pair of a
    market and an event that join, sorted. Rows of equal id, which a
    table with [id] as primary key does not have, come in the order of
    the sort. *)
Definition fetch_markets_for_event (conn : Conn) (event_slug : string)
  : list MarketRow :=
  merge_sort by_id
    (flat_map (fun m => map (fun _ => m)
                          (List.filter (joins event_slug m) (events conn)))
              (markets conn)).

(** ** [_build_trade_where] *)

(** The two clauses the function can add. *)
Inductive Clause : Type :=
| BlockGe    (* block_number >= ? *)
| BlockLe.   (* block_number <= ? *)

Definition clause_text (c : Clause) : string :=
  match c with
  | BlockGe => "block_number >= ?"
  | BlockLe => "block_number <= ?"
  end.

(** [sep.join(parts)]. *)
Fixpoint join (sep : string) (parts : list string) : string :=
  match parts with
  | [] => ""
  | [p] => p
  | p :: r => p +:+ sep +:+ join sep r
  end.

(** The lists [clauses] and [params] the function builds. *)
Definition trade_clauses (from_block to_block : option Z)
  : list Clause * list Z :=
  let '(clauses, params) :=
    match from_block with
    | Some f => ([BlockGe], [f])
    | None => ([], [])
    end in
  match to_block with
  | Some t => (clauses ++ [BlockLe], params ++ [t])
  | None => (clauses, params)
  end.

(** [_build_trade_where]: the text to splice into the query and the
    parameters. *)
Definition _build_trade_where (from_block to_block : option Z)
  : string * list Z :=
  let '(clauses, params) := trade_clauses from_block to_block in
  match clauses with
  | [] => ("", params)
  | _ => (" AND " +:+ join " AND " (map clause_text clauses), params)
  end.

(** What a clause with its parameter says of a row; a NULL
    [block_number] satisfies neither. *)
Definition clause_holds (r : TradeRow) (c : Clause) (p : Z) : bool :=
  match t_block_number r with
  | None => false
  | Some b =>
      match c with
      | BlockGe => p <=? b
      | BlockLe => b <=? p
      end
  end.

Fixpoint clauses_hold (r : TradeRow) (clauses : list Clause)
    (params : list Z) : bool :=
  match clauses, params with
  | c :: cs, p :: ps => clause_holds r c p && clauses_hold r cs ps
  | _, _ => true
  end.

(** ** [fetch_trades_for_market], [fetch_trades_for_token] *)

(** [ORDER BY block_number DESC, log_index DESC]: [a] does not come
    after [b]. NULL sorts below every number. *)
Definition newer_or_same (a b : TradeRow) : bool :=
  match t_block_number a, t_block_number b with
  | Some x, Some y =>
      (y <? x) || ((x =? y) && (t_log_index b <=? t_log_index a))
  | Some _, None => true
  | None, Some _ => false
  | None, None => t_log_index b <=? t_log_index a
  end.

Definition newest_first (a b : TradeRow) : Prop := newer_or_same a b = true.

#[global] Instance newest_first_dec : RelDecision newest_first :=
  fun a b => decide (newer_or_same a b = true).

(** [LIMIT ? OFFSET ?]: a negative limit is no limit, a negative
    offset is 0. *)
Definition limit_offset {A} (limit offset : Z) (rows : list A) : list A :=
  let rest := skipn (Z.to_nat offset) rows in
  if limit <? 0 then rest else firstn (Z.to_nat limit) rest.

(** Binding the integer parameters of a statement. *)
Fixpoint bind_ints (ns : list Z) : res unit :=
  match ns with
  | [] => Ok tt
  | n :: r => let* _ := bind_int n in bind_ints r
  end.

(** [SELECT * FROM trades WHERE market_id = ? {where_extra} ORDER BY
    block_number DESC, log_index DESC LIMIT ? OFFSET ?]. Rows equal in
    both sort keys come in the order of the sort. *)
Definition fetch_trades_for_market (conn : Conn) (market_id limit offset : Z)
    (from_block to_block : option Z) : res (list TradeRow) :=
  let '(clauses, params) := trade_clauses from_block to_block in
  let* _ := bind_ints (market_id :: params ++ [limit; offset]) in
  let rows :=
    List.filter (fun r => (t_market_id r =? market_id)
                          && clauses_hold r clauses params)
                (trades conn) in
  Ok (limit_offset limit offset (merge_sort newest_first rows)).

(** [WHERE token_id = ? ...] with the normalized token id; a NULL
    parameter equals no value. *)
Definition fetch_trades_for_token (conn : Conn) (token_id : option string)
    (limit offset : Z) (from_block to_block : option Z)
  : res (list TradeRow) :=
  let* normalized := normalize_token_id token_id in
  let '(clauses, params) := trade_clauses from_block to_block in
  let* _ := bind_ints (params ++ [limit; offset]) in
  let rows :=
    List.filter (fun r => match normalized with
                          | Some tok => bool_decide (t_token_id r = Some tok)
                          | None => false
                          end
                          && clauses_hold r clauses params)
                (trades conn) in
  Ok (limit_offset limit offset (merge_sort newest_first rows)).

End Queries.

(* ===================================================================== *)
(** * The specification's own words                                        *)
(* ===================================================================== *)

Module Spec.
Import Py Store TradeDecoder Indexer.

Definition first_set (a b : option Z) : option Z :=
  match a with
  | Some _ => a
  | None => b
  end.

(** The Block Range Resolver as section 4.6 words it, with the default
    start kept at or above block 0. *)
Definition resolveRange
    (explicitFrom explicitTo referenceTxBlock persistedCursor : option Z)
    (chainHead : Z) : res (Z * Z) :=
  let from_ := first_set explicitFrom referenceTxBlock in
  let to_ := first_set explicitTo referenceTxBlock in
  let to_ := first_set to_ from_ in
  let from_ :=
    match from_, persistedCursor with
    | Some f, _ => f
    | None, Some n => n + 1
    | None, None => Z.max 0 (chainHead - 10)
    end in
  let to_ := default chainHead to_ in
  if from_ >? to_
  then Raise (ValueError "from_block must be <= to_block")
  else Ok (from_, to_).


(** The de-duplication key of a stored trade. *)
Definition trade_key (r : TradeRow) : string * Z :=
  (t_tx_hash r, t_log_index r).

(** A parameter tuple that [INSERT OR IGNORE] skips on [rows]: a NULL
    in a NOT NULL column, or a key that is already stored. *)
Definition ignored_on (rows : list TradeRow) (p : TradeParams) : bool :=
  match tp_market_id p, tp_tx_hash p, tp_log_index p with
  | Some _, Some tx, Some li => existsb (same_key tx li) rows
  | _, _, _ => true
  end.

(** The stores a sequence of committed operations can produce from the
    empty schema. *)
Inductive reachable : Conn -> Prop :=
| reach_empty : reachable empty_conn
| reach_upsert_event now c p id c' :
    reachable c -> upsert_event now c p = Ok (id, c') -> reachable c'
| reach_upsert_market now c p id c' :
    reachable c -> upsert_market now c p = Ok (id, c') -> reachable c'
| reach_insert_trades now c ts n c' :
    reachable c -> insert_trades now c ts = Ok (n, c') -> reachable c'
| reach_update_sync_state now c key b c' :
    reachable c -> update_sync_state now c key b = Ok c' -> reachable c'.

(** The row [r'] is the row [r] after the update path of
    [upsert_event]: same identity, key and creation time, the content
    of the payload, and a fresh [updated_at]. *)
Definition event_updated (now : string) (p : EventPayload)
    (r r' : EventRow) : Prop :=
  e_id r' = e_id r
  /\ e_slug r' = e_slug r
  /\ e_created_at r' = e_created_at r
  /\ e_updated_at r' = Some now
  /\ e_event_id r' = ep_event_id p
  /\ e_title r' = ep_title p
  /\ e_description r' = ep_description p
  /\ e_neg_risk r' = int_of_bool (ep_neg_risk p)
  /\ e_active r' = int_of_bool (ep_active p)
  /\ e_closed r' = int_of_bool (ep_closed p).

(** The same for [upsert_market]; [yes] and [no] are the normalized
    token ids of the payload. *)
Definition market_updated (now : string) (p : MarketPayload)
    (yes no : option string) (r r' : MarketRow) : Prop :=
  m_id r' = m_id r
  /\ m_slug r' = m_slug r
  /\ m_created_at r' = m_created_at r
  /\ m_updated_at r' = Some now
  /\ m_event_id r' = mp_event_id p
  /\ m_title r' = mp_title p
  /\ m_description r' = mp_description p
  /\ m_condition_id r' = mp_condition_id p
  /\ m_question_id r' = mp_question_id p
  /\ m_oracle r' = mp_oracle p
  /\ m_collateral_token r' = mp_collateral_token p
  /\ m_yes_token_id r' = yes
  /\ m_no_token_id r' = no
  /\ m_enable_neg_risk r' = int_of_bool (mp_enable_neg_risk p)
  /\ m_status r' = status_of p.

(** ** Reading the journal of a run *)

Definition is_miss_discovery (e : Effect) : bool :=
  match e with
  | DiscoverCalled OnCacheMiss _ => true
  | _ => false
  end.

Definition is_cursor_write (e : Effect) : bool :=
  match e with
  | CursorWritten _ _ => true
  | _ => false
  end.

Definition is_trades_insert (e : Effect) : bool :=
  match e with
  | TradesInserted _ _ => true
  | _ => false
  end.

(** The number of journal entries of one kind. *)
Definition count (p : Effect -> bool) (j : list Effect) : nat :=
  length (List.filter p j).

(** A raw log the decoder's contract excludes: fewer than three
    topics, or a data payload (after an optional [0x]) whose length is
    not a multiple of 64 hex characters, that is of 32 bytes, or that
    has fewer than six words. *)
Definition malformed (log : RawLog) : bool :=
  let d := default "0x" (data log) in
  let payload := if startswith "0x" d then drop 2 d else d in
  (length (topics log) <? 3)%nat
  || negb (len payload mod 64 =? 0)
  || (len payload / 64 <? 6).

(** ** Numerals *)

(** The value of a list of digits, least significant first. *)
Fixpoint le_value (base : Z) (l : list Z) : Z :=
  match l with
  | [] => 0
  | d :: r => d + base * le_value base r
  end.

(** The text of a list of digits, least significant first, put in front
    of [s]. [numeral base n] is [be_string] of the digits of [n]. *)
Definition be_string (l : list Z) (s : string) : string :=
  fold_left (fun acc d => String (digit_char d) acc) l s.

(** The last character of [String c s]. *)
Fixpoint last_char (c : ascii) (s : string) : ascii :=
  match s with
  | EmptyString => c
  | String c' r => last_char c' r
  end.

(** A character [normalize_token_id] trims. *)
Definition trimmed_char (c : ascii) : bool :=
  isspace c || Ascii.eqb dquote c || Ascii.eqb squote c.

(** The text neither begins nor ends with white space or a quote. *)
Definition edge_clean (s : string) : bool :=
  match s with
  | EmptyString => true
  | String c r => negb (trimmed_char c) && negb (trimmed_char (last_char c r))
  end.

(** ** The value of a decimal *)

(** [coeff * 10^exp] as the fraction [dnum / dden]. *)
Definition dnum (d : PyDecimal.Decimal) : Z :=
  PyDecimal.coeff d * 10 ^ Z.max (PyDecimal.exp d) 0.

Definition dden (d : PyDecimal.Decimal) : Z :=
  10 ^ Z.max (- PyDecimal.exp d) 0.

(** One unit in the last place of [d], over [dden d]. *)
Definition dulp (d : PyDecimal.Decimal) : Z :=
  10 ^ Z.max (PyDecimal.exp d) 0.

(** [d] is the fraction [a / b] exactly. *)
Definition is_quotient (a b : Z) (d : PyDecimal.Decimal) : Prop :=
  dnum d * b = a * dden d.

(** [a / b] can be written with at most [p] significant digits. *)
Definition representable (p a b : Z) : Prop :=
  exists c e, 0 <= c < 10 ^ p
              /\ is_quotient a b {| PyDecimal.sign := false;
                                    PyDecimal.coeff := c;
                                    PyDecimal.exp := e |}.

(** [d] is [a / b], for [0 <= a] and [0 < b], rounded to [p]
    significant digits: a non-negative decimal of at most [p] digits
    that is never further from [a / b] than half a unit in its last
    place, that has all [p] digits unless it is [a / b] itself, and
    that is [a / b] itself whenever that can be written with [p]
    digits. *)
Definition rounded_quotient (p a b : Z) (d : PyDecimal.Decimal) : Prop :=
  PyDecimal.sign d = false
  /\ 0 <= PyDecimal.coeff d < 10 ^ p
  /\ 2 * Z.abs (dnum d * b - a * dden d) <= dulp d * b
  /\ (is_quotient a b d \/ 10 ^ (p - 1) <= PyDecimal.coeff d)
  /\ (representable p a b -> is_quotient a b d).

(** Two decimals of the same sign and value. *)
Definition same_value (d1 d2 : PyDecimal.Decimal) : Prop :=
  PyDecimal.sign d1 = PyDecimal.sign d2
  /\ dnum d1 * dden d2 = dnum d2 * dden d1.

(** The coefficient has no trailing zero; zero is written [0E0]. *)
Definition canonical (d : PyDecimal.Decimal) : Prop :=
  0 <= PyDecimal.coeff d
  /\ if PyDecimal.coeff d =? 0 then PyDecimal.exp d = 0
     else PyDecimal.coeff d mod 10 <> 0.

(** No decimal of the same value has a shorter coefficient. *)
Definition minimal (d : PyDecimal.Decimal) : Prop :=
  forall m, 0 <= PyDecimal.coeff m -> same_value m d ->
            PyDecimal.coeff d <= PyDecimal.coeff m.

(** ** The text of a decimal *)

(** The characters [Decimal.__str__] writes. *)
Definition decimal_char (c : ascii) : bool :=
  is_ascii_digit c || Ascii.eqb c "-" || Ascii.eqb c "+"
  || Ascii.eqb c "." || Ascii.eqb c "E".

(** The exponent part of a numeral: nothing for exponent 0, or the
    letter E and the signed exponent. *)
Definition exp_text (x : Z) (s : string) : Prop :=
  (s = "" /\ x = 0) \/ s = String "E" (signed_str x).

Definition sign_text (sg : bool) : string := if sg then "-" else "".

(** [s] is the text of [v] in canonical form: the text of the decimal
    [n] of the same value whose coefficient has no trailing zero, and
    reading [s] as a decimal gives [n] back. *)
Definition canonical_text (v : PyDecimal.Decimal) (s : string) : Prop :=
  exists n, canonical n /\ minimal n /\ same_value n v
            /\ s = PyDecimal.to_str n /\ PyDecimal.of_str s = Some n.

(** [s] is the canonical text of [a / b] rounded to [p] significant
    digits. *)
Definition quotient_text (p a b : Z) (s : string) : Prop :=
  exists q, rounded_quotient p a b q /\ canonical_text q s.

(** ** Well-formed logs *)

Definition is_hex_char (c : ascii) : bool := digit_value c <? 16.

(** At least three topics, and a payload of at least six 32-byte words
    written in hexadecimal, after an optional [0x]. *)
Definition well_formed (log : RawLog) : bool :=
  let d := default "0x" (data log) in
  let payload := if startswith "0x" d then drop 2 d else d in
  (3 <=? length (topics log))%nat
  && all_chars is_hex_char payload
  && (len payload mod 64 =? 0)
  && (6 <=? len payload / 64).

Definition converts (v : IntLike) : bool :=
  match _hex_to_int v with
  | Ok _ => true
  | Raise _ => false
  end.

(** The log carries its position: [logIndex] and [blockNumber] are
    integers or their hexadecimal or decimal texts. *)
Definition positioned (log : RawLog) : bool :=
  converts (logIndex log) && converts (blockNumber log).

(** The six words of an [OrderFilled] payload the decoder names. *)
Record Fill : Type := mkFill {
  orderHash : Z;
  makerAssetId : Z;
  takerAssetId : Z;
  makerAmountFilled : Z;
  takerAmountFilled : Z;
  feeWord : Z
}.

(** The first six words of the payload of [log] are those of [f]. *)
Definition payload_of (log : RawLog) (f : Fill) : Prop :=
  exists rest,
    _chunk_data_words (default "0x" (data log))
    = Ok (orderHash f :: makerAssetId f :: takerAssetId f
          :: makerAmountFilled f :: takerAmountFilled f :: feeWord f
          :: rest).

(** The side the specification gives a fill: BUY exactly when the maker
    gives the collateral asset, id 0, for an outcome token. *)
Definition is_buy (f : Fill) : bool :=
  (makerAssetId f =? 0) && negb (takerAssetId f =? 0).

Definition tokenId (f : Fill) : Z :=
  if is_buy f then takerAssetId f else makerAssetId f.

Definition tokenAmount (f : Fill) : Z :=
  if is_buy f then takerAmountFilled f else makerAmountFilled f.

Definition collateralAmount (f : Fill) : Z :=
  if is_buy f then makerAmountFilled f else takerAmountFilled f.

(** ** Texts of digits and payloads *)

(** The value of a text of digits of [base], read after [acc]. *)
Fixpoint text_value (base : Z) (s : string) (acc : Z) : Z :=
  match s with
  | EmptyString => acc
  | String c r => text_value base r (acc * base + digit_value c)
  end.

(** A payload of 32-byte words: each word as 64 hexadecimal digits. *)
Fixpoint hex_words (ws : list Z) : string :=
  match ws with
  | [] => EmptyString
  | w :: r => format_064x w +:+ hex_words r
  end.

(** ** Rows and payloads *)

(** The row [r] holds the content of the event payload [p], written
    at [now]. *)
Definition event_content (now : string) (p : EventPayload) (r : EventRow)
  : Prop :=
  e_event_id r = ep_event_id p
  /\ e_title r = ep_title p
  /\ e_description r = ep_description p
  /\ e_neg_risk r = int_of_bool (ep_neg_risk p)
  /\ e_active r = int_of_bool (ep_active p)
  /\ e_closed r = int_of_bool (ep_closed p)
  /\ e_updated_at r = Some now.

(** The row [r] holds the content of the market payload [p], written
    at [now], with the token ids [yes] and [no]. *)
Definition market_content (now : string) (p : MarketPayload)
    (yes no : option string) (r : MarketRow) : Prop :=
  m_event_id r = mp_event_id p
  /\ m_title r = mp_title p
  /\ m_description r = mp_description p
  /\ m_condition_id r = mp_condition_id p
  /\ m_question_id r = mp_question_id p
  /\ m_oracle r = mp_oracle p
  /\ m_collateral_token r = mp_collateral_token p
  /\ m_yes_token_id r = yes
  /\ m_no_token_id r = no
  /\ m_enable_neg_risk r = int_of_bool (mp_enable_neg_risk p)
  /\ m_status r = status_of p
  /\ m_updated_at r = Some now.

(** The row [r] with [updated_at] set to [now], the other columns as
    they are. *)
Definition stamp_event (now : string) (r : EventRow) : EventRow :=
  {| e_id := e_id r; e_event_id := e_event_id r; e_slug := e_slug r;
     e_title := e_title r; e_description := e_description r;
     e_neg_risk := e_neg_risk r; e_active := e_active r;
     e_closed := e_closed r; e_created_at := e_created_at r;
     e_updated_at := Some now |}.

Definition stamp_market (now : string) (r : MarketRow) : MarketRow :=
  {| m_id := m_id r; m_event_id := m_event_id r; m_slug := m_slug r;
     m_title := m_title r; m_description := m_description r;
     m_condition_id := m_condition_id r; m_question_id := m_question_id r;
     m_oracle := m_oracle r; m_collateral_token := m_collateral_token r;
     m_yes_token_id := m_yes_token_id r; m_no_token_id := m_no_token_id r;
     m_enable_neg_risk := m_enable_neg_risk r; m_status := m_status r;
     m_created_at := m_created_at r; m_updated_at := Some now |}.

(** The rows under [slug] stamped with [now]. *)
Definition stamp_events (now slug : string) (rows : list EventRow)
  : list EventRow :=
  map (fun r => if bool_decide (e_slug r = slug)
                then stamp_event now r else r) rows.

Definition stamp_markets (now slug : string) (rows : list MarketRow)
  : list MarketRow :=
  map (fun r => if bool_decide (m_slug r = slug)
                then stamp_market now r else r) rows.

(** ** Block ranges *)

(** The number of requests that cover the blocks [from_block] to
    [to_block] with [chunk_size] blocks each. *)
Definition chunk_count (from_block to_block chunk_size : Z) : nat :=
  if from_block <=? to_block
  then Z.to_nat ((to_block - from_block) / chunk_size + 1)
  else 0%nat.

(** The [k]-th range, counting from 0: [chunk_size] blocks from
    [from_block + k * chunk_size], cut at [to_block]. *)
Definition chunk_range (from_block to_block chunk_size : Z) (k : nat)
  : Z * Z :=
  let lo := from_block + Z.of_nat k * chunk_size in
  (lo, Z.min (lo + chunk_size - 1) to_block).

Definition chunk_ranges (from_block to_block chunk_size : Z)
  : list (Z * Z) :=
  map (chunk_range from_block to_block chunk_size)
      (seq 0 (chunk_count from_block to_block chunk_size)).

(** Asking the chain for the logs of the ranges [rs] in turn, after
    [acc]; the first request that fails ends it. *)
Fixpoint ask_all (env : Env) (addresses : list string)
    (rs : list (Z * Z)) (acc : list RawLog) : res (list RawLog) :=
  match rs with
  | [] => Ok acc
  | (lo, hi) :: r =>
      let* logs := eth_get_logs env addresses lo hi in
      ask_all env addresses r (acc ++ logs)
  end.

(** ** The trades a run queues *)

(** The timestamp cache holds only what the chain reports: under a
    block number, the text of that block's timestamp. *)
Definition cache_ok (env : Env) (cache : gmap Z string) : Prop :=
  forall b ts, cache !! b = Some ts ->
    exists t, eth_get_block_timestamp env b = Ok t /\ ts = _to_iso_utc env t.

(** The trade [t] is the one queued for the log [log]: the decoded
    fields, the id of a market row among [ids], the outcome YES or NO,
    and the text of the timestamp of the log's block. *)
Definition queued_for (env : Env) (ids : list Z) (log : RawLog)
    (t : TradeDict) : Prop :=
  exists d mid outcome tsec,
    decode_order_filled_log log = Ok d
    /\ In mid ids
    /\ (outcome = "YES" \/ outcome = "NO")
    /\ eth_get_block_timestamp env (block_number d) = Ok tsec
    /\ t = trade_dict d mid outcome (_to_iso_utc env tsec).

(** The market ids of [w] are market ids of [w']. *)
Definition grows (w w' : World) : Prop :=
  incl (map m_id (markets (conn w))) (map m_id (markets (conn w'))).

Definition keeps_growing {A} (m : M A) : Prop :=
  forall w, grows w (m w).2.

(** The loop state [run_indexer] starts from. *)
Definition fresh_loop : Loop :=
  {| timestamp_cache := ∅; market_discovery_attempted := false;
     to_insert := [] |}.

(** The row [r] stores the log [log]: the decoded fields, a market id
    among [ids], the outcome YES or NO, and the text of the timestamp
    of the log's block. *)
Definition stored_from (env : Env) (ids : list Z) (log : RawLog)
    (r : TradeRow) : Prop :=
  exists d tsec,
    decode_order_filled_log log = Ok d
    /\ eth_get_block_timestamp env (block_number d) = Ok tsec
    /\ In (t_market_id r) ids
    /\ (t_outcome r = Some "YES" \/ t_outcome r = Some "NO")
    /\ t_tx_hash r = tx_hash d
    /\ t_log_index r = log_index d
    /\ t_block_number r = Some (block_number d)
    /\ t_block_hash r = Some (block_hash d)
    /\ t_timestamp r = Some (_to_iso_utc env tsec)
    /\ t_maker r = Some (maker d)
    /\ t_taker r = Some (taker d)
    /\ t_side r = Some (side d)
    /\ t_price r = price d
    /\ t_size r = size d
    /\ t_token_id r = Some (token_id d)
    /\ t_maker_asset_id r = Some (str_of_int (maker_asset_id d))
    /\ t_taker_asset_id r = Some (str_of_int (taker_asset_id d))
    /\ t_maker_amount_filled r = Some (str_of_int (maker_amount_filled d))
    /\ t_taker_amount_filled r = Some (str_of_int (taker_amount_filled d))
    /\ t_exchange_address r = exchange_address d.

(** The batch is in the table: every trade of [batch] has a row of
    [rows] under its key, the transaction hash and the log index. *)
Definition persisted (batch : list TradeDict) (rows : list TradeRow)
  : Prop :=
  forall t, In t batch ->
    exists r, In r rows
              /\ td_tx_hash t = Some (t_tx_hash r)
              /\ td_log_index t = Some (t_log_index r).

(** ** Retried requests *)

(** The first [j] requests of a retried call, each followed by the
    sleep of its attempt. *)
Definition backoff (url : string) (params : Gamma.Params) (a j : nat)
  : list Gamma.Action :=
  flat_map (fun i => [Gamma.Requested url params; Gamma.Slept (Z.of_nat i)])
           (seq a j).

(** ** Reading trades *)

(** The row is in the block range: each bound that is given holds of
    the row's block number, and a row without block number is in no range
    that has a bound. *)
Definition within (from_block to_block : option Z) (r : TradeRow) : Prop :=
  (forall f, from_block = Some f ->
     exists b, t_block_number r = Some b /\ f <= b)
  /\ (forall t, to_block = Some t ->
        exists b, t_block_number r = Some b /\ b <= t).

(** [a] is listed before [b]: a later block, or the same block and a
    larger or equal log index; rows without block number come last. *)
Definition listed_before (a b : TradeRow) : Prop :=
  match t_block_number a, t_block_number b with
  | Some x, Some y => y < x \/ (x = y /\ t_log_index b <= t_log_index a)
  | Some _, None => True
  | None, Some _ => False
  | None, None => t_log_index b <= t_log_index a
  end.
End Spec.

(* ===================================================================== *)
(** * Properties                                                          *)
(* ===================================================================== *)

Import Py Store TradeDecoder Indexer.

(** ** Block-range resolution *)

Section BlockRange.
Variable env : Env.
Variable head : Z.
Hypothesis head_stable : forall k, eth_block_number env k = Ok head.

Lemma determine_block_range_refines c reads from_block to_block tx_block :
  determine_block_range env c reads from_block to_block tx_block
  = Spec.resolveRange from_block to_block tx_block
      (get_sync_state c "trade_sync") head.
Proof using head_stable.
  unfold determine_block_range, Spec.resolveRange, Spec.first_set.
  destruct tx_block as [tx|], from_block as [f|], to_block as [t|];
    cbn [bind default];
    try reflexivity;
    destruct (get_sync_state c "trade_sync") as [last|];
    cbn [bind default];
    repeat (rewrite head_stable; cbn [bind]); reflexivity.
Qed.
End BlockRange.

(** C4, as amended: with the chain head at [head] during the call,
    [determine_block_range] computes exactly the resolver of the
    specification: a reference transaction's block fills any unset
    bound; [to] defaults to [from] when only [from] is set; an unset
    [from] becomes the persisted cursor plus one, or else
    [max 0 (head - 10)]; an unset [to] becomes [head]; and the call fails
    exactly when the resolved [from] exceeds [to]. *)
Theorem C4_block_range_resolution
    (env : Env) (head : Z) (c : Conn) (reads : nat)
    (from_block to_block tx_block : option Z) :
  (forall k, eth_block_number env k = Ok head) ->
  let cursor := get_sync_state c "trade_sync" in
  let from_set := Spec.first_set from_block tx_block in
  let to_set := Spec.first_set (Spec.first_set to_block tx_block) from_set in
  let from' :=
    match from_set, cursor with
    | Some f, _ => f
    | None, Some n => n + 1
    | None, None => Z.max 0 (head - 10)
    end in
  let to' := default head to_set in
  determine_block_range env c reads from_block to_block tx_block
  = Spec.resolveRange from_block to_block tx_block cursor head
  /\ (from' <= to' ->
      determine_block_range env c reads from_block to_block tx_block
      = Ok (from', to'))
  /\ (from' > to' ->
      exists msg,
        determine_block_range env c reads from_block to_block tx_block
        = Raise (ValueError msg)).
Proof.
  intros Hhead cursor from_set to_set from' to'.
  rewrite (determine_block_range_refines env head Hhead).
  split; [reflexivity|].
  unfold Spec.resolveRange.
  fold cursor from_set to_set from' to'.
  split; intros Hcmp.
  - destruct (from' >? to') eqn:E; [lia | reflexivity].
  - destruct (from' >? to') eqn:E; [eauto | lia].
Qed.

Lemma C4_block_range_resolution_witness :
  determine_block_range (Fixtures.env_with 500 [] []) empty_conn 0
    None None (Some 77) = Ok (77, 77)
  /\ determine_block_range (Fixtures.env_with 500 [] []) empty_conn 0
       None None None = Ok (490, 500).
Proof.
  split.
  - apply (C4_block_range_resolution (Fixtures.env_with 500 [] []) 500
             empty_conn 0 None None (Some 77)).
    + intros k; reflexivity.
    + cbn; lia.
  - apply (C4_block_range_resolution (Fixtures.env_with 500 [] []) 500
             empty_conn 0 None None None).
    + intros k; reflexivity.
    + vm_compute; discriminate.
Defined.

(** C4 as stated fails below block 10: with the head at block 5, no
    bounds and no cursor, the resolved start is 0 and not [5 - 10]. *)
Lemma C4_counterexample_head_below_ten :
  determine_block_range (Fixtures.env_with 5 [] []) empty_conn 0
    None None None = Ok (0, 5)
  /\ (0, 5) <> (5 - 10, 5).
Proof. split; [reflexivity | discriminate]. Qed.

(** The two resolver properties of section 8. *)
Lemma resolve_reference_block_only env head c reads tx :
  (forall k, eth_block_number env k = Ok head) ->
  determine_block_range env c reads None None (Some tx) = Ok (tx, tx).
Proof.
  intros H. rewrite (determine_block_range_refines env head H).
  unfold Spec.resolveRange; cbn.
  destruct (tx >? tx) eqn:E; [lia | reflexivity].
Qed.

Lemma resolve_from_cursor env head c reads n to' :
  (forall k, eth_block_number env k = Ok head) ->
  get_sync_state c "trade_sync" = Some n ->
  determine_block_range env c reads None None None = Ok (n + 1, to') ->
  to' = head /\ n + 1 <= head.
Proof.
  intros H Hc. rewrite (determine_block_range_refines env head H), Hc.
  unfold Spec.resolveRange; cbn.
  destruct (n + 1 >? head) eqn:E; [discriminate|].
  intros [= <-]. split; [reflexivity | lia].
Qed.

(** ** Trade insertion *)

Lemma same_key_In tx li rows :
  existsb (same_key tx li) rows = true <-> In (tx, li) (map Spec.trade_key rows).
Proof.
  rewrite existsb_exists, in_map_iff. unfold same_key, Spec.trade_key.
  split; intros (r & H1 & H2); exists r.
  - apply andb_true_iff in H2 as [Ha Hb].
    apply bool_decide_eq_true in Ha, Hb. subst. auto.
  - injection H1 as <- <-. split; [assumption|].
    apply andb_true_iff; split; apply bool_decide_eq_true; reflexivity.
Qed.

Lemma insert_or_ignore_cases now rows p rows' n :
  insert_or_ignore now rows p = (rows', n) ->
  (rows' = rows /\ n = 0 /\ Spec.ignored_on rows p = true)
  \/ (exists r, rows' = rows ++ [r] /\ n = 1
                /\ Spec.ignored_on rows p = false
                /\ tp_tx_hash p = Some (t_tx_hash r)
                /\ tp_log_index p = Some (t_log_index r)
                /\ ~ In (Spec.trade_key r) (map Spec.trade_key rows)).
Proof.
  unfold insert_or_ignore, Spec.ignored_on.
  destruct (tp_market_id p) as [mid|]; [|intros [= <- <-]; auto].
  destruct (tp_tx_hash p) as [tx|]; [|intros [= <- <-]; auto].
  destruct (tp_log_index p) as [li|]; [|intros [= <- <-]; auto].
  destruct (existsb (same_key tx li) rows) eqn:E; intros [= <- <-]; [auto|].
  right. eexists. repeat split.
  unfold Spec.trade_key; cbn. rewrite <- same_key_In, E. discriminate.
Qed.

Lemma ignored_on_app rows new p :
  Spec.ignored_on rows p = true -> Spec.ignored_on (rows ++ new) p = true.
Proof.
  unfold Spec.ignored_on.
  destruct (tp_market_id p), (tp_tx_hash p), (tp_log_index p); auto.
  rewrite existsb_app. intros ->. reflexivity.
Qed.

Lemma ignored_after_insert now rows p rows' n :
  insert_or_ignore now rows p = (rows', n) -> Spec.ignored_on rows' p = true.
Proof.
  intros H. destruct (insert_or_ignore_cases _ _ _ _ _ H)
    as [(-> & _ & Hi) | (r & -> & _ & _ & Htx & Hli & _)]; [assumption|].
  unfold Spec.ignored_on. rewrite Htx, Hli.
  destruct (tp_market_id p); [|reflexivity].
  rewrite existsb_app; cbn. unfold same_key.
  rewrite !bool_decide_eq_true_2 by reflexivity. apply orb_true_r.
Qed.

(** What one [executemany] does: it only appends rows, reports how many,
    leaves every tuple of the batch ignorable, and keeps the stored keys
    distinct. *)
Lemma executemany_spec now ps : forall rows rows' n,
  executemany now rows ps = Ok (rows', n) ->
  exists new,
    rows' = rows ++ new
    /\ n = Z.of_nat (length new)
    /\ (length new <= length ps)%nat
    /\ Forall (fun p => Spec.ignored_on rows' p = true) ps
    /\ Forall (fun p => bind_params p = Ok tt) ps
    /\ Forall (fun r => ~ In (Spec.trade_key r) (map Spec.trade_key rows)) new
    /\ (NoDup (map Spec.trade_key rows) -> NoDup (map Spec.trade_key rows')).
Proof.
  induction ps as [|p ps IH]; intros rows rows' n; cbn [executemany].
  - intros [= <- <-]. exists []. rewrite app_nil_r.
    repeat split; auto; constructor.
  - destruct (bind_params p) as [[]|e] eqn:Hb; cbn [bind]; [|discriminate].
    destruct (insert_or_ignore now rows p) as [rows1 n1] eqn:Hi.
    destruct (executemany now rows1 ps) as [[rows2 n2]|e] eqn:He;
      cbn [bind]; [|discriminate].
    intros [= <- <-].
    destruct (IH _ _ _ He) as (new & -> & -> & Hlen & Hign & Hbind & Hfresh & Hnd).
    pose proof (ignored_after_insert _ _ _ _ _ Hi) as Hp.
    destruct (insert_or_ignore_cases _ _ _ _ _ Hi)
      as [(-> & -> & _) | (r & -> & -> & _ & _ & _ & Hr)].
    + exists new.
      split; [reflexivity|]. split; [lia|]. split; [cbn; lia|].
      split; [constructor; [apply ignored_on_app|]; assumption|].
      split; [constructor; assumption|].
      split; assumption.
    + exists (r :: new).
      split; [rewrite <- app_assoc; reflexivity|].
      split; [cbn [length]; lia|].
      split; [cbn; lia|].
      split; [constructor; [apply ignored_on_app|]; assumption|].
      split; [constructor; assumption|].
      split.
      { constructor; [assumption|].
        eapply Forall_impl; [exact Hfresh|]. cbn. intros a Ha Hin.
        apply Ha. rewrite map_app, in_app_iff. auto. }
      intros Hn. apply Hnd.
      rewrite map_app. cbn.
      apply NoDup_app. split; [assumption|]. split.
      * intros x Hx Hx'. apply list_elem_of_In in Hx, Hx'.
        destruct Hx' as [<-|[]]. contradiction.
      * apply NoDup_singleton.
Qed.

(** A batch whose tuples are all ignorable changes nothing. *)
Lemma executemany_all_ignored now rows ps :
  Forall (fun p => Spec.ignored_on rows p = true) ps ->
  Forall (fun p => bind_params p = Ok tt) ps ->
  executemany now rows ps = Ok (rows, 0).
Proof.
  induction 1 as [|p ps Hp _ IH]; intros Hb; [reflexivity|].
  inversion Hb as [|? ? Hb1 Hb2]; subst.
  cbn [executemany]. rewrite Hb1; cbn [bind].
  assert (insert_or_ignore now rows p = (rows, 0)) as ->.
  { destruct (insert_or_ignore now rows p) as [r n] eqn:E.
    destruct (insert_or_ignore_cases _ _ _ _ _ E)
      as [(-> & -> & _) | (? & _ & _ & Hf & _)]; [reflexivity|congruence]. }
  rewrite (IH Hb2). reflexivity.
Qed.

(** C2: when [insert_trades] succeeds on a batch, a second call with the
    same batch returns 0 and leaves the connection, hence the row count of
    [trades], as it is. The first call only appends rows, none of them
    under a key that was stored before, keeps the stored
    [(tx_hash, log_index)] pairs distinct, and returns the number of rows
    it appended, which is at most the size of the batch. *)
Theorem C2_insert_trades_idempotent
    (now1 now2 : string) (c c1 : Conn) (batch : list TradeDict) (n : Z) :
  insert_trades now1 c batch = Ok (n, c1) ->
  insert_trades now2 c1 batch = Ok (0, c1)
  /\ (exists new,
        trades c1 = trades c ++ new
        /\ n = Z.of_nat (length new)
        /\ (length new <= length batch)%nat
        /\ Forall (fun r => ~ In (Spec.trade_key r)
                                 (map Spec.trade_key (trades c))) new)
  /\ (NoDup (map Spec.trade_key (trades c)) ->
      NoDup (map Spec.trade_key (trades c1))).
Proof.
  unfold insert_trades. destruct batch as [|t ts].
  - intros [= <- <-]. split; [reflexivity|]. split; [|auto].
    exists []. rewrite app_nil_r. repeat split; auto.
  - set (b := t :: ts).
    destruct (all_params b) as [ps|e] eqn:Hps; cbn [bind]; [|discriminate].
    destruct (executemany now1 (trades c) ps) as [[rows k]|e] eqn:He;
      cbn [bind]; [|discriminate].
    intros [= <- <-]. cbn [trades total_changes].
    destruct (executemany_spec _ _ _ _ _ He)
      as (new & -> & -> & Hlen & Hign & Hbind & Hfresh & Hnd).
    assert (length ps = length b) as Hl.
    { clear -Hps. revert ps Hps. induction b as [|x b IH]; cbn; intros ps.
      - intros [= <-]. reflexivity.
      - destruct (trade_params x); cbn [bind]; [|discriminate].
        destruct (all_params b); cbn [bind]; [|discriminate].
        intros [= <-]. cbn. f_equal. apply IH. reflexivity. }
    split; [|split].
    + rewrite (executemany_all_ignored now2 _ _ Hign Hbind). cbn [bind].
      cbn [events markets trades sync_state total_changes].
      rewrite Z.add_0_r, Z.sub_diag. reflexivity.
    + exists new. repeat split; auto; lia.
    + exact Hnd.
Qed.

Lemma C2_insert_trades_idempotent_witness :
  exists c1,
    insert_trades "t1" empty_conn [Fixtures.trade_a; Fixtures.trade_a]
    = Ok (1, c1)
    /\ insert_trades "t2" c1 [Fixtures.trade_a; Fixtures.trade_a] = Ok (0, c1).
Proof.
  eexists. split; [reflexivity|].
  eapply (C2_insert_trades_idempotent "t1" "t2" empty_conn).
  reflexivity.
Defined.

(** ** Upserts *)

Lemma Forall2_map_cond {A} (P : A -> bool) (f : A -> A) (R : A -> A -> Prop)
    (l : list A) :
  (forall a, In a l -> P a = true -> R a (f a)) ->
  Forall2 (fun a a' => if P a then R a a' else a' = a) l
          (map (fun a => if P a then f a else a) l).
Proof.
  induction l as [|a l IH]; intros H; cbn; constructor.
  - destruct (P a) eqn:E; [apply H; cbn; auto | reflexivity].
  - apply IH. intros b Hb. apply H. cbn; auto.
Qed.

Lemma event_updated_update now p r :
  Spec.event_updated now p r (update_event now p r).
Proof. repeat split. Qed.

Lemma market_updated_update now p eid yes no r :
  eid = mp_event_id p ->
  Spec.market_updated now p yes no r (update_market now p eid yes no r).
Proof. intros ->. repeat split. Qed.

Lemma bind_opt_int_Ok n m : bind_opt_int n = Ok m -> m = n.
Proof.
  destruct n as [z|]; cbn; [|congruence].
  unfold bind_int. destruct (between _ _ z); cbn; congruence.
Qed.

(** C10: on the update path (a row with the payload's slug exists) and
    when the statement's own constraints hold, [upsert_event] and
    [upsert_market] return the existing row's [id]; the table keeps its
    rows in place, a row under another slug is untouched, and the row
    under the slug keeps [id], [slug] and [created_at], takes its content
    from the payload and gets [updated_at = now]. The other tables are
    unchanged. *)
Theorem C10_upsert_update_path :
  (forall now c p slug old,
     ep_slug p = Some slug ->
     fetch_event_by_slug c slug = Some old ->
     event_id_taken (ep_event_id p) (Some (e_id old)) (events c) = false ->
     exists c',
       upsert_event now c p = Ok (e_id old, c')
       /\ Forall2 (fun r r' =>
                     if bool_decide (e_slug r = slug)
                     then Spec.event_updated now p r r' else r' = r)
                  (events c) (events c')
       /\ markets c' = markets c /\ trades c' = trades c
       /\ sync_state c' = sync_state c)
  /\
  (forall now c p slug old yes no eid,
     mp_slug p = Some slug ->
     fetch_market_by_slug c slug = Some old ->
     normalize_token_id (mp_yes_token_id p) = Ok yes ->
     normalize_token_id (mp_no_token_id p) = Ok no ->
     bind_opt_int (mp_event_id p) = Ok eid ->
     exists c',
       upsert_market now c p = Ok (m_id old, c')
       /\ Forall2 (fun r r' =>
                     if bool_decide (m_slug r = slug)
                     then Spec.market_updated now p yes no r r' else r' = r)
                  (markets c) (markets c')
       /\ events c' = events c /\ trades c' = trades c
       /\ sync_state c' = sync_state c).
Proof.
  split.
  - intros now c p slug old Hslug Hfind Hfree.
    unfold fetch_event_by_slug in Hfind.
    unfold upsert_event. rewrite Hslug, Hfind, Hfree.
    eexists. split; [reflexivity|]. cbn [events markets trades sync_state].
    split; [|auto].
    apply (Forall2_map_cond (fun r => bool_decide (e_slug r = slug))).
    intros; apply event_updated_update.
  - intros now c p slug old yes no eid Hslug Hfind Hy Hn He.
    unfold fetch_market_by_slug in Hfind.
    unfold upsert_market. rewrite Hy, Hn, He; cbn [bind].
    rewrite Hslug, Hfind.
    eexists. split; [reflexivity|]. cbn [events markets trades sync_state].
    split; [|auto].
    apply (Forall2_map_cond (fun r => bool_decide (m_slug r = slug))).
    intros; apply market_updated_update.
    apply bind_opt_int_Ok in He. assumption.
Qed.

Lemma C10_upsert_update_path_witness :
  (exists c',
     upsert_event "t9" Fixtures.conn_one_event Fixtures.event_rain = Ok (1, c')
     /\ length (events c') = 1%nat)
  /\ (exists c',
        upsert_market "t9" Fixtures.conn_one_market Fixtures.market_555
        = Ok (1, c')
        /\ length (markets c') = 1%nat).
Proof.
  destruct C10_upsert_update_path as [He Hm]. split.
  - destruct (He "t9" Fixtures.conn_one_event Fixtures.event_rain "rain"
                (new_event "t0" Fixtures.event_rain "rain" 1))
      as (c' & Hc & Hrows & _); [reflexivity .. |].
    exists c'. split; [exact Hc|].
    apply Forall2_length in Hrows. rewrite <- Hrows. reflexivity.
  - destruct (Hm "t9" Fixtures.conn_one_market Fixtures.market_555
                "will-it-rain"
                (new_market "t0" Fixtures.market_555 None (Some "555")
                            (Some "556") "will-it-rain" 1)
                (Some "555") (Some "556") None)
      as (c' & Hc & Hrows & _); [reflexivity .. |].
    exists c'. split; [exact Hc|].
    apply Forall2_length in Hrows. rewrite <- Hrows. reflexivity.
Defined.

(** ** Token lookup *)

Lemma next_id_fresh ids : forall i, In i ids -> i < next_id ids.
Proof.
  unfold next_id. induction ids as [|a ids IH]; cbn; [tauto|].
  intros i [<-|H]; [lia|]. specialize (IH i H). lia.
Qed.

Lemma map_map_cond {A B} (P : A -> bool) (f : A -> A) (g : A -> B) l :
  (forall a, g (f a) = g a) ->
  map g (map (fun a => if P a then f a else a) l) = map g l.
Proof.
  intros H. induction l as [|a l IH]; cbn; [reflexivity|].
  rewrite IH. destruct (P a); [rewrite H|]; reflexivity.
Qed.

Lemma NoDup_snoc {A} (l : list A) (x : A) :
  NoDup l -> ~ In x l -> NoDup (l ++ [x]).
Proof.
  intros Hl Hx. apply NoDup_app. split; [assumption|]. split.
  - intros y Hy Hy'. apply list_elem_of_In in Hy, Hy'.
    destruct Hy' as [<-|[]]. contradiction.
  - apply NoDup_singleton.
Qed.

(** Slugs and ids of markets stay distinct under [upsert_market]. *)
Lemma upsert_market_keys now c p id c' :
  upsert_market now c p = Ok (id, c') ->
  NoDup (map m_slug (markets c)) /\ NoDup (map m_id (markets c)) ->
  NoDup (map m_slug (markets c')) /\ NoDup (map m_id (markets c')).
Proof.
  unfold upsert_market.
  destruct (normalize_token_id (mp_yes_token_id p)); cbn [bind]; [|discriminate].
  destruct (normalize_token_id (mp_no_token_id p)); cbn [bind]; [|discriminate].
  destruct (bind_opt_int (mp_event_id p)); cbn [bind]; [|discriminate].
  destruct (mp_slug p) as [slug|]; [|discriminate].
  destruct (find _ (markets c)) as [old|] eqn:Hf; intros [= <- <-];
    cbn [markets]; intros [Hs Hi].
  - rewrite !(map_map_cond (fun r => bool_decide (m_slug r = slug)));
      auto.
  - rewrite !map_app; cbn. split; apply NoDup_snoc; auto.
    + intros Hin. apply in_map_iff in Hin as (r & Hr & Hin).
      pose proof (find_none _ _ Hf r Hin) as Hn. cbn in Hn.
      apply bool_decide_eq_false in Hn. congruence.
    + intros Hin. apply next_id_fresh in Hin. lia.
Qed.

Lemma reachable_market_keys c :
  Spec.reachable c ->
  NoDup (map m_slug (markets c)) /\ NoDup (map m_id (markets c)).
Proof.
  induction 1 as [|now c p id c' _ IH H|now c p id c' _ IH H
                 |now c ts n c' _ IH H|now c key b c' _ IH H].
  - cbn. split; constructor.
  - unfold upsert_event in H.
    destruct (ep_slug p); [|discriminate].
    destruct (find _ (events c)); destruct (event_id_taken _ _ _);
      try discriminate; injection H as <- <-; exact IH.
  - eapply upsert_market_keys; eassumption.
  - unfold insert_trades in H. destruct ts; [injection H as <- <-; exact IH|].
    destruct (all_params _); cbn [bind] in H; [|discriminate].
    destruct (executemany _ _ _) as [[rows k]|]; cbn [bind] in H;
      [|discriminate].
    injection H as <- <-. exact IH.
  - unfold update_sync_state in H.
    destruct (bind_int b); cbn [bind] in H; [|discriminate].
    injection H as <-. exact IH.
Qed.

(** C5, as amended: in every reachable store the markets have distinct
    slugs and distinct ids, and [fetch_market_by_token_id] returns at most
    one row: a row of the table whose YES or NO token id is the normalized
    argument when there is one, and no row exactly when none matches. The
    token ids themselves are not kept distinct across rows. *)
Theorem C5_token_lookup_returns_one_row (c : Conn) (token : option string) :
  Spec.reachable c ->
  NoDup (map m_slug (markets c))
  /\ NoDup (map m_id (markets c))
  /\ match normalize_token_id token with
     | Raise e => fetch_market_by_token_id c token = Raise e
     | Ok None => fetch_market_by_token_id c token = Ok None
     | Ok (Some tok) =>
         (exists r, fetch_market_by_token_id c token = Ok (Some r)
                    /\ In r (markets c) /\ token_matches tok r = true)
         \/ (fetch_market_by_token_id c token = Ok None
             /\ forall r, In r (markets c) -> token_matches tok r = false)
     end.
Proof.
  intros Hr. destruct (reachable_market_keys c Hr) as [Hs Hi].
  split; [exact Hs|]. split; [exact Hi|].
  unfold fetch_market_by_token_id.
  destruct (normalize_token_id token) as [[tok|]|e]; cbn [bind]; auto.
  destruct (find (token_matches tok) (markets c)) as [r|] eqn:Hf.
  - left. exists r. apply find_some in Hf. tauto.
  - right. split; [reflexivity|]. intros r. apply (find_none _ _ Hf).
Qed.

Lemma reachable_two_markets : Spec.reachable Fixtures.conn_two_markets.
Proof.
  eapply (Spec.reach_upsert_market "t1" Fixtures.conn_one_market
            Fixtures.market_555_again 2).
  - eapply (Spec.reach_upsert_market "t0" empty_conn Fixtures.market_555 1).
    + constructor.
    + reflexivity.
  - reflexivity.
Defined.

Lemma C5_token_lookup_returns_one_row_witness :
  NoDup (map m_slug (markets Fixtures.conn_two_markets))
  /\ (exists r,
        fetch_market_by_token_id Fixtures.conn_two_markets (Some "0x22b")
        = Ok (Some r)
        /\ In r (markets Fixtures.conn_two_markets)).
Proof.
  destruct (C5_token_lookup_returns_one_row Fixtures.conn_two_markets
              (Some "0x22b") reachable_two_markets) as (Hs & _ & H).
  split; [exact Hs|].
  destruct H as [(r & Hf & Hin & _) | (Hf & _)].
  - exists r. split; assumption.
  - discriminate Hf.
Defined.

(** C5 as stated fails: two upserts under different slugs give a
    reachable store in which token id 555 is the YES token of two
    markets. *)
Lemma C5_counterexample_shared_token :
  exists c r1 r2,
    Spec.reachable c
    /\ In r1 (markets c) /\ In r2 (markets c)
    /\ m_id r1 <> m_id r2
    /\ m_yes_token_id r1 = Some "555" /\ m_yes_token_id r2 = Some "555".
Proof.
  exists Fixtures.conn_two_markets.
  exists (new_market "t0" Fixtures.market_555 None (Some "555")
                     (Some "556") "will-it-rain" 1).
  exists (new_market "t1" Fixtures.market_555_again None (Some "555")
                     None "will-it-pour" 2).
  split; [exact reachable_two_markets|].
  split; [left; reflexivity|]. split; [right; left; reflexivity|].
  split; [discriminate|]. split; reflexivity.
Qed.

(** ** The indexing run *)

(** What every step of a run before the batch insert leaves alone: the
    [trades] and [sync_state] tables and the journal. *)
Definition quiet (w w' : World) : Prop :=
  trades (conn w') = trades (conn w)
  /\ sync_state (conn w') = sync_state (conn w)
  /\ journal w' = journal w.

Lemma quiet_refl w : quiet w w.
Proof. repeat split. Qed.

Lemma quiet_trans w1 w2 w3 : quiet w1 w2 -> quiet w2 w3 -> quiet w1 w3.
Proof.
  intros (a & b & c) (a' & b' & c'). repeat split; congruence.
Qed.

(** A computation is quiet when its final world is, whatever it returns. *)
Definition keeps_quiet {A} (m : M A) : Prop := forall w, quiet w (m w).2.

Lemma keeps_quiet_ret {A} (a : A) : keeps_quiet (ret a).
Proof. intros w. apply quiet_refl. Qed.

Lemma keeps_quiet_lift {A} (r : res A) : keeps_quiet (lift r).
Proof. intros w. apply quiet_refl. Qed.

Lemma keeps_quiet_bind {A B} (m : M A) (k : A -> M B) :
  keeps_quiet m -> (forall a, keeps_quiet (k a)) -> keeps_quiet (bindM m k).
Proof.
  intros Hm Hk w. unfold bindM. specialize (Hm w).
  destruct (m w) as [[a|e] w1]; cbn in *; [|assumption].
  eapply quiet_trans; [exact Hm | apply Hk].
Qed.

Lemma keeps_quiet_read_clock env : keeps_quiet (read_clock env).
Proof. intros w. repeat split. Qed.

Lemma keeps_quiet_call_gamma env slug : keeps_quiet (call_gamma env slug).
Proof. intros w. repeat split. Qed.

Lemma keeps_quiet_read_conn {A} (q : Conn -> res A) : keeps_quiet (read_conn q).
Proof. intros w. apply quiet_refl. Qed.

Lemma keeps_quiet_on_conn {A} (op : Conn -> res (A * Conn)) :
  (forall c a c', op c = Ok (a, c') ->
                  trades c' = trades c /\ sync_state c' = sync_state c) ->
  keeps_quiet (on_conn op).
Proof.
  intros H w. unfold on_conn.
  destruct (op (conn w)) as [[a c']|e] eqn:E; cbn; [|apply quiet_refl].
  destruct (H _ _ _ E). repeat split; assumption.
Qed.

Lemma upsert_event_frame now c p id c' :
  upsert_event now c p = Ok (id, c') ->
  trades c' = trades c /\ sync_state c' = sync_state c.
Proof.
  unfold upsert_event. destruct (ep_slug p); [|discriminate].
  destruct (find _ (events c)); destruct (event_id_taken _ _ _);
    try discriminate; intros [= <- <-]; split; reflexivity.
Qed.

Lemma upsert_market_frame now c p id c' :
  upsert_market now c p = Ok (id, c') ->
  trades c' = trades c /\ sync_state c' = sync_state c.
Proof.
  unfold upsert_market.
  destruct (normalize_token_id (mp_yes_token_id p)); cbn [bind]; [|discriminate].
  destruct (normalize_token_id (mp_no_token_id p)); cbn [bind]; [|discriminate].
  destruct (bind_opt_int (mp_event_id p)); cbn [bind]; [|discriminate].
  destruct (mp_slug p); [|discriminate].
  destruct (find _ (markets c)); intros [= <- <-]; split; reflexivity.
Qed.

Lemma keeps_quiet_upsert_markets env eid ms : forall ids,
  keeps_quiet (upsert_markets env eid ms ids).
Proof.
  induction ms as [|[p|] ms IH]; intros ids; cbn [upsert_markets].
  - apply keeps_quiet_ret.
  - apply keeps_quiet_bind; [apply keeps_quiet_read_clock|]. intros now.
    apply keeps_quiet_bind; [|intros; apply IH].
    apply keeps_quiet_on_conn. intros c a c'. apply upsert_market_frame.
  - apply IH.
Qed.

(** Discovery writes events and markets only. *)
Lemma keeps_quiet_discover_markets env slug :
  keeps_quiet (discover_markets env slug).
Proof.
  unfold discover_markets. destruct slug as [[|ch s]|];
    try apply keeps_quiet_ret.
  apply keeps_quiet_bind; [apply keeps_quiet_call_gamma|]. intros [ev ms].
  apply keeps_quiet_bind; [apply keeps_quiet_read_clock|]. intros now.
  apply keeps_quiet_bind.
  { apply keeps_quiet_on_conn. intros c a c'. apply upsert_event_frame. }
  intros eid.
  apply keeps_quiet_bind; [apply keeps_quiet_upsert_markets|]. intros ids.
  apply keeps_quiet_ret.
Qed.

(** The market resolver: either it answers from the store as it is, or,
    on a miss with a slug and no earlier attempt, it runs discovery once
    and answers from the store after it. *)
Lemma ensure_market_cached_spec env tok slug attempted w :
  let r := (_ensure_market_cached env tok slug attempted w).1 in
  let w' := (_ensure_market_cached env tok slug attempted w).2 in
  trades (conn w') = trades (conn w)
  /\ sync_state (conn w') = sync_state (conn w)
  /\ ((journal w' = journal w /\ conn w' = conn w
       /\ match r with
          | Ok (m, a) => a = attempted
                         /\ fetch_market_by_token_id (conn w) tok = Ok m
                         /\ (m = None -> truthy slug && negb attempted = false)
          | Raise e => fetch_market_by_token_id (conn w) tok = Raise e
          end)
      \/ (journal w' = journal w ++ [DiscoverCalled OnCacheMiss slug]
          /\ attempted = false /\ truthy slug = true
          /\ fetch_market_by_token_id (conn w) tok = Ok None
          /\ match r with
             | Ok (m, a) => a = true
                            /\ fetch_market_by_token_id (conn w') tok = Ok m
             | Raise _ => True
             end)).
Proof.
  unfold _ensure_market_cached, bindM, read_conn.
  destruct (fetch_market_by_token_id (conn w) tok) as [[m|]|e] eqn:Hf;
    cbn [fst snd].
  - split; [reflexivity|]. split; [reflexivity|]. left.
    repeat split; auto. discriminate.
  - destruct (truthy slug && negb attempted) eqn:Ht.
    + apply andb_true_iff in Ht as [Hs Ha]. apply negb_true_iff in Ha.
      unfold log_effect. cbn [fst snd].
      set (w1 := {| conn := conn w; gamma_calls := gamma_calls w;
                    clock_reads := clock_reads w;
                    journal := journal w ++ [DiscoverCalled OnCacheMiss slug] |}).
      pose proof (keeps_quiet_discover_markets env slug w1) as (Q1 & Q2 & Q3).
      destruct (discover_markets env slug w1) as [[d|e] w2]; cbn [fst snd] in *.
      * destruct (fetch_market_by_token_id (conn w2) tok) as [m'|e] eqn:Hf';
          cbn [fst snd ret]; (split; [exact Q1|]); (split; [exact Q2|]);
          right; repeat split; auto.
      * split; [exact Q1|]. split; [exact Q2|]. right. repeat split; auto.
    + cbn [ret fst snd]. split; [reflexivity|]. split; [reflexivity|]. left.
      repeat split; auto.
  - split; [reflexivity|]. split; [reflexivity|]. left. repeat split; auto.
Qed.

(** One iteration of the loop: it leaves [trades] and [sync_state]
    alone, journals at most one discovery, and only when none was
    attempted before; a log that does not decode raises at once; a log
    whose token id has no market in the store after the iteration adds
    nothing to [to_insert]. *)
Lemma process_log_spec env slug st log w :
  let r := (process_log env slug st log w).1 in
  let w' := (process_log env slug st log w).2 in
  trades (conn w') = trades (conn w)
  /\ sync_state (conn w') = sync_state (conn w)
  /\ (forall e, decode_order_filled_log log = Raise e -> r = Raise e /\ w' = w)
  /\ exists suf,
       journal w' = journal w ++ suf
       /\ Forall (fun e => Spec.is_miss_discovery e = true) suf
       /\ (length suf + Nat.b2n (market_discovery_attempted st) <= 1)%nat
       /\ match r with
          | Ok st' =>
              (length suf + Nat.b2n (market_discovery_attempted st)
               <= Nat.b2n (market_discovery_attempted st'))%nat
              /\ (exists new, to_insert st' = to_insert st ++ new
                              /\ (length new <= 1)%nat)
              /\ (forall d tok,
                    decode_order_filled_log log = Ok d ->
                    _int_token (Some (token_id d)) = Ok (Some tok) ->
                    fetch_market_by_token_id (conn w') (Some tok) = Ok None ->
                    to_insert st' = to_insert st)
          | Raise _ => True
          end.
Proof.
  unfold process_log, bindM, lift.
  destruct (decode_order_filled_log log) as [d|e] eqn:Hd; cbn [fst snd].
  2:{ split; [reflexivity|]. split; [reflexivity|].
      split; [intros e' [= <-]; auto|].
      exists []. rewrite app_nil_r. repeat split; auto.
      destruct (market_discovery_attempted st); cbn; lia. }
  destruct (_int_token (Some (token_id d))) as [[tok|]|e] eqn:Ht;
    cbn [fst snd ret].
  3:{ split; [reflexivity|]. split; [reflexivity|]. split; [discriminate|].
      exists []. rewrite app_nil_r. repeat split; auto.
      destruct (market_discovery_attempted st); cbn; lia. }
  2:{ split; [reflexivity|]. split; [reflexivity|]. split; [discriminate|].
      exists []. rewrite app_nil_r.
      split; [reflexivity|]. split; [constructor|].
      split; [destruct (market_discovery_attempted st); cbn; lia|].
      split; [cbn; lia|]. split.
      - exists []. rewrite app_nil_r. split; [reflexivity | cbn; lia].
      - intros; reflexivity. }
  pose proof (ensure_market_cached_spec env (Some tok) slug
                (market_discovery_attempted st) w) as (Q1 & Q2 & Q3).
  cbn zeta in Q3.
  destruct (_ensure_market_cached env (Some tok) slug
              (market_discovery_attempted st) w) as [[[m a]|e] w1];
    cbn [fst snd] in *.
  2:{ split; [exact Q1|]. split; [exact Q2|]. split; [discriminate|].
      destruct Q3 as [(Hj & _) | (Hj & Ha & _)].
      - exists []. rewrite app_nil_r. repeat split; auto.
        destruct (market_discovery_attempted st); cbn; lia.
      - eexists. split; [exact Hj|]. rewrite Ha.
        repeat split; auto. }
  assert (exists suf,
            journal w1 = journal w ++ suf
            /\ Forall (fun e => Spec.is_miss_discovery e = true) suf
            /\ (length suf + Nat.b2n (market_discovery_attempted st) <= 1)%nat
            /\ (length suf + Nat.b2n (market_discovery_attempted st)
                <= Nat.b2n a)%nat
            /\ fetch_market_by_token_id (conn w1) (Some tok) = Ok m) as Hsuf.
  { destruct Q3 as [(Hj & Hc & -> & Hf & _) | (Hj & Ha & _ & _ & -> & Hf)].
    - exists []. rewrite app_nil_r, Hc. repeat split; auto.
      all: destruct (market_discovery_attempted st); cbn; lia.
    - eexists. split; [exact Hj|]. rewrite Ha. repeat split; auto. }
  destruct Hsuf as (suf & Hj & Hmiss & Hle & Hle' & Hf).
  destruct m as [m|].
  - (* a market: the rest of the iteration does not touch the world *)
    destruct (_int_token (m_yes_token_id m)) as [yes|e]; cbn [fst snd].
    2:{ split; [exact Q1|]. split; [exact Q2|]. split; [discriminate|].
        exists suf. repeat split; auto. }
    set (out := if bool_decide (Some tok = yes) then _ else _).
    assert ((out w1).2 = w1) as Hout.
    { subst out. destruct (bool_decide (Some tok = yes)); [reflexivity|].
      destruct (_int_token (m_no_token_id m)); reflexivity. }
    destruct (out w1) as [[o|e] w2]; cbn [fst snd] in *; subst w2.
    2:{ split; [exact Q1|]. split; [exact Q2|]. split; [discriminate|].
        exists suf. repeat split; auto. }
    destruct (_get_block_timestamp_iso env (timestamp_cache st)
                (block_number d)) as [[ts cache]|e]; cbn [fst snd ret].
    2:{ split; [exact Q1|]. split; [exact Q2|]. split; [discriminate|].
        exists suf. repeat split; auto. }
    split; [exact Q1|]. split; [exact Q2|]. split; [discriminate|].
    exists suf. cbn [market_discovery_attempted to_insert].
    repeat split; auto.
    + eexists. split; [reflexivity|]. cbn; lia.
    + intros d0 tok0 [= <-] Ht0. rewrite Ht in Ht0.
      injection Ht0 as <-. rewrite Hf. discriminate.
  - cbn [ret fst snd].
    split; [exact Q1|]. split; [exact Q2|]. split; [discriminate|].
    exists suf. cbn [market_discovery_attempted to_insert].
    repeat split; auto.
    exists []. rewrite app_nil_r. split; [reflexivity | cbn; lia].
Qed.

(** The whole loop. *)
Lemma process_logs_spec env slug logs : forall st w,
  let r := (process_logs env slug st logs w).1 in
  let w' := (process_logs env slug st logs w).2 in
  trades (conn w') = trades (conn w)
  /\ sync_state (conn w') = sync_state (conn w)
  /\ ((exists l e, In l logs /\ decode_order_filled_log l = Raise e) ->
      exists e', r = Raise e')
  /\ exists suf,
       journal w' = journal w ++ suf
       /\ Forall (fun e => Spec.is_miss_discovery e = true) suf
       /\ (length suf + Nat.b2n (market_discovery_attempted st) <= 1)%nat
       /\ match r with
          | Ok st' =>
              (length suf + Nat.b2n (market_discovery_attempted st)
               <= Nat.b2n (market_discovery_attempted st'))%nat
              /\ (length (to_insert st')
                  <= length (to_insert st) + length logs)%nat
          | Raise _ => True
          end.
Proof.
  induction logs as [|log logs IH]; intros st w; cbn [process_logs].
  - cbn. split; [reflexivity|]. split; [reflexivity|].
    split; [intros (l & e & [] & _)|].
    exists []. rewrite app_nil_r. repeat split; auto.
    all: destruct (market_discovery_attempted st); cbn; lia.
  - unfold bindM.
    pose proof (process_log_spec env slug st log w) as (P1 & P2 & P3 & P4).
    cbn zeta in P3, P4.
    destruct (process_log env slug st log w) as [[st1|e1] w1];
      cbn [fst snd] in *.
    + specialize (IH st1 w1). cbn zeta in IH.
      destruct IH as (I1 & I2 & I3 & I4).
      destruct (process_logs env slug st1 logs w1) as [r2 w2];
        cbn [fst snd] in *.
      split; [congruence|]. split; [congruence|]. split.
      * intros (l & e & [<-|Hin] & Hl).
        -- destruct (P3 e Hl) as [[=] _].
        -- apply I3. eauto.
      * destruct P4 as (s1 & J1 & M1 & _ & L1 & (new & Hnew & Hlen) & _).
        destruct I4 as (s2 & J2 & M2 & L2 & R2).
        exists (s1 ++ s2).
        split; [rewrite J2, J1, app_assoc; reflexivity|].
        split; [apply Forall_app; auto|].
        rewrite length_app. split; [lia|].
        destruct r2 as [st2|]; [|exact I].
        destruct R2 as [R2 R3]. split; [lia|].
        rewrite Hnew, length_app in R3. cbn [length]. lia.
    + split; [exact P1|]. split; [exact P2|].
      split; [eauto|].
      destruct P4 as (s1 & J1 & M1 & L1 & _).
      exists s1. repeat split; auto.
Qed.

Lemma update_sync_state_spec now c key b c' :
  update_sync_state now c key b = Ok c' ->
  get_sync_state c' key = Some b /\ trades c' = trades c.
Proof.
  unfold update_sync_state, bind_int.
  destruct (between _ _ b); cbn [bind]; [|discriminate].
  intros [= <-]. unfold get_sync_state; cbn.
  rewrite lookup_insert_eq. split; reflexivity.
Qed.

Lemma insert_trades_frame now c ts n c' :
  insert_trades now c ts = Ok (n, c') -> sync_state c' = sync_state c.
Proof.
  unfold insert_trades. destruct ts; [intros [= <- <-]; reflexivity|].
  destruct (all_params _); cbn [bind]; [|discriminate].
  destruct (executemany _ _ _) as [[rows k]|]; cbn [bind]; [|discriminate].
  intros [= <- <-]. reflexivity.
Qed.

(** The shape of every run: the journal gains the start-up discovery,
    at most one discovery on a cache miss, and then, in this order, the
    batch insert and the cursor write; a run that raises has not written
    the cursor, and a run that meets a log it cannot decode raises before
    the batch insert. *)
Lemma run_indexer_outcome env settings from_block to_block
    exchange_address neg_risk_exchange include_exchange include_neg_risk
    event_slug w r w' :
  run_indexer env settings from_block to_block exchange_address
    neg_risk_exchange include_exchange include_neg_risk event_slug w
  = (r, w') ->
  exists suf,
    Forall (fun e => Spec.is_miss_discovery e = true) suf
    /\ (length suf <= 1)%nat
    /\ match r with
       | Ok s =>
           exists n,
             journal w'
             = journal w ++ DiscoverCalled AtStart event_slug :: suf
                 ++ [TradesInserted n (r_inserted_trades s);
                     CursorWritten "trade_sync" to_block]
             /\ get_sync_state (conn w') "trade_sync" = Some to_block
       | Raise _ =>
           sync_state (conn w') = sync_state (conn w)
           /\ ((journal w'
                = journal w ++ DiscoverCalled AtStart event_slug :: suf
                /\ trades (conn w') = trades (conn w))
               \/ exists n k,
                    journal w'
                    = journal w ++ DiscoverCalled AtStart event_slug :: suf
                        ++ [TradesInserted n k])
       end
    /\ (forall addrs logs l e,
          enabled_addresses env exchange_address neg_risk_exchange
            include_exchange include_neg_risk = Ok addrs ->
          _collect_logs env addrs from_block to_block
            (Z.max 1 (log_chunk_size settings)) = Ok logs ->
          In l logs ->
          decode_order_filled_log l = Raise e ->
          (exists e', r = Raise e')
          /\ trades (conn w') = trades (conn w)
          /\ journal w'
             = journal w ++ DiscoverCalled AtStart event_slug :: suf).
Proof.
  unfold run_indexer, bindM, log_effect.
  set (w0 := {| conn := conn w; gamma_calls := gamma_calls w;
                clock_reads := clock_reads w;
                journal := journal w ++ [DiscoverCalled AtStart event_slug] |}).
  assert (journal w0 = journal w ++ [DiscoverCalled AtStart event_slug]) as J0
    by reflexivity.
  assert (trades (conn w0) = trades (conn w)) as T0 by reflexivity.
  assert (sync_state (conn w0) = sync_state (conn w)) as S0 by reflexivity.
  clearbody w0.
  pose proof (keeps_quiet_discover_markets env event_slug w0) as (Q1 & Q2 & Q3).
  destruct (discover_markets env event_slug w0) as [[disc|e] w1];
    cbn [fst snd] in *.
  2:{ intros [= <- <-].
      exists []. split; [constructor|]. split; [cbn; lia|]. split.
      - split; [congruence|]. left. split; [|congruence].
        rewrite Q3, J0. reflexivity.
      - intros. split; [eauto|]. split; [congruence|].
        rewrite Q3, J0. reflexivity. }
  assert (journal w1 = journal w ++ [DiscoverCalled AtStart event_slug]) as J1
    by congruence.
  assert (trades (conn w1) = trades (conn w)) as T1 by congruence.
  assert (sync_state (conn w1) = sync_state (conn w)) as S1 by congruence.
  clear Q1 Q2 Q3 J0 T0 S0.
  unfold lift at 1.
  destruct (enabled_addresses env exchange_address neg_risk_exchange
              include_exchange include_neg_risk) as [addrs|e] eqn:Ha.
  2:{ intros [= <- <-].
      exists []. split; [constructor|]. split; [cbn; lia|]. split.
      - split; [congruence|]. left. split; [|congruence]. exact J1.
      - intros ? ? ? ? [=]. }
  destruct addrs as [|a0 addrs].
  { cbn [lift]. intros [= <- <-].
    exists []. split; [constructor|]. split; [cbn; lia|]. split.
    - split; [congruence|]. left. split; [|congruence]. exact J1.
    - intros ? ? ? ? [= <-]. split; [eauto|]. split; [congruence|]. exact J1. }
  unfold lift at 1.
  destruct (_collect_logs env (a0 :: addrs) from_block to_block
              (Z.max 1 (log_chunk_size settings))) as [logs|e] eqn:Hl.
  2:{ intros [= <- <-].
      exists []. split; [constructor|]. split; [cbn; lia|]. split.
      - split; [congruence|]. left. split; [|congruence]. exact J1.
      - intros ? ? ? ? [= <-]. rewrite Hl. intros [=]. }
  set (st0 := {| timestamp_cache := ∅; market_discovery_attempted := false;
                 to_insert := [] |}).
  pose proof (process_logs_spec env event_slug logs st0 w1)
    as (L1 & L2 & L3 & (suf & LJ & LM & LL & LR)).
  cbn zeta in *.
  destruct (process_logs env event_slug st0 logs w1) as [[st|e] w2];
    cbn [fst snd] in *.
  2:{ intros [= <- <-].
      exists suf. split; [exact LM|]. split; [cbn in LL; lia|]. split.
      - split; [congruence|]. left. split; [|congruence].
        rewrite LJ, J1, <- app_assoc. reflexivity.
      - intros. split; [eauto|]. split; [congruence|].
        rewrite LJ, J1, <- app_assoc. reflexivity. }
  assert (journal w2 = journal w ++ DiscoverCalled AtStart event_slug :: suf)
    as J2 by (rewrite LJ, J1, <- app_assoc; reflexivity).
  assert (forall addrs' logs' l e,
            Ok (a0 :: addrs) = Ok addrs' ->
            _collect_logs env addrs' from_block to_block
              (Z.max 1 (log_chunk_size settings)) = Ok logs' ->
            In l logs' -> decode_order_filled_log l = Raise e -> False)
    as Hbad.
  { intros ? ? ? ? [= <-]. rewrite Hl. intros [= <-] Hin Hdec.
    destruct L3 as [e' [=]]. eauto. }
  unfold read_clock at 1. unfold on_conn at 1.
  cbn [conn gamma_calls clock_reads journal].
  match goal with
  | |- context [insert_trades ?now ?c ?ts] =>
      destruct (insert_trades now c ts) as [[n c3]|e] eqn:Hi
  end.
  2:{ intros [= <- <-]. cbn [conn journal].
      exists suf. split; [exact LM|]. split; [cbn in LL; lia|]. split.
      - split; [congruence|]. left. split; [exact J2 | congruence].
      - intros. exfalso. eapply Hbad; eassumption. }
  pose proof (insert_trades_frame _ _ _ _ _ Hi) as S3.
  unfold read_clock at 1. unfold on_conn at 1.
  cbn [conn gamma_calls clock_reads journal].
  match goal with
  | |- context [update_sync_state ?now ?c ?k ?b] =>
      destruct (update_sync_state now c k b) as [c4|e] eqn:Hu
  end; cbn [bind ret conn journal]; intros [= <- <-]; cbn [conn journal];
    (exists suf; split; [exact LM|]; split; [cbn in LL; lia|]; split;
     [|intros; exfalso; eapply Hbad; eassumption]).
  - apply update_sync_state_spec in Hu as [Hu _].
    exists (length (to_insert st)). cbn [r_inserted_trades].
    split; [|exact Hu].
    rewrite J2, <- !app_assoc. reflexivity.
  - split; [congruence|]. right. eexists _, _.
    rewrite J2, <- app_assoc. reflexivity.
Qed.

Lemma count_app p a b :
  Spec.count p (a ++ b) = (Spec.count p a + Spec.count p b)%nat.
Proof. unfold Spec.count. rewrite List.filter_app, length_app. reflexivity. Qed.

Lemma count_miss_only suf :
  Forall (fun e => Spec.is_miss_discovery e = true) suf ->
  Spec.count Spec.is_miss_discovery suf = length suf
  /\ Spec.count Spec.is_cursor_write suf = 0%nat
  /\ Spec.count Spec.is_trades_insert suf = 0%nat.
Proof.
  unfold Spec.count. induction 1 as [|e suf He _ IH]; [auto|].
  destruct IH as (I1 & I2 & I3).
  destruct e as [[] ?| |]; try discriminate He. cbn.
  rewrite I1, I2, I3. auto.
Qed.

Lemma int_of_str_raises base s e :
  int_of_str base s = Raise e -> e = invalid_literal.
Proof.
  unfold int_of_str.
  repeat match goal with
         | |- context [match ?x with _ => _ end] => destruct x
         | |- context [if ?x then _ else _] => destruct x
         end; congruence.
Qed.

Lemma parse_words_length l : forall ws,
  parse_words l = Ok ws -> length ws = length l.
Proof.
  induction l as [|s l IH]; cbn; intros ws.
  - intros [= <-]. reflexivity.
  - destruct (int_of_str 16 s); cbn [bind]; [|discriminate].
    destruct (parse_words l); cbn [bind]; [|discriminate].
    intros [= <-]. cbn. f_equal. apply IH. reflexivity.
Qed.

Lemma parse_words_raises l e :
  parse_words l = Raise e -> e = invalid_literal.
Proof.
  induction l as [|s l IH]; cbn; [discriminate|].
  destruct (int_of_str 16 s) eqn:E; cbn [bind].
  - destruct (parse_words l); cbn [bind]; [discriminate|].
    intros [= <-]. apply IH. reflexivity.
  - intros [= <-]. eapply int_of_str_raises. eassumption.
Qed.

Lemma slices64_length n : forall s, length (slices64 n s) = n.
Proof. induction n; cbn; intros; [|rewrite IHn]; reflexivity. Qed.

(** A malformed log makes the decoder raise [ValueError]. *)
Lemma malformed_raises log :
  Spec.malformed log = true ->
  exists msg, decode_order_filled_log log = Raise (ValueError msg).
Proof.
  unfold Spec.malformed, decode_order_filled_log, _chunk_data_words.
  set (d := default "0x" (data log)).
  set (payload := if startswith "0x" d then drop 2 d else d).
  intros H.
  destruct (topics log) as [|t0 [|t1 [|t2 ts]]]; eauto.
  cbn [length] in H.
  replace (S (S (S (length ts))) <? 3)%nat with false in H
    by (symmetry; apply Nat.ltb_ge; lia).
  cbn [orb] in H.
  destruct (negb (len payload mod 64 =? 0)) eqn:Ha; cbn [bind]; eauto.
  cbn [orb] in H. apply Z.ltb_lt in H.
  destruct (parse_words _) as [ws|e] eqn:Hp; cbn [bind].
  - apply parse_words_length in Hp. rewrite slices64_length in Hp.
    assert (length ws < 6)%nat as Hlen.
    { rewrite Hp. unfold len in H.
      apply Nat2Z.inj_lt. rewrite Nat2Z.inj_div. exact H. }
    destruct ws as [|? [|? [|? [|? [|? [|? ?]]]]]]; eauto.
    cbn in Hlen. lia.
  - apply parse_words_raises in Hp as ->. unfold invalid_literal. eauto.
Qed.

(** C1, as amended: when one of the fetched logs is malformed (or fails
    decoding for any other reason), the run raises: nothing is inserted
    into [trades], the cursor is not written, and the journal records
    neither a batch insert nor a cursor write. *)
Theorem C1_malformed_log_aborts_run
    (env : Env) (settings : Settings) (from_block to_block : Z)
    (exchange_address neg_risk_exchange : string)
    (include_exchange include_neg_risk : bool)
    (event_slug : option string) (w : World)
    (addrs : list string) (logs : list RawLog) (l : RawLog) :
  enabled_addresses env exchange_address neg_risk_exchange
    include_exchange include_neg_risk = Ok addrs ->
  _collect_logs env addrs from_block to_block
    (Z.max 1 (log_chunk_size settings)) = Ok logs ->
  In l logs ->
  (Spec.malformed l = true \/ exists e, decode_order_filled_log l = Raise e) ->
  let run := run_indexer env settings from_block to_block exchange_address
               neg_risk_exchange include_exchange include_neg_risk
               event_slug w in
  (exists e', run.1 = Raise e')
  /\ trades (conn run.2) = trades (conn w)
  /\ sync_state (conn run.2) = sync_state (conn w)
  /\ Spec.count Spec.is_trades_insert (journal run.2)
     = Spec.count Spec.is_trades_insert (journal w)
  /\ Spec.count Spec.is_cursor_write (journal run.2)
     = Spec.count Spec.is_cursor_write (journal w).
Proof.
  intros Ha Hl Hin Hbad run.
  assert (exists e, decode_order_filled_log l = Raise e) as [e He].
  { destruct Hbad as [Hm|He]; [|exact He].
    destruct (malformed_raises l Hm) as [msg Hmsg]. eauto. }
  destruct run as [r w'] eqn:Hrun. cbn [fst snd].
  destruct (run_indexer_outcome _ _ _ _ _ _ _ _ _ _ _ _ Hrun)
    as (suf & Hmiss & _ & Hr & Hlog).
  destruct (Hlog _ _ _ _ Ha Hl Hin He) as ([e' ->] & Ht & Hj).
  destruct Hr as [Hs _].
  destruct (count_miss_only suf Hmiss) as (_ & C2 & C3).
  split; [eauto|]. split; [exact Ht|]. split; [exact Hs|].
  rewrite Hj.
  change (DiscoverCalled AtStart event_slug :: suf)
    with ([DiscoverCalled AtStart event_slug] ++ suf).
  rewrite !count_app, C2, C3. cbn. split; lia.
Qed.

Lemma C1_malformed_log_aborts_run_witness :
  let run := run_indexer
               (Fixtures.env_with 500
                  [Fixtures.misaligned_log; Fixtures.buy_log]
                  [Some Fixtures.market_555])
               Fixtures.settings 90 110 "0xE" "" true true (Some "rain")
               Fixtures.world0 in
  (exists e', run.1 = Raise e') /\ trades (conn run.2) = [].
Proof.
  intros run.
  destruct (C1_malformed_log_aborts_run
              (Fixtures.env_with 500
                 [Fixtures.misaligned_log; Fixtures.buy_log]
                 [Some Fixtures.market_555])
              Fixtures.settings 90 110 "0xE" "" true true (Some "rain")
              Fixtures.world0 ["0xE"]
              [Fixtures.misaligned_log; Fixtures.buy_log]
              Fixtures.misaligned_log)
    as (H1 & H2 & _).
  - reflexivity.
  - reflexivity.
  - left; reflexivity.
  - left; reflexivity.
  - split; [exact H1 | exact H2].
Defined.

(** C1 as stated fails: a run over a misaligned log followed by the
    well-formed fill raises [ValueError] instead of skipping the first
    log; the fill is not persisted and the cursor is not written. *)
Lemma C1_counterexample_run_aborts :
  let run := run_indexer
               (Fixtures.env_with 500
                  [Fixtures.misaligned_log; Fixtures.buy_log]
                  [Some Fixtures.market_555])
               Fixtures.settings 90 110 "0xE" "" true true (Some "rain")
               Fixtures.world0 in
  Spec.malformed Fixtures.misaligned_log = true
  /\ is_ok (decode_order_filled_log Fixtures.buy_log) = true
  /\ run.1 = Raise (ValueError "unexpected log data length")
  /\ trades (conn run.2) = []
  /\ get_sync_state (conn run.2) "trade_sync" = None.
Proof. vm_compute. repeat split. Qed.

(** C8: over a whole run, discovery is called on a cache miss at most
    once; once it has been attempted an iteration leaves the store and
    the journal alone; and an iteration whose token id has no market in
    the store after it (after the discovery attempt, if one was made) adds
    nothing to the batch. *)
Theorem C8_discovery_at_most_once
    (env : Env) (settings : Settings) (from_block to_block : Z)
    (exchange_address neg_risk_exchange : string)
    (include_exchange include_neg_risk : bool)
    (event_slug : option string) (w : World) :
  let run := run_indexer env settings from_block to_block exchange_address
               neg_risk_exchange include_exchange include_neg_risk
               event_slug w in
  (Spec.count Spec.is_miss_discovery (journal run.2)
   <= Spec.count Spec.is_miss_discovery (journal w) + 1)%nat
  /\ (forall st log w0,
        market_discovery_attempted st = true ->
        let it := process_log env event_slug st log w0 in
        journal it.2 = journal w0 /\ conn it.2 = conn w0)
  /\ (forall st log w0 st' w1 d tok,
        process_log env event_slug st log w0 = (Ok st', w1) ->
        decode_order_filled_log log = Ok d ->
        _int_token (Some (token_id d)) = Ok (Some tok) ->
        fetch_market_by_token_id (conn w1) (Some tok) = Ok None ->
        to_insert st' = to_insert st).
Proof.
  intros run. split; [|split].
  - destruct run as [r w'] eqn:Hrun. cbn [fst snd].
    destruct (run_indexer_outcome _ _ _ _ _ _ _ _ _ _ _ _ Hrun)
      as (suf & Hmiss & Hlen & Hr & _).
    destruct (count_miss_only suf Hmiss) as (C1 & _ & _).
    assert (forall tl,
              Spec.count Spec.is_miss_discovery tl = 0%nat ->
              (Spec.count Spec.is_miss_discovery
                 (journal w ++ DiscoverCalled AtStart event_slug :: suf ++ tl)
               <= Spec.count Spec.is_miss_discovery (journal w) + 1)%nat)
      as Hshape.
    { intros tl Htl.
      change (DiscoverCalled AtStart event_slug :: suf ++ tl)
        with ([DiscoverCalled AtStart event_slug] ++ suf ++ tl).
      rewrite !count_app, C1, Htl. cbn. lia. }
    destruct r as [s|e].
    + destruct Hr as (n & -> & _). apply Hshape. reflexivity.
    + destruct Hr as (_ & [[-> _] | (n & k & ->)]).
      * rewrite <- (app_nil_r suf). apply Hshape. reflexivity.
      * apply Hshape. reflexivity.
  - intros st log w0 Hatt it.
    unfold it, process_log, bindM, lift.
    destruct (decode_order_filled_log log) as [d|?]; cbn [fst snd]; [|auto].
    destruct (_int_token _) as [[tok|]|]; cbn [ret fst snd]; auto.
    pose proof (ensure_market_cached_spec env (Some tok) event_slug
                  (market_discovery_attempted st) w0) as (_ & _ & Q).
    cbn zeta in Q. rewrite Hatt in *.
    destruct Q as [(Hj & Hc & _) | (_ & [=] & _)].
    destruct (_ensure_market_cached env (Some tok) event_slug true w0)
      as [[[m att]|e] w1]; cbn [fst snd] in *; [|auto].
    destruct m as [m|]; [|auto].
    destruct (_int_token (m_yes_token_id m)); cbn [fst snd]; [|auto].
    destruct (bool_decide _); cbn [ret fst snd].
    + destruct (_get_block_timestamp_iso _ _ _) as [[]|]; auto.
    + destruct (_int_token (m_no_token_id m)); cbn [ret fst snd]; [|auto].
      destruct (_get_block_timestamp_iso _ _ _) as [[]|]; auto.
  - intros st log w0 st' w1 d tok Hp Hd Ht Hf.
    pose proof (process_log_spec env event_slug st log w0) as (_ & _ & _ & H).
    cbn zeta in H. rewrite Hp in H. cbn [fst snd] in H.
    destruct H as (suf & _ & _ & _ & _ & _ & Hskip).
    eapply Hskip; eassumption.
Qed.

Lemma C8_discovery_at_most_once_witness :
  let it := process_log (Fixtures.env_with 500 [] [Some Fixtures.market_555])
      (Some "rain") Fixtures.loop0 Fixtures.unknown_log Fixtures.world0 in
  match it.1 with
  | Ok st' => to_insert st' = [] /\ journal it.2 = [DiscoverCalled OnCacheMiss (Some "rain")]
  | Raise _ => False
  end.
Proof.
  intros it.
  destruct it as [r w1] eqn:E. 
  vm_compute in E.
  injection E as <- <-. cbn [fst snd].
  split; [|reflexivity].
  eapply (proj2 (proj2 (C8_discovery_at_most_once
                          (Fixtures.env_with 500 [] [Some Fixtures.market_555])
                          Fixtures.settings 90 110 "0xE" "" true true
                          (Some "rain") Fixtures.world0))
            Fixtures.loop0 Fixtures.unknown_log Fixtures.world0).
  - vm_compute; reflexivity.
  - vm_compute; reflexivity.
  - vm_compute; reflexivity.
  - vm_compute; reflexivity.
Defined.

(** ** Characters and numerals *)

Lemma code_range c : 0 <= code c < 256.
Proof.
  unfold code. pose proof (N_ascii_bounded c). lia.
Qed.

Lemma code_chr z : 0 <= z < 256 -> code (chr z) = z.
Proof.
  intros H. unfold code, chr. rewrite N_ascii_embedding by lia. lia.
Qed.

Lemma code_inj a b : code a = code b -> a = b.
Proof.
  unfold code. intros H. apply N2Z.inj in H.
  rewrite <- (ascii_N_embedding a), <- (ascii_N_embedding b), H. reflexivity.
Qed.

Lemma eqb_code a b : Ascii.eqb a b = (code a =? code b).
Proof.
  destruct (Ascii.eqb_spec a b) as [->|Hne].
  - symmetry. apply Z.eqb_refl.
  - symmetry. apply Z.eqb_neq. intros H. apply Hne, code_inj, H.
Qed.

(** A check on the 36 digits is a check on every digit. *)
Lemma all_digits (f : Z -> bool) :
  forallb f (map Z.of_nat (seq 0 36)) = true ->
  forall d, 0 <= d < 36 -> f d = true.
Proof.
  intros H d Hd. rewrite forallb_forall in H. apply H.
  apply in_map_iff. exists (Z.to_nat d). split; [lia|].
  apply in_seq. lia.
Qed.

Lemma digit_value_char d : 0 <= d < 36 -> digit_value (digit_char d) = d.
Proof.
  intros H. apply Z.eqb_eq.
  apply (all_digits (fun d => digit_value (digit_char d) =? d));
    [vm_compute; reflexivity | exact H].
Qed.

Lemma digit_char_not_underscore d :
  0 <= d < 36 -> Ascii.eqb (digit_char d) "_" = false.
Proof.
  intros H. apply negb_true_iff.
  apply (all_digits (fun d => negb (Ascii.eqb (digit_char d) "_")));
    [vm_compute; reflexivity | exact H].
Qed.

Lemma digit_char_not_trimmed d :
  0 <= d < 36 -> Spec.trimmed_char (digit_char d) = false.
Proof.
  intros H. apply negb_true_iff.
  apply (all_digits (fun d => negb (Spec.trimmed_char (digit_char d))));
    [vm_compute; reflexivity | exact H].
Qed.

Lemma digit_char_not_int_space d :
  0 <= d < 36 -> int_space (digit_char d) = false.
Proof.
  intros H. apply negb_true_iff.
  apply (all_digits (fun d => negb (int_space (digit_char d))));
    [vm_compute; reflexivity | exact H].
Qed.

Lemma digit_char_decimal d :
  0 <= d < 10 ->
  is_ascii_digit (digit_char d) = true /\ isdigit_char (digit_char d) = true.
Proof.
  intros H.
  pose proof (all_digits
    (fun d => (10 <=? d) || (is_ascii_digit (digit_char d)
                             && isdigit_char (digit_char d)))
    eq_refl d ltac:(lia)) as E.
  cbv beta in E. destruct (10 <=? d) eqn:E'; [lia|].
  apply andb_true_iff in E. exact E.
Qed.

(** ** Digits of a number *)

Lemma le_digits_spec base fuel : forall n,
  2 <= base -> 0 <= n < 2 ^ Z.of_nat fuel -> (1 <= fuel)%nat ->
  let l := le_digits base fuel n in
  Spec.le_value base l = n
  /\ Forall (fun d => 0 <= d < base) l
  /\ (1 <= length l)%nat
  /\ n < base ^ Z.of_nat (length l)
  /\ (0 < n -> base ^ (Z.of_nat (length l) - 1) <= n).
Proof.
  induction fuel as [|fuel IH]; intros n Hb Hn Hf; [lia|].
  cbn [le_digits]. destruct (n <? base) eqn:E.
  - apply Z.ltb_lt in E. cbn. repeat split; try lia.
    + constructor; [lia | constructor].
  - apply Z.ltb_ge in E.
    assert (1 <= n / base) as Hq by (apply Z.div_le_lower_bound; lia).
    assert (n / base < 2 ^ Z.of_nat fuel) as Hq'.
    { apply Z.div_lt_upper_bound; [lia|].
      rewrite Nat2Z.inj_succ, Z.pow_succ_r in Hn by lia. nia. }
    assert (1 <= fuel)%nat as Hf'.
    { destruct fuel; [cbn in Hq'; lia | lia]. }
    destruct (IH (n / base) Hb ltac:(lia) Hf') as (V & D & L & U & Lo).
    set (l := le_digits base fuel (n / base)) in *.
    pose proof (Z.div_mod n base ltac:(lia)) as Hdm.
    pose proof (Z.mod_pos_bound n base ltac:(lia)) as Hm.
    cbn [Spec.le_value length]. rewrite V.
    split; [lia|]. split; [constructor; [lia | exact D]|].
    split; [lia|].
    rewrite Nat2Z.inj_succ.
    split.
    + rewrite Z.pow_succ_r by lia. nia.
    + intros _. replace (Z.succ (Z.of_nat (length l)) - 1)
        with (Z.succ (Z.of_nat (length l) - 1)) by lia.
      rewrite Z.pow_succ_r by lia. specialize (Lo ltac:(lia)). nia.
Qed.

Lemma digit_fuel_enough n : 0 <= n -> n < 2 ^ Z.of_nat (digit_fuel n).
Proof.
  intros H. unfold digit_fuel.
  rewrite Nat2Z.inj_succ, Z2Nat.id by apply Z.log2_nonneg.
  destruct (Z.eq_dec n 0) as [->|Hn]; [cbn; lia|].
  apply Z.log2_spec. lia.
Qed.

(** The digits of [n]: their value, their range and their number. *)
Lemma digits_of base n :
  2 <= base -> 0 <= n ->
  let l := le_digits base (digit_fuel n) n in
  Spec.le_value base l = n
  /\ Forall (fun d => 0 <= d < base) l
  /\ (1 <= length l)%nat
  /\ n < base ^ Z.of_nat (length l)
  /\ (0 < n -> base ^ (Z.of_nat (length l) - 1) <= n).
Proof.
  intros Hb Hn. apply le_digits_spec; auto.
  - split; [lia | apply digit_fuel_enough; lia].
  - unfold digit_fuel. lia.
Qed.

(** ** Strings *)

Lemma append_cons c s t : String c s +:+ t = String c (s +:+ t).
Proof. reflexivity. Qed.

Lemma append_nil_l s : "" +:+ s = s.
Proof. reflexivity. Qed.

Lemma append_nil_r s : s +:+ "" = s.
Proof.
  induction s as [|c s IH]; [reflexivity|]. rewrite append_cons, IH.
  reflexivity.
Qed.

Lemma append_assoc s1 s2 s3 : (s1 +:+ s2) +:+ s3 = s1 +:+ (s2 +:+ s3).
Proof.
  induction s1 as [|c s1 IH]; [reflexivity|]. rewrite !append_cons, IH.
  reflexivity.
Qed.

Lemma length_append s1 s2 :
  String.length (s1 +:+ s2) = (String.length s1 + String.length s2)%nat.
Proof.
  induction s1 as [|c s1 IH]; [reflexivity|]. rewrite append_cons.
  cbn [String.length]. rewrite IH. reflexivity.
Qed.

Lemma all_chars_append p s1 s2 :
  all_chars p (s1 +:+ s2) = all_chars p s1 && all_chars p s2.
Proof.
  induction s1 as [|c s1 IH]; [reflexivity|].
  rewrite append_cons. cbn [all_chars]. rewrite IH, andb_assoc. reflexivity.
Qed.

Lemma be_string_append l : forall s,
  Spec.be_string l s = Spec.be_string l "" +:+ s.
Proof.
  unfold Spec.be_string.
  induction l as [|d l IH]; intros s; cbn [fold_left]; [reflexivity|].
  rewrite (IH (String (digit_char d) s)), (IH (String (digit_char d) "")),
    append_assoc.
  reflexivity.
Qed.

Lemma be_string_length l s :
  String.length (Spec.be_string l s) = (length l + String.length s)%nat.
Proof.
  revert s. unfold Spec.be_string.
  induction l as [|d l IH]; intros s; cbn [fold_left length]; [reflexivity|].
  rewrite IH. cbn. lia.
Qed.

Lemma be_string_all_chars p l s :
  Forall (fun d => p (digit_char d) = true) l ->
  all_chars p s = true ->
  all_chars p (Spec.be_string l s) = true.
Proof.
  unfold Spec.be_string. intros H. revert s.
  induction H as [|d l Hd _ IH]; intros s Hs; cbn [fold_left]; [exact Hs|].
  apply IH. cbn. rewrite Hd, Hs. reflexivity.
Qed.

(** A non-empty numeral starts with the character of one of its
    digits. *)
Lemma be_string_head l s :
  (1 <= length l)%nat ->
  exists d r, In d l /\ Spec.be_string l s = String (digit_char d) r.
Proof.
  unfold Spec.be_string. revert s.
  induction l as [|d l IH]; intros s Hl; [cbn in Hl; lia|].
  cbn [fold_left]. destruct l as [|d' l'].
  - exists d, s. split; [left; reflexivity | reflexivity].
  - destruct (IH (String (digit_char d) s) ltac:(cbn; lia)) as (x & r & Hx & E).
    exists x, r. split; [right; exact Hx | exact E].
Qed.

(** Reading a numeral back, digit by digit. *)
Lemma scan_be_string base l : forall s acc,
  base <= 36 ->
  Forall (fun d => 0 <= d < base) l ->
  scan_digits base (Spec.be_string l s) false acc
  = scan_digits base s false
      (acc * base ^ Z.of_nat (length l) + Spec.le_value base l).
Proof.
  unfold Spec.be_string.
  induction l as [|d l IH]; intros s acc Hb Hl; cbn [fold_left].
  - cbn. f_equal. lia.
  - inversion Hl as [|? ? Hd Hl']; subst.
    rewrite IH by assumption. cbn [scan_digits].
    rewrite digit_char_not_underscore, digit_value_char by lia.
    destruct (d <? base) eqn:E; [|lia].
    f_equal. cbn [length Spec.le_value].
    rewrite Nat2Z.inj_succ, Z.pow_succ_r by lia. ring.
Qed.

Lemma digits_value_be_string l : forall s acc,
  Forall (fun d => 0 <= d < 10) l ->
  PyDecimal.digits_value (Spec.be_string l s) acc
  = PyDecimal.digits_value s
      (acc * 10 ^ Z.of_nat (length l) + Spec.le_value 10 l).
Proof.
  unfold Spec.be_string.
  induction l as [|d l IH]; intros s acc Hl; cbn [fold_left].
  - cbn. f_equal. lia.
  - inversion Hl as [|? ? Hd Hl']; subst.
    rewrite IH by assumption. cbn [PyDecimal.digits_value].
    rewrite digit_value_char by lia.
    f_equal. cbn [length Spec.le_value].
    rewrite Nat2Z.inj_succ, Z.pow_succ_r by lia. ring.
Qed.

Lemma numeral_be base n :
  numeral base n = Spec.be_string (le_digits base (digit_fuel n) n) "".
Proof. reflexivity. Qed.

Lemma digit_char_not_sign d :
  0 <= d < 36 ->
  Ascii.eqb (digit_char d) "+" = false /\ Ascii.eqb (digit_char d) "-" = false.
Proof.
  intros H.
  pose proof (all_digits
    (fun d => negb (Ascii.eqb (digit_char d) "+")
              && negb (Ascii.eqb (digit_char d) "-")) eq_refl d H) as E.
  apply andb_true_iff in E as [E1 E2].
  apply negb_true_iff in E1, E2. auto.
Qed.

Lemma scan_numeral base l :
  base <= 36 ->
  Forall (fun d => 0 <= d < base) l ->
  scan_digits base (Spec.be_string l "") false 0
  = Some (Spec.le_value base l, "").
Proof.
  intros Hb Hl. rewrite scan_be_string by assumption.
  cbn [scan_digits]. rewrite Z.mul_0_l, Z.add_0_l. reflexivity.
Qed.

(** [int()] on a text that starts with a digit of the base and is not a
    prefixed literal: the digits are read from the first character. *)
Lemma int_of_str_digits base d r :
  base <= 36 -> 0 <= d < base ->
  (forall x r', r = String x r' ->
     Ascii.eqb (digit_char d) "0" && (base =? 16)
     && (Ascii.eqb x "x" || Ascii.eqb x "X") = false) ->
  int_of_str base (String (digit_char d) r)
  = match scan_digits base (String (digit_char d) r) false 0 with
    | Some (v, rest) =>
        match lstrip int_space rest with
        | EmptyString =>
            if negb (is_binary_base base)
               && (max_str_digits <? count_digits base (String (digit_char d) r))
            then Raise invalid_literal
            else Ok v
        | _ => Raise invalid_literal
        end
    | None => Raise invalid_literal
    end.
Proof.
  intros Hb Hd Hpre. unfold int_of_str. cbn [lstrip].
  rewrite digit_char_not_int_space by lia.
  destruct (digit_char_not_sign d ltac:(lia)) as [-> ->].
  assert (match r with
          | String x r0 =>
              if Ascii.eqb (digit_char d) "0" && (base =? 16)
                 && (Ascii.eqb x "x" || Ascii.eqb x "X")
              then match r0 with
                   | String u r' => if Ascii.eqb u "_" then r' else r0
                   | EmptyString => r0
                   end
              else String (digit_char d) r
          | EmptyString => String (digit_char d) r
          end = String (digit_char d) r) as ->.
  { destruct r as [|x r0]; [reflexivity|]. rewrite (Hpre x r0 eq_refl).
    reflexivity. }
  rewrite digit_char_not_underscore, digit_value_char by lia.
  destruct (d <? base) eqn:E; [|lia].
  destruct (scan_digits _ _ _ _) as [[v rest]|]; [|reflexivity].
  destruct (lstrip int_space rest); [|reflexivity].
  destruct (negb (is_binary_base base) && _); [reflexivity|].
  f_equal. lia.
Qed.

(** The digits counted in a numeral are its characters. *)
Lemma count_be_string base l : forall s,
  base <= 36 ->
  Forall (fun d => 0 <= d < base) l ->
  count_digits base (Spec.be_string l s)
  = Z.of_nat (length l) + count_digits base s.
Proof.
  unfold Spec.be_string.
  induction l as [|d l IH]; intros s Hb Hl; cbn [fold_left].
  - reflexivity.
  - inversion Hl as [|? ? Hd Hl']; subst.
    rewrite IH by assumption. cbn [count_digits].
    rewrite digit_char_not_underscore, digit_value_char by lia.
    destruct (d <? base) eqn:E; [|lia].
    cbn [length]. lia.
Qed.

Lemma count_numeral base n :
  2 <= base <= 36 -> 0 <= n ->
  count_digits base (numeral base n) = len (numeral base n).
Proof.
  intros Hb Hn.
  destruct (digits_of base n ltac:(lia) Hn) as (_ & D & _).
  unfold len. rewrite numeral_be, be_string_length.
  rewrite count_be_string by (try exact D; lia).
  cbn [count_digits String.length]. lia.
Qed.

(** A numeral has at most [k] digits exactly when the number is below
    [10 ^ k]. *)
Lemma numeral_len n k :
  0 <= n -> 1 <= k -> (len (numeral 10 n) <= k <-> n < 10 ^ k).
Proof.
  intros Hn Hk.
  destruct (digits_of 10 n ltac:(lia) Hn) as (_ & _ & L & U & Lo).
  unfold len. rewrite numeral_be, be_string_length.
  cbn [String.length]. rewrite Nat.add_0_r.
  set (m := Z.of_nat (length (le_digits 10 (digit_fuel n) n))) in *.
  split.
  - intros H. eapply Z.lt_le_trans; [exact U|].
    apply Z.pow_le_mono_r; lia.
  - intros H. destruct (Z.eq_dec n 0) as [->|Hne].
    + subst m. cbn. lia.
    + specialize (Lo ltac:(lia)).
      assert (10 ^ (m - 1) < 10 ^ k) as Hp by lia.
      apply Z.pow_lt_mono_r_iff in Hp; lia.
Qed.

(** The numerals within the limit of [str] and [int]. *)
Lemma str_within n :
  Z.abs n < 10 ^ max_str_digits -> str_ n = Ok (str_of_int n).
Proof.
  intros H. unfold str_.
  destruct (Z.ltb_spec max_str_digits (len (numeral 10 (Z.abs n))))
    as [Hl|_]; [|reflexivity].
  exfalso.
  pose proof (proj2 (numeral_len (Z.abs n) max_str_digits
                       (Z.abs_nonneg n) ltac:(unfold max_str_digits; lia)) H).
  lia.
Qed.

Lemma str_beyond n :
  10 ^ max_str_digits <= Z.abs n -> str_ n = Raise invalid_literal.
Proof.
  intros H. unfold str_.
  destruct (Z.ltb_spec max_str_digits (len (numeral 10 (Z.abs n))))
    as [_|Hl]; [reflexivity|].
  exfalso.
  pose proof (proj1 (numeral_len (Z.abs n) max_str_digits
                       (Z.abs_nonneg n) ltac:(unfold max_str_digits; lia)) Hl).
  lia.
Qed.

(** A 256-bit word, of either sign, is far within the limit. *)
Lemma word_within_limit w :
  Z.abs w < 2 ^ 256 -> Z.abs w < 10 ^ max_str_digits.
Proof.
  intros H. eapply Z.lt_le_trans; [exact H|].
  transitivity (10 ^ 256).
  - apply Z.pow_le_mono_l. lia.
  - apply Z.pow_le_mono_r; unfold max_str_digits; lia.
Qed.

Lemma str_word w :
  Z.abs w < 2 ^ 256 -> str_ w = Ok (str_of_int w).
Proof. intros H. apply str_within, word_within_limit, H. Qed.

(** [int(str(n))] gives [n] back within the digit limit, and raises
    beyond it. *)
Lemma int_of_numeral_cases n :
  0 <= n ->
  int_of_str 10 (numeral 10 n)
  = if max_str_digits <? len (numeral 10 n)
    then Raise invalid_literal else Ok n.
Proof.
  intros Hn.
  destruct (digits_of 10 n ltac:(lia) Hn) as (V & D & L & _ & _).
  rewrite <- (count_numeral 10 n) by lia.
  rewrite numeral_be.
  destruct (be_string_head _ "" L) as (d & r & Hd & E).
  pose proof (proj1 (List.Forall_forall _ _) D d Hd) as Hr. cbv beta in Hr.
  pose proof (scan_numeral 10 _ ltac:(lia) D) as Hs.
  rewrite V, E in Hs.
  rewrite E, int_of_str_digits, Hs by
    (try lia; intros; rewrite andb_false_r; reflexivity).
  reflexivity.
Qed.

Lemma int_of_numeral n :
  0 <= n < 10 ^ max_str_digits ->
  int_of_str 10 (numeral 10 n) = Ok n.
Proof.
  intros Hn. rewrite int_of_numeral_cases by lia.
  destruct (Z.ltb_spec max_str_digits (len (numeral 10 n))) as [Hl|_];
    [|reflexivity].
  exfalso.
  pose proof (proj2 (numeral_len n max_str_digits ltac:(lia)
                       ltac:(unfold max_str_digits; lia)) (proj2 Hn)).
  lia.
Qed.

Lemma int_of_hex_literal n :
  0 <= n -> int_of_str 16 ("0x" +:+ numeral 16 n) = Ok n.
Proof.
  intros Hn.
  destruct (digits_of 16 n ltac:(lia) Hn) as (V & D & L & _ & _).
  rewrite numeral_be.
  destruct (be_string_head _ "" L) as (d & r & Hd & E).
  pose proof (proj1 (List.Forall_forall _ _) D d Hd) as Hr. cbv beta in Hr.
  pose proof (scan_numeral 16 _ ltac:(lia) D) as Hs.
  rewrite V, E in Hs.
  rewrite E. unfold int_of_str.
  change ("0x" +:+ String (digit_char d) r)
    with (String "0" (String "x" (String (digit_char d) r))).
  cbn [lstrip].
  change (int_space "0") with false. cbv iota.
  change (Ascii.eqb "0" "+") with false.
  change (Ascii.eqb "0" "-") with false. cbv iota.
  change (Ascii.eqb "0" "0" && (16 =? 16)
          && (Ascii.eqb "x" "x" || Ascii.eqb "x" "X")) with true.
  cbv iota.
  rewrite digit_char_not_underscore by lia.
  rewrite digit_char_not_underscore, digit_value_char by lia.
  destruct (d <? 16) eqn:E'; [|lia].
  rewrite Hs. cbn [lstrip].
  change (negb (is_binary_base 16)) with false. cbn [andb]. f_equal. lia.
Qed.

(** ** Trimming *)

Lemma rstrip_cons p c r :
  rstrip p (String c r)
  = match rstrip p r with
    | EmptyString => if p c then EmptyString else String c EmptyString
    | r' => String c r'
    end.
Proof. reflexivity. Qed.

Lemma rstrip_last p r : forall c,
  p (Spec.last_char c r) = false -> rstrip p (String c r) = String c r.
Proof.
  induction r as [|c' r IH]; intros c H; rewrite rstrip_cons.
  - cbn in *. rewrite H. reflexivity.
  - cbn [Spec.last_char] in H. rewrite (IH c' H). reflexivity.
Qed.

Lemma strip_edge_clean p s :
  (forall c, p c = true -> Spec.trimmed_char c = true) ->
  Spec.edge_clean s = true -> strip p s = s.
Proof.
  intros Hp. destruct s as [|c r]; [reflexivity|]. cbn [Spec.edge_clean].
  intros H. apply andb_true_iff in H as [H1 H2].
  apply negb_true_iff in H1, H2.
  assert (forall x, Spec.trimmed_char x = false -> p x = false) as Hn.
  { intros x Hx. destruct (p x) eqn:E; [|reflexivity].
    apply Hp in E. congruence. }
  unfold strip. cbn [lstrip]. rewrite (Hn c H1).
  apply rstrip_last. apply Hn, H2.
Qed.

Lemma trim_edge_clean s :
  Spec.edge_clean s = true ->
  strip (Ascii.eqb squote) (strip (Ascii.eqb dquote) (strip isspace s)) = s.
Proof.
  intros H.
  rewrite (strip_edge_clean isspace), (strip_edge_clean (Ascii.eqb dquote)),
    (strip_edge_clean (Ascii.eqb squote)); auto;
    unfold Spec.trimmed_char; intros c ->;
    rewrite ?orb_true_r; reflexivity.
Qed.

Lemma all_chars_last p r : forall c,
  all_chars p (String c r) = true -> p (Spec.last_char c r) = true.
Proof.
  induction r as [|c' r IH]; intros c H; cbn in *.
  - apply andb_true_iff in H. tauto.
  - apply IH. apply andb_true_iff in H as [_ H]. exact H.
Qed.

Lemma ascii_digit_facts c :
  is_ascii_digit c = true ->
  Spec.trimmed_char c = false /\ isdigit_char c = true /\ c <> "x"%char.
Proof.
  destruct c as [[] [] [] [] [] [] [] []]; vm_compute; intros H;
    try discriminate H; repeat split; discriminate.
Qed.

Lemma all_digits_edge_clean s :
  all_chars is_ascii_digit s = true -> Spec.edge_clean s = true.
Proof.
  destruct s as [|c r]; [reflexivity|]. intros H.
  pose proof (all_chars_last _ _ _ H) as Hl.
  cbn in H. apply andb_true_iff in H as [Hc _].
  apply ascii_digit_facts in Hc as (Hc & _), Hl as (Hl & _).
  cbn [Spec.edge_clean]. rewrite Hc, Hl. reflexivity.
Qed.

Lemma all_digits_isdigit s :
  all_chars is_ascii_digit s = true -> all_chars isdigit_char s = true.
Proof.
  induction s as [|c s IH]; [reflexivity|]. cbn. intros H.
  apply andb_true_iff in H as [Hc Hs].
  apply ascii_digit_facts in Hc as (_ & -> & _). rewrite IH by exact Hs.
  reflexivity.
Qed.

Lemma startswith_0x s :
  startswith "0x" s
  = match s with
    | String a (String b _) => Ascii.eqb a "0" && Ascii.eqb b "x"
    | _ => false
    end.
Proof.
  destruct s as [|a [|b r]]; cbv [startswith String.prefix].
  - reflexivity.
  - destruct (ascii_dec "0" a); reflexivity.
  - destruct (ascii_dec "0" a) as [<-|Ha].
    + destruct (ascii_dec "x" b) as [<-|Hb]; [destruct r; reflexivity|].
      symmetry. apply Ascii.eqb_neq. congruence.
    + symmetry. apply andb_false_iff. left. apply Ascii.eqb_neq. congruence.
Qed.

Lemma all_digits_no_0x s :
  all_chars is_ascii_digit s = true -> startswith "0x" s = false.
Proof.
  rewrite startswith_0x. destruct s as [|a [|b r]]; try reflexivity.
  cbn [all_chars]. intros H.
  apply andb_true_iff in H as [_ H]. apply andb_true_iff in H as [H _].
  apply ascii_digit_facts in H as (_ & _ & H).
  apply andb_false_iff. right. apply Ascii.eqb_neq. exact H.
Qed.

(** The decimal numeral of [n >= 0]: digits only, at least one. *)
Lemma numeral_10_digits n :
  0 <= n ->
  all_chars is_ascii_digit (numeral 10 n) = true
  /\ exists c r, numeral 10 n = String c r.
Proof.
  intros Hn. destruct (digits_of 10 n ltac:(lia) Hn) as (_ & D & L & _ & _).
  rewrite numeral_be. split.
  - apply be_string_all_chars; [|reflexivity].
    eapply List.Forall_impl; [|exact D]. cbv beta. intros d Hd.
    apply digit_char_decimal. lia.
  - destruct (be_string_head _ "" L) as (d & r & _ & E). eauto.
Qed.

(** [normalize_token_id] leaves the text of an integer within the
    digit limit as it is. *)
Lemma normalize_str_of_int n :
  Z.abs n < 10 ^ max_str_digits ->
  normalize_token_id (Some (str_of_int n)) = Ok (Some (str_of_int n)).
Proof.
  intros Hlim. pose proof (str_within n Hlim) as Hstr.
  unfold str_of_int in *. destruct (n <? 0) eqn:E.
  - apply Z.ltb_lt in E.
    destruct (numeral_10_digits (- n) ltac:(lia)) as (Hd & c & r & Hs).
    unfold normalize_token_id.
    rewrite trim_edge_clean.
    + reflexivity.
    + cbn [Spec.edge_clean]. rewrite Hs.
      change (Spec.last_char "-" (String c r)) with (Spec.last_char c r).
      rewrite Hs in Hd. apply all_chars_last in Hd.
      apply ascii_digit_facts in Hd as (-> & _). reflexivity.
  - apply Z.ltb_ge in E.
    destruct (numeral_10_digits n E) as (Hd & c & r & Hs).
    unfold normalize_token_id.
    rewrite trim_edge_clean by (apply all_digits_edge_clean, Hd).
    rewrite all_digits_no_0x by exact Hd.
    unfold isdigit. rewrite all_digits_isdigit by exact Hd.
    rewrite int_of_numeral by lia. cbn [bind].
    unfold str_ in *. destruct (max_str_digits <? _); [discriminate|].
    cbn [bind]. unfold str_of_int. rewrite (proj2 (Z.ltb_ge n 0) E).
    rewrite Hs. reflexivity.
Qed.

Lemma normalize_hex_literal n :
  0 <= n ->
  normalize_token_id (Some ("0x" +:+ numeral 16 n))
  = let* text := str_ n in Ok (Some text).
Proof.
  intros Hn. unfold normalize_token_id.
  destruct (digits_of 16 n ltac:(lia) Hn) as (_ & D & L & _ & _).
  assert (Spec.edge_clean ("0x" +:+ numeral 16 n) = true) as Hc.
  { rewrite numeral_be, be_string_append, append_nil_r.
    destruct (le_digits 16 (digit_fuel n) n) as [|d l] eqn:El;
      [cbn in L; lia|].
    (* the last character is the character of the least significant digit *)
    unfold Spec.be_string. cbn [fold_left].
    fold (Spec.be_string l (String (digit_char d) "")).
    rewrite be_string_append.
    change ("0x" +:+ Spec.be_string l "" +:+ String (digit_char d) "")
      with (String "0" (String "x"
              (Spec.be_string l "" +:+ String (digit_char d) ""))).
    cbn [Spec.edge_clean].
    assert (forall s c0, Spec.last_char c0 (s +:+ String (digit_char d) "")
                         = digit_char d) as Hlast.
    { induction s as [|x s IH]; intros c0; [reflexivity|].
      rewrite append_cons. cbn [Spec.last_char]. apply IH. }
    cbn [Spec.last_char]. rewrite Hlast.
    inversion D; subst. rewrite digit_char_not_trimmed by lia.
    reflexivity. }
  rewrite trim_edge_clean by exact Hc.
  change ("0x" +:+ numeral 16 n) with (String "0" (String "x" (numeral 16 n))).
  cbv iota.
  rewrite startswith_0x.
  change (Ascii.eqb "0" "0" && Ascii.eqb "x" "x") with true. cbv iota.
  change (String "0" (String "x" (numeral 16 n))) with ("0x" +:+ numeral 16 n).
  rewrite int_of_hex_literal by exact Hn. reflexivity.
Qed.

(** What [str] returns, and when. *)
Lemma str_Ok n text :
  str_ n = Ok text ->
  text = str_of_int n /\ Z.abs n < 10 ^ max_str_digits.
Proof.
  unfold str_.
  destruct (Z.ltb_spec max_str_digits (len (numeral 10 (Z.abs n))))
    as [|Hl]; [discriminate|].
  intros [= <-]. split; [reflexivity|].
  apply (numeral_len (Z.abs n) max_str_digits (Z.abs_nonneg n)); [|exact Hl].
  unfold max_str_digits. lia.
Qed.

(** [normalize_token_id] applied twice gives what it gives once
    whenever the first result does not begin or end with white space or a
    quote character. *)
Lemma normalize_twice_clean x :
  (forall y, normalize_token_id (Some x) = Ok (Some y) ->
             Spec.edge_clean y = true) ->
  bind (normalize_token_id (Some x)) normalize_token_id
  = normalize_token_id (Some x).
Proof.
  intros Hclean.
  destruct (normalize_token_id (Some x)) as [[y|]|e] eqn:E; cbn [bind];
    [|reflexivity..].
  specialize (Hclean y eq_refl).
  unfold normalize_token_id in E.
  set (v := strip (Ascii.eqb squote) _) in E.
  destruct v as [|c r] eqn:Ev; [discriminate|].
  destruct (startswith "0x" (String c r)) eqn:Hx.
  { destruct (int_of_str 16 (String c r)) as [n|]; cbn [bind] in E;
      [|discriminate].
    destruct (str_ n) as [text|] eqn:Es; cbn [bind] in E; [|discriminate].
    injection E as <-. apply str_Ok in Es as [-> Hlim].
    apply normalize_str_of_int, Hlim. }
  destruct (isdigit (String c r)) eqn:Hd.
  { destruct (int_of_str 10 (String c r)) as [n|]; cbn [bind] in E;
      [|discriminate].
    destruct (str_ n) as [text|] eqn:Es; cbn [bind] in E; [|discriminate].
    injection E as <-. apply str_Ok in Es as [-> Hlim].
    apply normalize_str_of_int, Hlim. }
  injection E as <-.
  unfold normalize_token_id. rewrite trim_edge_clean by exact Hclean.
  rewrite Hx, Hd. reflexivity.
Qed.

(** The decimal text of [n >= 0] is normalized to itself within the
    digit limit and refused beyond it. *)
Lemma normalize_numeral_cases n :
  0 <= n ->
  normalize_token_id (Some (numeral 10 n))
  = if max_str_digits <? len (numeral 10 n)
    then Raise invalid_literal else Ok (Some (numeral 10 n)).
Proof.
  intros Hn.
  destruct (numeral_10_digits n Hn) as (Hd & c & r & Hs).
  unfold normalize_token_id.
  rewrite trim_edge_clean by (apply all_digits_edge_clean, Hd).
  rewrite all_digits_no_0x by exact Hd.
  unfold isdigit. rewrite all_digits_isdigit by exact Hd.
  rewrite int_of_numeral_cases by exact Hn.
  destruct (max_str_digits <? len (numeral 10 n)) eqn:El.
  - rewrite Hs. reflexivity.
  - cbn [bind]. unfold str_. rewrite (Z.abs_eq n Hn), El. cbn [bind].
    unfold str_of_int. rewrite (proj2 (Z.ltb_ge n 0) Hn).
    rewrite Hs. reflexivity.
Qed.

(** C7 as stated fails: trimming strips white space before quotes, so
    a quoted text with inner white space at its edge is normalized to a
    text that a second normalization changes. *)
Lemma C7_counterexample_not_idempotent :
  normalize_token_id (Some "' 7'") = Ok (Some " 7")
  /\ bind (normalize_token_id (Some "' 7'")) normalize_token_id
     = Ok (Some "7")
  /\ bind (normalize_token_id (Some "' 7'")) normalize_token_id
     <> normalize_token_id (Some "' 7'").
Proof.
  split; [reflexivity|]. split; [reflexivity|]. vm_compute. discriminate.
Qed.

(** ** Decimal arithmetic *)

Lemma ndigits_length c :
  PyDecimal.ndigits c = Z.of_nat (length (le_digits 10 (digit_fuel c) c)).
Proof.
  unfold PyDecimal.ndigits, len. rewrite numeral_be, be_string_length.
  cbn. f_equal. lia.
Qed.

Lemma ndigits_spec c :
  0 <= c ->
  1 <= PyDecimal.ndigits c
  /\ c < 10 ^ PyDecimal.ndigits c
  /\ (0 < c -> 10 ^ (PyDecimal.ndigits c - 1) <= c).
Proof.
  intros H. rewrite ndigits_length.
  destruct (digits_of 10 c ltac:(lia) H) as (_ & _ & L & U & Lo).
  split; [lia|]. split; assumption.
Qed.

Lemma pow10_pos k : 0 < 10 ^ k \/ k < 0.
Proof.
  destruct (Z_lt_le_dec k 0); [right; lia|left]. apply Z.pow_pos_nonneg; lia.
Qed.

Lemma pow10_gt0 k : 0 <= k -> 0 < 10 ^ k.
Proof. intros. apply Z.pow_pos_nonneg; lia. Qed.

Lemma pow10_add j k : 0 <= j -> 0 <= k -> 10 ^ (j + k) = 10 ^ j * 10 ^ k.
Proof. intros. apply Z.pow_add_r; lia. Qed.

Lemma pow10_le j k : 0 <= j <= k -> 10 ^ j <= 10 ^ k.
Proof. intros. apply Z.pow_le_mono_r; lia. Qed.

Lemma pow10_lt_inv j k : 0 <= k -> 10 ^ j < 10 ^ k -> j < k.
Proof.
  intros Hk H. destruct (Z_lt_le_dec j k); [assumption|].
  pose proof (pow10_le k j ltac:(lia)). lia.
Qed.

(** The number of digits is determined by the bracket of powers. *)
Lemma ndigits_unique c k :
  1 <= k -> 10 ^ (k - 1) <= c < 10 ^ k -> PyDecimal.ndigits c = k.
Proof.
  intros Hk [Hlo Hhi].
  assert (0 < c) as Hc by (pose proof (pow10_gt0 (k - 1)); lia).
  destruct (ndigits_spec c ltac:(lia)) as (H1 & H2 & H3).
  specialize (H3 Hc).
  assert (k - 1 < PyDecimal.ndigits c) by (apply pow10_lt_inv; lia).
  assert (PyDecimal.ndigits c - 1 < k) by (apply pow10_lt_inv; lia).
  lia.
Qed.

(** Stripping trailing zeros keeps the value. *)
Lemma strip_zeros_spec fuel : forall c e limit c' e',
  PyDecimal.strip_zeros fuel c e limit = (c', e') ->
  exists k, 0 <= k /\ c = c' * 10 ^ k /\ e' = e + k
            /\ (e < limit -> e' <= limit) /\ (limit <= e -> k = 0).
Proof.
  induction fuel as [|fuel IH]; intros c e limit c' e'; cbn [PyDecimal.strip_zeros].
  - intros [= <- <-]. exists 0. rewrite Z.pow_0_r. lia.
  - destruct ((e <? limit) && (c mod 10 =? 0)) eqn:E.
    + apply andb_true_iff in E as [E1 E2].
      apply Z.ltb_lt in E1. apply Z.eqb_eq in E2.
      intros H. destruct (IH _ _ _ _ _ H) as (k & Hk & Hc & He & Hl & Hl').
      exists (k + 1). rewrite pow10_add by lia. rewrite Z.pow_1_r.
      pose proof (Z.div_mod c 10 ltac:(lia)) as Hdm.
      repeat split; lia.
    + intros [= <- <-]. exists 0. rewrite Z.pow_0_r. lia.
Qed.

(** With enough fuel the stripped coefficient has no trailing zero
    unless the limit stopped the loop. *)
Lemma strip_zeros_done fuel : forall c e limit c' e',
  0 < c -> c < 10 ^ Z.of_nat fuel ->
  PyDecimal.strip_zeros fuel c e limit = (c', e') ->
  c' mod 10 <> 0 \/ limit <= e'.
Proof.
  induction fuel as [|fuel IH]; intros c e limit c' e' Hc Hf;
    cbn [PyDecimal.strip_zeros].
  - cbn in Hf. lia.
  - destruct (e <? limit) eqn:E1; cbn [andb].
    + destruct (c mod 10 =? 0) eqn:E2.
      * apply Z.eqb_eq in E2.
        pose proof (Z.div_mod c 10 ltac:(lia)) as Hdm.
        apply IH; [lia|].
        rewrite Nat2Z.inj_succ, Z.pow_succ_r in Hf by lia. lia.
      * intros [= <- <-]. left. apply Z.eqb_neq. exact E2.
    + intros [= <- <-]. right. apply Z.ltb_ge. exact E1.
Qed.

Lemma ndigits_le c p :
  0 < c -> 1 <= p -> (PyDecimal.ndigits c <= p <-> c < 10 ^ p).
Proof.
  intros Hc Hp. destruct (ndigits_spec c ltac:(lia)) as (H1 & H2 & H3).
  specialize (H3 Hc). split; intros H.
  - pose proof (pow10_le (PyDecimal.ndigits c) p ltac:(lia)). lia.
  - assert (PyDecimal.ndigits c - 1 < p) by (apply pow10_lt_inv; lia). lia.
Qed.

(** [_fix] on a non-zero coefficient whose rounded exponent stays in the
    context's range: a coefficient of at most [prec] digits is returned
    as it is; a longer one is rounded to exactly [prec] digits, to within
    half a unit of the new last place, and exactly when the dropped digits
    are zeros. *)
Lemma fix_spec ctx s c e :
  1 <= PyDecimal.prec ctx -> 0 < c ->
  PyDecimal.Etiny ctx <= PyDecimal.ndigits c + e - PyDecimal.prec ctx
    < PyDecimal.Etop ctx ->
  exists c' e',
    PyDecimal.fix_ ctx (PyDecimal.mkDec s c e) = Ok (PyDecimal.mkDec s c' e')
    /\ 0 < c' < 10 ^ PyDecimal.prec ctx
    /\ e <= e'
    /\ 2 * Z.abs (c' * 10 ^ (e' - e) - c) <= 10 ^ (e' - e)
    /\ (PyDecimal.prec ctx < PyDecimal.ndigits c ->
        e < e' /\ 10 ^ (PyDecimal.prec ctx - 1) <= c')
    /\ e' <= Z.max e (PyDecimal.ndigits c + e - PyDecimal.prec ctx + 1)
    /\ (PyDecimal.ndigits c <= PyDecimal.prec ctx -> c' = c /\ e' = e)
    /\ (c mod 10 ^ (PyDecimal.ndigits c - PyDecimal.prec ctx) = 0 ->
        c' * 10 ^ (e' - e) = c).
Proof.
  intros Hp Hc Hrange. set (p := PyDecimal.prec ctx) in *.
  set (nd := PyDecimal.ndigits c) in *.
  destruct (ndigits_spec c ltac:(lia)) as (N1 & N2 & N3).
  specialize (N3 Hc). fold nd in N1, N2, N3.
  unfold PyDecimal.fix_. cbn [PyDecimal.coeff PyDecimal.exp PyDecimal.sign].
  fold p nd.
  destruct (c =? 0) eqn:E0; [apply Z.eqb_eq in E0; lia|].
  destruct (nd + e - p >? PyDecimal.Etop ctx) eqn:E1; [lia|].
  destruct (nd + e - p <? PyDecimal.Etiny ctx) eqn:E2; [lia|].
  destruct (e <? nd + e - p) eqn:E3.
  2:{ (* no rounding *)
      apply Z.ltb_ge in E3. exists c, e.
      rewrite Z.sub_diag, Z.pow_0_r.
      assert (c < 10 ^ p) by (apply ndigits_le; lia).
      fold nd p. repeat split; try lia. }
  apply Z.ltb_lt in E3.
  set (r := nd + e - p - e). assert (r = nd - p) as Hr by (unfold r; lia).
  assert (1 <= r) as Hr1 by lia.
  set (R := 10 ^ r).
  assert (0 < R) as HR by (apply pow10_gt0; lia).
  assert (R = 2 * (5 * 10 ^ (r - 1))) as Hhalf.
  { unfold R. replace r with (1 + (r - 1)) at 1 by lia.
    rewrite pow10_add by lia. rewrite Z.pow_1_r. lia. }
  set (half := 5 * 10 ^ (r - 1)) in *.
  pose proof (Z.div_mod c R ltac:(lia)) as Hdm.
  pose proof (Z.mod_pos_bound c R HR) as Hm.
  set (q := c / R) in *. set (rem := c mod R) in *.
  assert (10 ^ (p - 1) <= q < 10 ^ p) as Hq.
  { assert (10 ^ nd = 10 ^ p * R) as E.
    { unfold R. rewrite <- pow10_add by lia. f_equal. lia. }
    assert (10 ^ (nd - 1) = 10 ^ (p - 1) * R) as E'.
    { unfold R. rewrite <- pow10_add by lia. f_equal. lia. }
    pose proof (pow10_gt0 (p - 1) ltac:(lia)).
    split; nia. }
  assert (10 ^ p = 10 * 10 ^ (p - 1)) as Hpp.
  { replace p with (1 + (p - 1)) at 1 by lia.
    rewrite pow10_add by lia. rewrite Z.pow_1_r. lia. }
  destruct ((rem >? half) || ((rem =? half) && Z.odd q)) eqn:Eup.
  - (* rounding up *)
    assert (half <= rem) as Hrem.
    { apply orb_true_iff in Eup as [H|H]; [lia|].
      apply andb_true_iff in H as [H _]. lia. }
    destruct (PyDecimal.ndigits (q + 1) >? p) eqn:Ecarry.
    + (* the coefficient reaches 10^prec *)
      assert (q + 1 = 10 ^ p) as Hq1.
      { destruct (Z.eq_dec (q + 1) (10 ^ p)); [assumption|].
        assert (PyDecimal.ndigits (q + 1) <= p)
          by (apply ndigits_le; lia). lia. }
      destruct (nd + e - p + 1 >? PyDecimal.Etop ctx) eqn:E4; [lia|].
      exists ((q + 1) / 10), (nd + e - p + 1).
      split; [reflexivity|].
      assert ((q + 1) / 10 = 10 ^ (p - 1)) as ->.
      { rewrite Hq1, Hpp. rewrite Z.mul_comm, Z.div_mul by lia. reflexivity. }
      replace (nd + e - p + 1 - e) with (1 + r) by lia.
      rewrite pow10_add by lia. rewrite Z.pow_1_r. fold R.
      pose proof (pow10_gt0 (p - 1) ltac:(lia)).
      split; [lia|]. split; [lia|].
      split; [|split; [lia|split; [fold nd p; lia|split; [lia|]]]].
      * replace (10 ^ (p - 1) * (10 * R) - c) with (R - rem) by nia.
        rewrite Z.abs_eq by lia. lia.
      * rewrite <- Hr. fold R rem. lia.
    + destruct (nd + e - p >? PyDecimal.Etop ctx) eqn:E4; [lia|].
      assert (q + 1 < 10 ^ p) as Hq1.
      { apply ndigits_le; lia. }
      exists (q + 1), (nd + e - p).
      split; [reflexivity|]. fold r R.
      split; [lia|]. split; [lia|].
      split; [|split; [lia|split; [fold nd p; lia|split; [lia|]]]].
      * replace ((q + 1) * R - c) with (R - rem) by nia.
        rewrite Z.abs_eq by lia. lia.
      * rewrite <- Hr. fold R rem. lia.
  - (* rounding down *)
    assert (rem <= half) as Hrem.
    { apply orb_false_iff in Eup as [H _]. lia. }
    destruct (nd + e - p >? PyDecimal.Etop ctx) eqn:E4; [lia|].
    exists q, (nd + e - p).
    split; [reflexivity|]. fold r R.
    pose proof (pow10_gt0 (p - 1) ltac:(lia)).
    split; [lia|]. split; [lia|].
    split; [|split; [lia|split; [fold nd p; lia|split; [lia|]]]].
    + replace (q * R - c) with (- rem) by nia.
      rewrite Z.abs_opp, Z.abs_eq by lia. lia.
    + rewrite <- Hr. fold R rem. nia.
Qed.

(** ** Powers of ten with exponents of either sign *)

(** [10^x] as the fraction [10^(max x 0) / 10^(max (-x) 0)]: the law of
    exponents. *)
Lemma pow10_frac_add x y :
  10 ^ Z.max (x + y) 0 * 10 ^ Z.max (- x) 0 * 10 ^ Z.max (- y) 0
  = 10 ^ Z.max (- (x + y)) 0 * 10 ^ Z.max x 0 * 10 ^ Z.max y 0.
Proof.
  rewrite <- !pow10_add by lia. f_equal. lia.
Qed.

Lemma pow10_max_pos x : 0 < 10 ^ Z.max x 0.
Proof. apply pow10_gt0. lia. Qed.

Lemma abs_mul_pos x t : 0 <= t -> Z.abs (x * t) = Z.abs x * t.
Proof. intros. rewrite Z.abs_mul, (Z.abs_eq t) by lia. reflexivity. Qed.

(** ** Division *)

(** The quotient digits of [N / D], [10^p <= N / D < 10^(p+2)], at
    exponent [e0]: after the adjustment for an inexact quotient or the
    removal of trailing zeros from an exact one, [_fix] returns [N / D]
    to within half a unit of the last place, and exactly when [N / D] has
    at most [p] significant digits. *)
Lemma div_core ctx s N D e0 ideal fuel :
  let p := PyDecimal.prec ctx in
  let q0 := N / D in
  let ce :=
    if N mod D =? 0 then PyDecimal.strip_zeros fuel q0 e0 ideal
    else ((if q0 mod 5 =? 0 then q0 + 1 else q0), e0) in
  1 <= p -> 0 < D -> 10 ^ p * D <= N < 10 ^ (p + 2) * D ->
  PyDecimal.Etiny ctx <= e0 + 1 -> e0 + 2 < PyDecimal.Etop ctx ->
  exists c' e',
    PyDecimal.fix_ ctx (PyDecimal.mkDec s ce.1 ce.2)
    = Ok (PyDecimal.mkDec s c' e')
    /\ 0 < c' < 10 ^ p
    /\ e0 <= e' <= e0 + p + 2
    /\ 2 * Z.abs (c' * 10 ^ (e' - e0) * D - N) <= 10 ^ (e' - e0) * D
    /\ (c' * 10 ^ (e' - e0) * D = N \/ 10 ^ (p - 1) <= c')
    /\ (forall c0 j, 0 < c0 < 10 ^ p -> 0 <= j -> N = c0 * 10 ^ j * D ->
        c' * 10 ^ (e' - e0) * D = N).
Proof.
  intros p q0 ce Hp HD HN Hlo Hhi.
  pose proof (Z.div_mod N D ltac:(lia)) as Hdm.
  pose proof (Z.mod_pos_bound N D HD) as Hm.
  fold q0 in Hdm. set (rem := N mod D) in *.
  assert (0 < 10 ^ p) as Hpp by (apply pow10_gt0; lia).
  assert (10 ^ p <= q0 < 10 ^ (p + 2)) as Hq0.
  { split.
    - unfold q0. apply Z.div_le_lower_bound; lia.
    - unfold q0. apply Z.div_lt_upper_bound; lia. }
  assert (PyDecimal.ndigits q0 = p + 1 \/ PyDecimal.ndigits q0 = p + 2) as Hnd.
  { destruct (Z_lt_le_dec q0 (10 ^ (p + 1))).
    - left. apply ndigits_unique; [lia|]. replace (p + 1 - 1) with p by lia. lia.
    - right. apply ndigits_unique; [lia|].
      replace (p + 2 - 1) with (p + 1) by lia. lia. }
  subst ce. destruct (rem =? 0) eqn:Erem.
  - (* exact quotient *)
    apply Z.eqb_eq in Erem.
    destruct (PyDecimal.strip_zeros fuel q0 e0 ideal) as [c1 e1] eqn:Es.
    cbn [fst snd].
    destruct (strip_zeros_spec _ _ _ _ _ _ Es) as (k & Hk & Hc1 & He1 & _ & _).
    assert (0 < 10 ^ k) as Hk10 by (apply pow10_gt0; lia).
    assert (N = c1 * 10 ^ k * D) as HN'.
    { rewrite Hdm, Erem, Hc1. ring. }
    assert (0 < c1) as Hc1pos.
    { destruct (Z_lt_le_dec 0 c1); [assumption|]. exfalso.
      assert (c1 * 10 ^ k <= 0) by (apply Z.mul_nonpos_nonneg; lia). lia. }
    (* the digits of [c1] sit where those of [q0] did *)
    assert (PyDecimal.ndigits c1 + k = PyDecimal.ndigits q0) as Hnd1.
    { destruct (ndigits_spec c1 ltac:(lia)) as (A1 & A2 & A3).
      specialize (A3 Hc1pos).
      symmetry. apply ndigits_unique; [lia|].
      replace (PyDecimal.ndigits c1 + k - 1)
        with ((PyDecimal.ndigits c1 - 1) + k) by lia.
      rewrite !pow10_add by lia. rewrite Hc1. split.
      - apply Z.mul_le_mono_nonneg_r; lia.
      - apply Z.mul_lt_mono_pos_r; lia. }
    destruct (fix_spec ctx s c1 e1 Hp Hc1pos ltac:(fold p; lia))
      as (c' & e' & Hfix & Hc' & He' & Hclose & Hlong & Hup & Hsame & Hexact).
    fold p in Hc', Hsame, Hexact, Hup, Hlong.
    assert (1 <= PyDecimal.ndigits c1)
      by (destruct (ndigits_spec c1 ltac:(lia)); lia).
    exists c', e'. split; [exact Hfix|]. split; [exact Hc'|]. split; [lia|].
    assert (10 ^ (e' - e0) = 10 ^ (e' - e1) * 10 ^ k) as Hpow.
    { rewrite <- pow10_add by lia. f_equal. lia. }
    assert (0 < 10 ^ (e' - e1)) as HR by (apply pow10_gt0; lia).
    set (T := 10 ^ k * D).
    assert (0 < T) as HT by (apply Z.mul_pos_pos; lia).
    split; [|split].
    + rewrite Hpow, HN'.
      replace (c' * (10 ^ (e' - e1) * 10 ^ k) * D - c1 * 10 ^ k * D)
        with ((c' * 10 ^ (e' - e1) - c1) * T) by (unfold T; ring).
      rewrite abs_mul_pos by lia.
      replace (10 ^ (e' - e1) * 10 ^ k * D) with (10 ^ (e' - e1) * T)
        by (unfold T; ring).
      rewrite Z.mul_assoc. apply Z.mul_le_mono_nonneg_r; lia.
    + destruct (Z_le_gt_dec (PyDecimal.ndigits c1) p) as [Hle|Hgt].
      * left. destruct (Hsame Hle) as [-> ->].
        rewrite Hpow, Z.sub_diag, Z.pow_0_r, HN'. ring.
      * right. apply Hlong. lia.
    + intros c0 j Hc0 Hj HNj.
      assert (0 < 10 ^ j) as Hj10 by (apply pow10_gt0; lia).
      assert (c1 * 10 ^ k = c0 * 10 ^ j) as Hq0j.
      { apply (Z.mul_reg_r _ _ D); [lia|]. rewrite <- HN', <- HNj.
        reflexivity. }
      assert (c' * 10 ^ (e' - e1) = c1) as Hval.
      { destruct (Z_le_gt_dec (PyDecimal.ndigits c1) p) as [Hle|Hgt].
        - destruct (Hsame Hle) as [-> ->]. rewrite Z.sub_diag, Z.pow_0_r. lia.
        - apply Hexact.
          set (r := PyDecimal.ndigits c1 - p) in *.
          destruct (ndigits_spec c1 ltac:(lia)) as (A1 & A2 & A3).
          specialize (A3 Hc1pos).
          (* [c1 = c0 * 10^(j - k)] with [j - k >= r] *)
          assert (k < j) as Hkj.
          { destruct (Z_lt_le_dec k j); [assumption|]. exfalso.
            assert (10 ^ k = 10 ^ (k - j) * 10 ^ j) as E.
            { rewrite <- pow10_add by lia. f_equal. lia. }
            pose proof (pow10_gt0 (k - j) ltac:(lia)) as Hkj10.
            assert (c1 * 10 ^ (k - j) = c0) as Hc0'.
            { apply (Z.mul_reg_r _ _ (10 ^ j)); [lia|].
              rewrite <- Hq0j, E. ring. }
            assert (c1 * 1 <= c1 * 10 ^ (k - j))
              by (apply Z.mul_le_mono_nonneg_l; lia).
            assert (PyDecimal.ndigits c1 <= p) by (apply ndigits_le; lia).
            lia. }
          assert (10 ^ j = 10 ^ (j - k) * 10 ^ k) as E.
          { rewrite <- pow10_add by lia. f_equal. lia. }
          assert (c1 = c0 * 10 ^ (j - k)) as Hc1'.
          { apply (Z.mul_reg_r _ _ (10 ^ k)); [lia|].
            rewrite Hq0j, E. ring. }
          pose proof (pow10_gt0 (j - k) ltac:(lia)) as Hjk10.
          assert (r <= j - k) as Hrj.
          { destruct (Z_le_gt_dec r (j - k)); [assumption|]. exfalso.
            pose proof (pow10_le (j - k) (r - 1) ltac:(lia)) as Hle.
            assert (10 ^ (PyDecimal.ndigits c1 - 1) = 10 ^ p * 10 ^ (r - 1))
              as E2.
            { rewrite <- pow10_add by lia. f_equal. unfold r. lia. }
            assert (c0 * 10 ^ (j - k) < 10 ^ p * 10 ^ (j - k))
              by (apply Z.mul_lt_mono_pos_r; lia).
            assert (10 ^ p * 10 ^ (j - k) <= 10 ^ p * 10 ^ (r - 1))
              by (apply Z.mul_le_mono_nonneg_l; lia).
            lia. }
          assert (10 ^ (j - k) = 10 ^ (j - k - r) * 10 ^ r) as E'.
          { rewrite <- pow10_add by lia. f_equal. lia. }
          rewrite Hc1', E', Z.mul_assoc. apply Z.mod_mul.
          pose proof (pow10_gt0 r ltac:(lia)). lia. }
      rewrite Hpow, HN', <- Hval. ring.
  - (* inexact quotient: the last digit is kept away from 0 and 5 *)
    apply Z.eqb_neq in Erem. cbn [fst snd].
    set (c1 := if q0 mod 5 =? 0 then q0 + 1 else q0).
    assert (c1 mod 5 <> 0 /\ q0 <= c1 <= q0 + 1) as [Hc5 Hc1].
    { unfold c1. destruct (q0 mod 5 =? 0) eqn:E5.
      - apply Z.eqb_eq in E5.
        split; [clear - E5; Z.div_mod_to_equations; lia | clear; lia].
      - apply Z.eqb_neq in E5. split; [exact E5 | clear; lia]. }
    assert (c1 < 10 ^ (p + 2)) as Hc1hi.
    { destruct (Z.eq_dec c1 (10 ^ (p + 2))) as [E|]; [|lia]. exfalso.
      apply Hc5. rewrite E. replace (p + 2) with (1 + (p + 1)) by lia.
      rewrite pow10_add by lia. rewrite Z.pow_1_r.
      replace (10 * 10 ^ (p + 1)) with (2 * 10 ^ (p + 1) * 5) by lia.
      apply Z.mod_mul. lia. }
    assert (0 < c1) as Hc1pos by lia.
    assert (p < PyDecimal.ndigits c1 <= p + 2) as Hnd1.
    { split.
      - destruct (Z_lt_le_dec p (PyDecimal.ndigits c1)); [assumption|].
        assert (c1 < 10 ^ p) by (apply ndigits_le; lia). lia.
      - apply ndigits_le; lia. }
    destruct (fix_spec ctx s c1 e0 Hp Hc1pos ltac:(fold p; lia))
      as (c' & e' & Hfix & Hc' & He' & Hclose & Hgt & Hup & _ & _).
    fold p in Hc', Hgt, Hup. specialize (Hgt ltac:(lia)).
    destruct Hgt as [Hgt Hfull].
    exists c', e'. split; [exact Hfix|]. split; [exact Hc'|]. split; [lia|].
    set (R := 10 ^ (e' - e0)) in *.
    assert (exists h, R = 2 * (5 * h) /\ 0 < h) as (h & HR & Hh).
    { exists (10 ^ (e' - e0 - 1)). unfold R.
      replace (e' - e0) with (1 + (e' - e0 - 1)) at 1 by lia.
      rewrite pow10_add by lia. rewrite Z.pow_1_r.
      pose proof (pow10_gt0 (e' - e0 - 1) ltac:(lia)). lia. }
    (* the rounded coefficient is not at a tie *)
    assert (Z.abs (c' * R - c1) <= 5 * h - 1) as Hstrict.
    { destruct (Z.eq_dec (Z.abs (c' * R - c1)) (5 * h)) as [E|]; [|lia].
      exfalso. apply Hc5.
      assert (c1 = (2 * c' * h + h) * 5 \/ c1 = (2 * c' * h - h) * 5) as [->| ->]
        by lia; apply Z.mod_mul; lia. }
    split; [|split].
    + assert (Z.abs (c1 * D - N) <= D) as Hx.
      { assert (c1 = q0 \/ c1 = q0 + 1) as [E|E] by lia; rewrite E; lia. }
      replace (c' * R * D - N)
        with ((c' * R - c1) * D + (c1 * D - N)) by ring.
      pose proof (Z.abs_triangle ((c' * R - c1) * D) (c1 * D - N)) as Htri.
      rewrite abs_mul_pos in Htri by lia.
      assert (Z.abs (c' * R - c1) * D <= (5 * h - 1) * D) as Hmul
        by (apply Z.mul_le_mono_nonneg_r; lia).
      rewrite HR. lia.
    + right. exact Hfull.
    + intros c0 j Hc0 Hj HNj. exfalso. apply Erem.
      unfold rem. rewrite HNj. apply Z.mod_mul. lia.
Qed.

(** The scaled numerator and denominator [truediv] divides have a
    quotient of [prec + 1] or [prec + 2] digits. *)
Lemma truediv_scaled p a b :
  let sh := PyDecimal.ndigits b - PyDecimal.ndigits a + p + 1 in
  let N := a * 10 ^ Z.max sh 0 in
  let D := b * 10 ^ Z.max (- sh) 0 in
  1 <= p -> 0 < a -> 0 < b ->
  0 < D /\ 10 ^ p * D <= N < 10 ^ (p + 2) * D.
Proof.
  intros sh N D Hp Ha Hb.
  destruct (ndigits_spec a ltac:(lia)) as (Ha1 & Ha2 & Ha3).
  destruct (ndigits_spec b ltac:(lia)) as (Hb1 & Hb2 & Hb3).
  specialize (Ha3 Ha). specialize (Hb3 Hb).
  set (na := PyDecimal.ndigits a) in *. set (nb := PyDecimal.ndigits b) in *.
  pose proof (pow10_gt0 p ltac:(lia)) as Hpp.
  pose proof (pow10_max_pos sh) as Hs1.
  pose proof (pow10_max_pos (- sh)) as Hs2.
  split; [apply Z.mul_pos_pos; lia|].
  destruct (Z_le_gt_dec 0 sh) as [Hsh|Hsh]; subst N D.
  - rewrite (Z.max_l sh 0), (Z.max_r (- sh) 0) by lia.
    rewrite Z.pow_0_r, Z.mul_1_r.
    assert (10 ^ (nb + p) = 10 ^ (na - 1) * 10 ^ sh) as E1.
    { rewrite <- pow10_add by lia. f_equal. unfold sh. lia. }
    assert (10 ^ (nb + p) = 10 ^ p * 10 ^ nb) as E2.
    { rewrite <- pow10_add by lia. f_equal. lia. }
    assert (10 ^ na * 10 ^ sh = 10 ^ (p + 2) * 10 ^ (nb - 1)) as E3.
    { rewrite <- !pow10_add by lia. f_equal. unfold sh. lia. }
    pose proof (pow10_gt0 sh ltac:(lia)).
    pose proof (pow10_gt0 (p + 2) ltac:(lia)).
    assert (10 ^ (na - 1) * 10 ^ sh <= a * 10 ^ sh)
      by (apply Z.mul_le_mono_nonneg_r; lia).
    assert (10 ^ p * b <= 10 ^ p * 10 ^ nb)
      by (apply Z.mul_le_mono_nonneg_l; lia).
    assert (a * 10 ^ sh < 10 ^ na * 10 ^ sh)
      by (apply Z.mul_lt_mono_pos_r; lia).
    assert (10 ^ (p + 2) * 10 ^ (nb - 1) <= 10 ^ (p + 2) * b)
      by (apply Z.mul_le_mono_nonneg_l; lia).
    lia.
  - rewrite (Z.max_r sh 0), (Z.max_l (- sh) 0) by lia.
    rewrite Z.pow_0_r, Z.mul_1_r.
    pose proof (pow10_gt0 (- sh) ltac:(lia)) as Hms.
    assert (10 ^ (na - 1) = 10 ^ p * (10 ^ nb * 10 ^ (- sh))) as E1.
    { rewrite <- !pow10_add by lia. f_equal. unfold sh. lia. }
    assert (10 ^ na = 10 ^ (p + 2) * (10 ^ (nb - 1) * 10 ^ (- sh))) as E2.
    { rewrite <- !pow10_add by lia. f_equal. unfold sh. lia. }
    pose proof (pow10_gt0 (p + 2) ltac:(lia)).
    assert (b * 10 ^ (- sh) <= 10 ^ nb * 10 ^ (- sh))
      by (apply Z.mul_le_mono_nonneg_r; lia).
    assert (10 ^ p * (b * 10 ^ (- sh)) <= 10 ^ p * (10 ^ nb * 10 ^ (- sh)))
      by (apply Z.mul_le_mono_nonneg_l; lia).
    assert (10 ^ (nb - 1) * 10 ^ (- sh) <= b * 10 ^ (- sh))
      by (apply Z.mul_le_mono_nonneg_r; lia).
    assert (10 ^ (p + 2) * (10 ^ (nb - 1) * 10 ^ (- sh))
            <= 10 ^ (p + 2) * (b * 10 ^ (- sh)))
      by (apply Z.mul_le_mono_nonneg_l; lia).
    lia.
Qed.

(** [Decimal(a) / Decimal(b)] for positive integers: the quotient
    rounded to the precision of the context. *)
Lemma truediv_pos ctx a b :
  let p := PyDecimal.prec ctx in
  let sh := PyDecimal.ndigits b - PyDecimal.ndigits a + p + 1 in
  1 <= p -> 0 < a -> 0 < b ->
  PyDecimal.Etiny ctx <= - sh + 1 -> - sh + 2 < PyDecimal.Etop ctx ->
  exists c e,
    PyDecimal.truediv ctx (PyDecimal.of_int a) (PyDecimal.of_int b)
    = Ok (PyDecimal.mkDec false c e)
    /\ 0 < c < 10 ^ p /\ - sh <= e <= - sh + p + 2
    /\ Spec.rounded_quotient p a b (PyDecimal.mkDec false c e).
Proof.
  intros p sh Hp Ha Hb Hlo Hhi.
  destruct (truediv_scaled p a b Hp Ha Hb) as (HD & HN).
  fold sh in HD, HN.
  set (N := a * 10 ^ Z.max sh 0) in *.
  set (D := b * 10 ^ Z.max (- sh) 0) in *.
  pose proof (div_core ctx false N D (- sh) 0 (Z.to_nat sh) Hp HD HN Hlo Hhi)
    as (c & e & Hfix & Hc & He & Hclose & Hfull & Hexact).
  fold p in Hc, He, Hclose, Hfull, Hexact.
  exists c, e.
  assert ((if 0 <=? sh then a * 10 ^ sh else a) = N) as EN.
  { unfold N. destruct (Z.leb_spec 0 sh).
    - rewrite Z.max_l by lia. reflexivity.
    - rewrite Z.max_r, Z.pow_0_r by lia. lia. }
  assert ((if 0 <=? sh then b else b * 10 ^ (- sh)) = D) as ED.
  { unfold D. destruct (Z.leb_spec 0 sh).
    - rewrite Z.max_r, Z.pow_0_r by lia. lia.
    - rewrite Z.max_l by lia. reflexivity. }
  split.
  { unfold PyDecimal.truediv, PyDecimal.of_int.
    cbn [PyDecimal.sign PyDecimal.coeff PyDecimal.exp].
    rewrite (proj2 (Z.ltb_ge a 0)), (proj2 (Z.ltb_ge b 0)) by lia.
    rewrite !Z.abs_eq by lia.
    rewrite (proj2 (Z.eqb_neq b 0)), (proj2 (Z.eqb_neq a 0)) by lia.
    fold p. fold sh. rewrite EN, ED.
    replace (0 - 0 - sh) with (- sh) by lia.
    replace (0 - 0 - - sh) with sh by lia.
    replace (0 - 0) with 0 by lia.
    cbn [xorb]. cbv zeta in Hfix.
    destruct (if N mod D =? 0
              then PyDecimal.strip_zeros (Z.to_nat sh) (N / D) (- sh) 0
              else (if (N / D) mod 5 =? 0 then N / D + 1 else N / D, - sh))
      as [c1 e1].
    exact Hfix. }
  split; [exact Hc|]. split; [exact He|].
  pose proof (pow10_max_pos sh) as Hs1.
  pose proof (pow10_max_pos (- sh)) as Hs2.
  pose proof (pow10_max_pos e) as He1.
  pose proof (pow10_max_pos (- e)) as He2.
  pose proof (pow10_frac_add sh e) as Hid.
  rewrite (Z.max_l (sh + e) 0), (Z.max_r (- (sh + e)) 0) in Hid by lia.
  rewrite Z.pow_0_r, Z.mul_1_l in Hid.
  replace (sh + e) with (e - - sh) in Hid by lia.
  set (R := 10 ^ (e - - sh)) in *.
  set (K := 10 ^ Z.max sh 0) in *.
  set (M := 10 ^ Z.max (- e) 0) in *.
  set (T := c * 10 ^ Z.max e 0 * b - a * M).
  assert ((c * R * D - N) * M = T * K) as HX.
  { unfold T, D, N. fold K.
    transitivity (c * b * (R * 10 ^ Z.max (- sh) 0 * M) - a * K * M); [ring|].
    rewrite Hid. ring. }
  assert (R * D * M = 10 ^ Z.max e 0 * b * K) as HY.
  { unfold D. transitivity (b * (R * 10 ^ Z.max (- sh) 0 * M)); [ring|].
    rewrite Hid. ring. }
  unfold Spec.rounded_quotient, Spec.is_quotient, Spec.dnum, Spec.dden,
    Spec.dulp.
  cbn [PyDecimal.sign PyDecimal.coeff PyDecimal.exp]. fold M. fold T.
  assert (c * R * D = N -> c * 10 ^ Z.max e 0 * b = a * M) as Hzero.
  { intros Hx.
    assert (T * K = 0) as HT by (rewrite <- HX, Hx; ring).
    apply Z.mul_eq_0 in HT.
    destruct HT as [HT|HT]; [|exfalso; clear - HT Hs1; lia].
    unfold T in HT. clear - HT. lia. }
  split; [reflexivity|]. split; [lia|]. split; [|split].
  - assert (2 * Z.abs ((c * R * D - N) * M) <= R * D * M) as H2.
    { rewrite abs_mul_pos by lia. rewrite Z.mul_assoc.
      apply Z.mul_le_mono_nonneg_r; lia. }
    rewrite HX, HY, abs_mul_pos in H2 by lia.
    rewrite Z.mul_assoc in H2.
    apply Z.mul_le_mono_pos_r in H2; [exact H2|lia].
  - destruct Hfull as [Hx|Hx]; [left; apply Hzero, Hx|right; exact Hx].
  - intros (c0 & e2 & Hc0 & Hq).
    unfold Spec.is_quotient, Spec.dnum, Spec.dden in Hq.
    cbn [PyDecimal.sign PyDecimal.coeff PyDecimal.exp] in Hq.
    pose proof (pow10_max_pos e2) as Hp1.
    pose proof (pow10_max_pos (- e2)) as Hp2.
    pose proof (pow10_frac_add e2 sh) as Hid2.
    assert (0 < c0) as Hc0pos.
    { destruct (Z_lt_le_dec 0 c0); [assumption|]. exfalso.
      assert (c0 = 0) as -> by lia.
      assert (0 < a * 10 ^ Z.max (- e2) 0) as Hpos
        by (apply Z.mul_pos_pos; lia).
      rewrite !Z.mul_0_l in Hq. clear - Hq Hpos. lia. }
    assert (0 < c0 < 10 ^ p) as Hc0' by lia.
    assert (0 <= e2 + sh) as Hj.
    { destruct (Z_le_gt_dec 0 (e2 + sh)); [assumption|]. exfalso.
      rewrite (Z.max_r (e2 + sh) 0), (Z.max_l (- (e2 + sh)) 0) in Hid2 by lia.
      rewrite Z.pow_0_r, Z.mul_1_l in Hid2. fold K in Hid2.
      pose proof (pow10_gt0 (- (e2 + sh)) ltac:(lia)) as Hg.
      pose proof (pow10_le 0 (- (e2 + sh)) ltac:(lia)) as Hg1.
      rewrite Z.pow_0_r in Hg1.
      set (G := 10 ^ (- (e2 + sh))) in *.
      assert (N * G * 10 ^ Z.max e2 0 = c0 * D * 10 ^ Z.max e2 0) as E.
      { unfold N, D.
        transitivity (a * (G * 10 ^ Z.max e2 0 * K)); [ring|].
        rewrite <- Hid2.
        transitivity (a * 10 ^ Z.max (- e2) 0 * 10 ^ Z.max (- sh) 0); [ring|].
        rewrite <- Hq. ring. }
      apply Z.mul_reg_r in E; [|lia].
      assert (0 < N) as HNpos by (apply Z.mul_pos_pos; assumption).
      assert (N * 1 <= N * G) as B1
        by (apply Z.mul_le_mono_nonneg_l; clear - HNpos Hg1; lia).
      assert (c0 * D < 10 ^ p * D) as B2
        by (apply Z.mul_lt_mono_pos_r; [exact HD|apply Hc0]).
      clear - E B1 B2 HN. lia. }
    rewrite (Z.max_l (e2 + sh) 0), (Z.max_r (- (e2 + sh)) 0) in Hid2 by lia.
    rewrite Z.pow_0_r, Z.mul_1_l in Hid2. fold K in Hid2.
    assert (N * 10 ^ Z.max (- e2) 0
            = c0 * 10 ^ (e2 + sh) * D * 10 ^ Z.max (- e2) 0) as E.
    { unfold N, D.
      transitivity (a * 10 ^ Z.max (- e2) 0 * K); [ring|].
      rewrite <- Hq.
      transitivity (c0 * b * (10 ^ Z.max e2 0 * K)); [ring|].
      rewrite <- Hid2. ring. }
    apply Z.mul_reg_r in E; [|lia].
    apply Hzero. exact (Hexact c0 (e2 + sh) Hc0' Hj E).
Qed.


(** [Decimal(0) / Decimal(b)] is [Decimal("0")]. *)
Lemma truediv_zero ctx b :
  0 < b -> PyDecimal.Etiny ctx <= 0 <= PyDecimal.Emax ctx ->
  PyDecimal.truediv ctx (PyDecimal.of_int 0) (PyDecimal.of_int b)
  = Ok (PyDecimal.mkDec false 0 0).
Proof.
  intros Hb Hr. unfold PyDecimal.truediv, PyDecimal.of_int.
  cbn [PyDecimal.sign PyDecimal.coeff PyDecimal.exp].
  rewrite (proj2 (Z.ltb_ge b 0)) by lia.
  rewrite (Z.abs_eq b) by lia.
  rewrite (proj2 (Z.eqb_neq b 0)) by lia.
  change (Z.abs 0 =? 0) with true. cbv iota.
  unfold PyDecimal.fix_.
  cbn [PyDecimal.sign PyDecimal.coeff PyDecimal.exp].
  change (0 =? 0) with true. cbv iota.
  change (0 - 0) with 0. change (xorb (0 <? 0) false) with false.
  rewrite Z.max_l, Z.min_l by lia. reflexivity.
Qed.

Lemma rounded_quotient_zero p b :
  0 <= p -> 0 <= b ->
  Spec.rounded_quotient p 0 b (PyDecimal.mkDec false 0 0).
Proof.
  intros Hp Hb. pose proof (pow10_gt0 p Hp).
  unfold Spec.rounded_quotient, Spec.is_quotient, Spec.dnum, Spec.dden,
    Spec.dulp. cbn [PyDecimal.sign PyDecimal.coeff PyDecimal.exp].
  change (Z.max (- 0) 0) with 0. change (Z.max 0 0) with 0.
  change (10 ^ 0) with 1.
  split; [reflexivity|]. split; [lia|]. split; [lia|].
  split; [left; lia|intros _; lia].
Qed.

(** [_fix] leaves a decimal alone that fits the precision and the
    exponent range. *)
Lemma fix_small ctx s c e :
  1 <= PyDecimal.prec ctx -> 0 < c < 10 ^ PyDecimal.prec ctx ->
  PyDecimal.Etiny ctx <= e -> e + PyDecimal.prec ctx <= PyDecimal.Emax ctx ->
  PyDecimal.fix_ ctx (PyDecimal.mkDec s c e) = Ok (PyDecimal.mkDec s c e).
Proof.
  intros Hp Hc Hlo Hhi.
  assert (PyDecimal.ndigits c <= PyDecimal.prec ctx) as Hnd
    by (apply ndigits_le; lia).
  destruct (ndigits_spec c ltac:(lia)) as (Hn1 & _).
  unfold PyDecimal.fix_, PyDecimal.Etop in *.
  cbn [PyDecimal.sign PyDecimal.coeff PyDecimal.exp].
  rewrite (proj2 (Z.eqb_neq c 0)) by lia.
  destruct (Z.gtb_spec (PyDecimal.ndigits c + e - PyDecimal.prec ctx)
              (PyDecimal.Emax ctx - PyDecimal.prec ctx + 1)); [lia|].
  destruct (Z.ltb_spec (PyDecimal.ndigits c + e - PyDecimal.prec ctx)
              (PyDecimal.Etiny ctx)).
  - rewrite (proj2 (Z.ltb_ge e (PyDecimal.Etiny ctx))) by lia. reflexivity.
  - rewrite (proj2 (Z.ltb_ge e _)) by lia. reflexivity.
Qed.

(** [normalize] gives the canonical decimal of the same value. *)
Lemma normalize_spec ctx s c e :
  1 <= PyDecimal.prec ctx -> 0 <= c < 10 ^ PyDecimal.prec ctx ->
  PyDecimal.Etiny ctx <= e -> e + PyDecimal.prec ctx <= PyDecimal.Emax ctx ->
  exists c' e',
    PyDecimal.normalize ctx (PyDecimal.mkDec s c e)
    = Ok (PyDecimal.mkDec s c' e')
    /\ 0 <= c' <= c
    /\ Spec.canonical (PyDecimal.mkDec s c' e')
    /\ Spec.same_value (PyDecimal.mkDec s c' e') (PyDecimal.mkDec s c e).
Proof.
  intros Hp Hc Hlo Hhi.
  destruct (Z.eq_dec c 0) as [->|Hnz].
  - exists 0, 0. unfold PyDecimal.normalize, PyDecimal.fix_. cbn.
    split; [reflexivity|]. split; [lia|].
    unfold Spec.canonical, Spec.same_value, Spec.dnum.
    cbn [PyDecimal.sign PyDecimal.coeff PyDecimal.exp].
    rewrite !Z.mul_0_l. cbn. repeat split; lia.
  - unfold PyDecimal.normalize. rewrite fix_small by lia. cbn [bind].
    cbn [PyDecimal.sign PyDecimal.coeff PyDecimal.exp].
    rewrite (proj2 (Z.eqb_neq c 0)) by lia.
    destruct (PyDecimal.strip_zeros (Z.to_nat (PyDecimal.ndigits c)) c e
                (PyDecimal.Emax ctx)) as [c1 e1] eqn:Es.
    destruct (ndigits_spec c ltac:(lia)) as (Hn1 & Hn2 & _).
    destruct (strip_zeros_spec _ _ _ _ _ _ Es) as (k & Hk & Hck & He1 & _).
    pose proof (pow10_gt0 k Hk) as Hk10.
    assert (0 < c1) as Hc1.
    { destruct (Z_lt_le_dec 0 c1); [assumption|]. exfalso.
      assert (c1 * 10 ^ k <= 0) by (apply Z.mul_nonpos_nonneg; lia). lia. }
    assert (c1 * 1 <= c1 * 10 ^ k) as Hle
      by (apply Z.mul_le_mono_nonneg_l; lia).
    assert (1 * 10 ^ k <= c1 * 10 ^ k) as Hle'
      by (apply Z.mul_le_mono_nonneg_r; lia).
    assert (k < PyDecimal.ndigits c) as Hkn
      by (apply pow10_lt_inv; lia).
    assert (PyDecimal.ndigits c <= PyDecimal.prec ctx) as Hnd
      by (apply ndigits_le; lia).
    exists c1, e1. split; [reflexivity|]. split; [lia|]. split.
    + unfold Spec.canonical. cbn [PyDecimal.coeff PyDecimal.exp].
      split; [lia|]. rewrite (proj2 (Z.eqb_neq c1 0)) by lia.
      assert (0 < c) as Hcpos by lia.
      assert (c < 10 ^ Z.of_nat (Z.to_nat (PyDecimal.ndigits c))) as Hfuel
        by (rewrite Z2Nat.id by lia; exact Hn2).
      destruct (strip_zeros_done _ _ _ _ _ _ Hcpos Hfuel Es);
        [assumption|lia].
    + unfold Spec.same_value, Spec.dnum, Spec.dden.
      cbn [PyDecimal.sign PyDecimal.coeff PyDecimal.exp].
      split; [reflexivity|].
      pose proof (pow10_frac_add e k) as Hid.
      rewrite (Z.max_r (- k) 0), (Z.max_l k 0) in Hid by lia.
      rewrite Z.pow_0_r, Z.mul_1_r in Hid. subst e1.
      rewrite Hck.
      transitivity (c1 * (10 ^ Z.max (e + k) 0 * 10 ^ Z.max (- e) 0)); [ring|].
      rewrite Hid. ring.
Qed.

(** ** The text of a decimal and its parser *)

Lemma decimal_char_facts c :
  Spec.decimal_char c = true ->
  isspace c = false /\ Ascii.eqb c "_" = false.
Proof.
  destruct c as [[] [] [] [] [] [] [] []]; vm_compute; intros H;
    try discriminate H; split; reflexivity.
Qed.

Lemma ascii_digit_decimal_char c :
  is_ascii_digit c = true ->
  Spec.decimal_char c = true
  /\ Ascii.eqb c "-" = false /\ Ascii.eqb c "+" = false.
Proof.
  destruct c as [[] [] [] [] [] [] [] []]; vm_compute; intros H;
    try discriminate H; repeat split; reflexivity.
Qed.

Lemma all_chars_impl (p q : ascii -> bool) s :
  (forall c, p c = true -> q c = true) ->
  all_chars p s = true -> all_chars q s = true.
Proof.
  intros Hpq. induction s as [|c s IH]; [reflexivity|]. cbn. intros H.
  apply andb_true_iff in H as [Hc Hs].
  rewrite (Hpq _ Hc), IH by exact Hs. reflexivity.
Qed.

Lemma lstrip_none p s :
  all_chars (fun c => negb (p c)) s = true -> lstrip p s = s.
Proof.
  destruct s as [|c s]; [reflexivity|]. cbn. intros H.
  apply andb_true_iff in H as [Hc _]. apply negb_true_iff in Hc.
  rewrite Hc. reflexivity.
Qed.

Lemma rstrip_none p s :
  all_chars (fun c => negb (p c)) s = true -> rstrip p s = s.
Proof.
  induction s as [|c s IH]; [reflexivity|]. intros H.
  cbn [all_chars] in H. apply andb_true_iff in H as [Hc Hs].
  apply negb_true_iff in Hc. rewrite rstrip_cons, IH by exact Hs.
  rewrite Hc. destruct s; reflexivity.
Qed.

Lemma remove_underscores_none s :
  all_chars (fun c => negb (Ascii.eqb c "_")) s = true ->
  PyDecimal.remove_underscores s = s.
Proof.
  induction s as [|c s IH]; [reflexivity|]. cbn. intros H.
  apply andb_true_iff in H as [Hc Hs]. apply negb_true_iff in Hc.
  rewrite Hc, IH by exact Hs. reflexivity.
Qed.

(** Nothing is trimmed or removed from a text of decimal characters. *)
Lemma decimal_text_clean s :
  all_chars Spec.decimal_char s = true ->
  PyDecimal.remove_underscores (strip isspace s) = s.
Proof.
  intros H. unfold strip.
  assert (all_chars (fun c => negb (isspace c)) s = true) as H1.
  { revert H. apply all_chars_impl. intros c Hc.
    apply decimal_char_facts in Hc as [-> _]. reflexivity. }
  assert (all_chars (fun c => negb (Ascii.eqb c "_")) s = true) as H2.
  { revert H. apply all_chars_impl. intros c Hc.
    apply decimal_char_facts in Hc as [_ ->]. reflexivity. }
  rewrite lstrip_none, rstrip_none by exact H1.
  apply remove_underscores_none, H2.
Qed.

Lemma digits_value_append s1 : forall s2 acc,
  PyDecimal.digits_value (s1 +:+ s2) acc
  = PyDecimal.digits_value s2 (PyDecimal.digits_value s1 acc).
Proof.
  induction s1 as [|c s1 IH]; intros s2 acc.
  - rewrite append_nil_l. reflexivity.
  - rewrite append_cons. cbn. apply IH.
Qed.

Lemma digits_value_zeros k : PyDecimal.digits_value (zeros k) 0 = 0.
Proof. induction k as [|k IH]; [reflexivity|]. cbn. exact IH. Qed.

Lemma all_chars_zeros k : all_chars is_ascii_digit (zeros k) = true.
Proof. induction k as [|k IH]; [reflexivity|]. cbn. exact IH. Qed.

Lemma length_zeros k : String.length (zeros k) = k.
Proof. induction k as [|k IH]; [reflexivity|]. cbn. rewrite IH. reflexivity. Qed.

(** The value [Decimal(text)] reads from the decimal numeral of [n]. *)
Lemma digits_value_numeral n :
  0 <= n -> PyDecimal.digits_value (numeral 10 n) 0 = n.
Proof.
  intros Hn. destruct (digits_of 10 n ltac:(lia) Hn) as (V & D & _).
  rewrite numeral_be, digits_value_be_string by exact D.
  cbn [PyDecimal.digits_value]. cbv zeta in V. lia.
Qed.

Lemma take_drop k : forall s, take k s +:+ drop k s = s.
Proof.
  induction k as [|k IH]; intros [|c s]; try reflexivity.
  cbn [take drop]. rewrite append_cons, IH. reflexivity.
Qed.

Lemma length_drop k : forall s,
  String.length (drop k s) = (String.length s - k)%nat.
Proof.
  induction k as [|k IH]; intros [|c s]; cbn; try lia. apply IH.
Qed.

Lemma all_chars_take p k : forall s,
  all_chars p s = true -> all_chars p (take k s) = true.
Proof.
  induction k as [|k IH]; intros [|c s]; try reflexivity. cbn. intros H.
  apply andb_true_iff in H as [-> H]. apply IH, H.
Qed.

Lemma all_chars_drop p k : forall s,
  all_chars p s = true -> all_chars p (drop k s) = true.
Proof.
  induction k as [|k IH]; intros [|c s]; try reflexivity; try (intros H; exact H).
  cbn. intros H. apply andb_true_iff in H as [_ H]. apply IH, H.
Qed.

(** [span_digits] splits a run of digits from a rest that does not
    begin with one. *)
Lemma span_digits_append s1 s2 :
  all_chars is_ascii_digit s1 = true ->
  match s2 with
  | EmptyString => True
  | String c _ => is_ascii_digit c = false
  end ->
  PyDecimal.span_digits (s1 +:+ s2) = (s1, s2).
Proof.
  intros H1 H2. induction s1 as [|c s1 IH].
  - rewrite append_nil_l. destruct s2 as [|c r]; [reflexivity|].
    cbn. rewrite H2. reflexivity.
  - cbn in H1. apply andb_true_iff in H1 as [Hc H1].
    rewrite append_cons. cbn. rewrite Hc, IH by exact H1. reflexivity.
Qed.

Lemma span_digits_all s :
  all_chars is_ascii_digit s = true -> PyDecimal.span_digits s = (s, "").
Proof.
  intros H. rewrite <- (append_nil_r s) at 1.
  apply span_digits_append; [exact H|exact I].
Qed.

Lemma parse_exponent_E r :
  PyDecimal.parse_exponent (String "E" r)
  = let '(neg, r1) := PyDecimal.split_sign r in
    match PyDecimal.span_digits r1 with
    | (EmptyString, _) => None
    | (ds, EmptyString) =>
        let v := PyDecimal.digits_value ds 0 in Some (if neg then - v else v)
    | _ => None
    end.
Proof. reflexivity. Qed.

(** The exponent part [__str__] writes reads back as the exponent. *)
Lemma parse_exponent_signed x :
  PyDecimal.parse_exponent (String "E" (signed_str x)) = Some x.
Proof.
  rewrite parse_exponent_E. unfold signed_str.
  destruct (Z.ltb_spec x 0) as [Hx|Hx].
  - destruct (numeral_10_digits (- x) ltac:(lia)) as (Hd & c & r & E).
    change (PyDecimal.split_sign (String "-" (numeral 10 (- x))))
      with (true, numeral 10 (- x)).
    cbv beta iota. rewrite span_digits_all by exact Hd.
    generalize (digits_value_numeral (- x) ltac:(lia)). rewrite E.
    intros Hv. cbv beta iota zeta. rewrite Hv. f_equal. lia.
  - destruct (numeral_10_digits x Hx) as (Hd & c & r & E).
    change (PyDecimal.split_sign (String "+" (numeral 10 x)))
      with (false, numeral 10 x).
    cbv beta iota. rewrite span_digits_all by exact Hd.
    generalize (digits_value_numeral x Hx). rewrite E.
    intros Hv. cbv beta iota zeta. rewrite Hv. reflexivity.
Qed.

Lemma all_digits_decimal s :
  all_chars is_ascii_digit s = true -> all_chars Spec.decimal_char s = true.
Proof.
  apply all_chars_impl. intros c Hc.
  apply ascii_digit_decimal_char in Hc as [-> _]. reflexivity.
Qed.

Lemma exp_text_facts x er :
  Spec.exp_text x er ->
  all_chars Spec.decimal_char er = true
  /\ match er with
     | EmptyString => True
     | String c _ => is_ascii_digit c = false /\ Ascii.eqb c "." = false
     end
  /\ PyDecimal.parse_exponent er = Some x.
Proof.
  intros [[-> ->]| ->].
  - repeat split.
  - split; [|split; [split; reflexivity|apply parse_exponent_signed]].
    cbn [all_chars]. change (Spec.decimal_char "E") with true. cbv iota beta.
    unfold signed_str. destruct (x <? 0) eqn:Hx.
    + apply Z.ltb_lt in Hx.
      destruct (numeral_10_digits (- x) ltac:(lia)) as (Hd & _).
      cbn [all_chars]. change (Spec.decimal_char "-") with true.
      apply all_digits_decimal, Hd.
    + apply Z.ltb_ge in Hx.
      destruct (numeral_10_digits x Hx) as (Hd & _).
      cbn [all_chars]. change (Spec.decimal_char "+") with true.
      apply all_digits_decimal, Hd.
Qed.

Lemma split_sign_text sg c r :
  is_ascii_digit c = true ->
  PyDecimal.split_sign (Spec.sign_text sg +:+ String c r) = (sg, String c r).
Proof.
  intros Hc. destruct sg; [reflexivity|].
  unfold Spec.sign_text. rewrite append_nil_l. cbn [PyDecimal.split_sign].
  apply ascii_digit_decimal_char in Hc as (_ & -> & ->). reflexivity.
Qed.

Lemma all_chars_sign_text sg : all_chars Spec.decimal_char (Spec.sign_text sg) = true.
Proof. destruct sg; reflexivity. Qed.

(** [Decimal(text)] on a numeral with a point. *)
Lemma of_str_point sg c r fp er x :
  all_chars is_ascii_digit (String c r) = true ->
  all_chars is_ascii_digit fp = true ->
  Spec.exp_text x er ->
  PyDecimal.of_str (Spec.sign_text sg +:+ String c r +:+ String "." (fp +:+ er))
  = Some (PyDecimal.mkDec sg (PyDecimal.digits_value (String c r +:+ fp) 0)
            (x - len fp)).
Proof.
  intros Hip Hfp Her.
  destruct (exp_text_facts _ _ Her) as (He1 & He2 & He3).
  unfold PyDecimal.of_str. rewrite decimal_text_clean.
  2:{ rewrite !all_chars_append, all_chars_sign_text.
      rewrite (all_digits_decimal _ Hip). cbn [all_chars].
      change (Spec.decimal_char ".") with true.
      rewrite all_chars_append, (all_digits_decimal _ Hfp), He1.
      reflexivity. }
  rewrite (append_cons c r).
  rewrite split_sign_text
    by (cbn in Hip; apply andb_true_iff in Hip as [H _]; exact H).
  rewrite <- (append_cons c r).
  rewrite span_digits_append; [|exact Hip|reflexivity].
  change (Ascii.eqb "." ".") with true. cbv iota.
  rewrite span_digits_append; [|exact Hfp|destruct er; [exact I|apply He2]].
  rewrite He3. rewrite (append_cons c r). reflexivity.
Qed.

(** [Decimal(text)] on a numeral without a point. *)
Lemma of_str_int sg c r er x :
  all_chars is_ascii_digit (String c r) = true ->
  Spec.exp_text x er ->
  PyDecimal.of_str (Spec.sign_text sg +:+ String c r +:+ er)
  = Some (PyDecimal.mkDec sg (PyDecimal.digits_value (String c r) 0) x).
Proof.
  intros Hip Her.
  destruct (exp_text_facts _ _ Her) as (He1 & He2 & He3).
  unfold PyDecimal.of_str. rewrite decimal_text_clean.
  2:{ rewrite !all_chars_append, all_chars_sign_text.
      rewrite (all_digits_decimal _ Hip), He1. reflexivity. }
  rewrite (append_cons c r).
  rewrite split_sign_text
    by (cbn in Hip; apply andb_true_iff in Hip as [H _]; exact H).
  rewrite <- (append_cons c r).
  rewrite span_digits_append;
    [|exact Hip|destruct er; [exact I|apply He2]].
  destruct er as [|c' r'].
  - rewrite append_nil_r, He3. change (len "") with 0.
    rewrite Z.sub_0_r. reflexivity.
  - destruct He2 as [_ ->]. rewrite append_nil_r, He3.
    change (len "") with 0. rewrite Z.sub_0_r. reflexivity.
Qed.

Lemma take_succ k c r : (1 <= k)%nat ->
  take k (String c r) = String c (take (k - 1) r).
Proof.
  destruct k as [|k]; [lia|]. intros _. cbn [take].
  replace (S k - 1)%nat with k by lia. reflexivity.
Qed.

(** [Decimal(str(d))] is [d]: the text [__str__] writes is read back
    with the same sign, coefficient and exponent. *)
Lemma of_str_to_str d :
  0 <= PyDecimal.coeff d -> PyDecimal.of_str (PyDecimal.to_str d) = Some d.
Proof.
  destruct d as [sg c e]. cbn [PyDecimal.coeff]. intros Hc.
  destruct (numeral_10_digits c Hc) as (Hd & c0 & r0 & E).
  pose proof (digits_value_numeral c Hc) as Hv.
  unfold PyDecimal.to_str. cbn [PyDecimal.sign PyDecimal.coeff PyDecimal.exp].
  change (if sg then "-" else "") with (Spec.sign_text sg).
  assert (1 <= len (numeral 10 c)) as Hn by (rewrite E; unfold len; cbn; lia).
  set (int := numeral 10 c) in *. set (n := len int) in *.
  destruct ((e <=? 0) && (e + n >? -6)) eqn:Hcond.
  - (* plain notation *)
    apply andb_true_iff in Hcond as [He Hl].
    apply Z.leb_le in He. rewrite Z.eqb_refl.
    destruct (Z.leb_spec (e + n) 0) as [Hdp|Hdp].
    + change ("0." +:+ zeros (Z.to_nat (- (e + n))) +:+ int)
        with (String "0" "" +:+ String "."
                (zeros (Z.to_nat (- (e + n))) +:+ int)).
      rewrite !append_assoc, append_nil_r.
      rewrite <- (append_nil_r (zeros (Z.to_nat (- (e + n))) +:+ int)).
      rewrite (of_str_point sg "0" "" _ "" 0);
        [|reflexivity| |left; split; reflexivity].
      2:{ rewrite all_chars_append, all_chars_zeros. exact Hd. }
      change (String "0" "" +:+ zeros (Z.to_nat (- (e + n))) +:+ int)
        with (String "0" (zeros (Z.to_nat (- (e + n))) +:+ int)).
      cbn [PyDecimal.digits_value]. change (0 * 10 + digit_value "0") with 0.
      rewrite digits_value_append, digits_value_zeros, Hv.
      unfold len. rewrite length_append, length_zeros.
      f_equal. f_equal. unfold n, len in *. lia.
    + destruct (Z.geb_spec (e + n) n) as [Hge|Hlt].
      * assert (e = 0) as -> by lia.
        replace (0 + n - n) with 0 by lia. change (zeros (Z.to_nat 0)) with "".
        rewrite !append_nil_r. rewrite <- (append_nil_r int). rewrite E.
        rewrite (of_str_int sg c0 r0 "" 0);
          [|rewrite <- E; exact Hd|left; split; reflexivity].
        rewrite <- E, Hv. reflexivity.
      * rewrite append_nil_r.
        change ("." +:+ drop (Z.to_nat (e + n)) int)
          with (String "." (drop (Z.to_nat (e + n)) int)).
        rewrite <- (append_nil_r (drop (Z.to_nat (e + n)) int)).
        rewrite E, take_succ by lia.
        rewrite (of_str_point sg c0 _ _ "" 0);
          [| | |left; split; reflexivity].
        2:{ rewrite <- take_succ by lia. apply all_chars_take.
            rewrite <- E. exact Hd. }
        2:{ apply all_chars_drop. rewrite <- E. exact Hd. }
        rewrite <- take_succ by lia. rewrite <- E.
        rewrite take_drop, Hv. unfold len. rewrite length_drop.
        f_equal. f_equal. unfold n, len in *. lia.
  - (* scientific notation *)
    apply andb_false_iff in Hcond.
    change (1 <=? 0) with false. cbv iota.
    destruct (Z.geb_spec 1 n) as [Hge|Hlt].
    + assert (n = 1) as Hn1 by lia.
      assert (e <> 0) as Hne.
      { intros ->. destruct Hcond as [H|H].
        - discriminate H.
        - rewrite Z.gtb_ltb in H. apply Z.ltb_ge in H. lia. }
      rewrite Hn1. change (zeros (Z.to_nat (1 - 1))) with "".
      rewrite append_nil_r.
      rewrite (proj2 (Z.eqb_neq (e + 1) 1)) by lia.
      change ("E" +:+ signed_str (e + 1 - 1))
        with (String "E" (signed_str (e + 1 - 1))).
      rewrite E.
      rewrite (of_str_int sg c0 r0 _ (e + 1 - 1));
        [|rewrite <- E; exact Hd|right; reflexivity].
      rewrite <- E, Hv. f_equal. f_equal. lia.
    + assert (e + n <> 1) as Hne.
      { intros H1. destruct Hcond as [H|H].
        - apply Z.leb_gt in H. lia.
        - rewrite Z.gtb_ltb in H. apply Z.ltb_ge in H. lia. }
      rewrite (proj2 (Z.eqb_neq (e + n) 1)) by lia.
      change ("E" +:+ signed_str (e + n - 1))
        with (String "E" (signed_str (e + n - 1))).
      change ("." +:+ drop (Z.to_nat 1) int)
        with (String "." (drop (Z.to_nat 1) int)).
      rewrite append_assoc, append_cons.
      rewrite E, take_succ by lia.
      rewrite (of_str_point sg c0 _ _ _ (e + n - 1));
        [| | |right; reflexivity].
      2:{ rewrite <- take_succ by lia. apply all_chars_take.
          rewrite <- E. exact Hd. }
      2:{ apply all_chars_drop. rewrite <- E. exact Hd. }
      rewrite <- take_succ by lia. rewrite <- E.
      rewrite take_drop, Hv. unfold len. rewrite length_drop.
      f_equal. f_equal. unfold n, len in *. lia.
Qed.

(** ** The words of a payload *)

Lemma hex_char_facts c :
  Spec.is_hex_char c = true ->
  int_space c = false
  /\ Ascii.eqb c "+" = false /\ Ascii.eqb c "-" = false
  /\ Ascii.eqb c "_" = false
  /\ Ascii.eqb c "x" = false /\ Ascii.eqb c "X" = false
  /\ (digit_value c <? 16) = true /\ 0 <= digit_value c.
Proof.
  destruct c as [[] [] [] [] [] [] [] []]; vm_compute; intros H;
    try discriminate H; repeat split; discriminate.
Qed.

Lemma length_take k : forall s,
  String.length (take k s) = Nat.min k (String.length s).
Proof.
  induction k as [|k IH]; intros [|c s]; cbn; try reflexivity.
  rewrite IH. reflexivity.
Qed.

(** The digit loop of [int(w, 16)] reads a run of hexadecimal digits to
    its end. *)
Lemma scan_hex w : forall acc,
  all_chars Spec.is_hex_char w = true -> 0 <= acc ->
  exists v, scan_digits 16 w false acc = Some (v, "")
            /\ acc * 16 ^ len w <= v < (acc + 1) * 16 ^ len w.
Proof.
  induction w as [|c w IH]; intros acc H Hacc.
  - exists acc. split; [reflexivity|]. change (len "") with 0. lia.
  - cbn [all_chars] in H. apply andb_true_iff in H as [Hc Hw].
    destruct (hex_char_facts c Hc) as (_ & _ & _ & Hu & _ & _ & Hd & Hd0).
    cbn [scan_digits]. rewrite Hu, Hd.
    apply Z.ltb_lt in Hd.
    destruct (IH (acc * 16 + digit_value c) Hw ltac:(lia)) as (v & Hv & Hb).
    exists v. split; [exact Hv|].
    assert (len (String c w) = 1 + len w) as ->
      by (unfold len; cbn [String.length]; lia).
    assert (0 <= len w) by (unfold len; lia).
    rewrite Z.pow_add_r by lia. change (16 ^ 1) with 16.
    set (P := 16 ^ len w) in *.
    assert (0 < P) by (apply Z.pow_pos_nonneg; lia).
    assert (acc * (16 * P) <= (acc * 16 + digit_value c) * P) as B1.
    { replace (acc * (16 * P)) with ((acc * 16) * P) by ring.
      apply Z.mul_le_mono_nonneg_r; lia. }
    assert ((acc * 16 + digit_value c + 1) * P <= (acc + 1) * (16 * P)) as B2.
    { replace ((acc + 1) * (16 * P)) with ((acc * 16 + 16) * P) by ring.
      apply Z.mul_le_mono_nonneg_r; lia. }
    lia.
Qed.

(** [int(w, 16)] on a word of hexadecimal digits. *)
Lemma int_of_hex_word w :
  all_chars Spec.is_hex_char w = true -> (1 <= String.length w)%nat ->
  exists v, int_of_str 16 w = Ok v /\ 0 <= v < 16 ^ len w.
Proof.
  intros H Hlen. destruct w as [|c r]; [cbn in Hlen; lia|].
  destruct (scan_hex _ 0 H ltac:(lia)) as (v & Hv & Hb).
  exists v. split; [|lia].
  cbn [all_chars] in H. apply andb_true_iff in H as [Hc Hr].
  destruct (hex_char_facts c Hc) as (Hs & Hp & Hm & Hu & _ & _ & Hd & _).
  unfold int_of_str. cbn [lstrip]. rewrite Hs, Hp, Hm.
  assert (match r with
          | String x r0 =>
              if Ascii.eqb c "0" && (16 =? 16)
                 && (Ascii.eqb x "x" || Ascii.eqb x "X")
              then match r0 with
                   | String u r' => if Ascii.eqb u "_" then r' else r0
                   | EmptyString => r0
                   end
              else String c r
          | EmptyString => String c r
          end = String c r) as ->.
  { destruct r as [|x r0]; [reflexivity|].
    cbn [all_chars] in Hr. apply andb_true_iff in Hr as [Hx _].
    destruct (hex_char_facts x Hx) as (_ & _ & _ & _ & -> & -> & _).
    rewrite andb_false_r. reflexivity. }
  rewrite Hu, Hd, Hv. cbn [lstrip]. f_equal. lia.
Qed.

(** Every 64-digit slice of a hexadecimal payload is read as a word
    below [2^256]. *)
Lemma parse_slices n : forall s,
  all_chars Spec.is_hex_char s = true ->
  String.length s = (64 * n)%nat ->
  exists ws, parse_words (slices64 n s) = Ok ws
             /\ length ws = n
             /\ Forall (fun w => 0 <= w < 2 ^ 256) ws.
Proof.
  induction n as [|n IH]; intros s H Hlen.
  - exists []. repeat split. constructor.
  - cbn [slices64 parse_words].
    destruct (int_of_hex_word (take 64 s)) as (v & Hv & Hb).
    { apply all_chars_take, H. }
    { rewrite length_take. lia. }
    destruct (IH (drop 64 s)) as (ws & Hws & Hl & Hf).
    { apply all_chars_drop, H. }
    { rewrite length_drop. lia. }
    exists (v :: ws). rewrite Hv, Hws. cbn [bind].
    split; [reflexivity|]. split; [cbn; lia|].
    constructor; [|exact Hf].
    unfold len in Hb. rewrite length_take in Hb.
    replace (Nat.min 64 (String.length s)) with 64%nat in Hb by lia.
    change (16 ^ Z.of_nat 64) with (2 ^ 256) in Hb. exact Hb.
Qed.

(** The payload of a well-formed log is chunked into at least six words
    below [2^256]. *)
Lemma chunk_well_formed log :
  Spec.well_formed log = true ->
  (3 <= length (topics log))%nat
  /\ exists ws, _chunk_data_words (default "0x" (data log)) = Ok ws
                /\ (6 <= length ws)%nat
                /\ Forall (fun w => 0 <= w < 2 ^ 256) ws.
Proof.
  unfold Spec.well_formed, _chunk_data_words.
  set (d := default "0x" (data log)).
  set (payload := if startswith "0x" d then drop 2 d else d).
  intros H.
  apply andb_true_iff in H as [H H4]. apply andb_true_iff in H as [H H3].
  apply andb_true_iff in H as [H1 H2].
  apply Nat.leb_le in H1. apply Z.eqb_eq in H3. apply Z.leb_le in H4.
  split; [exact H1|]. rewrite H3. cbn [negb Z.eqb].
  assert (String.length payload
          = (64 * (String.length payload / 64))%nat) as Hlen.
  { unfold len in H3.
    pose proof (Nat.div_mod_eq (String.length payload) 64) as E.
    assert (String.length payload mod 64 = 0)%nat as E0.
    { apply Nat2Z.inj. rewrite Nat2Z.inj_mod. exact H3. }
    lia. }
  destruct (parse_slices _ payload H2 Hlen) as (ws & Hws & Hl & Hf).
  exists ws. split; [exact Hws|]. split; [|exact Hf].
  rewrite Hl. unfold len in H4.
  apply Nat2Z.inj_le. rewrite Nat2Z.inj_div. exact H4.
Qed.

(** ** Canonical decimals *)

(** [10^x] as a fraction for exponents of either sign: the larger
    exponent has the larger power. *)
Lemma pow10_frac_le x y :
  x <= y ->
  10 ^ Z.max x 0 * 10 ^ Z.max (- y) 0 * 10 ^ (y - x)
  = 10 ^ Z.max y 0 * 10 ^ Z.max (- x) 0.
Proof.
  intros H. rewrite <- !pow10_add by lia. f_equal. lia.
Qed.

(** A canonical decimal has the shortest coefficient of its value. *)
Lemma canonical_minimal n : Spec.canonical n -> Spec.minimal n.
Proof.
  destruct n as [s c e]. unfold Spec.canonical, Spec.minimal.
  cbn [PyDecimal.coeff PyDecimal.exp]. intros [Hc Hcan] [sm cm em].
  unfold Spec.same_value, Spec.dnum, Spec.dden.
  cbn [PyDecimal.sign PyDecimal.coeff PyDecimal.exp]. intros Hcm [_ Hv].
  destruct (Z.eqb_spec c 0) as [->|Hnz]; [exact Hcm|].
  pose proof (pow10_max_pos e) as P1. pose proof (pow10_max_pos (- e)) as P2.
  pose proof (pow10_max_pos em) as P3.
  pose proof (pow10_max_pos (- em)) as P4.
  destruct (Z_le_gt_dec em e) as [Hle|Hgt].
  - (* the other exponent is smaller: its coefficient has more zeros *)
    pose proof (pow10_frac_le em e Hle) as Hp.
    pose proof (pow10_gt0 (e - em) ltac:(lia)) as P5.
    set (A := 10 ^ Z.max em 0 * 10 ^ Z.max (- e) 0) in *.
    assert (0 < A) as HA by (apply Z.mul_pos_pos; assumption).
    assert (cm * A = c * 10 ^ (e - em) * A) as E.
    { transitivity (cm * 10 ^ Z.max em 0 * 10 ^ Z.max (- e) 0);
        [unfold A; ring|].
      rewrite Hv.
      transitivity (c * (10 ^ Z.max e 0 * 10 ^ Z.max (- em) 0)); [ring|].
      rewrite <- Hp. unfold A. ring. }
    apply Z.mul_reg_r in E; [|lia]. rewrite E.
    assert (c * 1 <= c * 10 ^ (e - em))
      by (apply Z.mul_le_mono_nonneg_l; lia).
    lia.
  - (* the other exponent is larger: impossible, [c] ends in no zero *)
    exfalso. apply Hcan.
    pose proof (pow10_frac_le e em ltac:(lia)) as Hp.
    pose proof (pow10_gt0 (em - e - 1) ltac:(lia)) as P5.
    set (A := 10 ^ Z.max e 0 * 10 ^ Z.max (- em) 0) in *.
    assert (0 < A) as HA by (apply Z.mul_pos_pos; assumption).
    assert (10 ^ (em - e) = 10 ^ (em - e - 1) * 10) as E10.
    { replace (em - e) with ((em - e - 1) + 1) at 1 by lia.
      rewrite pow10_add by lia. reflexivity. }
    assert (c * A = cm * 10 ^ (em - e - 1) * 10 * A) as E.
    { transitivity (c * (10 ^ Z.max e 0 * 10 ^ Z.max (- em) 0));
        [unfold A; ring|].
      transitivity (cm * 10 ^ Z.max em 0 * 10 ^ Z.max (- e) 0);
        [rewrite Hv; ring|].
      transitivity (cm * (10 ^ Z.max em 0 * 10 ^ Z.max (- e) 0)); [ring|].
      rewrite <- Hp, E10. unfold A. ring. }
    apply Z.mul_reg_r in E; [|lia]. rewrite E. apply Z.mod_mul. lia.
Qed.

(** ** Quotients of payload words *)

Lemma ndigits_word a : 0 < a < 2 ^ 256 -> 1 <= PyDecimal.ndigits a <= 78.
Proof.
  intros Ha. destruct (ndigits_spec a ltac:(lia)) as (H1 & _).
  split; [exact H1|]. apply ndigits_le; [lia|lia|].
  assert (2 ^ 256 < 10 ^ 78) by (vm_compute; reflexivity). lia.
Qed.

(** [Decimal(a) / Decimal(b)] and its normal form, for payload words:
    the quotient rounded to 40 digits, and the canonical decimal of the
    same value, whose text reads back as itself. *)
Lemma quotient_computed a b :
  0 <= a < 2 ^ 256 -> 0 < b < 2 ^ 256 ->
  exists q n,
    PyDecimal.truediv ctx (PyDecimal.of_int a) (PyDecimal.of_int b) = Ok q
    /\ PyDecimal.normalize ctx q = Ok n
    /\ Spec.rounded_quotient 40 a b q
    /\ Spec.canonical_text q (PyDecimal.to_str n).
Proof.
  intros Ha Hb.
  assert (exists c e, PyDecimal.truediv ctx (PyDecimal.of_int a)
                        (PyDecimal.of_int b)
                      = Ok (PyDecimal.mkDec false c e)
                      /\ 0 <= c < 10 ^ 40 /\ -118 <= e <= 78
                      /\ Spec.rounded_quotient 40 a b
                           (PyDecimal.mkDec false c e))
    as (c & e & Hq & Hc & He & Hr).
  { destruct (Z.eq_dec a 0) as [->|Hnz].
    - exists 0, 0. rewrite truediv_zero by (try unfold PyDecimal.Etiny; cbn; lia).
      split; [reflexivity|]. split; [lia|]. split; [lia|].
      apply rounded_quotient_zero; lia.
    - pose proof (ndigits_word a ltac:(lia)) as Na.
      pose proof (ndigits_word b Hb) as Nb.
      destruct (truediv_pos ctx a b) as (c & e & Hq & Hc & He & Hr);
        try (cbn [ctx PyDecimal.prec]; lia).
      + unfold PyDecimal.Etiny. cbn [ctx PyDecimal.prec PyDecimal.Emin]. lia.
      + unfold PyDecimal.Etop. cbn [ctx PyDecimal.prec PyDecimal.Emax]. lia.
      + cbn [ctx PyDecimal.prec] in Hc, He, Hr. exists c, e.
        split; [exact Hq|]. split; [lia|]. split; [lia|exact Hr]. }
  destruct (normalize_spec ctx false c e) as (c' & e' & Hn & Hc' & Hcan & Hsv).
  { cbn; lia. }
  { cbn [ctx PyDecimal.prec]. exact Hc. }
  { unfold PyDecimal.Etiny. cbn [ctx PyDecimal.prec PyDecimal.Emin]. lia. }
  { cbn [ctx PyDecimal.prec PyDecimal.Emax]. lia. }
  exists (PyDecimal.mkDec false c e), (PyDecimal.mkDec false c' e').
  split; [exact Hq|]. split; [exact Hn|]. split; [exact Hr|].
  exists (PyDecimal.mkDec false c' e').
  split; [exact Hcan|]. split; [apply canonical_minimal, Hcan|].
  split; [exact Hsv|]. split; [reflexivity|].
  apply of_str_to_str. cbn [PyDecimal.coeff]. lia.
Qed.

Lemma canonical_text_zero : Spec.canonical_text dec_zero "0".
Proof.
  exists dec_zero. split; [split; [cbn; lia|reflexivity]|].
  split; [apply canonical_minimal; split; [cbn; lia|reflexivity]|].
  split; [split; reflexivity|]. split; reflexivity.
Qed.

Lemma converts_Ok v : Spec.converts v = true -> exists n, _hex_to_int v = Ok n.
Proof.
  unfold Spec.converts. destruct (_hex_to_int v) as [n|e]; [eauto|discriminate].
Qed.

(** ** Decoding a well-formed log *)

(** On a well-formed log the decoder gets as far as the position
    fields: it returns the record [mk li bn] once [logIndex] and
    [blockNumber] convert to [li] and [bn]. The record's side and token
    are those the payload's words select, and its size and price are the
    canonical texts of the decimals the two divisions give. *)
Lemma decode_shape log :
  Spec.well_formed log = true ->
  exists f sz pr mk,
    Spec.payload_of log f
    /\ 0 <= Spec.tokenAmount f < 2 ^ 256
    /\ 0 <= Spec.collateralAmount f < 2 ^ 256
    /\ decode_order_filled_log log
       = (let* li := _hex_to_int (logIndex log) in
          let* bn := _hex_to_int (blockNumber log) in
          Ok (mk li bn))
    /\ (if Spec.tokenAmount f =? 0 then sz = dec_zero /\ pr = dec_zero
        else PyDecimal.truediv ctx (PyDecimal.of_int (Spec.tokenAmount f))
               USDC_SCALE = Ok sz
             /\ PyDecimal.truediv ctx
                  (PyDecimal.of_int (Spec.collateralAmount f))
                  (PyDecimal.of_int (Spec.tokenAmount f)) = Ok pr
             /\ Spec.rounded_quotient 40 (Spec.tokenAmount f) 1000000 sz
             /\ Spec.rounded_quotient 40 (Spec.collateralAmount f)
                  (Spec.tokenAmount f) pr)
    /\ forall li bn,
         side (mk li bn) = (if Spec.is_buy f then "BUY" else "SELL")
         /\ token_id (mk li bn) = str_of_int (Spec.tokenId f)
         /\ log_index (mk li bn) = li /\ block_number (mk li bn) = bn
         /\ normalized_str sz = Ok (size (mk li bn))
         /\ normalized_str pr = Ok (price (mk li bn))
         /\ Spec.canonical_text sz (size (mk li bn))
         /\ Spec.canonical_text pr (price (mk li bn)).
Proof.
  intros Hwf.
  destruct (chunk_well_formed log Hwf) as (Htop & ws & Hws & Hlen & Hall).
  destruct ws as [|w0 [|ma [|ta [|mam [|tam [|fee rest]]]]]];
    cbn in Hlen; try lia.
  repeat match goal with
         | H : Forall _ (_ :: _) |- _ =>
             apply Forall_cons in H; destruct H as [? H]
         end.
  set (f := Spec.mkFill w0 ma ta mam tam fee).
  destruct (topics log) as [|t0 [|t1 [|t2 ts]]] eqn:Et; cbn in Htop; try lia.
  assert (0 <= Spec.tokenAmount f < 2 ^ 256) as Htok.
  { unfold Spec.tokenAmount. destruct (Spec.is_buy f); cbn; lia. }
  assert (0 <= Spec.collateralAmount f < 2 ^ 256) as Hcol.
  { unfold Spec.collateralAmount. destruct (Spec.is_buy f); cbn; lia. }
  assert (decode_order_filled_log log
          = let* sz :=
              if negb (Spec.tokenAmount f =? 0)
              then PyDecimal.truediv ctx
                     (PyDecimal.of_int (Spec.tokenAmount f)) USDC_SCALE
              else Ok dec_zero in
            let* pr :=
              if negb (Spec.tokenAmount f =? 0)
              then PyDecimal.truediv ctx
                     (PyDecimal.of_int (Spec.collateralAmount f))
                     (PyDecimal.of_int (Spec.tokenAmount f))
              else Ok dec_zero in
            let* price_s := normalized_str pr in
            let* size_s := normalized_str sz in
            let* li := _hex_to_int (logIndex log) in
            let* bn := _hex_to_int (blockNumber log) in
            Ok {| order_hash := "0x" +:+ format_064x w0;
                  maker := _topic_to_address t1;
                  taker := _topic_to_address t2;
                  maker_asset_id := ma;
                  taker_asset_id := ta;
                  maker_amount_filled := mam;
                  taker_amount_filled := tam;
                  fee := fee;
                  side := if Spec.is_buy f then "BUY" else "SELL";
                  token_id := str_of_int (Spec.tokenId f);
                  price := price_s;
                  size := size_s;
                  tx_hash := hash_value (transactionHash log);
                  log_index := li;
                  block_number := bn;
                  block_hash := hash_value (blockHash log);
                  exchange_address := address log |}) as Hdec.
  { assert (str_ (Spec.tokenId f) = Ok (str_of_int (Spec.tokenId f)))
      as Hstr.
    { apply str_word. unfold Spec.tokenId.
      destruct (Spec.is_buy f); cbn; lia. }
    unfold decode_order_filled_log. rewrite Et, Hws.
    cbn [bind]. cbv zeta.
    change (if (ma =? 0) && negb (ta =? 0) then ta else ma)
      with (Spec.tokenId f).
    rewrite Hstr. reflexivity. }
  assert (Spec.payload_of log f) as Hpay by (exists rest; exact Hws).
  destruct (Spec.tokenAmount f =? 0) eqn:Ez.
  - (* nothing was exchanged *)
    cbn [negb bind] in Hdec.
    exists f, dec_zero, dec_zero. eexists.
    split; [exact Hpay|]. split; [exact Htok|]. split; [exact Hcol|].
    split; [exact Hdec|]. rewrite Ez. split; [split; reflexivity|].
    intros li bn. cbn [side token_id size price log_index block_number].
    repeat (split; [reflexivity|]). split; exact canonical_text_zero.
  - cbn [negb] in Hdec. apply Z.eqb_neq in Ez as Hnz.
    destruct (quotient_computed (Spec.tokenAmount f) 1000000 Htok ltac:(lia))
      as (sz & nsz & Hsz & Hnsz & Hsr & Hst).
    destruct (quotient_computed (Spec.collateralAmount f) (Spec.tokenAmount f)
                Hcol ltac:(lia))
      as (pr & npr & Hpr & Hnpr & Hprr & Hpt).
    change (PyDecimal.of_int 1000000) with USDC_SCALE in Hsz.
    assert (normalized_str sz = Ok (PyDecimal.to_str nsz)) as Hss
      by (unfold normalized_str; rewrite Hnsz; reflexivity).
    assert (normalized_str pr = Ok (PyDecimal.to_str npr)) as Hps
      by (unfold normalized_str; rewrite Hnpr; reflexivity).
    rewrite Hsz, Hpr in Hdec. cbn [bind] in Hdec.
    rewrite Hss, Hps in Hdec. cbn [bind] in Hdec.
    exists f, sz, pr. eexists.
    split; [exact Hpay|]. split; [exact Htok|]. split; [exact Hcol|].
    split; [exact Hdec|]. rewrite Ez. split; [auto|].
    intros li bn. cbn [side token_id size price log_index block_number].
    repeat (split; [reflexivity|]).
    split; [exact Hss|]. split; [exact Hps|]. split; assumption.
Qed.

(** On a well-formed log the decoder returns a record as soon as the
    log carries its position, and whatever it returns has the side and
    token the payload's words select and, as size and price, the
    canonical texts of the decimals the two divisions give. *)
Lemma decode_well_formed log :
  Spec.well_formed log = true ->
  exists f sz pr,
    Spec.payload_of log f
    /\ 0 <= Spec.tokenAmount f < 2 ^ 256
    /\ 0 <= Spec.collateralAmount f < 2 ^ 256
    /\ (if Spec.tokenAmount f =? 0 then sz = dec_zero /\ pr = dec_zero
        else PyDecimal.truediv ctx (PyDecimal.of_int (Spec.tokenAmount f))
               USDC_SCALE = Ok sz
             /\ PyDecimal.truediv ctx
                  (PyDecimal.of_int (Spec.collateralAmount f))
                  (PyDecimal.of_int (Spec.tokenAmount f)) = Ok pr
             /\ Spec.rounded_quotient 40 (Spec.tokenAmount f) 1000000 sz
             /\ Spec.rounded_quotient 40 (Spec.collateralAmount f)
                  (Spec.tokenAmount f) pr)
    /\ (Spec.positioned log = true ->
        exists d, decode_order_filled_log log = Ok d)
    /\ forall d,
         decode_order_filled_log log = Ok d ->
         side d = (if Spec.is_buy f then "BUY" else "SELL")
         /\ token_id d = str_of_int (Spec.tokenId f)
         /\ normalized_str sz = Ok (size d)
         /\ normalized_str pr = Ok (price d)
         /\ Spec.canonical_text sz (size d)
         /\ Spec.canonical_text pr (price d).
Proof.
  intros Hwf.
  destruct (decode_shape log Hwf)
    as (f & sz & pr & mk & Hpay & Htok & Hcol & Hdec & Hq & Hmk).
  exists f, sz, pr. repeat (split; [assumption|]). rewrite Hdec. split.
  - intros Hpos. apply andb_true_iff in Hpos as [Hli Hbn].
    apply converts_Ok in Hli as (li & ->).
    apply converts_Ok in Hbn as (bn & ->). cbn [bind]. eauto.
  - intros d Hd.
    destruct (_hex_to_int (logIndex log)) as [li|]; [|discriminate Hd].
    destruct (_hex_to_int (blockNumber log)) as [bn|]; [|discriminate Hd].
    cbn [bind] in Hd. injection Hd as <-.
    destruct (Hmk li bn) as (H1 & H2 & _ & _ & H5 & H6 & H7 & H8).
    repeat (split; [assumption|]). assumption.
Qed.

(** Without a log index or a block number that converts, the decoder
    raises on a well-formed log too: it reads both after the payload. *)
Lemma decode_needs_position log :
  Spec.well_formed log = true -> Spec.positioned log = false ->
  exists e, decode_order_filled_log log = Raise e.
Proof.
  intros Hwf Hpos.
  destruct (decode_shape log Hwf)
    as (f & sz & pr & mk & _ & _ & _ & Hdec & _).
  rewrite Hdec. unfold Spec.positioned, Spec.converts in Hpos.
  destruct (_hex_to_int (logIndex log)) as [li|e]; cbn [bind]; [|eauto].
  destruct (_hex_to_int (blockNumber log)) as [bn|e]; cbn [bind]; [|eauto].
  discriminate Hpos.
Qed.

(** The quotient of an amount below [10^40] by [10^6] can be written
    with 40 digits. *)
Lemma micro_representable a :
  0 <= a < 10 ^ 40 -> Spec.representable 40 a 1000000.
Proof.
  intros Ha. exists a, (-6). split; [exact Ha|].
  unfold Spec.is_quotient, Spec.dnum, Spec.dden.
  cbn [PyDecimal.coeff PyDecimal.exp].
  change (10 ^ Z.max (-6) 0) with 1. change (10 ^ Z.max (- -6) 0) with 1000000.
  lia.
Qed.

(** The opposite fill of the scenario: one third is rounded to 40
    digits. *)
Example decode_sell_log :
  exists d,
    decode_order_filled_log Fixtures.sell_log = Ok d
    /\ side d = "SELL" /\ token_id d = "555" /\ size d = "3"
    /\ price d = "0.3333333333333333333333333333333333333333".
Proof. eexists. split; [vm_compute; reflexivity|]. repeat split. Qed.

(** C3: on every well-formed log (at least three topics and a payload of
    at least six aligned 32-byte words in hexadecimal) the decoder
    returns a record as soon as the log carries its log index and block
    number, and the record it returns is classified as the claim says.
    Its side is BUY exactly when makerAssetId is 0 and takerAssetId is
    not, and SELL otherwise; its token id is the decimal text of the taker
    asset id on a BUY and of the maker asset id on a SELL, and the token
    and collateral amounts are the taker and maker amounts on a BUY and
    the other way round on a SELL. When the token amount is not 0, size
    is the canonical text of tokenAmount / 10^6 and price the canonical
    text of collateralAmount / tokenAmount, both as decimals of 40
    significant digits, and size is tokenAmount / 10^6 itself for amounts
    below 10^40; when the token amount is 0 both are the text 0. The log
    of the end-to-end scenario (makerAssetId 0, takerAssetId 555, amounts
    1000000 and 2000000) decodes to BUY, 555, size 2 and price 0.5. *)
Theorem C3_decode_side_size_price :
  (forall log,
     Spec.well_formed log = true ->
     exists f,
       Spec.payload_of log f
       /\ (Spec.positioned log = true ->
           exists d, decode_order_filled_log log = Ok d)
       /\ forall d,
            decode_order_filled_log log = Ok d ->
            (side d = "BUY"
             <-> Spec.makerAssetId f = 0 /\ Spec.takerAssetId f <> 0)
            /\ (side d = "SELL"
                <-> ~ (Spec.makerAssetId f = 0 /\ Spec.takerAssetId f <> 0))
            /\ token_id d
               = str_of_int (if side d =? "BUY" then Spec.takerAssetId f
                             else Spec.makerAssetId f)%string
            /\ Spec.tokenAmount f
               = (if side d =? "BUY" then Spec.takerAmountFilled f
                  else Spec.makerAmountFilled f)%string
            /\ Spec.collateralAmount f
               = (if side d =? "BUY" then Spec.makerAmountFilled f
                  else Spec.takerAmountFilled f)%string
            /\ (Spec.tokenAmount f <> 0 ->
                Spec.quotient_text 40 (Spec.tokenAmount f) 1000000 (size d)
                /\ Spec.quotient_text 40 (Spec.collateralAmount f)
                     (Spec.tokenAmount f) (price d)
                /\ (Spec.tokenAmount f < 10 ^ 40 ->
                    exists q, Spec.is_quotient (Spec.tokenAmount f) 1000000 q
                              /\ Spec.canonical_text q (size d)))
            /\ (Spec.tokenAmount f = 0 -> size d = "0" /\ price d = "0"))
  /\ (exists d,
        Spec.payload_of Fixtures.buy_log
          (Spec.mkFill 7 0 555 1000000 2000000 0)
        /\ decode_order_filled_log Fixtures.buy_log = Ok d
        /\ side d = "BUY" /\ token_id d = "555"
        /\ size d = "2" /\ price d = "0.5").
Proof.
  split.
  - intros log Hwf.
    destruct (decode_well_formed log Hwf)
      as (f & sz & pr & Hpay & Hta & Hca & Hq & Hret & Hd).
    exists f. split; [exact Hpay|]. split; [exact Hret|].
    intros d Hdec.
    destruct (Hd d Hdec) as (Hside & Htok & Hss & Hps & Hst & Hpt).
    assert (Spec.is_buy f = true
            <-> Spec.makerAssetId f = 0 /\ Spec.takerAssetId f <> 0) as Hbuy.
    { unfold Spec.is_buy. rewrite andb_true_iff, negb_true_iff.
      rewrite Z.eqb_eq, Z.eqb_neq. reflexivity. }
    assert ((side d =? "BUY")%string = Spec.is_buy f) as ->
      by (rewrite Hside; destruct (Spec.is_buy f); reflexivity).
    split; [|split].
    { rewrite Hside, <- Hbuy.
      destruct (Spec.is_buy f); split; intros H;
        try reflexivity; discriminate H. }
    { rewrite Hside, <- Hbuy.
      destruct (Spec.is_buy f); split; intros H; try reflexivity.
      - discriminate H.
      - exfalso. apply H. reflexivity.
      - intros X. discriminate X. }
    split; [exact Htok|]. split; [reflexivity|]. split; [reflexivity|].
    destruct (Spec.tokenAmount f =? 0) eqn:Ez.
    + apply Z.eqb_eq in Ez. split; [intros Hn; contradiction|].
      intros _. destruct Hq as [-> ->].
      unfold normalized_str in Hss, Hps. cbn in Hss, Hps.
      injection Hss as <-. injection Hps as <-. split; reflexivity.
    + apply Z.eqb_neq in Ez. split; [|intros Hn; contradiction].
      intros _. destruct Hq as (Hsz & Hpr & Hsr & Hpr').
      split; [exists sz; split; assumption|].
      split; [exists pr; split; assumption|].
      intros Hlt. exists sz. split; [|exact Hst].
      apply Hsr. apply micro_representable. lia.
  - eexists. split; [exists []; vm_compute; reflexivity|].
    split; [vm_compute; reflexivity|]. repeat split.
Qed.

Lemma C3_decode_side_size_price_witness :
  Spec.well_formed Fixtures.sell_log = true
  /\ exists f,
       Spec.payload_of Fixtures.sell_log f
       /\ (Spec.positioned Fixtures.sell_log = true ->
           exists d, decode_order_filled_log Fixtures.sell_log = Ok d)
       /\ forall d,
            decode_order_filled_log Fixtures.sell_log = Ok d ->
            (side d = "BUY"
             <-> Spec.makerAssetId f = 0 /\ Spec.takerAssetId f <> 0)
            /\ (side d = "SELL"
                <-> ~ (Spec.makerAssetId f = 0 /\ Spec.takerAssetId f <> 0))
            /\ token_id d
               = str_of_int (if side d =? "BUY" then Spec.takerAssetId f
                             else Spec.makerAssetId f)%string
            /\ Spec.tokenAmount f
               = (if side d =? "BUY" then Spec.takerAmountFilled f
                  else Spec.makerAmountFilled f)%string
            /\ Spec.collateralAmount f
               = (if side d =? "BUY" then Spec.makerAmountFilled f
                  else Spec.takerAmountFilled f)%string
            /\ (Spec.tokenAmount f <> 0 ->
                Spec.quotient_text 40 (Spec.tokenAmount f) 1000000 (size d)
                /\ Spec.quotient_text 40 (Spec.collateralAmount f)
                     (Spec.tokenAmount f) (price d)
                /\ (Spec.tokenAmount f < 10 ^ 40 ->
                    exists q, Spec.is_quotient (Spec.tokenAmount f) 1000000 q
                              /\ Spec.canonical_text q (size d)))
            /\ (Spec.tokenAmount f = 0 -> size d = "0" /\ price d = "0").
Proof.
  split; [vm_compute; reflexivity|].
  apply (proj1 C3_decode_side_size_price Fixtures.sell_log).
  vm_compute; reflexivity.
Defined.

(** C6: the decoder's arithmetic context has a precision of 40
    significant digits, and on every well-formed log size and price are
    computed by decimal division in that context, on integer coefficients
    and exponents and never in binary floating point: each is the quotient
    rounded to 40 digits, which is the quotient itself whenever that can
    be written with 40 digits and is within half a unit of the 40th digit
    otherwise. The decoder returns a record as soon as the log carries its
    position, and in the record it returns the texts of size and price are
    those of the normalized values: the coefficient has no trailing zero,
    no decimal of the same value has a smaller coefficient, and reading
    the text back as a decimal gives the normalized value, whose value is
    the computed one. *)
Theorem C6_decimal_precision_and_text :
  PyDecimal.prec ctx = 40
  /\ forall log,
       Spec.well_formed log = true ->
       exists f sz pr,
         Spec.payload_of log f
         /\ (if Spec.tokenAmount f =? 0 then sz = dec_zero /\ pr = dec_zero
             else PyDecimal.truediv ctx
                    (PyDecimal.of_int (Spec.tokenAmount f)) USDC_SCALE
                  = Ok sz
                  /\ PyDecimal.truediv ctx
                       (PyDecimal.of_int (Spec.collateralAmount f))
                       (PyDecimal.of_int (Spec.tokenAmount f))
                     = Ok pr)
         /\ Spec.rounded_quotient 40 (Spec.tokenAmount f) 1000000 sz
         /\ (Spec.tokenAmount f <> 0 ->
             Spec.rounded_quotient 40 (Spec.collateralAmount f)
               (Spec.tokenAmount f) pr)
         /\ (Spec.positioned log = true ->
             exists d, decode_order_filled_log log = Ok d)
         /\ forall d,
              decode_order_filled_log log = Ok d ->
              normalized_str sz = Ok (size d)
              /\ normalized_str pr = Ok (price d)
              /\ Spec.canonical_text sz (size d)
              /\ Spec.canonical_text pr (price d).
Proof.
  split; [reflexivity|]. intros log Hwf.
  destruct (decode_well_formed log Hwf)
    as (f & sz & pr & Hpay & Hta & Hca & Hq & Hret & Hd).
  exists f, sz, pr. split; [exact Hpay|].
  assert (forall d,
            decode_order_filled_log log = Ok d ->
            normalized_str sz = Ok (size d)
            /\ normalized_str pr = Ok (price d)
            /\ Spec.canonical_text sz (size d)
            /\ Spec.canonical_text pr (price d)) as Htext.
  { intros d Hdec. destruct (Hd d Hdec) as (_ & _ & H). exact H. }
  destruct (Spec.tokenAmount f =? 0) eqn:Ez.
  - apply Z.eqb_eq in Ez. destruct Hq as [-> ->].
    split; [split; reflexivity|]. rewrite Ez.
    split; [apply rounded_quotient_zero; lia|].
    split; [intros Hn; contradiction|]. split; assumption.
  - destruct Hq as (Hsz & Hpr & Hsr & Hpr').
    split; [split; assumption|]. split; [exact Hsr|].
    split; [intros _; exact Hpr'|]. split; assumption.
Qed.

Lemma C6_decimal_precision_and_text_witness :
  Spec.well_formed Fixtures.sell_log = true
  /\ exists f sz pr,
       Spec.payload_of Fixtures.sell_log f
       /\ (if Spec.tokenAmount f =? 0 then sz = dec_zero /\ pr = dec_zero
           else PyDecimal.truediv ctx
                  (PyDecimal.of_int (Spec.tokenAmount f)) USDC_SCALE
                = Ok sz
                /\ PyDecimal.truediv ctx
                     (PyDecimal.of_int (Spec.collateralAmount f))
                     (PyDecimal.of_int (Spec.tokenAmount f))
                   = Ok pr)
       /\ Spec.rounded_quotient 40 (Spec.tokenAmount f) 1000000 sz
       /\ (Spec.tokenAmount f <> 0 ->
           Spec.rounded_quotient 40 (Spec.collateralAmount f)
             (Spec.tokenAmount f) pr)
       /\ (Spec.positioned Fixtures.sell_log = true ->
           exists d, decode_order_filled_log Fixtures.sell_log = Ok d)
       /\ forall d,
            decode_order_filled_log Fixtures.sell_log = Ok d ->
            normalized_str sz = Ok (size d)
            /\ normalized_str pr = Ok (price d)
            /\ Spec.canonical_text sz (size d)
            /\ Spec.canonical_text pr (price d).
Proof.
  split; [vm_compute; reflexivity|].
  apply (proj2 C6_decimal_precision_and_text Fixtures.sell_log).
  vm_compute; reflexivity.
Defined.

(** ** Texts of digits in any base *)

Lemma digit_value_nonneg c : 0 <= digit_value c.
Proof.
  unfold digit_value, between. pose proof (code_range c).
  repeat match goal with
         | |- context [if ?b then _ else _] => destruct b eqn:?
         end; lia.
Qed.

Lemma digit_not_underscore base c :
  base <= 36 -> (digit_value c <? base) = true -> Ascii.eqb c "_" = false.
Proof.
  intros Hb Hd. apply Z.ltb_lt in Hd.
  destruct (Ascii.eqb c "_") eqn:E; [|reflexivity].
  apply Ascii.eqb_eq in E. subst c.
  change (digit_value "_") with 37 in Hd. lia.
Qed.

(** The digit loop of [int()] reads a run of digits of the base to its
    end and returns its value. *)
Lemma scan_text base s : forall acc,
  base <= 36 ->
  all_chars (fun c => digit_value c <? base) s = true ->
  scan_digits base s false acc = Some (Spec.text_value base s acc, "").
Proof.
  induction s as [|c s IH]; intros acc Hb H; [reflexivity|].
  cbn [all_chars] in H. apply andb_true_iff in H as [Hc Hs].
  cbn [scan_digits Spec.text_value].
  rewrite (digit_not_underscore base c Hb Hc), Hc. apply IH; assumption.
Qed.

Lemma text_value_append base s1 : forall s2 acc,
  Spec.text_value base (s1 +:+ s2) acc
  = Spec.text_value base s2 (Spec.text_value base s1 acc).
Proof.
  induction s1 as [|c s1 IH]; intros s2 acc.
  - rewrite append_nil_l. reflexivity.
  - rewrite append_cons. cbn. apply IH.
Qed.

Lemma text_value_zeros base k : Spec.text_value base (zeros k) 0 = 0.
Proof. induction k as [|k IH]; [reflexivity|]. cbn. exact IH. Qed.

Lemma text_value_be_string base l : forall s acc,
  Forall (fun d => 0 <= d < 36) l ->
  Spec.text_value base (Spec.be_string l s) acc
  = Spec.text_value base s
      (acc * base ^ Z.of_nat (length l) + Spec.le_value base l).
Proof.
  unfold Spec.be_string.
  induction l as [|d l IH]; intros s acc Hl; cbn [fold_left length Spec.le_value].
  - f_equal. cbn. lia.
  - apply Forall_cons in Hl as [Hd Hl]. rewrite IH by exact Hl.
    cbn [Spec.text_value]. rewrite digit_value_char by lia.
    f_equal. rewrite Nat2Z.inj_succ, Z.pow_succ_r by lia. ring.
Qed.

(** The value of the numeral of [n] is [n]. *)
Lemma text_value_numeral base n :
  2 <= base <= 36 -> 0 <= n -> Spec.text_value base (numeral base n) 0 = n.
Proof.
  intros Hb Hn. destruct (digits_of base n ltac:(lia) Hn) as (V & D & _).
  rewrite numeral_be, text_value_be_string.
  - cbn [Spec.text_value]. cbv zeta in V. lia.
  - eapply List.Forall_impl; [|exact D]. cbv beta. intros d Hd. lia.
Qed.

Lemma numeral_chars base n :
  2 <= base <= 36 -> 0 <= n ->
  all_chars (fun c => digit_value c <? base) (numeral base n) = true
  /\ (1 <= String.length (numeral base n))%nat
  /\ n < base ^ Z.of_nat (String.length (numeral base n))
  /\ (0 < n -> base ^ (Z.of_nat (String.length (numeral base n)) - 1) <= n).
Proof.
  intros Hb Hn.
  destruct (digits_of base n ltac:(lia) Hn) as (_ & D & L & U & Lo).
  rewrite numeral_be, be_string_length. cbn [String.length].
  rewrite Nat.add_0_r. split; [|split; [exact L|split; [exact U|exact Lo]]].
  apply be_string_all_chars; [|reflexivity].
  eapply List.Forall_impl; [|exact D]. cbv beta. intros d Hd.
  rewrite digit_value_char by lia. apply Z.ltb_lt. lia.
Qed.

Lemma all_chars_zeros_hex k :
  all_chars (fun c => digit_value c <? 16) (zeros k) = true.
Proof. induction k as [|k IH]; [reflexivity|]. cbn. exact IH. Qed.

(** [format(w, "064x")] of a word: 64 hexadecimal digits whose value is
    the word. *)
Lemma format_064x_word w :
  0 <= w < 2 ^ 256 ->
  String.length (format_064x w) = 64%nat
  /\ all_chars Spec.is_hex_char (format_064x w) = true
  /\ Spec.text_value 16 (format_064x w) 0 = w.
Proof.
  intros Hw. unfold format_064x.
  rewrite (proj2 (Z.ltb_ge w 0)) by lia.
  destruct (numeral_chars 16 w ltac:(lia) ltac:(lia)) as (Hc & L1 & _ & Lo).
  set (d := numeral 16 w) in *.
  assert (String.length d <= 64)%nat as L2.
  { destruct (Z.eq_dec w 0) as [->|Hnz]; [subst d; cbn; lia|].
    specialize (Lo ltac:(lia)).
    destruct (Nat.le_gt_cases (String.length d) 64) as [|Hgt]; [assumption|].
    exfalso.
    assert (16 ^ 64 <= 16 ^ (Z.of_nat (String.length d) - 1))
      by (apply Z.pow_le_mono_r; lia).
    change (16 ^ 64) with (2 ^ 256) in *. lia. }
  split; [rewrite length_append, length_zeros; lia|]. split.
  - unfold Spec.is_hex_char. rewrite all_chars_append, all_chars_zeros_hex.
    exact Hc.
  - rewrite text_value_append, text_value_zeros.
    apply text_value_numeral; lia.
Qed.

(** [int(w, 16)] on a run of hexadecimal digits is its value. *)
Lemma int_of_hex_text w :
  all_chars Spec.is_hex_char w = true -> (1 <= String.length w)%nat ->
  int_of_str 16 w = Ok (Spec.text_value 16 w 0).
Proof.
  intros H Hlen. destruct w as [|c r]; [cbn in Hlen; lia|].
  pose proof (scan_text 16 _ 0 ltac:(lia) H) as Hv.
  cbn [all_chars] in H. apply andb_true_iff in H as [Hc Hr].
  destruct (hex_char_facts c Hc) as (Hs & Hp & Hm & Hu & _ & _ & Hd & _).
  unfold int_of_str. cbn [lstrip]. rewrite Hs, Hp, Hm.
  assert (match r with
          | String x r0 =>
              if Ascii.eqb c "0" && (16 =? 16)
                 && (Ascii.eqb x "x" || Ascii.eqb x "X")
              then match r0 with
                   | String u r' => if Ascii.eqb u "_" then r' else r0
                   | EmptyString => r0
                   end
              else String c r
          | EmptyString => String c r
          end = String c r) as ->.
  { destruct r as [|x r0]; [reflexivity|].
    cbn [all_chars] in Hr. apply andb_true_iff in Hr as [Hx _].
    destruct (hex_char_facts x Hx) as (_ & _ & _ & _ & -> & -> & _).
    rewrite andb_false_r. reflexivity. }
  rewrite Hu, Hd, Hv. cbn [lstrip]. f_equal. lia.
Qed.

(** ** [_chunk_data_words] *)

Lemma take_append a : forall b, take (String.length a) (a +:+ b) = a.
Proof.
  induction a as [|c a IH]; intros b; [reflexivity|].
  rewrite append_cons. cbn [String.length take]. rewrite IH. reflexivity.
Qed.

Lemma drop_append a : forall b, drop (String.length a) (a +:+ b) = b.
Proof.
  induction a as [|c a IH]; intros b; [apply append_nil_l|].
  rewrite append_cons. cbn [String.length drop]. apply IH.
Qed.

Lemma hex_words_length ws :
  Forall (fun w => 0 <= w < 2 ^ 256) ws ->
  String.length (Spec.hex_words ws) = (64 * length ws)%nat.
Proof.
  induction 1 as [|w ws Hw _ IH]; [reflexivity|].
  cbn [Spec.hex_words length]. rewrite length_append, IH.
  destruct (format_064x_word w Hw) as (-> & _). lia.
Qed.

Lemma slices64_hex_words ws :
  Forall (fun w => 0 <= w < 2 ^ 256) ws ->
  slices64 (length ws) (Spec.hex_words ws) = map format_064x ws.
Proof.
  induction 1 as [|w ws Hw _ IH]; [reflexivity|].
  cbn [Spec.hex_words length slices64 map].
  destruct (format_064x_word w Hw) as (L & _).
  rewrite <- L. rewrite take_append, drop_append, IH. reflexivity.
Qed.

Lemma parse_words_format ws :
  Forall (fun w => 0 <= w < 2 ^ 256) ws ->
  parse_words (map format_064x ws) = Ok ws.
Proof.
  induction 1 as [|w ws Hw _ IH]; [reflexivity|].
  cbn [map parse_words].
  destruct (format_064x_word w Hw) as (L & Hc & Hv).
  rewrite int_of_hex_text by (try exact Hc; lia).
  rewrite Hv, IH. reflexivity.
Qed.

Lemma hex_words_no_prefix ws :
  Forall (fun w => 0 <= w < 2 ^ 256) ws ->
  startswith "0x" (Spec.hex_words ws) = false.
Proof.
  intros H. rewrite startswith_0x. destruct H as [|w ws Hw _]; [reflexivity|].
  cbn [Spec.hex_words].
  destruct (format_064x_word w Hw) as (L & Hc & _).
  destruct (format_064x w) as [|a [|b r]]; try (cbn in L; lia).
  rewrite !append_cons. cbn [all_chars] in Hc.
  apply andb_true_iff in Hc as [_ Hc]. apply andb_true_iff in Hc as [Hb _].
  destruct (hex_char_facts b Hb) as (_ & _ & _ & _ & -> & _).
  apply andb_false_r.
Qed.

(** X1: [_chunk_data_words] reads back the words of a payload: for
    words in [0, 2^256), the text of their 64-digit hexadecimal forms put
    end to end, with or without the [0x] in front, is chunked into
    exactly these words, in order. *)
Theorem X1_chunk_data_words_round_trip (ws : list Z) :
  Forall (fun w => 0 <= w < 2 ^ 256) ws ->
  _chunk_data_words ("0x" +:+ Spec.hex_words ws) = Ok ws
  /\ _chunk_data_words (Spec.hex_words ws) = Ok ws.
Proof.
  intros H.
  assert (forall d, (if startswith "0x" d then drop 2 d else d)
                    = Spec.hex_words ws ->
                    _chunk_data_words d = Ok ws) as Hgen.
  { intros d Hd. unfold _chunk_data_words. rewrite Hd.
    unfold len. rewrite (hex_words_length ws H).
    replace (Z.of_nat (64 * length ws) mod 64) with 0
      by (rewrite Nat2Z.inj_mul, Z.mul_comm, Z.mod_mul; lia).
    cbn [Z.eqb negb].
    replace (64 * length ws / 64)%nat with (length ws)
      by (rewrite Nat.mul_comm, Nat.div_mul; lia).
    rewrite slices64_hex_words by exact H. apply parse_words_format, H. }
  split; apply Hgen.
  - rewrite startswith_0x, !append_cons, append_nil_l. reflexivity.
  - rewrite hex_words_no_prefix by exact H. reflexivity.
Qed.

Lemma X1_chunk_data_words_round_trip_witness :
  _chunk_data_words
    ("0x" +:+ Spec.hex_words [7; 0; 555; 1000000; 2000000; 0])
  = Ok [7; 0; 555; 1000000; 2000000; 0]
  /\ _chunk_data_words (Spec.hex_words [7; 0; 555; 1000000; 2000000; 0])
     = Ok [7; 0; 555; 1000000; 2000000; 0].
Proof.
  apply (X1_chunk_data_words_round_trip [7; 0; 555; 1000000; 2000000; 0]).
  repeat constructor; lia.
Defined.

(** ** Bounds on what [int()] reads *)

Lemma scan_bound base s : forall prev acc v rest,
  2 <= base -> 0 <= acc ->
  scan_digits base s prev acc = Some (v, rest) ->
  0 <= v < (acc + 1) * base ^ len s.
Proof.
  induction s as [|c s IH]; intros prev acc v rest Hb Hacc H.
  - cbn in H. destruct prev; [discriminate|]. injection H as <- _.
    change (len "") with 0. lia.
  - assert (len (String c s) = 1 + len s) as ->
      by (unfold len; cbn [String.length]; lia).
    assert (0 <= len s) by (unfold len; lia).
    rewrite Z.pow_add_r by lia. rewrite Z.pow_1_r.
    set (P := base ^ len s) in *.
    assert (0 < P) by (apply Z.pow_pos_nonneg; lia).
    assert (1 * P <= base * P) as HP
      by (apply Z.mul_le_mono_nonneg_r; lia).
    assert ((acc + 1) * P <= (acc + 1) * (base * P)) as Hmono
      by (apply Z.mul_le_mono_nonneg_l; lia).
    cbn [scan_digits] in H. destruct (Ascii.eqb c "_").
    + destruct prev; [discriminate|].
      specialize (IH _ _ _ _ Hb Hacc H). lia.
    + destruct (digit_value c <? base) eqn:Hd.
      * apply Z.ltb_lt in Hd. pose proof (digit_value_nonneg c) as Hn.
        assert (0 <= acc * base) as Hab
          by (apply Z.mul_nonneg_nonneg; lia).
        assert (0 <= acc * base + digit_value c) as Hacc' by lia.
        specialize (IH _ _ _ _ Hb Hacc' H).
        assert ((acc * base + digit_value c + 1) * P
                <= (acc + 1) * (base * P)) as B.
        { replace ((acc + 1) * (base * P)) with ((acc * base + base) * P)
            by ring.
          apply Z.mul_le_mono_nonneg_r; lia. }
        lia.
      * destruct prev; [discriminate|]. injection H as <- _.
        assert ((acc + 1) * 1 <= (acc + 1) * (base * P))
          by (apply Z.mul_le_mono_nonneg_l; lia).
        lia.
Qed.

Lemma length_lstrip p s : (String.length (lstrip p s) <= String.length s)%nat.
Proof.
  induction s as [|c s IH]; [cbn; lia|]. cbn [lstrip].
  destruct (p c); cbn [String.length]; lia.
Qed.

(** [int(s, base)] is smaller in absolute value than [base] to the
    length of [s]. *)
Lemma int_of_str_bound base s v :
  2 <= base -> int_of_str base s = Ok v -> Z.abs v < base ^ len s.
Proof.
  intros Hb. unfold int_of_str.
  set (s1 := lstrip int_space s).
  assert (String.length s1 <= String.length s)%nat as L1
    by apply length_lstrip.
  destruct (match s1 with
            | String c r =>
                if Ascii.eqb c "+" then (1, r)
                else if Ascii.eqb c "-" then (-1, r) else (1, s1)
            | EmptyString => (1, s1)
            end) as [sign s2] eqn:E2.
  assert ((sign = 1 \/ sign = -1)
          /\ (String.length s2 <= String.length s1)%nat) as [Hsign L2].
  { destruct s1 as [|c r]; [injection E2 as <- <-; split; [auto|lia]|].
    destruct (Ascii.eqb c "+"); [injection E2 as <- <-; cbn; split; [auto|lia]|].
    destruct (Ascii.eqb c "-"); injection E2 as <- <-; cbn; split; auto; lia. }
  set (s3 := match s2 with
             | String c (String x r) =>
                 if Ascii.eqb c "0" && (base =? 16)
                    && (Ascii.eqb x "x" || Ascii.eqb x "X")
                 then match r with
                      | String u r' => if Ascii.eqb u "_" then r' else r
                      | EmptyString => r
                      end
                 else s2
             | _ => s2
             end).
  assert (String.length s3 <= String.length s2)%nat as L3.
  { subst s3. destruct s2 as [|c [|x r]]; try lia.
    destruct (_ && _); [|lia].
    destruct r as [|u r']; [cbn; lia|].
    destruct (Ascii.eqb u "_"); cbn; lia. }
  destruct s3 as [|c r] eqn:E3; [discriminate|].
  destruct (Ascii.eqb c "_"); [discriminate|].
  destruct (digit_value c <? base); [|discriminate].
  destruct (scan_digits base (String c r) false 0) as [[v0 rest]|] eqn:Es;
    [|discriminate].
  destruct (lstrip int_space rest); [|discriminate].
  destruct (negb (is_binary_base base) && _); [discriminate|].
  intros [= <-].
  pose proof (scan_bound _ _ _ _ _ _ Hb (Z.le_refl 0) Es) as B.
  assert (base ^ len (String c r) <= base ^ len s) as Hle.
  { apply Z.pow_le_mono_r; [lia|]. unfold len. lia. }
  destruct Hsign as [-> | ->]; lia.
Qed.

Lemma length_take_le k s : (String.length (take k s) <= k)%nat.
Proof. rewrite length_take. lia. Qed.

Lemma parse_words_bound l : forall ws,
  Forall (fun w => (String.length w <= 64)%nat) l ->
  parse_words l = Ok ws ->
  Forall (fun w => Z.abs w < 2 ^ 256) ws.
Proof.
  induction l as [|w l IH]; intros ws Hl; cbn [parse_words].
  - intros [= <-]. constructor.
  - apply Forall_cons in Hl as [Hw Hl].
    destruct (int_of_str 16 w) as [v|] eqn:Ev; cbn [bind]; [|discriminate].
    destruct (parse_words l) as [vs|]; cbn [bind]; [|discriminate].
    intros [= <-]. constructor; [|apply IH; auto].
    pose proof (int_of_str_bound 16 w v ltac:(lia) Ev) as B.
    assert (16 ^ len w <= 16 ^ 64)
      by (apply Z.pow_le_mono_r; unfold len; lia).
    change (16 ^ 64) with (2 ^ 256) in *. lia.
Qed.

Lemma slices64_short n : forall s,
  Forall (fun w => (String.length w <= 64)%nat) (slices64 n s).
Proof.
  induction n as [|n IH]; intros s; cbn [slices64]; constructor.
  - apply length_take_le.
  - apply IH.
Qed.

(** X2: what [_chunk_data_words] returns and how it fails. A payload
    (the text after an optional [0x]) whose length is not a multiple of
    64 raises [ValueError("unexpected log data length")]; the only other
    failure is the [ValueError] of [int()] on a slice; a returned list has
    one word per 64 characters, each smaller than [2^256] in absolute
    value; the empty payload gives the empty list. *)
Theorem X2_chunk_data_words_outcomes (d : string) :
  let payload := if startswith "0x" d then drop 2 d else d in
  (len payload mod 64 <> 0 ->
   _chunk_data_words d = Raise (ValueError "unexpected log data length"))
  /\ (forall ws,
        _chunk_data_words d = Ok ws ->
        len payload mod 64 = 0
        /\ Z.of_nat (length ws) = len payload / 64
        /\ Forall (fun w => Z.abs w < 2 ^ 256) ws)
  /\ (forall e,
        _chunk_data_words d = Raise e ->
        e = ValueError "unexpected log data length" \/ e = invalid_literal)
  /\ (payload = "" -> _chunk_data_words d = Ok []).
Proof.
  intros payload. unfold _chunk_data_words. fold payload.
  destruct (Z.eqb_spec (len payload mod 64) 0) as [E|E]; cbn [negb].
  - split; [intros Hn; contradiction|]. split; [|split].
    + intros ws Hws. split; [exact E|]. split.
      * apply parse_words_length in Hws. rewrite Hws, slices64_length.
        unfold len. rewrite Nat2Z.inj_div. reflexivity.
      * eapply parse_words_bound; [|exact Hws]. apply slices64_short.
    + intros e He. right. eapply parse_words_raises, He.
    + intros ->. reflexivity.
  - split; [reflexivity|]. split; [discriminate|]. split.
    + intros e [= <-]. left. reflexivity.
    + intros ->. exfalso. apply E. reflexivity.
Qed.

Lemma X2_chunk_data_words_outcomes_witness :
  _chunk_data_words "0xabc" = Raise (ValueError "unexpected log data length")
  /\ _chunk_data_words "0x" = Ok [].
Proof.
  destruct (X2_chunk_data_words_outcomes "0xabc") as (H1 & _).
  destruct (X2_chunk_data_words_outcomes "0x") as (_ & _ & _ & H4).
  split; [apply H1; vm_compute; discriminate|apply H4; reflexivity].
Defined.

(** ** [_hex_to_int] *)

(** [int(str(n))] is [n], for negative [n] too, while the text has at
    most [max_str_digits] digits; with more digits [int] raises. *)
Lemma int_of_str_of_int_cases n :
  int_of_str 10 (str_of_int n)
  = if max_str_digits <? len (numeral 10 (Z.abs n))
    then Raise invalid_literal else Ok n.
Proof.
  unfold str_of_int. destruct (Z.ltb_spec n 0) as [Hn|Hn].
  - replace (Z.abs n) with (- n) by lia.
    destruct (numeral_chars 10 (- n) ltac:(lia) ltac:(lia)) as (Hc & L & _).
    pose proof (text_value_numeral 10 (- n) ltac:(lia) ltac:(lia)) as Hv.
    pose proof (scan_text 10 _ 0 ltac:(lia) Hc) as Hs.
    pose proof (count_numeral 10 (- n) ltac:(lia) ltac:(lia)) as Hk.
    destruct (numeral 10 (- n)) as [|c r] eqn:E; [cbn in L; lia|].
    cbn [all_chars] in Hc. apply andb_true_iff in Hc as [Hc0 Hr].
    unfold int_of_str. cbn [lstrip].
    change (int_space "-") with false. cbv iota.
    change (Ascii.eqb "-" "+") with false.
    change (Ascii.eqb "-" "-") with true. cbv iota.
    assert (match r with
            | String x r0 =>
                if Ascii.eqb c "0" && (10 =? 16)
                   && (Ascii.eqb x "x" || Ascii.eqb x "X")
                then match r0 with
                     | String u r' => if Ascii.eqb u "_" then r' else r0
                     | EmptyString => r0
                     end
                else String c r
            | EmptyString => String c r
            end = String c r) as ->.
    { destruct r as [|x r0]; [reflexivity|].
      change (10 =? 16) with false. rewrite andb_false_r. reflexivity. }
    rewrite (digit_not_underscore 10 c ltac:(lia) Hc0), Hc0, Hs.
    cbn [lstrip]. rewrite Hk.
    change (negb (is_binary_base 10)) with true. cbn [andb].
    destruct (max_str_digits <? len (String c r)); [reflexivity|].
    rewrite Hv. f_equal. lia.
  - replace (Z.abs n) with n by lia. apply int_of_numeral_cases. exact Hn.
Qed.

Lemma int_of_str_of_int n :
  Z.abs n < 10 ^ max_str_digits -> int_of_str 10 (str_of_int n) = Ok n.
Proof.
  intros H. rewrite int_of_str_of_int_cases.
  pose proof (str_within n H) as Hs. unfold str_ in Hs.
  destruct (max_str_digits <? len (numeral 10 (Z.abs n)));
    [discriminate|reflexivity].
Qed.

Lemma int_of_str_of_int_beyond n :
  10 ^ max_str_digits <= Z.abs n ->
  int_of_str 10 (str_of_int n) = Raise invalid_literal.
Proof.
  intros H. rewrite int_of_str_of_int_cases.
  pose proof (str_beyond n H) as Hs. unfold str_ in Hs.
  destruct (max_str_digits <? len (numeral 10 (Z.abs n)));
    [reflexivity|discriminate].
Qed.

Lemma from_bytes_big_bound b : forall acc,
  0 <= acc ->
  acc * 256 ^ Z.of_nat (length b)
  <= fold_left (fun a x => a * 256 + Z.of_N (Byte.to_N x)) b acc
  < (acc + 1) * 256 ^ Z.of_nat (length b).
Proof.
  induction b as [|x b IH]; intros acc Hacc; cbn [fold_left length].
  - cbn. lia.
  - pose proof (Byte.to_N_bounded x) as Hx.
    assert (0 <= acc * 256 + Z.of_N (Byte.to_N x)) as H0 by lia.
    specialize (IH _ H0).
    rewrite Nat2Z.inj_succ, Z.pow_succ_r by lia.
    set (P := 256 ^ Z.of_nat (length b)) in *.
    assert (0 < P) by (apply Z.pow_pos_nonneg; lia).
    assert (acc * 256 * P <= (acc * 256 + Z.of_N (Byte.to_N x)) * P)
      by (apply Z.mul_le_mono_nonneg_r; lia).
    assert ((acc * 256 + Z.of_N (Byte.to_N x) + 1) * P
            <= (acc * 256 + 256) * P)
      by (apply Z.mul_le_mono_nonneg_r; lia).
    replace (acc * (256 * P)) with (acc * 256 * P) by ring.
    replace ((acc + 1) * (256 * P)) with ((acc * 256 + 256) * P) by ring.
    lia.
Qed.

(** X3: [_hex_to_int] gives the integer back from each encoding a
    provider uses: an [int] is returned as it is; the text [0x] followed
    by the hexadecimal digits of [n >= 0] gives [n], whatever its size
    (base 16 has no digit limit); the decimal text of [n] gives [n] when
    [|n| < 10^4300], and raises [ValueError] when [|n| >= 10^4300], since
    [int] refuses a decimal text of more than 4300 digits; the [hex()] of
    a bytes-like object is read in base 16 with or without the [0x];
    [bytes] are read big-endian, so [len(b)] bytes give a value in
    [0, 256^len(b)); a missing value ([None]) raises [AttributeError]. *)
Theorem X3_hex_to_int_round_trip :
  (forall n, _hex_to_int (IInt n) = Ok n)
  /\ (forall n, 0 <= n ->
        _hex_to_int (IStr ("0x" +:+ numeral 16 n)) = Ok n
        /\ _hex_to_int (IHex ("0x" +:+ numeral 16 n)) = Ok n
        /\ _hex_to_int (IHex (numeral 16 n)) = Ok n)
  /\ (forall n, Z.abs n < 10 ^ max_str_digits ->
        _hex_to_int (IStr (str_of_int n)) = Ok n)
  /\ (forall n, 10 ^ max_str_digits <= Z.abs n ->
        _hex_to_int (IStr (str_of_int n)) = Raise invalid_literal)
  /\ (forall b, exists v,
        _hex_to_int (IBytes b) = Ok v /\ 0 <= v < 256 ^ Z.of_nat (length b))
  /\ _hex_to_int INone = Raise AttributeError.
Proof.
  assert (forall n, startswith "0x" (str_of_int n) = false) as Hno.
  { intros n. unfold str_of_int. destruct (Z.ltb_spec n 0).
    - rewrite startswith_0x. destruct (numeral 10 (- n)); reflexivity.
    - apply all_digits_no_0x. apply numeral_10_digits. lia. }
  split; [reflexivity|].
  split; [|split; [|split; [|split; [|reflexivity]]]].
  - intros n Hn. cbn [_hex_to_int].
    assert (startswith "0x" ("0x" +:+ numeral 16 n) = true) as ->
      by (rewrite startswith_0x, !append_cons; reflexivity).
    rewrite int_of_hex_literal by exact Hn.
    split; [reflexivity|]. split; [reflexivity|].
    destruct (numeral_chars 16 n ltac:(lia) Hn) as (Hc & L & _).
    rewrite int_of_hex_text by assumption.
    rewrite text_value_numeral by lia. reflexivity.
  - intros n Hn. cbn [_hex_to_int]. rewrite Hno.
    apply int_of_str_of_int, Hn.
  - intros n Hn. cbn [_hex_to_int]. rewrite Hno.
    apply int_of_str_of_int_beyond, Hn.
  - intros b. exists (from_bytes_big b). split; [reflexivity|].
    pose proof (from_bytes_big_bound b 0 ltac:(lia)) as H.
    unfold from_bytes_big. lia.
Qed.

Lemma X3_hex_to_int_round_trip_witness :
  (_hex_to_int (IStr ("0x" +:+ numeral 16 255)) = Ok 255
   /\ _hex_to_int (IHex ("0x" +:+ numeral 16 255)) = Ok 255
   /\ _hex_to_int (IHex (numeral 16 255)) = Ok 255)
  /\ _hex_to_int (IStr (str_of_int (-42))) = Ok (-42)
  /\ _hex_to_int (IStr (str_of_int (10 ^ max_str_digits)))
     = Raise invalid_literal.
Proof.
  destruct X3_hex_to_int_round_trip as (_ & Hhex & Hdec & Hbig & _).
  split; [apply (Hhex 255); lia|].
  split; [apply (Hdec (-42)); vm_compute; reflexivity|].
  apply (Hbig (10 ^ max_str_digits)). vm_compute. discriminate.
Defined.

(** ** [_topic_to_address] *)

Lemma last_chars_append pad a :
  last_chars (String.length a) (pad +:+ a) = a.
Proof.
  unfold last_chars. rewrite length_append.
  replace (String.length pad + String.length a - String.length a)%nat
    with (String.length pad) by lia.
  apply drop_append.
Qed.

(** X4: [_topic_to_address] keeps the last 20 bytes of a topic: for an
    address [a] of 40 characters behind any padding, with or without the
    [0x] in front of the topic, the result is [0x] followed by [a]. A
    topic shorter than 40 characters is not padded: the result has two
    characters more than what is kept, at most 42. *)
Theorem X4_topic_to_address_last_20_bytes :
  (forall pad a,
     String.length a = 40%nat ->
     _topic_to_address ("0x" +:+ pad +:+ a) = "0x" +:+ a
     /\ (startswith "0x" (pad +:+ a) = false ->
         _topic_to_address (pad +:+ a) = "0x" +:+ a))
  /\ (forall t,
        let compact := if startswith "0x" t then drop 2 t else t in
        String.length (_topic_to_address t)
        = (2 + Nat.min 40 (String.length compact))%nat).
Proof.
  split.
  - intros pad a La. unfold _topic_to_address. split.
    + assert (startswith "0x" ("0x" +:+ pad +:+ a) = true) as ->
        by (rewrite startswith_0x, !append_cons; reflexivity).
      change (drop 2 ("0x" +:+ pad +:+ a)) with (pad +:+ a).
      rewrite <- La, last_chars_append. reflexivity.
    + intros ->. rewrite <- La, last_chars_append. reflexivity.
  - intros t compact. unfold _topic_to_address. fold compact.
    rewrite length_append. unfold last_chars. rewrite length_drop.
    cbn [String.length]. lia.
Qed.

Lemma X4_topic_to_address_last_20_bytes_witness :
  _topic_to_address
    ("0x" +:+ "000000000000000000000000"
          +:+ "aaaaaaaaaaaaaaaaaaaaaaaaaaaaaaaaaaaaaaaa")
  = "0x" +:+ "aaaaaaaaaaaaaaaaaaaaaaaaaaaaaaaaaaaaaaaa".
Proof.
  refine (proj1 (proj1 X4_topic_to_address_last_20_bytes
                   "000000000000000000000000"
                   "aaaaaaaaaaaaaaaaaaaaaaaaaaaaaaaaaaaaaaaa" _)).
  reflexivity.
Defined.

(** ** The decoded record *)

(** [int(t, 16)] on [0x] followed by a run of hexadecimal digits. *)
Lemma int_of_hex_prefixed h :
  all_chars Spec.is_hex_char h = true -> (1 <= String.length h)%nat ->
  int_of_str 16 ("0x" +:+ h) = Ok (Spec.text_value 16 h 0).
Proof.
  intros H Hlen. destruct h as [|c r]; [cbn in Hlen; lia|].
  pose proof (scan_text 16 _ 0 ltac:(lia) H) as Hv.
  cbn [all_chars] in H. apply andb_true_iff in H as [Hc Hr].
  destruct (hex_char_facts c Hc) as (_ & _ & _ & Hu & _ & _ & Hd & _).
  unfold int_of_str.
  change ("0x" +:+ String c r) with (String "0" (String "x" (String c r))).
  cbn [lstrip].
  change (int_space "0") with false. cbv iota.
  change (Ascii.eqb "0" "+") with false.
  change (Ascii.eqb "0" "-") with false. cbv iota.
  change (Ascii.eqb "0" "0" && (16 =? 16)
          && (Ascii.eqb "x" "x" || Ascii.eqb "x" "X")) with true.
  cbv iota. rewrite Hu. cbv iota. rewrite Hu, Hd, Hv. cbn [lstrip].
  rewrite Z.mul_1_l. reflexivity.
Qed.

(** X5: the record the decoder returns echoes the log. The asset ids,
    the filled amounts and the fee are the payload's words 1 to 5; the
    order hash is [0x] and the 64 hexadecimal digits of word 0, a text of
    66 characters that [int(_, 16)] reads back as the word; maker and
    taker are the addresses of topics 1 and 2; the hashes and the exchange
    address are the log's; log index and block number are what
    [_hex_to_int] makes of the log's fields. *)
Theorem X5_decoded_record_echoes_log (log : RawLog) (d : Decoded) :
  decode_order_filled_log log = Ok d ->
  exists f,
    Spec.payload_of log f
    /\ maker_asset_id d = Spec.makerAssetId f
    /\ taker_asset_id d = Spec.takerAssetId f
    /\ maker_amount_filled d = Spec.makerAmountFilled f
    /\ taker_amount_filled d = Spec.takerAmountFilled f
    /\ fee d = Spec.feeWord f
    /\ order_hash d = "0x" +:+ format_064x (Spec.orderHash f)
    /\ (0 <= Spec.orderHash f ->
        String.length (order_hash d) = 66%nat
        /\ int_of_str 16 (order_hash d) = Ok (Spec.orderHash f))
    /\ (exists t0 t1 t2 ts,
          topics log = t0 :: t1 :: t2 :: ts
          /\ maker d = _topic_to_address t1
          /\ taker d = _topic_to_address t2)
    /\ tx_hash d = hash_value (transactionHash log)
    /\ block_hash d = hash_value (blockHash log)
    /\ exchange_address d = address log
    /\ _hex_to_int (logIndex log) = Ok (log_index d)
    /\ _hex_to_int (blockNumber log) = Ok (block_number d).
Proof.
  unfold decode_order_filled_log.
  destruct (topics log) as [|t0 [|t1 [|t2 ts]]] eqn:Et; try discriminate.
  destruct (_chunk_data_words (default "0x" (data log))) as [ws|] eqn:Ew;
    cbn [bind]; [|discriminate].
  assert (Forall (fun w => Z.abs w < 2 ^ 256) ws) as Hb.
  { unfold _chunk_data_words in Ew.
    destruct (negb _); [discriminate|].
    eapply parse_words_bound; [|exact Ew]. apply slices64_short. }
  destruct ws as [|w0 [|ma [|ta [|mam [|tam [|fw rest]]]]]];
    try discriminate.
  cbv zeta.
  destruct (if negb _ then PyDecimal.truediv ctx _ USDC_SCALE else _)
    as [sz|]; cbn [bind]; [|discriminate].
  destruct (if negb _ then PyDecimal.truediv ctx _ _ else _)
    as [pr|]; cbn [bind]; [|discriminate].
  destruct (str_ _) as [token_text|]; cbn [bind]; [|discriminate].
  destruct (normalized_str pr) as [ps|]; cbn [bind]; [|discriminate].
  destruct (normalized_str sz) as [ss|]; cbn [bind]; [|discriminate].
  destruct (_hex_to_int (logIndex log)) as [li|]; cbn [bind]; [|discriminate].
  destruct (_hex_to_int (blockNumber log)) as [bn|]; cbn [bind];
    [|discriminate].
  intros [= <-].
  exists (Spec.mkFill w0 ma ta mam tam fw).
  split; [exists rest; exact Ew|].
  cbn [maker_asset_id taker_asset_id maker_amount_filled taker_amount_filled
       fee order_hash maker taker tx_hash block_hash exchange_address
       log_index block_number Spec.makerAssetId Spec.takerAssetId
       Spec.makerAmountFilled Spec.takerAmountFilled Spec.feeWord
       Spec.orderHash].
  repeat (split; [reflexivity|]).
  split.
  - intros H0. apply Forall_cons in Hb as [Hw0 _].
    destruct (format_064x_word w0 ltac:(lia)) as (L & Hc & Hv).
    split; [rewrite length_append, L; reflexivity|].
    rewrite int_of_hex_prefixed by (try exact Hc; lia).
    rewrite Hv. reflexivity.
  - split; [eauto 10|]. repeat split.
Qed.

Lemma X5_decoded_record_echoes_log_witness :
  exists d f,
    decode_order_filled_log Fixtures.buy_log = Ok d
    /\ Spec.payload_of Fixtures.buy_log f
    /\ taker_asset_id d = Spec.takerAssetId f
    /\ order_hash d = "0x" +:+ format_064x (Spec.orderHash f).
Proof.
  destruct (decode_order_filled_log Fixtures.buy_log) as [d|] eqn:E;
    [|vm_compute in E; discriminate E].
  destruct (X5_decoded_record_echoes_log Fixtures.buy_log d E)
    as (f & H1 & _ & H3 & _ & _ & _ & H7 & _).
  exists d, f. repeat split; assumption.
Defined.

(** ** How the decoder fails *)

(** X6: the decoder's checks come in a fixed order. With fewer than
    three topics it raises [ValueError("OrderFilled requires at least 3
    topics")] whatever the data; with three topics, a payload whose length
    is not a multiple of 64 raises [ValueError("unexpected log data
    length")] and any other failure of [_chunk_data_words] is passed on;
    a payload of fewer than six words, and so a log without [data],
    raises [ValueError("OrderFilled data payload too short")]. *)
Theorem X6_decoder_rejections (log : RawLog) :
  let d := default "0x" (data log) in
  let payload := if startswith "0x" d then drop 2 d else d in
  ((length (topics log) < 3)%nat ->
   decode_order_filled_log log
   = Raise (ValueError "OrderFilled requires at least 3 topics"))
  /\ ((3 <= length (topics log))%nat ->
      (len payload mod 64 <> 0 ->
       decode_order_filled_log log
       = Raise (ValueError "unexpected log data length"))
      /\ (forall e, _chunk_data_words d = Raise e ->
                    decode_order_filled_log log = Raise e)
      /\ (forall ws, _chunk_data_words d = Ok ws -> (length ws < 6)%nat ->
                     decode_order_filled_log log
                     = Raise (ValueError "OrderFilled data payload too short"))
      /\ (data log = None ->
          decode_order_filled_log log
          = Raise (ValueError "OrderFilled data payload too short"))).
Proof.
  intros d payload. unfold decode_order_filled_log. fold d. split.
  - intros H. destruct (topics log) as [|t0 [|t1 [|t2 ts]]]; cbn in H;
      try reflexivity; lia.
  - intros H. destruct (topics log) as [|t0 [|t1 [|t2 ts]]]; cbn in H;
      try lia.
    split; [|split; [|split]].
    + intros Hn. unfold _chunk_data_words. fold payload.
      destruct (Z.eqb_spec (len payload mod 64) 0); [contradiction|].
      reflexivity.
    + intros e ->. reflexivity.
    + intros ws -> Hl.
      destruct ws as [|? [|? [|? [|? [|? [|? ?]]]]]]; cbn in Hl;
        try reflexivity; lia.
    + intros Hnone. subst d. rewrite Hnone. reflexivity.
Qed.

Lemma X6_decoder_rejections_witness :
  decode_order_filled_log Fixtures.misaligned_log
  = Raise (ValueError "unexpected log data length").
Proof.
  refine (proj1 (proj2 (X6_decoder_rejections Fixtures.misaligned_log) _) _).
  - vm_compute. lia.
  - vm_compute. intros H. discriminate H.
Defined.

(** ** Signs in decimal division *)

(** [_fix] works on the coefficient and the exponent and keeps the
    sign. *)
Lemma fix_sign ctx s c e :
  PyDecimal.fix_ ctx (PyDecimal.mkDec s c e)
  = let* d := PyDecimal.fix_ ctx (PyDecimal.mkDec false c e) in
    Ok (PyDecimal.mkDec s (PyDecimal.coeff d) (PyDecimal.exp d)).
Proof.
  unfold PyDecimal.fix_.
  cbn [PyDecimal.sign PyDecimal.coeff PyDecimal.exp].
  repeat match goal with
         | |- context [if ?b then _ else _] => destruct b
         end; reflexivity.
Qed.

(** The quotient of two integers: the sign is the product of the
    signs, the rest is the quotient of the absolute values. *)
Lemma truediv_sign ctx a b :
  PyDecimal.truediv ctx (PyDecimal.of_int a) (PyDecimal.of_int b)
  = let* d := PyDecimal.truediv ctx (PyDecimal.of_int (Z.abs a))
                (PyDecimal.of_int (Z.abs b)) in
    Ok (PyDecimal.mkDec (xorb (a <? 0) (b <? 0))
          (PyDecimal.coeff d) (PyDecimal.exp d)).
Proof.
  unfold PyDecimal.truediv, PyDecimal.of_int.
  cbn [PyDecimal.sign PyDecimal.coeff PyDecimal.exp].
  rewrite !Z.abs_idemp.
  destruct (Z.abs b =? 0); [reflexivity|].
  match goal with
  | |- (let '(c, e) := ?x in _) = _ => destruct x as [c e]
  end.
  rewrite (proj2 (Z.ltb_ge (Z.abs a) 0)), (proj2 (Z.ltb_ge (Z.abs b) 0))
    by lia.
  cbn [xorb]. rewrite fix_sign.
  destruct (PyDecimal.fix_ ctx _) as [d|]; reflexivity.
Qed.

(** On integers below [2^256] in absolute value, division in the
    decoder's context returns: a decimal of at most 40 digits with a small
    exponent. *)
Lemma truediv_total a b :
  Z.abs a < 2 ^ 256 -> Z.abs b < 2 ^ 256 -> b <> 0 ->
  exists s c e,
    PyDecimal.truediv ctx (PyDecimal.of_int a) (PyDecimal.of_int b)
    = Ok (PyDecimal.mkDec s c e)
    /\ 0 <= c < 10 ^ 40 /\ -118 <= e <= 78.
Proof.
  intros Ha Hb Hnz. rewrite truediv_sign.
  destruct (Z.eq_dec a 0) as [->|Haz].
  - change (Z.abs 0) with 0.
    rewrite truediv_zero by (try unfold PyDecimal.Etiny; cbn; lia).
    cbn [bind PyDecimal.coeff PyDecimal.exp]. eexists _, 0, 0.
    split; [reflexivity|]. lia.
  - pose proof (ndigits_word (Z.abs a) ltac:(lia)) as Na.
    pose proof (ndigits_word (Z.abs b) ltac:(lia)) as Nb.
    destruct (truediv_pos ctx (Z.abs a) (Z.abs b))
      as (c & e & Hq & Hc & He & _);
      try (cbn [ctx PyDecimal.prec]; lia).
    + unfold PyDecimal.Etiny. cbn [ctx PyDecimal.prec PyDecimal.Emin]. lia.
    + unfold PyDecimal.Etop. cbn [ctx PyDecimal.prec PyDecimal.Emax]. lia.
    + cbn [ctx PyDecimal.prec] in Hc, He. rewrite Hq.
      cbn [bind PyDecimal.coeff PyDecimal.exp]. eexists _, c, e.
      split; [reflexivity|]. lia.
Qed.

Lemma normalized_str_total s c e :
  0 <= c < 10 ^ 40 -> -118 <= e <= 78 ->
  exists t, normalized_str (PyDecimal.mkDec s c e) = Ok t.
Proof.
  intros Hc He. unfold normalized_str.
  destruct (normalize_spec ctx s c e) as (c' & e' & Hn & _).
  { cbn; lia. }
  { cbn [ctx PyDecimal.prec]. exact Hc. }
  { unfold PyDecimal.Etiny. cbn [ctx PyDecimal.prec PyDecimal.Emin]. lia. }
  { cbn [ctx PyDecimal.prec PyDecimal.Emax]. lia. }
  rewrite Hn. cbn [bind]. eauto.
Qed.

(** X7: the decoder returns a record exactly when the log has at least
    three topics, its payload is chunked into at least six words, and log
    index and block number convert. The two divisions and the
    normalization never fail: on the words of a payload, which are below
    [2^256] in absolute value, they raise neither a division by zero nor
    an overflow. *)
Theorem X7_decoder_returns_iff (log : RawLog) :
  is_ok (decode_order_filled_log log) = true
  <-> (3 <= length (topics log))%nat
      /\ (exists ws, _chunk_data_words (default "0x" (data log)) = Ok ws
                     /\ (6 <= length ws)%nat)
      /\ Spec.positioned log = true.
Proof.
  unfold decode_order_filled_log, Spec.positioned, Spec.converts.
  destruct (topics log) as [|t0 [|t1 [|t2 ts]]];
    try (cbn; split; [discriminate|intros (Hx & _); lia]).
  destruct (_chunk_data_words (default "0x" (data log))) as [ws|] eqn:Ew;
    cbn [bind].
  2:{ cbn. split; [discriminate|intros (_ & (ws & Hx & _) & _); discriminate]. }
  assert (Forall (fun w => Z.abs w < 2 ^ 256) ws) as Hb.
  { unfold _chunk_data_words in Ew.
    destruct (negb _); [discriminate|].
    eapply parse_words_bound; [|exact Ew]. apply slices64_short. }
  destruct ws as [|w0 [|ma [|ta [|mam [|tam [|fw rest]]]]]];
    try (cbn; split;
         [discriminate|intros (_ & (ws & [= <-] & Hx) & _); cbn in Hx; lia]).
  repeat match goal with
         | H : Forall _ (_ :: _) |- _ =>
             apply Forall_cons in H; destruct H as [? H]
         end.
  cbv zeta.
  set (buy := (ma =? 0) && negb (ta =? 0)).
  set (tok := if buy then tam else mam).
  set (usdc := if buy then mam else tam).
  assert (Z.abs tok < 2 ^ 256) by (unfold tok; destruct buy; assumption).
  assert (Z.abs usdc < 2 ^ 256) by (unfold usdc; destruct buy; assumption).
  rewrite (str_word (if buy then ta else ma)) by (destruct buy; assumption).
  assert (exists s c e,
            (if negb (tok =? 0)
             then PyDecimal.truediv ctx (PyDecimal.of_int tok) USDC_SCALE
             else Ok dec_zero) = Ok (PyDecimal.mkDec s c e)
            /\ 0 <= c < 10 ^ 40 /\ -118 <= e <= 78)
    as (s1 & c1 & e1 & -> & Hc1 & He1).
  { destruct (Z.eqb_spec tok 0); cbn [negb].
    - exists false, 0, 0. split; [reflexivity|]. lia.
    - change USDC_SCALE with (PyDecimal.of_int 1000000).
      apply truediv_total; try assumption; cbn; lia. }
  assert (exists s c e,
            (if negb (tok =? 0)
             then PyDecimal.truediv ctx (PyDecimal.of_int usdc)
                    (PyDecimal.of_int tok)
             else Ok dec_zero) = Ok (PyDecimal.mkDec s c e)
            /\ 0 <= c < 10 ^ 40 /\ -118 <= e <= 78)
    as (s2 & c2 & e2 & -> & Hc2 & He2).
  { destruct (Z.eqb_spec tok 0); cbn [negb].
    - exists false, 0, 0. split; [reflexivity|]. lia.
    - apply truediv_total; assumption. }
  cbn [bind].
  destruct (normalized_str_total s2 c2 e2 Hc2 He2) as (ps & ->).
  destruct (normalized_str_total s1 c1 e1 Hc1 He1) as (ss & ->).
  cbn [bind].
  destruct (_hex_to_int (logIndex log)) as [li|]; cbn [bind].
  - destruct (_hex_to_int (blockNumber log)) as [bn|]; cbn.
    + split; [intros _|reflexivity].
      split; [lia|]. split; [|reflexivity]. eexists. split; [reflexivity|].
      cbn. lia.
    + split; [discriminate|intros (_ & _ & Hx); discriminate].
  - cbn. split; [discriminate|intros (_ & _ & Hx); discriminate].
Qed.

Lemma X7_decoder_returns_iff_witness :
  is_ok (decode_order_filled_log Fixtures.sell_log) = true.
Proof.
  apply (proj2 (X7_decoder_returns_iff Fixtures.sell_log)).
  split; [vm_compute; lia|]. split; [|vm_compute; reflexivity].
  eexists. split; [vm_compute; reflexivity|]. vm_compute. lia.
Defined.

(** ** Results of [normalize_token_id] *)

Lemma ascii_digit_value c :
  is_ascii_digit c = true ->
  (digit_value c <? 10) = true /\ int_space c = false
  /\ Ascii.eqb c "+" = false /\ Ascii.eqb c "-" = false.
Proof.
  destruct c as [[] [] [] [] [] [] [] []]; vm_compute; intros H;
    try discriminate H; repeat split; reflexivity.
Qed.

Lemma count_all_digits base s :
  base <= 36 ->
  all_chars (fun c => digit_value c <? base) s = true ->
  count_digits base s = len s.
Proof.
  intros Hb. induction s as [|c s IH]; [reflexivity|].
  cbn [all_chars count_digits]. intros H.
  apply andb_true_iff in H as [Hc Hs].
  rewrite (digit_not_underscore base c Hb Hc), Hc, IH by exact Hs.
  unfold len. cbn [String.length]. lia.
Qed.

Lemma ascii_digits_base_10 s :
  all_chars is_ascii_digit s = true ->
  all_chars (fun c => digit_value c <? 10) s = true.
Proof.
  apply all_chars_impl. intros x Hx.
  apply ascii_digit_value in Hx as [Hx _]. exact Hx.
Qed.

(** [int(s)] on a run of at most [max_str_digits] ASCII digits is its
    value, leading zeros included; on a longer run it raises. *)
Lemma int_of_dec_text s :
  all_chars is_ascii_digit s = true -> s <> "" ->
  int_of_str 10 s
  = if max_str_digits <? len s then Raise invalid_literal
    else Ok (Spec.text_value 10 s 0).
Proof.
  intros H Hne. destruct s as [|c r]; [congruence|].
  pose proof (ascii_digits_base_10 _ H) as H10.
  pose proof (scan_text 10 _ 0 ltac:(lia) H10) as Hv.
  pose proof (count_all_digits 10 _ ltac:(lia) H10) as Hk.
  cbn [all_chars] in H. apply andb_true_iff in H as [Hc Hr].
  destruct (ascii_digit_value c Hc) as (Hd & Hs & Hp & Hm).
  unfold int_of_str. cbn [lstrip]. rewrite Hs, Hp, Hm.
  assert (match r with
          | String x r0 =>
              if Ascii.eqb c "0" && (10 =? 16)
                 && (Ascii.eqb x "x" || Ascii.eqb x "X")
              then match r0 with
                   | String u r' => if Ascii.eqb u "_" then r' else r0
                   | EmptyString => r0
                   end
              else String c r
          | EmptyString => String c r
          end = String c r) as ->.
  { destruct r as [|x r0]; [reflexivity|].
    change (10 =? 16) with false. rewrite andb_false_r. reflexivity. }
  rewrite (digit_not_underscore 10 c ltac:(lia) Hd), Hd, Hv.
  cbn [lstrip]. rewrite Hk, Z.mul_1_l.
  change (negb (is_binary_base 10)) with true. reflexivity.
Qed.

(** A run of [k] digits spells a number below [10 ^ k]. *)
Lemma dec_text_bound s :
  all_chars is_ascii_digit s = true ->
  0 <= Spec.text_value 10 s 0 < 10 ^ len s.
Proof.
  intros H. pose proof (ascii_digits_base_10 _ H) as H10.
  pose proof (scan_text 10 _ 0 ltac:(lia) H10) as Hv.
  pose proof (scan_bound 10 _ _ _ _ _ ltac:(lia) (Z.le_refl 0) Hv) as B.
  lia.
Qed.

(** [str] of a number that is not negative, by its size. *)
Lemma str_cases n :
  0 <= n ->
  str_ n = if 10 ^ max_str_digits <=? n then Raise invalid_literal
           else Ok (str_of_int n).
Proof.
  intros Hn. destruct (Z.leb_spec (10 ^ max_str_digits) n) as [H|H].
  - apply str_beyond. lia.
  - apply str_within. lia.
Qed.

Lemma str_of_int_nonempty n : str_of_int n <> "".
Proof.
  unfold str_of_int. destruct (n <? 0) eqn:E; [discriminate|].
  apply Z.ltb_ge in E. destruct (numeral_10_digits n E) as (_ & c & r & ->).
  discriminate.
Qed.

(** X8: what [normalize_token_id] can return. It raises nothing but
    the [ValueError] of its two conversions, [int()] of the text and
    [str()] of the number; a returned id is never the empty text;
    and it returns [None] exactly for [None] and for a text that is empty
    once white space and quotes are trimmed. *)
Theorem X8_normalize_token_id_results (t : option string) :
  (forall e, normalize_token_id t = Raise e -> e = invalid_literal)
  /\ (forall v, normalize_token_id t = Ok (Some v) -> v <> "")
  /\ (normalize_token_id t = Ok None
      <-> t = None
          \/ exists s, t = Some s
                       /\ strip (Ascii.eqb squote)
                            (strip (Ascii.eqb dquote) (strip isspace s)) = "").
Proof.
  unfold normalize_token_id. destruct t as [s|].
  2:{ split; [discriminate|]. split; [discriminate|]. split; auto. }
  set (value := strip _ (strip _ (strip isspace s))).
  destruct value as [|c r] eqn:Ev.
  { split; [discriminate|]. split; [discriminate|].
    split; [intros _; right; eauto|reflexivity]. }
  assert (forall base (k : string),
            (let* n := int_of_str base k in
             let* text := str_ n in Ok (Some text))
            = Ok None -> False) as Hnone.
  { intros base k. destruct (int_of_str base k) as [n|]; cbn [bind];
      [|discriminate].
    destruct (str_ n); discriminate. }
  assert (forall base (k : string) e,
            (let* n := int_of_str base k in
             let* text := str_ n in Ok (Some text))
            = Raise e -> e = invalid_literal) as Hraise.
  { intros base k e. destruct (int_of_str base k) as [n|] eqn:E; cbn [bind].
    - unfold str_. destruct (_ <? _); cbn [bind]; [|discriminate].
      intros [= <-]. reflexivity.
    - intros [= <-]. eapply int_of_str_raises, E. }
  assert (forall base (k : string) v,
            (let* n := int_of_str base k in
             let* text := str_ n in Ok (Some text))
            = Ok (Some v) -> v <> "") as Hsome.
  { intros base k v. destruct (int_of_str base k) as [n|]; cbn [bind];
      [|discriminate].
    destruct (str_ n) as [text|] eqn:Es; cbn [bind]; [|discriminate].
    intros [= <-]. apply str_Ok in Es as [-> _]. apply str_of_int_nonempty. }
  split; [|split; [|split]].
  - intros e. destruct (startswith "0x" (String c r)).
    + apply Hraise.
    + destruct (isdigit (String c r)); [apply Hraise|discriminate].
  - intros v. destruct (startswith "0x" (String c r)).
    + apply Hsome.
    + destruct (isdigit (String c r)); [apply Hsome|].
      intros [= <-]. discriminate.
  - intros H. exfalso. destruct (startswith "0x" (String c r)).
    + eapply Hnone, H.
    + destruct (isdigit (String c r)); [eapply Hnone, H|discriminate].
  - intros [H|(s' & [= <-] & H)]; [discriminate|].
    fold value in H. congruence.
Qed.

Lemma X8_normalize_token_id_results_witness :
  normalize_token_id (Some "  ''  ") = Ok None.
Proof.
  apply (proj2 (proj2 (X8_normalize_token_id_results (Some "  ''  ")))).
  right. eexists. split; [reflexivity|]. vm_compute. reflexivity.
Defined.

(** X9: [normalize_token_id] reads a number and writes it back in
    canonical decimal form, within the interpreter's limit of 4300
    decimal digits. When the trimmed text is a run of at most 4300 ASCII
    digits the result is the decimal text of its value, so leading zeros
    are dropped; on a longer run [int()] raises [ValueError], whatever the
    value. When the trimmed text is [0x] followed by hexadecimal digits of
    either case, of any length, the result is the decimal text of that
    value if the value is below [10^4300]; from [10^4300] on [str()]
    raises [ValueError]. Texts that spell the same number within the limit
    are given the same id. *)
Theorem X9_normalize_token_id_reads_value (t : string) :
  let v := strip (Ascii.eqb squote)
             (strip (Ascii.eqb dquote) (strip isspace t)) in
  (all_chars is_ascii_digit v = true -> v <> "" ->
   normalize_token_id (Some t)
   = if max_str_digits <? len v then Raise invalid_literal
     else Ok (Some (str_of_int (Spec.text_value 10 v 0))))
  /\ (forall h, v = "0x" +:+ h ->
        all_chars Spec.is_hex_char h = true -> h <> "" ->
        normalize_token_id (Some t)
        = if 10 ^ max_str_digits <=? Spec.text_value 16 h 0
          then Raise invalid_literal
          else Ok (Some (str_of_int (Spec.text_value 16 h 0)))).
Proof.
  intros v. unfold normalize_token_id. fold v. split.
  - intros Hd Hne. destruct v as [|c r] eqn:Ev; [congruence|].
    rewrite all_digits_no_0x by exact Hd.
    unfold isdigit. rewrite all_digits_isdigit by exact Hd.
    rewrite int_of_dec_text by (try exact Hd; discriminate).
    pose proof (dec_text_bound _ Hd) as B.
    destruct (Z.ltb_spec max_str_digits (len (String c r))) as [Hl|Hl];
      [reflexivity|].
    cbn [bind]. rewrite str_within; [reflexivity|].
    assert (10 ^ len (String c r) <= 10 ^ max_str_digits)
      by (apply Z.pow_le_mono_r; lia).
    lia.
  - intros h Hv Hh Hne. rewrite Hv.
    change ("0x" +:+ h) with (String "0" (String "x" h)). cbv iota.
    rewrite startswith_0x.
    change (Ascii.eqb "0" "0" && Ascii.eqb "x" "x") with true. cbv iota.
    change (String "0" (String "x" h)) with ("0x" +:+ h).
    rewrite int_of_hex_prefixed.
    + cbn [bind]. rewrite str_cases.
      * destruct (_ <=? _); reflexivity.
      * pose proof (scan_text 16 _ 0 ltac:(lia) Hh) as Hs.
        pose proof (scan_bound 16 _ _ _ _ _ ltac:(lia) (Z.le_refl 0) Hs).
        lia.
    + exact Hh.
    + destruct h; [congruence|cbn; lia].
Qed.

Lemma X9_normalize_token_id_reads_value_witness :
  normalize_token_id (Some " '00555' ") = Ok (Some "555")
  /\ normalize_token_id (Some "0x022B") = Ok (Some "555")
  /\ normalize_token_id (Some (zeros 4300 +:+ "7")) = Raise invalid_literal.
Proof.
  split; [|split].
  - refine (proj1 (X9_normalize_token_id_reads_value " '00555' ") _ _).
    + vm_compute. reflexivity.
    + vm_compute. discriminate.
  - refine (proj2 (X9_normalize_token_id_reads_value "0x022B") "022B" _ _ _).
    + vm_compute. reflexivity.
    + vm_compute. reflexivity.
    + discriminate.
  - assert (strip (Ascii.eqb squote)
              (strip (Ascii.eqb dquote) (strip isspace (zeros 4300 +:+ "7")))
            = zeros 4300 +:+ "7") as Hv by (vm_compute; reflexivity).
    pose proof (proj1 (X9_normalize_token_id_reads_value
                         (zeros 4300 +:+ "7"))) as H.
    cbv zeta in H. rewrite Hv in H.
    rewrite H.
    + vm_compute. reflexivity.
    + vm_compute. reflexivity.
    + vm_compute. discriminate.
Defined.

(** X28: [normalize_token_id] applied twice, and the two encodings of
    a number. Applying it twice gives what it gives once whenever the
    first result does not begin or end with white space or a quote
    character (a first call that raises or returns [None] included). For
    [0 <= n < 10^4300] the hexadecimal encoding, [0x] and the hexadecimal
    digits of [n], and the decimal encoding of [n] are both normalized to
    the decimal numeral of [n], which has no white space or quote at its
    ends and so is left as it is by a second call. From [10^4300] on
    both encodings raise [ValueError]: [str()] refuses the value read from
    the hexadecimal text, [int()] refuses the decimal text. *)
Theorem X28_normalize_token_id_twice :
  (forall x,
     (forall y, normalize_token_id (Some x) = Ok (Some y) ->
                Spec.edge_clean y = true) ->
     bind (normalize_token_id (Some x)) normalize_token_id
     = normalize_token_id (Some x))
  /\ (forall n, 0 <= n < 10 ^ max_str_digits ->
        normalize_token_id (Some ("0x" +:+ numeral 16 n))
        = Ok (Some (str_of_int n))
        /\ normalize_token_id (Some (str_of_int n)) = Ok (Some (str_of_int n))
        /\ Spec.edge_clean (str_of_int n) = true)
  /\ (forall n, 10 ^ max_str_digits <= n ->
        normalize_token_id (Some ("0x" +:+ numeral 16 n))
        = Raise invalid_literal
        /\ normalize_token_id (Some (str_of_int n)) = Raise invalid_literal).
Proof.
  split; [exact normalize_twice_clean|]. split.
  - intros n Hn. split; [|split].
    + rewrite normalize_hex_literal, str_within by lia. reflexivity.
    + apply normalize_str_of_int. lia.
    + unfold str_of_int. rewrite (proj2 (Z.ltb_ge n 0)) by lia.
      apply all_digits_edge_clean. apply numeral_10_digits. lia.
  - intros n Hn.
    assert (0 < 10 ^ max_str_digits) as Hp
      by (apply Z.pow_pos_nonneg; unfold max_str_digits; lia).
    split.
    + rewrite normalize_hex_literal, str_beyond by lia. reflexivity.
    + unfold str_of_int. rewrite (proj2 (Z.ltb_ge n 0)) by lia.
      rewrite normalize_numeral_cases by lia.
      destruct (Z.ltb_spec max_str_digits (len (numeral 10 n))) as [_|Hl];
        [reflexivity|].
      exfalso.
      pose proof (proj1 (numeral_len n max_str_digits ltac:(lia)
                           ltac:(unfold max_str_digits; lia)) Hl).
      lia.
Qed.

Lemma X28_normalize_token_id_twice_witness :
  bind (normalize_token_id (Some " 0x22B ")) normalize_token_id
  = normalize_token_id (Some " 0x22B ")
  /\ (normalize_token_id (Some ("0x" +:+ numeral 16 555)) = Ok (Some "555")
      /\ normalize_token_id (Some (str_of_int 555)) = Ok (Some "555"))
  /\ normalize_token_id (Some (str_of_int (10 ^ max_str_digits)))
     = Raise invalid_literal.
Proof.
  destruct X28_normalize_token_id_twice as (Hidem & Hcanon & Hbig).
  split; [|split].
  - apply Hidem. intros y H. vm_compute in H. injection H as <-. reflexivity.
  - destruct (Hcanon 555 ltac:(vm_compute; split; [discriminate|reflexivity]))
      as (H1 & H2 & _).
    split; assumption.
  - apply (Hbig (10 ^ max_str_digits)). apply Z.le_refl.
Defined.

(** ** The sync cursor *)

(** X10: the cursor reads back what was written. For a block number
    that fits 64 bits [update_sync_state] succeeds, [get_sync_state] of
    the same key then returns that number whatever was stored before, the
    cursors under other keys and the three tables are unchanged; a number
    that does not fit raises [OverflowError]; a key never written reads as
    [None]. *)
Theorem X10_sync_state_round_trip (now : string) (c : Conn) (key : string)
    (b : Z) :
  (- 2 ^ 63 <= b <= 2 ^ 63 - 1 ->
   exists c',
     update_sync_state now c key b = Ok c'
     /\ get_sync_state c' key = Some b
     /\ (forall k, k <> key -> get_sync_state c' k = get_sync_state c k)
     /\ events c' = events c /\ markets c' = markets c
     /\ trades c' = trades c)
  /\ (b < - 2 ^ 63 \/ 2 ^ 63 - 1 < b ->
      update_sync_state now c key b = Raise OverflowError)
  /\ get_sync_state empty_conn key = None.
Proof.
  unfold update_sync_state, bind_int, between, get_sync_state.
  split; [|split].
  - intros Hb.
    rewrite (proj2 (Z.leb_le _ _) (proj1 Hb)), (proj2 (Z.leb_le _ _) (proj2 Hb)).
    cbn [andb bind]. eexists. split; [reflexivity|].
    cbn [sync_state events markets trades].
    split; [rewrite lookup_insert_eq; reflexivity|].
    split; [|auto].
    intros k Hk. rewrite lookup_insert_ne by congruence. reflexivity.
  - intros [Hb|Hb].
    + rewrite (proj2 (Z.leb_gt _ _)) by lia. reflexivity.
    + rewrite (proj2 (Z.leb_gt b _)) by lia. rewrite andb_false_r.
      reflexivity.
  - reflexivity.
Qed.

Lemma X10_sync_state_round_trip_witness :
  exists c',
    update_sync_state "t" empty_conn "trade_sync" 110 = Ok c'
    /\ get_sync_state c' "trade_sync" = Some 110.
Proof.
  destruct (proj1 (X10_sync_state_round_trip "t" empty_conn "trade_sync" 110))
    as (c' & H1 & H2 & _); [lia|].
  exists c'. split; assumption.
Defined.

(** ** Upsert, then look up *)

Lemma find_map_same {A} (P : A -> bool) (g : A -> A) l :
  (forall a, P (g a) = P a) -> find P (map g l) = g <$> find P l.
Proof.
  intros H. induction l as [|a l IH]; [reflexivity|]. cbn [map find].
  rewrite H. destruct (P a); [reflexivity|exact IH].
Qed.

Lemma find_snoc {A} (P : A -> bool) l x :
  find P (l ++ [x])
  = match find P l with
    | Some y => Some y
    | None => if P x then Some x else None
    end.
Proof.
  induction l as [|a l IH]; [reflexivity|]. cbn [app find].
  destruct (P a); [reflexivity|exact IH].
Qed.

Lemma find_none_iff {A} (P : A -> bool) l :
  find P l = None <-> forall a, In a l -> P a = false.
Proof.
  split.
  - intros H a Ha. eapply find_none; eassumption.
  - induction l as [|a l IH]; [reflexivity|]. intros H. cbn [find].
    rewrite (H a (or_introl eq_refl)). apply IH. intros b Hb.
    apply H. right. exact Hb.
Qed.

(** X11: [upsert_event], then [fetch_event_by_slug]. After a
    successful upsert the lookup of the payload's slug returns a row with
    the returned id, that slug and the payload's content, stamped [now].
    When no row had the slug the id is new, larger than every id of the
    table, and [created_at] is the payload's; when a row had it, id and
    [created_at] are that row's. Lookups of other slugs are not
    affected. *)
Theorem X11_upsert_event_then_fetch (now : string) (c c' : Conn)
    (p : EventPayload) (id : Z) :
  upsert_event now c p = Ok (id, c') ->
  exists slug r,
    ep_slug p = Some slug
    /\ fetch_event_by_slug c' slug = Some r
    /\ e_id r = id /\ e_slug r = slug
    /\ Spec.event_content now p r
    /\ match fetch_event_by_slug c slug with
       | None => e_created_at r = ep_created_at p
                 /\ Forall (fun r0 => e_id r0 < id) (events c)
       | Some old => e_created_at r = e_created_at old /\ id = e_id old
       end
    /\ forall s, s <> slug ->
         fetch_event_by_slug c' s = fetch_event_by_slug c s.
Proof.
  unfold upsert_event, fetch_event_by_slug.
  destruct (ep_slug p) as [slug|]; [|discriminate].
  destruct (find _ (events c)) as [old|] eqn:Ef.
  - destruct (event_id_taken _ _ _); [discriminate|]. intros [= <- <-].
    cbn [events].
    exists slug, (update_event now p old). split; [reflexivity|].
    pose proof (find_some _ _ Ef) as [_ Hs]. apply bool_decide_eq_true in Hs.
    split.
    { rewrite find_map_same.
      - rewrite Ef. cbn. rewrite bool_decide_eq_true_2 by exact Hs.
        reflexivity.
      - intros a. destruct (bool_decide (e_slug a = slug)) eqn:E;
          cbn [update_event e_slug]; exact E. }
    split; [reflexivity|]. split; [exact Hs|].
    split; [unfold Spec.event_content; repeat split|]. rewrite Ef.
    split; [split; reflexivity|].
    intros s Hne. rewrite find_map_same.
    + destruct (find (fun r => bool_decide (e_slug r = s)) (events c))
        as [r0|] eqn:E0; [|reflexivity].
      pose proof (find_some _ _ E0) as [_ H0].
      apply bool_decide_eq_true in H0. cbn.
      rewrite bool_decide_eq_false_2 by congruence. reflexivity.
    + intros a. destruct (bool_decide (e_slug a = slug)) eqn:E;
        cbn [update_event e_slug]; [|reflexivity].
      apply bool_decide_eq_true in E. rewrite E.
      reflexivity.
  - destruct (event_id_taken _ _ _); [discriminate|]. intros [= <- <-].
    cbn [events].
    exists slug, (new_event now p slug (next_id (map e_id (events c)))).
    split; [reflexivity|]. split.
    { rewrite find_snoc, Ef. cbn [new_event e_slug].
      rewrite bool_decide_eq_true_2 by reflexivity. reflexivity. }
    split; [reflexivity|]. split; [reflexivity|].
    split; [unfold Spec.event_content; repeat split|]. rewrite Ef. split.
    { split; [reflexivity|]. apply List.Forall_forall. intros r0 Hr0.
      apply next_id_fresh. apply in_map. exact Hr0. }
    intros s Hne. rewrite find_snoc. cbn [new_event e_slug].
    destruct (find (fun r => bool_decide (e_slug r = s)) (events c));
      [reflexivity|].
    rewrite bool_decide_eq_false_2 by congruence. reflexivity.
Qed.

Lemma X11_upsert_event_then_fetch_witness :
  exists c' r,
    upsert_event "t1" empty_conn Fixtures.event_rain = Ok (1, c')
    /\ fetch_event_by_slug c' "rain" = Some r /\ e_id r = 1.
Proof.
  destruct (upsert_event "t1" empty_conn Fixtures.event_rain)
    as [[id c']|] eqn:E; [|vm_compute in E; discriminate E].
  assert (id = 1) as -> by (vm_compute in E; congruence).
  destruct (X11_upsert_event_then_fetch _ _ _ _ _ E)
    as (slug & r & Hs & Hf & Hid & _).
  assert (slug = "rain") as -> by (vm_compute in Hs; congruence).
  exists c', r. repeat split; assumption.
Defined.

Lemma find_exists {A} (P : A -> bool) l a :
  In a l -> P a = true ->
  exists b, find P l = Some b /\ P b = true /\ In b l.
Proof.
  intros Ha Hp. destruct (find P l) as [b|] eqn:E.
  - exists b. destruct (find_some _ _ E). auto.
  - rewrite (find_none _ _ E a Ha) in Hp. discriminate.
Qed.

(** The first row under a key is also the first row with a property
    that no row under another key has. *)
Lemma find_first_of_key {A} (K P : A -> bool) l a :
  find K l = Some a -> P a = true ->
  (forall x, In x l -> K x = false -> P x = false) ->
  find P l = Some a.
Proof.
  induction l as [|x l IH]; [discriminate|]. cbn [find]. intros Hk Hp Hn.
  destruct (K x) eqn:Ex.
  - injection Hk as ->. rewrite Hp. reflexivity.
  - rewrite (Hn x (or_introl eq_refl) Ex). apply IH; auto.
    intros y Hy. apply Hn. right. exact Hy.
Qed.

(** X12: [upsert_market], then the lookups. After a successful upsert
    the lookup of the payload's slug returns a row with the returned id,
    that slug and the payload's content with normalized token ids, stamped
    [now]; id and [created_at] are new when no row had the slug and the
    old row's otherwise; other slugs are not affected. A token id whose
    normal form is the stored YES or NO id resolves to a market that
    lists it, and to this market when no market under another slug lists
    it. *)
Theorem X12_upsert_market_then_fetch (now : string) (c c' : Conn)
    (p : MarketPayload) (id : Z) :
  upsert_market now c p = Ok (id, c') ->
  exists slug yes no r,
    mp_slug p = Some slug
    /\ normalize_token_id (mp_yes_token_id p) = Ok yes
    /\ normalize_token_id (mp_no_token_id p) = Ok no
    /\ fetch_market_by_slug c' slug = Some r
    /\ m_id r = id /\ m_slug r = slug
    /\ Spec.market_content now p yes no r
    /\ match fetch_market_by_slug c slug with
       | None => m_created_at r = mp_created_at p
                 /\ Forall (fun r0 => m_id r0 < id) (markets c)
       | Some old => m_created_at r = m_created_at old /\ id = m_id old
       end
    /\ (forall s, s <> slug ->
          fetch_market_by_slug c' s = fetch_market_by_slug c s)
    /\ (forall t tok,
          normalize_token_id t = Ok (Some tok) ->
          yes = Some tok \/ no = Some tok ->
          (exists r',
             fetch_market_by_token_id c' t = Ok (Some r')
             /\ In r' (markets c') /\ token_matches tok r' = true)
          /\ ((forall r0, In r0 (markets c) -> m_slug r0 <> slug ->
                          token_matches tok r0 = false) ->
              fetch_market_by_token_id c' t = Ok (Some r))).
Proof.
  unfold upsert_market, fetch_market_by_slug.
  destruct (normalize_token_id (mp_yes_token_id p)) as [yes|] eqn:Ey;
    cbn [bind]; [|discriminate].
  destruct (normalize_token_id (mp_no_token_id p)) as [no|] eqn:En;
    cbn [bind]; [|discriminate].
  destruct (bind_opt_int (mp_event_id p)) as [eid|] eqn:Ee;
    cbn [bind]; [|discriminate].
  apply bind_opt_int_Ok in Ee. subst eid.
  destruct (mp_slug p) as [slug|]; [|discriminate].
  set (K := fun r => bool_decide (m_slug r = slug)).
  set (g := fun r => if bool_decide (m_slug r = slug)
                     then update_market now p (mp_event_id p) yes no r
                     else r).
  assert (forall a, K (g a) = K a) as HKg.
  { intros a. unfold K, g. destruct (bool_decide (m_slug a = slug)) eqn:E;
      cbn [update_market m_slug]; exact E. }
  destruct (find K (markets c)) as [old|] eqn:Ef.
  - intros [= <- <-]. cbn [markets]. fold g.
    pose proof (find_some _ _ Ef) as [Hin Hs]. unfold K in Hs.
    apply bool_decide_eq_true in Hs.
    set (r := update_market now p (mp_event_id p) yes no old).
    assert (find K (map g (markets c)) = Some r) as Hfr.
    { rewrite find_map_same by exact HKg. rewrite Ef. cbn. unfold g.
      rewrite bool_decide_eq_true_2 by exact Hs. reflexivity. }
    exists slug, yes, no, r. split; [reflexivity|].
    split; [reflexivity|]. split; [reflexivity|]. split; [exact Hfr|].
    split; [reflexivity|]. split; [exact Hs|].
    split; [unfold Spec.market_content; repeat split|].
    fold K. rewrite Ef.
    split; [split; reflexivity|]. split.
    + intros s Hne. rewrite find_map_same.
      * destruct (find (fun r0 => bool_decide (m_slug r0 = s)) (markets c))
          as [r0|] eqn:E0; [|reflexivity].
        pose proof (find_some _ _ E0) as [_ H0].
        apply bool_decide_eq_true in H0. cbn. unfold g.
        rewrite bool_decide_eq_false_2 by congruence. reflexivity.
      * intros a. unfold g.
        destruct (bool_decide (m_slug a = slug)) eqn:E;
          cbn [update_market m_slug]; [|reflexivity].
        reflexivity.
    + intros t tok Ht Htok. unfold fetch_market_by_token_id.
      rewrite Ht. cbn [bind markets].
      assert (token_matches tok r = true) as Hm.
      { unfold token_matches, r. cbn [update_market m_yes_token_id
                                        m_no_token_id].
        destruct Htok as [-> | ->].
        - rewrite bool_decide_eq_true_2 by reflexivity. reflexivity.
        - rewrite (bool_decide_eq_true_2 (Some tok = Some tok)) by reflexivity.
          apply orb_true_r. }
      pose proof (find_some _ _ Hfr) as [Hinr _].
      split.
      * destruct (find_exists (token_matches tok) _ r Hinr Hm)
          as (b & Hb1 & Hb2 & Hb3).
        exists b. rewrite Hb1. auto.
      * intros Hothers. f_equal.
        apply (find_first_of_key K); [exact Hfr|exact Hm|].
        intros x Hx HKx. apply in_map_iff in Hx as (x0 & <- & Hx0).
        rewrite HKg in HKx. unfold K in HKx.
        apply bool_decide_eq_false in HKx. unfold g.
        rewrite bool_decide_eq_false_2 by exact HKx.
        apply Hothers; assumption.
  - intros [= <- <-]. cbn [markets].
    set (nid := next_id (map m_id (markets c))).
    set (r := new_market now p (mp_event_id p) yes no slug nid).
    assert (find K (markets c ++ [r]) = Some r) as Hfr.
    { rewrite find_snoc, Ef. unfold K, r. cbn [new_market m_slug].
      rewrite bool_decide_eq_true_2 by reflexivity. reflexivity. }
    exists slug, yes, no, r. split; [reflexivity|].
    split; [reflexivity|]. split; [reflexivity|]. split; [exact Hfr|].
    split; [reflexivity|]. split; [reflexivity|].
    split; [unfold Spec.market_content; repeat split|].
    fold K. rewrite Ef.
    split.
    { split; [reflexivity|]. apply List.Forall_forall. intros r0 Hr0.
      apply next_id_fresh. apply in_map. exact Hr0. }
    split.
    + intros s Hne. rewrite find_snoc. unfold r. cbn [new_market m_slug].
      destruct (find (fun r0 => bool_decide (m_slug r0 = s)) (markets c));
        [reflexivity|].
      rewrite bool_decide_eq_false_2 by congruence. reflexivity.
    + intros t tok Ht Htok. unfold fetch_market_by_token_id.
      rewrite Ht. cbn [bind markets].
      assert (token_matches tok r = true) as Hm.
      { unfold token_matches, r. cbn [new_market m_yes_token_id
                                        m_no_token_id].
        destruct Htok as [-> | ->].
        - rewrite bool_decide_eq_true_2 by reflexivity. reflexivity.
        - rewrite (bool_decide_eq_true_2 (Some tok = Some tok)) by reflexivity.
          apply orb_true_r. }
      pose proof (find_some _ _ Hfr) as [Hinr _].
      split.
      * destruct (find_exists (token_matches tok) _ r Hinr Hm)
          as (b & Hb1 & Hb2 & Hb3).
        exists b. rewrite Hb1. auto.
      * intros Hothers. f_equal.
        apply (find_first_of_key K); [exact Hfr|exact Hm|].
        intros x Hx HKx. apply in_app_iff in Hx as [Hx|[<-|[]]].
        -- unfold K in HKx. apply bool_decide_eq_false in HKx.
           apply Hothers; assumption.
        -- unfold K, r in HKx. cbn [new_market m_slug] in HKx.
           rewrite bool_decide_eq_true_2 in HKx by reflexivity.
           discriminate.
Qed.

Lemma X12_upsert_market_then_fetch_witness :
  exists c' r,
    upsert_market "t1" empty_conn Fixtures.market_555 = Ok (1, c')
    /\ fetch_market_by_slug c' "will-it-rain" = Some r /\ m_id r = 1
    /\ fetch_market_by_token_id c' (Some "0x22b") = Ok (Some r).
Proof.
  destruct (upsert_market "t1" empty_conn Fixtures.market_555)
    as [[id c']|] eqn:E; [|vm_compute in E; discriminate E].
  assert (id = 1) as -> by (vm_compute in E; congruence).
  destruct (X12_upsert_market_then_fetch _ _ _ _ _ E)
    as (slug & yes & no & r & Hs & Hy & _ & Hf & Hid & _ & _ & _ & _ & Ht).
  assert (slug = "will-it-rain") as -> by (vm_compute in Hs; congruence).
  assert (yes = Some "555") as -> by (vm_compute in Hy; congruence).
  exists c', r. split; [reflexivity|]. split; [exact Hf|].
  split; [exact Hid|].
  apply (proj2 (Ht (Some "0x22b") "555" eq_refl (or_introl eq_refl))).
  intros r0 [].
Defined.

(** ** The schema's UNIQUE constraints as invariants *)

Lemma map_cond_other {A} (K : A -> bool) (g : A -> A) l :
  (forall a, In a l -> K a = false) ->
  map (fun a => if K a then g a else a) l = l.
Proof.
  induction l as [|a l IH]; intros H; [reflexivity|]. cbn [map].
  rewrite (H a (or_introl eq_refl)), IH; [reflexivity|].
  intros b Hb. apply H. right. exact Hb.
Qed.

(** Under distinct keys an update of the rows of one key changes one
    row. *)
Lemma map_cond_split {A B} `{EqDecision B} (key : A -> B) (k : B)
    (g : A -> A) l old :
  NoDup (map key l) ->
  find (fun a => bool_decide (key a = k)) l = Some old ->
  exists l1 l2,
    l = l1 ++ old :: l2
    /\ map (fun a => if bool_decide (key a = k) then g a else a) l
       = l1 ++ g old :: l2
    /\ key old = k.
Proof.
  induction l as [|a l IH]; [discriminate|]. cbn [map find]. intros Hnd Hf.
  apply NoDup_cons in Hnd as [Hna Hnd].
  destruct (bool_decide (key a = k)) eqn:E.
  - injection Hf as ->. apply bool_decide_eq_true in E.
    exists [], l. split; [reflexivity|]. split; [|exact E].
    cbn [app]. f_equal. apply map_cond_other. intros b Hb.
    apply bool_decide_eq_false. intros Hk. apply Hna.
    apply list_elem_of_In. rewrite E, <- Hk. apply in_map. exact Hb.
  - destruct (IH Hnd Hf) as (l1 & l2 & -> & Hm & Hk).
    exists (a :: l1), l2. split; [reflexivity|]. split; [|exact Hk].
    cbn [app]. f_equal. exact Hm.
Qed.

Lemma omap_cons_match {A B} (f : A -> option B) a l :
  omap f (a :: l)
  = match f a with Some b => b :: omap f l | None => omap f l end.
Proof. reflexivity. Qed.

Lemma event_id_free eid skip rows r e :
  event_id_taken eid skip rows = false ->
  eid = Some e -> In r rows -> e_event_id r = Some e ->
  Some (e_id r) = skip.
Proof.
  intros Ht -> Hr He. cbn [event_id_taken] in Ht.
  destruct (decide (Some (e_id r) = skip)) as [|Hne]; [assumption|].
  exfalso. apply Bool.not_true_iff_false in Ht. apply Ht.
  apply existsb_exists. exists r. split; [exact Hr|].
  rewrite bool_decide_eq_true_2 by exact He.
  rewrite bool_decide_eq_false_2 by exact Hne. reflexivity.
Qed.

Lemma upsert_event_keys now c p id c' :
  upsert_event now c p = Ok (id, c') ->
  NoDup (map e_slug (events c)) /\ NoDup (map e_id (events c))
  /\ NoDup (omap e_event_id (events c)) ->
  NoDup (map e_slug (events c')) /\ NoDup (map e_id (events c'))
  /\ NoDup (omap e_event_id (events c')).
Proof.
  unfold upsert_event. destruct (ep_slug p) as [slug|]; [|discriminate].
  destruct (find _ (events c)) as [old|] eqn:Ef.
  - destruct (event_id_taken _ _ _) eqn:Et; [discriminate|].
    intros [= <- <-] (Hs & Hi & He). cbn [events].
    split; [|split].
    + rewrite map_map_cond; [exact Hs|reflexivity].
    + rewrite map_map_cond; [exact Hi|reflexivity].
    + destruct (map_cond_split e_slug slug (update_event now p) _ old Hs Ef)
        as (l1 & l2 & El & -> & _).
      rewrite El in He, Hi, Et.
      rewrite omap_app, omap_cons_match in He |- *.
      rewrite map_app in Hi. cbn [map] in Hi.
      apply NoDup_app in Hi as (Hi1 & Hi12 & Hi2).
      apply NoDup_cons in Hi2 as [Hi2 _].
      cbn [update_event e_event_id].
      assert (NoDup (omap e_event_id l1 ++ omap e_event_id l2)) as Hrest.
      { destruct (e_event_id old); [|exact He].
        apply NoDup_app in He as (H1 & H12 & H2).
        apply NoDup_cons in H2 as [_ H2].
        apply NoDup_app. split; [exact H1|]. split; [|exact H2].
        intros x Hx Hx2. apply (H12 x Hx). right. exact Hx2. }
      destruct (ep_event_id p) as [e|] eqn:Ee; [|exact Hrest].
      apply NoDup_app in Hrest as (H1 & H12 & H2).
      apply NoDup_app. split; [exact H1|]. split.
      * intros x Hx Hx2. apply elem_of_cons in Hx2 as [->|Hx2];
          [|apply (H12 x Hx Hx2)].
        apply list_elem_of_omap in Hx as (r & Hr & Hre).
        assert (Some (e_id r) = Some (e_id old)) as [= Hid].
        { eapply event_id_free; [exact Et|reflexivity| |exact Hre].
          apply in_app_iff. left. apply list_elem_of_In. exact Hr. }
        apply (Hi12 (e_id r)).
        -- apply list_elem_of_fmap. exists r. split; [reflexivity|exact Hr].
        -- rewrite Hid. left.
      * apply NoDup_cons. split; [|exact H2].
        intros Hx. apply list_elem_of_omap in Hx as (r & Hr & Hre).
        assert (Some (e_id r) = Some (e_id old)) as [= Hid].
        { eapply event_id_free; [exact Et|reflexivity| |exact Hre].
          apply in_app_iff. right. right. apply list_elem_of_In. exact Hr. }
        apply Hi2. rewrite <- Hid.
        apply list_elem_of_fmap. exists r. split; [reflexivity|exact Hr].
  - destruct (event_id_taken _ _ _) eqn:Et; [discriminate|].
    intros [= <- <-] (Hs & Hi & He). cbn [events].
    rewrite !map_app, omap_app, omap_cons_match.
    cbn [map new_event e_slug e_id e_event_id].
    split; [|split].
    + apply NoDup_snoc; [exact Hs|]. intros Hin.
      apply in_map_iff in Hin as (r & Hr & Hin).
      apply (find_none _ _ Ef) in Hin.
      apply bool_decide_eq_false in Hin. congruence.
    + apply NoDup_snoc; [exact Hi|]. intros Hin.
      apply next_id_fresh in Hin. lia.
    + destruct (ep_event_id p) as [e|] eqn:Ee.
      * apply NoDup_snoc; [exact He|]. intros Hin.
        apply list_elem_of_In, list_elem_of_omap in Hin as (r & Hr & Hre).
        assert (Some (e_id r) = None) as Habs; [|discriminate Habs].
        eapply event_id_free; [exact Et|reflexivity| |exact Hre].
        apply list_elem_of_In. exact Hr.
      * rewrite app_nil_r. exact He.
Qed.

Lemma executemany_ids now ps : forall rows rows' n,
  executemany now rows ps = Ok (rows', n) ->
  NoDup (map t_id rows) -> NoDup (map t_id rows').
Proof.
  induction ps as [|p ps IH]; intros rows rows' n; cbn [executemany].
  - intros [= <- <-]. auto.
  - destruct (bind_params p); cbn [bind]; [|discriminate].
    destruct (insert_or_ignore now rows p) as [rows1 n1] eqn:E1.
    destruct (executemany now rows1 ps) as [[rows2 n2]|] eqn:E2;
      cbn [bind]; [|discriminate].
    intros [= <- <-] Hnd. apply (IH _ _ _ E2).
    unfold insert_or_ignore in E1.
    destruct (tp_market_id p), (tp_tx_hash p), (tp_log_index p);
      try (injection E1 as <- <-; exact Hnd).
    destruct (existsb _ rows); injection E1 as <- <-; [exact Hnd|].
    rewrite map_app. cbn [map new_trade t_id].
    apply NoDup_snoc; [exact Hnd|]. intros Hin.
    apply next_id_fresh in Hin. lia.
Qed.

(** X13: the UNIQUE constraints of the schema hold in every store the
    operations can produce from the empty schema: no two events share a
    slug, a row id or a non-NULL event id, and no two trades share a row
    id or the pair of transaction hash and log index. *)
Theorem X13_reachable_store_unique_keys (c : Conn) :
  Spec.reachable c ->
  NoDup (map e_slug (events c))
  /\ NoDup (map e_id (events c))
  /\ NoDup (omap e_event_id (events c))
  /\ NoDup (map Spec.trade_key (trades c))
  /\ NoDup (map t_id (trades c)).
Proof.
  induction 1 as [|now c p id c' _ IH Hop|now c p id c' _ IH Hop
                  |now c ts n c' _ IH Hop|now c key b c' _ IH Hop].
  - cbn. repeat split; constructor.
  - destruct IH as (H1 & H2 & H3 & H4 & H5).
    destruct (upsert_event_keys _ _ _ _ _ Hop (conj H1 (conj H2 H3)))
      as (K1 & K2 & K3).
    destruct (upsert_event_frame _ _ _ _ _ Hop) as [-> _]. auto.
  - destruct (upsert_market_frame _ _ _ _ _ Hop) as [-> _].
    assert (events c' = events c) as ->; [|exact IH].
    unfold upsert_market in Hop.
    destruct (normalize_token_id _); cbn [bind] in Hop; [|discriminate].
    destruct (normalize_token_id _); cbn [bind] in Hop; [|discriminate].
    destruct (bind_opt_int _); cbn [bind] in Hop; [|discriminate].
    destruct (mp_slug p); [|discriminate].
    destruct (find _ _); injection Hop as _ <-; reflexivity.
  - destruct IH as (H1 & H2 & H3 & H4 & H5).
    unfold insert_trades in Hop. destruct ts as [|t ts].
    { injection Hop as _ <-. auto. }
    destruct (all_params (t :: ts)) as [ps|]; cbn [bind] in Hop;
      [|discriminate].
    destruct (executemany now (trades c) ps) as [[rows k]|] eqn:Ex;
      cbn [bind] in Hop; [|discriminate].
    injection Hop as _ <-. cbn [events trades].
    destruct (executemany_spec _ _ _ _ _ Ex) as (new & _ & _ & _ & _ & _ & _ & Hk).
    pose proof (executemany_ids _ _ _ _ _ Ex H5). specialize (Hk H4).
    repeat (split; [assumption|]). assumption.
  - unfold update_sync_state in Hop.
    destruct (bind_int b); cbn [bind] in Hop; [|discriminate].
    injection Hop as <-. exact IH.
Qed.

Lemma X13_reachable_store_unique_keys_witness :
  NoDup (map e_slug (events Fixtures.conn_one_event))
  /\ NoDup (map e_id (events Fixtures.conn_one_event))
  /\ NoDup (omap e_event_id (events Fixtures.conn_one_event))
  /\ NoDup (map Spec.trade_key (trades Fixtures.conn_one_event))
  /\ NoDup (map t_id (trades Fixtures.conn_one_event)).
Proof.
  apply X13_reachable_store_unique_keys.
  eapply (Spec.reach_upsert_event "t0" empty_conn Fixtures.event_rain);
    [constructor|]. vm_compute. reflexivity.
Defined.

(** ** What [insert_trades] stores *)

(** The tuple of a trade whose parameters were built: every conversion
    on the way returned. *)
Ltac params_of H :=
  unfold trade_params in H;
  repeat match type of H with
         | bind ?m _ = Ok _ =>
             destruct m; cbn [bind] in H; [|discriminate H]
         end;
  injection H as <-.

Lemma all_params_Forall2 ts : forall ps,
  all_params ts = Ok ps ->
  Forall2 (fun t p => trade_params t = Ok p) ts ps.
Proof.
  induction ts as [|t ts IH]; intros ps; cbn [all_params].
  - intros [= <-]. constructor.
  - destruct (trade_params t) as [p|] eqn:Ep; cbn [bind]; [|discriminate].
    destruct (all_params ts) as [ps'|]; cbn [bind]; [|discriminate].
    intros [= <-]. constructor; [exact Ep|]. apply IH. reflexivity.
Qed.

(** Every row [executemany] adds is the row of one of the parameter
    tuples. *)
Lemma executemany_rows now ps : forall rows rows' n,
  executemany now rows ps = Ok (rows', n) ->
  forall r, In r rows' ->
    In r rows
    \/ exists p mid tx li,
         In p ps /\ tp_market_id p = Some mid /\ tp_tx_hash p = Some tx
         /\ tp_log_index p = Some li
         /\ r = new_trade now p mid tx li (t_id r).
Proof.
  induction ps as [|p ps IH]; intros rows rows' n; cbn [executemany].
  - intros [= <- <-] r Hr. left. exact Hr.
  - destruct (bind_params p); cbn [bind]; [|discriminate].
    destruct (insert_or_ignore now rows p) as [rows1 n1] eqn:E1.
    destruct (executemany now rows1 ps) as [[rows2 n2]|] eqn:E2;
      cbn [bind]; [|discriminate].
    intros [= <- <-] r Hr.
    destruct (IH _ _ _ E2 r Hr) as [Hr1|(q & mid & tx & li & Hq & H)].
    + unfold insert_or_ignore in E1.
      destruct (tp_market_id p) as [mid|] eqn:Em;
        [|injection E1 as <- <-; left; exact Hr1].
      destruct (tp_tx_hash p) as [tx|] eqn:Et;
        [|injection E1 as <- <-; left; exact Hr1].
      destruct (tp_log_index p) as [li|] eqn:El;
        [|injection E1 as <- <-; left; exact Hr1].
      destruct (existsb _ rows); injection E1 as <- <-; [left; exact Hr1|].
      apply in_app_iff in Hr1 as [Hr1|[<-|[]]]; [left; exact Hr1|].
      right. exists p, mid, tx, li. cbn [new_trade t_id].
      repeat split; auto. left. reflexivity.
    + right. exists q, mid, tx, li. split; [right; exact Hq|exact H].
Qed.

(** X14: what [insert_trades] leaves in the table. After a successful
    call every trade of the batch that has a market id, a transaction hash
    and a log index is in the table under its pair of hash and log index,
    inserted now or stored before; the rows stored before are still
    there, unchanged and in front; every added row carries the parameters
    of a trade of the batch and the time of the call; the other tables
    are untouched. An empty batch returns 0 and changes nothing, not even
    the change counter. *)
Theorem X14_insert_trades_stores_batch (now : string) (c c' : Conn)
    (batch : list TradeDict) (n : Z) :
  insert_trades now c batch = Ok (n, c') ->
  (forall t mid tx li,
     In t batch -> td_market_id t = Some mid -> td_tx_hash t = Some tx ->
     td_log_index t = Some li ->
     exists r, In r (trades c') /\ Spec.trade_key r = (tx, li))
  /\ (exists new,
        trades c' = trades c ++ new
        /\ forall r, In r new ->
             exists t p mid tx li,
               In t batch /\ trade_params t = Ok p
               /\ td_market_id t = Some mid /\ td_tx_hash t = Some tx
               /\ td_log_index t = Some li
               /\ r = new_trade now p mid tx li (t_id r))
  /\ events c' = events c /\ markets c' = markets c
  /\ sync_state c' = sync_state c
  /\ (batch = [] -> n = 0 /\ c' = c).
Proof.
  unfold insert_trades. destruct batch as [|t0 ts].
  { intros [= <- <-]. split; [intros t mid tx li []|].
    split; [exists []; rewrite app_nil_r; split; [reflexivity|intros r []]|].
    auto. }
  set (batch := t0 :: ts).
  destruct (all_params batch) as [ps|] eqn:Ep; cbn [bind]; [|discriminate].
  destruct (executemany now (trades c) ps) as [[rows k]|] eqn:Ex;
    cbn [bind]; [|discriminate].
  intros [= <- <-]. cbn [trades events markets sync_state].
  pose proof (all_params_Forall2 _ _ Ep) as Hf.
  destruct (executemany_spec _ _ _ _ _ Ex)
    as (new & Hrows & _ & _ & Hign & _ & Hnew & _).
  split; [|split; [|split; [reflexivity|split; [reflexivity|split;
    [reflexivity|discriminate]]]]].
  - intros t mid tx li Ht Hm Htx Hli.
    apply list_elem_of_In in Ht.
    apply list_elem_of_lookup in Ht as (i & Hi).
    destruct (Forall2_lookup_l _ _ _ _ _ Hf Hi) as (p & Hp & Htp).
    pose proof (proj1 (Forall_lookup _ _) Hign i p Hp) as Hig.
    cbv beta in Hig. params_of Htp. unfold Spec.ignored_on in Hig.
    cbn [tp_market_id tp_tx_hash tp_log_index] in Hig.
    rewrite Hm, Htx, Hli in Hig. apply same_key_In in Hig.
    apply in_map_iff in Hig as (r & Hk & Hr). eauto.
  - exists new. split; [exact Hrows|]. intros r Hr.
    assert (In r rows) as Hin by (rewrite Hrows; apply in_app_iff; auto).
    destruct (executemany_rows _ _ _ _ _ Ex r Hin)
      as [Hold|(p & mid & tx & li & Hp & Hm & Htx & Hli & Hr')].
    + exfalso.
      pose proof (proj1 (List.Forall_forall _ _) Hnew r Hr) as Hfresh.
      apply Hfresh. apply in_map. exact Hold.
    + apply list_elem_of_In, list_elem_of_lookup in Hp as (i & Hi).
      destruct (Forall2_lookup_r _ _ _ _ _ Hf Hi) as (t & Ht & Htp).
      exists t, p, mid, tx, li.
      split; [apply list_elem_of_In; eapply list_elem_of_lookup_2; exact Ht|].
      split; [exact Htp|].
      params_of Htp.
      cbn [tp_market_id tp_tx_hash tp_log_index] in Hm, Htx, Hli. auto.
Qed.

Lemma X14_insert_trades_stores_batch_witness :
  exists c' r,
    insert_trades "t1" empty_conn [Fixtures.trade_a] = Ok (1, c')
    /\ In r (trades c')
    /\ Some (t_tx_hash r) = td_tx_hash Fixtures.trade_a.
Proof.
  destruct (insert_trades "t1" empty_conn [Fixtures.trade_a])
    as [[n c']|] eqn:E; [|vm_compute in E; discriminate E].
  assert (n = 1) as -> by (vm_compute in E; congruence).
  destruct (td_market_id Fixtures.trade_a) as [mid|] eqn:E1;
    [|vm_compute in E1; discriminate E1].
  destruct (td_tx_hash Fixtures.trade_a) as [tx|] eqn:E2;
    [|vm_compute in E2; discriminate E2].
  destruct (td_log_index Fixtures.trade_a) as [li|] eqn:E3;
    [|vm_compute in E3; discriminate E3].
  destruct (proj1 (X14_insert_trades_stores_batch _ _ _ _ _ E)
              Fixtures.trade_a mid tx li (or_introl eq_refl) E1 E2 E3)
    as (r & Hr & Hk).
  exists c', r. split; [reflexivity|]. split; [exact Hr|].
  injection Hk as -> _. reflexivity.
Defined.

(** ** Upserting the same payload again *)

Lemma NoDup_map_inj_in {A B} (f : A -> B) l a b :
  NoDup (map f l) -> In a l -> In b l -> f a = f b -> a = b.
Proof.
  induction l as [|x l IH]; [intros _ []|]. cbn [map].
  intros Hnd. apply NoDup_cons in Hnd as [Hx Hnd].
  rewrite list_elem_of_In in Hx.
  intros [->|Ha] [->|Hb] E; auto.
  - exfalso. apply Hx. rewrite E. apply in_map. exact Hb.
  - exfalso. apply Hx. rewrite <- E. apply in_map. exact Ha.
Qed.

Lemma existsb_false {A} (P : A -> bool) l :
  (forall x, In x l -> P x = false) -> existsb P l = false.
Proof.
  intros H. destruct (existsb P l) eqn:E; [|reflexivity].
  apply existsb_exists in E as (x & Hx & Hp). rewrite (H x Hx) in Hp.
  discriminate.
Qed.

Lemma existsb_false_In {A} (P : A -> bool) l x :
  existsb P l = false -> In x l -> P x = false.
Proof.
  intros H Hx. destruct (P x) eqn:E; [|reflexivity].
  rewrite <- H. symmetry. apply existsb_exists. eauto.
Qed.

(** X15: upserting an event payload a second time. On a table whose
    slugs are distinct, a successful [upsert_event] can be repeated with
    the same payload: the second call succeeds, returns the same id, adds
    no row, and changes nothing but [updated_at] of the row under the
    payload's slug. *)
Theorem X15_upsert_event_again (now now' : string) (c c1 : Conn)
    (p : EventPayload) (id : Z) :
  NoDup (map e_slug (events c)) ->
  upsert_event now c p = Ok (id, c1) ->
  exists slug,
    ep_slug p = Some slug
    /\ upsert_event now' c1 p
       = Ok (id, {| events := Spec.stamp_events now' slug (events c1);
                    markets := markets c1; trades := trades c1;
                    sync_state := sync_state c1;
                    total_changes := total_changes c1 + 1 |}).
Proof.
  intros Hnd. unfold upsert_event at 1.
  destruct (ep_slug p) as [slug|] eqn:Es; [|discriminate].
  set (K := fun r => bool_decide (e_slug r = slug)).
  destruct (find K (events c)) as [old|] eqn:Ef.
  - destruct (event_id_taken _ _ _) eqn:Et; [discriminate|].
    intros [= <- <-]. exists slug. split; [reflexivity|].
    unfold upsert_event. rewrite Es.
    cbn [events markets trades sync_state total_changes].
    pose proof (find_some _ _ Ef) as [Hin Hs].
    assert (find K (map (fun r => if K r then update_event now p r else r)
                      (events c)) = Some (update_event now p old)) as Hq.
    { rewrite find_map_same.
      - rewrite Ef.
        change (Some (if K old then update_event now p old else old)
                = Some (update_event now p old)).
        rewrite Hs. reflexivity.
      - intros a. destruct (K a) eqn:E; [|exact E].
        unfold K. cbn [update_event e_slug]. exact E. }
    unfold K in Hq |- *; cbv beta in Hq |- *; rewrite Hq; clear Hq.
    cbn [update_event e_id].
    assert (event_id_taken (ep_event_id p) (Some (e_id old))
              (map (fun r => if K r then update_event now p r else r)
                 (events c)) = false) as Hq.
    { unfold event_id_taken in *. destruct (ep_event_id p) as [e|];
        [|reflexivity].
      apply existsb_false. intros x Hx.
      apply in_map_iff in Hx as (r & <- & Hr).
      destruct (K r) eqn:Ek.
      - assert (r = old) as ->.
        { apply (NoDup_map_inj_in e_slug (events c)); auto.
          apply bool_decide_eq_true in Ek, Hs. congruence. }
        cbn [update_event e_id].
        rewrite (bool_decide_eq_true_2 (Some (e_id old) = Some (e_id old)))
          by reflexivity.
        apply andb_false_r.
      - exact (existsb_false_In _ _ _ Et Hr). }
    unfold K in Hq |- *; cbv beta in Hq |- *; rewrite Hq; clear Hq.
    do 3 f_equal. unfold Spec.stamp_events. rewrite !map_map.
    apply map_ext. intros r. fold (K r). destruct (K r) eqn:Ek.
    + destruct (bool_decide _); reflexivity.
    + unfold K in Ek. rewrite Ek. reflexivity.
  - destruct (event_id_taken _ _ _) eqn:Et; [discriminate|].
    intros [= <- <-]. exists slug. split; [reflexivity|].
    unfold upsert_event. rewrite Es.
    cbn [events markets trades sync_state total_changes].
    set (id := next_id (map e_id (events c))).
    pose proof Ef as Ef'. unfold K in Ef' |- *. cbv beta.
    rewrite find_snoc, Ef'.
    assert (bool_decide (e_slug (new_event now p slug id) = slug) = true)
      as Hk by (apply bool_decide_eq_true_2; reflexivity).
    rewrite Hk. cbn [new_event e_id].
    assert (event_id_taken (ep_event_id p) (Some id)
              (events c ++ [new_event now p slug id]) = false) as Hq.
    { unfold event_id_taken in *. destruct (ep_event_id p) as [e|];
        [|reflexivity].
      apply existsb_false. intros x Hx.
      apply in_app_iff in Hx as [Hx|[<-|[]]].
      - pose proof (existsb_false_In _ _ _ Et Hx) as H. cbv beta in H.
        rewrite (bool_decide_eq_false_2 (Some (e_id x) = None)) in H
          by discriminate.
        cbn [negb] in H. rewrite andb_true_r in H. rewrite H. reflexivity.
      - cbn [new_event e_id].
        rewrite (bool_decide_eq_true_2 (Some id = Some id)) by reflexivity.
        apply andb_false_r. }
    unfold K in Hq |- *; cbv beta in Hq |- *; rewrite Hq; clear Hq.
    do 3 f_equal. unfold Spec.stamp_events. rewrite !map_app.
    f_equal; try (cbn [map]; rewrite Hk; reflexivity).
    apply map_ext_in. intros r Hr.
    pose proof (find_none _ _ Ef r Hr) as Hn. unfold K in Hn.
    rewrite Hn. reflexivity.
Qed.

Lemma X15_upsert_event_again_witness :
  exists c2,
    upsert_event "t2" Fixtures.conn_one_event Fixtures.event_rain
      = Ok (1, c2)
    /\ events c2
       = Spec.stamp_events "t2" "rain" (events Fixtures.conn_one_event).
Proof.
  assert (NoDup (map e_slug (events empty_conn))) as Hnd by constructor.
  assert (exists c1, upsert_event "t0" empty_conn Fixtures.event_rain
                     = Ok (1, c1) /\ c1 = Fixtures.conn_one_event)
    as (c1 & E & <-).
  { eexists. split; vm_compute; reflexivity. }
  destruct (X15_upsert_event_again "t0" "t2" _ _ _ _ Hnd E)
    as (slug & Hs & H2).
  assert (slug = "rain") as -> by (vm_compute in Hs; congruence).
  eexists. split; [exact H2|reflexivity].
Defined.

(** X16: upserting a market payload a second time. A successful
    [upsert_market] can always be repeated with the same payload: the
    second call succeeds, returns the same id, adds no row, and changes
    nothing but [updated_at] of the rows under the payload's slug. *)
Theorem X16_upsert_market_again (now now' : string) (c c1 : Conn)
    (p : MarketPayload) (id : Z) :
  upsert_market now c p = Ok (id, c1) ->
  exists slug,
    mp_slug p = Some slug
    /\ upsert_market now' c1 p
       = Ok (id, {| events := events c1;
                    markets := Spec.stamp_markets now' slug (markets c1);
                    trades := trades c1; sync_state := sync_state c1;
                    total_changes := total_changes c1 + 1 |}).
Proof.
  unfold upsert_market.
  destruct (normalize_token_id (mp_yes_token_id p)) as [yes|]; cbn [bind];
    [|discriminate].
  destruct (normalize_token_id (mp_no_token_id p)) as [no|]; cbn [bind];
    [|discriminate].
  destruct (bind_opt_int (mp_event_id p)) as [eid|]; cbn [bind];
    [|discriminate].
  destruct (mp_slug p) as [slug|] eqn:Es; [|discriminate].
  set (K := fun r => bool_decide (m_slug r = slug)).
  destruct (find K (markets c)) as [old|] eqn:Ef.
  - intros [= <- <-]. exists slug. split; [reflexivity|].
    cbn [events markets trades sync_state total_changes].
    pose proof (find_some _ _ Ef) as [Hin Hs].
    assert (find K (map (fun r => if K r then update_market now p eid yes no r
                                  else r) (markets c))
            = Some (update_market now p eid yes no old)) as Hq.
    { rewrite find_map_same.
      - rewrite Ef.
        change (Some (if K old then update_market now p eid yes no old
                      else old)
                = Some (update_market now p eid yes no old)).
        rewrite Hs. reflexivity.
      - intros a. destruct (K a) eqn:E; [|exact E].
        unfold K. cbn [update_market m_slug]. exact E. }
    unfold K in Hq |- *; cbv beta in Hq |- *; rewrite Hq; clear Hq.
    do 3 f_equal. unfold Spec.stamp_markets. rewrite !map_map.
    apply map_ext. intros r. fold (K r). destruct (K r) eqn:Ek.
    + destruct (bool_decide _); reflexivity.
    + unfold K in Ek. rewrite Ek. reflexivity.
  - intros [= <- <-]. exists slug. split; [reflexivity|].
    cbn [events markets trades sync_state total_changes].
    set (id := next_id (map m_id (markets c))).
    pose proof Ef as Ef'. unfold K in Ef' |- *. cbv beta.
    rewrite find_snoc, Ef'.
    assert (bool_decide (m_slug (new_market now p eid yes no slug id) = slug)
            = true) as Hk by (apply bool_decide_eq_true_2; reflexivity).
    rewrite Hk.
    do 3 f_equal. unfold Spec.stamp_markets. rewrite !map_app.
    f_equal; try (cbn [map]; rewrite Hk; reflexivity).
    apply map_ext_in. intros r Hr.
    pose proof (find_none _ _ Ef r Hr) as Hn. unfold K in Hn.
    rewrite Hn. reflexivity.
Qed.

Lemma X16_upsert_market_again_witness :
  exists c2,
    upsert_market "t2" Fixtures.conn_one_market Fixtures.market_555
      = Ok (1, c2)
    /\ markets c2
       = Spec.stamp_markets "t2" "will-it-rain"
           (markets Fixtures.conn_one_market).
Proof.
  assert (exists c1, upsert_market "t0" empty_conn Fixtures.market_555
                     = Ok (1, c1) /\ c1 = Fixtures.conn_one_market)
    as (c1 & E & <-).
  { eexists. split; vm_compute; reflexivity. }
  destruct (X16_upsert_market_again "t0" "t2" _ _ _ _ E) as (slug & Hs & H2).
  assert (slug = "will-it-rain") as -> by (vm_compute in Hs; congruence).
  eexists. split; [exact H2|reflexivity].
Defined.

(** ** The requests of [_collect_logs] *)

Lemma collect_from_done env a t s n cursor acc :
  t < cursor -> collect_from env a t s n cursor acc = Ok acc.
Proof.
  intros H. destruct n; [reflexivity|]. cbn [collect_from].
  destruct (Z.leb_spec cursor t); [lia|reflexivity].
Qed.

(** The [j]-th range starts at or before [to_block] exactly when [j]
    is below the number of ranges. *)
Lemma chunk_starts f t s (j : nat) :
  1 <= s ->
  (f + Z.of_nat j * s <= t <-> (j < Spec.chunk_count f t s)%nat).
Proof.
  intros Hs. unfold Spec.chunk_count.
  assert (0 <= Z.of_nat j * s) as Hj by (apply Z.mul_nonneg_nonneg; lia).
  destruct (Z.leb_spec f t) as [Hft|Hft]; [|lia].
  assert (0 <= (t - f) / s) as Hq by (apply Z.div_pos; lia).
  split.
  - intros H.
    assert (Z.of_nat j <= (t - f) / s).
    { apply Z.div_le_lower_bound; [lia|]. rewrite Z.mul_comm. lia. }
    lia.
  - intros H.
    assert (Z.of_nat j <= (t - f) / s) as Hle by lia.
    pose proof (Z.mul_div_le (t - f) s ltac:(lia)) as Hm.
    assert (Z.of_nat j * s <= (t - f) / s * s) as Hjs
      by (apply Z.mul_le_mono_nonneg_r; lia).
    rewrite (Z.mul_comm s) in Hm. lia.
Qed.

Lemma collect_from_ranges env a f t s : 1 <= s ->
  forall n (j : nat) acc,
    (Z.to_nat (t - (f + Z.of_nat j * s) + 1) <= n)%nat ->
    collect_from env a t s n (f + Z.of_nat j * s) acc
    = Spec.ask_all env a
        (map (Spec.chunk_range f t s)
             (seq j (Spec.chunk_count f t s - j))) acc.
Proof.
  intros Hs. induction n as [|n IH]; intros j acc Hn.
  - assert (~ (j < Spec.chunk_count f t s)%nat) as Hc.
    { rewrite <- chunk_starts by exact Hs. lia. }
    replace (Spec.chunk_count f t s - j)%nat with 0%nat by lia.
    reflexivity.
  - cbn [collect_from].
    destruct (Z.leb_spec (f + Z.of_nat j * s) t) as [Hle|Hgt].
    + pose proof (proj1 (chunk_starts f t s j Hs) Hle) as Hc.
      replace (Spec.chunk_count f t s - j)%nat
        with (S (Spec.chunk_count f t s - S j)) by lia.
      cbn [seq map Spec.ask_all]. unfold Spec.chunk_range at 1.
      cbv zeta.
      destruct (eth_get_logs env a _ _) as [logs|e]; cbn [bind];
        [|reflexivity].
      destruct (Z.min_spec (f + Z.of_nat j * s + s - 1) t)
        as [[Hlt ->]|[Hge ->]].
      * replace (f + Z.of_nat j * s + s - 1 + 1)
          with (f + Z.of_nat (S j) * s) by lia.
        apply IH. lia.
      * rewrite collect_from_done by lia.
        assert (~ (S j < Spec.chunk_count f t s)%nat) as Hc'.
        { rewrite <- chunk_starts by exact Hs. lia. }
        replace (Spec.chunk_count f t s - S j)%nat with 0%nat by lia.
        reflexivity.
    + assert (~ (j < Spec.chunk_count f t s)%nat) as Hc.
      { rewrite <- chunk_starts by exact Hs. lia. }
      replace (Spec.chunk_count f t s - j)%nat with 0%nat by lia.
      reflexivity.
Qed.

(** X17: the requests of [_collect_logs]. With a chunk size of at
    least 1 the function asks for the ranges [from_block + k *
    chunk_size] to [from_block + (k + 1) * chunk_size - 1], the last one cut
    at [to_block], in this order, and returns the logs of all of them in
    this order; the first request that fails ends the collection with its
    error. The ranges are not empty, hold at most [chunk_size] blocks, and
    every block from [from_block] to [to_block] is in the range numbered
    [(b - from_block) / chunk_size]; an empty interval makes no
    request. *)
Theorem X17_collect_logs_requests (env : Env) (addresses : list string)
    (from_block to_block chunk_size : Z) :
  1 <= chunk_size ->
  _collect_logs env addresses from_block to_block chunk_size
  = Spec.ask_all env addresses
      (Spec.chunk_ranges from_block to_block chunk_size) []
  /\ Forall (fun r => from_block <= r.1 <= r.2 /\ r.2 <= to_block
                      /\ r.2 - r.1 < chunk_size)
       (Spec.chunk_ranges from_block to_block chunk_size)
  /\ (forall b, from_block <= b <= to_block ->
        exists r,
          nth_error (Spec.chunk_ranges from_block to_block chunk_size)
            (Z.to_nat ((b - from_block) / chunk_size)) = Some r
          /\ r.1 <= b <= r.2)
  /\ (to_block < from_block ->
        Spec.chunk_ranges from_block to_block chunk_size = []).
Proof.
  intros Hs. split; [|split; [|split]].
  - unfold _collect_logs, Spec.chunk_ranges.
    pose proof (collect_from_ranges env addresses from_block to_block
                  chunk_size Hs
                  (Z.to_nat (to_block - from_block + 1)) 0 []) as H.
    rewrite Z.mul_0_l, Z.add_0_r, Nat.sub_0_r in H. apply H. lia.
  - unfold Spec.chunk_ranges. apply List.Forall_forall. intros r Hr.
    apply in_map_iff in Hr as (k & <- & Hk). apply in_seq in Hk.
    assert (from_block + Z.of_nat k * chunk_size <= to_block) as Hle
      by (apply chunk_starts; [exact Hs|lia]).
    assert (0 <= Z.of_nat k * chunk_size)
      by (apply Z.mul_nonneg_nonneg; lia).
    unfold Spec.chunk_range. cbn [fst snd]. lia.
  - intros b Hb. unfold Spec.chunk_ranges.
    set (q := (b - from_block) / chunk_size).
    assert (0 <= q) as Hq by (apply Z.div_pos; lia).
    pose proof (Z.mul_div_le (b - from_block) chunk_size ltac:(lia)) as Hlo.
    pose proof (Z.mul_succ_div_gt (b - from_block) chunk_size ltac:(lia))
      as Hhi.
    fold q in Hlo, Hhi. rewrite (Z.mul_comm chunk_size) in Hlo.
    rewrite (Z.mul_comm chunk_size) in Hhi.
    assert (Z.succ q * chunk_size = q * chunk_size + chunk_size) as Hsq
      by lia.
    assert (Z.to_nat q < Spec.chunk_count from_block to_block chunk_size)%nat
      as Hc.
    { apply chunk_starts; [exact Hs|]. rewrite Z2Nat.id by exact Hq. lia. }
    exists (Spec.chunk_range from_block to_block chunk_size (Z.to_nat q)).
    split.
    + rewrite nth_error_map, nth_error_seq.
      destruct (Nat.ltb_spec (Z.to_nat q)
                  (Spec.chunk_count from_block to_block chunk_size));
        [reflexivity|lia].
    + unfold Spec.chunk_range. cbn [fst snd].
      rewrite Z2Nat.id by exact Hq. lia.
  - intros H. unfold Spec.chunk_ranges, Spec.chunk_count.
    destruct (Z.leb_spec from_block to_block); [lia|reflexivity].
Qed.

Lemma X17_collect_logs_requests_witness :
  Spec.chunk_ranges 10 19 4 = [(10, 13); (14, 17); (18, 19)]
  /\ forall env a,
       _collect_logs env a 10 19 4
       = Spec.ask_all env a [(10, 13); (14, 17); (18, 19)] [].
Proof.
  split; [reflexivity|]. intros env a.
  exact (proj1 (X17_collect_logs_requests env a 10 19 4 ltac:(lia))).
Defined.

(** ** What the loop of a run queues *)

Lemma grows_refl w : Spec.grows w w.
Proof. intros x Hx. exact Hx. Qed.

Lemma grows_trans w1 w2 w3 :
  Spec.grows w1 w2 -> Spec.grows w2 w3 -> Spec.grows w1 w3.
Proof. intros H1 H2 x Hx. apply H2, H1, Hx. Qed.

Lemma keeps_growing_ret {A} (a : A) : Spec.keeps_growing (ret a).
Proof. intros w. apply grows_refl. Qed.

Lemma keeps_growing_lift {A} (r : res A) : Spec.keeps_growing (lift r).
Proof. intros w. apply grows_refl. Qed.

Lemma keeps_growing_bind {A B} (m : M A) (k : A -> M B) :
  Spec.keeps_growing m -> (forall a, Spec.keeps_growing (k a)) ->
  Spec.keeps_growing (bindM m k).
Proof.
  intros Hm Hk w. unfold bindM. specialize (Hm w).
  destruct (m w) as [[a|e] w1]; cbn [snd] in *; [|exact Hm].
  eapply grows_trans; [exact Hm|apply Hk].
Qed.

Lemma keeps_growing_read_clock env : Spec.keeps_growing (read_clock env).
Proof. intros w x Hx. exact Hx. Qed.

Lemma keeps_growing_call_gamma env slug :
  Spec.keeps_growing (call_gamma env slug).
Proof. intros w x Hx. exact Hx. Qed.

Lemma keeps_growing_read_conn {A} (q : Conn -> res A) :
  Spec.keeps_growing (read_conn q).
Proof. intros w x Hx. exact Hx. Qed.

Lemma keeps_growing_log_effect e : Spec.keeps_growing (log_effect e).
Proof. intros w x Hx. exact Hx. Qed.

Lemma keeps_growing_on_conn {A} (op : Conn -> res (A * Conn)) :
  (forall c a c', op c = Ok (a, c') ->
     incl (map m_id (markets c)) (map m_id (markets c'))) ->
  Spec.keeps_growing (on_conn op).
Proof.
  intros H w. unfold on_conn.
  destruct (op (conn w)) as [[a c']|e] eqn:E; cbn [snd];
    [|apply grows_refl].
  exact (H _ _ _ E).
Qed.

Lemma upsert_event_markets now c p id c' :
  upsert_event now c p = Ok (id, c') -> markets c' = markets c.
Proof.
  unfold upsert_event. destruct (ep_slug p); [|discriminate].
  destruct (find _ (events c)); destruct (event_id_taken _ _ _);
    try discriminate; intros [= <- <-]; reflexivity.
Qed.

(** [upsert_market] keeps the ids of the table and returns one of the
    ids of the table it leaves. *)
Lemma upsert_market_ids now c p id c' :
  upsert_market now c p = Ok (id, c') ->
  incl (map m_id (markets c)) (map m_id (markets c'))
  /\ In id (map m_id (markets c')).
Proof.
  unfold upsert_market.
  destruct (normalize_token_id (mp_yes_token_id p)); cbn [bind]; [|discriminate].
  destruct (normalize_token_id (mp_no_token_id p)); cbn [bind]; [|discriminate].
  destruct (bind_opt_int (mp_event_id p)); cbn [bind]; [|discriminate].
  destruct (mp_slug p) as [slug|]; [|discriminate].
  destruct (find _ (markets c)) as [old|] eqn:Hf; intros [= <- <-];
    cbn [markets].
  - rewrite (map_map_cond (fun r => bool_decide (m_slug r = slug)))
      by reflexivity.
    split; [intros x Hx; exact Hx|].
    apply in_map. exact (proj1 (find_some _ _ Hf)).
  - rewrite map_app. split.
    + intros x Hx. apply in_app_iff. left. exact Hx.
    + apply in_app_iff. right. left. reflexivity.
Qed.

Lemma keeps_growing_upsert_markets env eid ms : forall ids,
  Spec.keeps_growing (upsert_markets env eid ms ids).
Proof.
  induction ms as [|[p|] ms IH]; intros ids; cbn [upsert_markets].
  - apply keeps_growing_ret.
  - apply keeps_growing_bind; [apply keeps_growing_read_clock|]. intros now.
    apply keeps_growing_bind; [|intros; apply IH].
    apply keeps_growing_on_conn. intros c a c' H.
    exact (proj1 (upsert_market_ids _ _ _ _ _ H)).
  - apply IH.
Qed.

Lemma keeps_growing_discover_markets env slug :
  Spec.keeps_growing (discover_markets env slug).
Proof.
  unfold discover_markets. destruct slug as [[|ch s]|];
    try apply keeps_growing_ret.
  apply keeps_growing_bind; [apply keeps_growing_call_gamma|]. intros [ev ms].
  apply keeps_growing_bind; [apply keeps_growing_read_clock|]. intros now.
  apply keeps_growing_bind.
  { apply keeps_growing_on_conn. intros c a c' H.
    rewrite (upsert_event_markets _ _ _ _ _ H). intros x Hx. exact Hx. }
  intros eid.
  apply keeps_growing_bind; [apply keeps_growing_upsert_markets|]. intros ids.
  apply keeps_growing_ret.
Qed.

Lemma keeps_growing_ensure_market_cached env tok slug attempted :
  Spec.keeps_growing (_ensure_market_cached env tok slug attempted).
Proof.
  unfold _ensure_market_cached.
  apply keeps_growing_bind; [apply keeps_growing_read_conn|].
  intros [m|]; [apply keeps_growing_ret|].
  destruct (truthy slug && negb attempted); [|apply keeps_growing_ret].
  apply keeps_growing_bind; [apply keeps_growing_log_effect|]. intros _.
  apply keeps_growing_bind; [apply keeps_growing_discover_markets|]. intros _.
  apply keeps_growing_bind; [apply keeps_growing_read_conn|]. intros m.
  apply keeps_growing_ret.
Qed.

(** The integers of a decoded record are 256-bit words, and its token
    id is the decimal numeral of one. *)
Lemma decode_words_bound log d :
  decode_order_filled_log log = Ok d ->
  Z.abs (maker_asset_id d) < 2 ^ 256
  /\ Z.abs (taker_asset_id d) < 2 ^ 256
  /\ Z.abs (maker_amount_filled d) < 2 ^ 256
  /\ Z.abs (taker_amount_filled d) < 2 ^ 256
  /\ exists n, Z.abs n < 2 ^ 256 /\ token_id d = str_of_int n.
Proof.
  unfold decode_order_filled_log.
  destruct (topics log) as [|t0 [|t1 [|t2 ts]]]; try discriminate.
  destruct (_chunk_data_words _) as [ws|] eqn:Ew; cbn [bind]; [|discriminate].
  assert (Forall (fun w => Z.abs w < 2 ^ 256) ws) as Hb.
  { unfold _chunk_data_words in Ew.
    destruct (negb _); [discriminate|].
    eapply parse_words_bound; [|exact Ew]. apply slices64_short. }
  destruct ws as [|w0 [|ma [|ta [|mam [|tam [|fee rest]]]]]];
    try discriminate.
  repeat match goal with
         | H : Forall _ (_ :: _) |- _ =>
             apply Forall_cons in H; destruct H as [? H]
         end.
  cbv zeta.
  destruct (if negb _ then PyDecimal.truediv ctx _ USDC_SCALE else _)
    as [sz|]; cbn [bind]; [|discriminate].
  destruct (if negb _ then PyDecimal.truediv ctx _ _ else _)
    as [pr|]; cbn [bind]; [|discriminate].
  destruct (str_ _) as [text|] eqn:Es; cbn [bind]; [|discriminate].
  apply str_Ok in Es as [-> _].
  repeat match goal with
         | |- context [bind ?m _] =>
             destruct m; cbn [bind]; [|discriminate]
         end.
  intros [= <-].
  cbn [token_id maker_asset_id taker_asset_id maker_amount_filled
       taker_amount_filled].
  repeat (split; [assumption|]).
  eexists. split; [|reflexivity].
  destruct ((ma =? 0) && negb (ta =? 0)); assumption.
Qed.

Lemma decode_token_numeral log d :
  decode_order_filled_log log = Ok d ->
  exists n, Z.abs n < 10 ^ max_str_digits /\ token_id d = str_of_int n.
Proof.
  intros Hd. destruct (decode_words_bound _ _ Hd) as (_ & _ & _ & _ & n & B & H).
  exists n. split; [apply word_within_limit, B|exact H].
Qed.

(** What the resolver returns is a row of the store it leaves that
    lists the token. *)
Lemma ensure_market_cached_row env n slug attempted w m a w' :
  Z.abs n < 10 ^ max_str_digits ->
  _ensure_market_cached env (Some (str_of_int n)) slug attempted w
  = (Ok (Some m, a), w') ->
  In m (markets (conn w')) /\ token_matches (str_of_int n) m = true.
Proof.
  intros Hlim E.
  pose proof (ensure_market_cached_spec env (Some (str_of_int n)) slug
                attempted w) as H.
  rewrite E in H. cbn [fst snd] in H.
  assert (fetch_market_by_token_id (conn w') (Some (str_of_int n))
          = Ok (Some m)) as Hf.
  { destruct H as (_ & _ & [(_ & Hc & _ & Hf & _)|(_ & _ & _ & _ & _ & Hf)]).
    - rewrite Hc. exact Hf.
    - exact Hf. }
  unfold fetch_market_by_token_id in Hf.
  rewrite normalize_str_of_int in Hf by exact Hlim. cbn [bind] in Hf.
  injection Hf as Hf. apply find_some in Hf. exact Hf.
Qed.

Lemma cache_ok_step env cache b ts cache' :
  Spec.cache_ok env cache ->
  _get_block_timestamp_iso env cache b = Ok (ts, cache') ->
  Spec.cache_ok env cache'
  /\ exists t, eth_get_block_timestamp env b = Ok t /\ ts = _to_iso_utc env t.
Proof.
  intros Hc. unfold _get_block_timestamp_iso.
  destruct (cache !! b) as [ts0|] eqn:El.
  - intros [= <- <-]. split; [exact Hc|]. exact (Hc _ _ El).
  - destruct (eth_get_block_timestamp env b) as [t|] eqn:Et; cbn [bind];
      [|discriminate].
    intros [= <- <-]. split; [|eauto].
    intros b' ts' Hl. destruct (decide (b' = b)) as [->|Hne].
    + rewrite lookup_insert_eq in Hl. injection Hl as <-. eauto.
    + rewrite lookup_insert_ne in Hl by congruence. exact (Hc _ _ Hl).
Qed.

(** One iteration: the cache stays sound, the market ids stay, and the
    queue is as it was or one trade longer, the trade queued for the
    log. *)
Lemma process_log_queue env slug st log w st' w' :
  process_log env slug st log w = (Ok st', w') ->
  Spec.cache_ok env (timestamp_cache st) ->
  Spec.cache_ok env (timestamp_cache st')
  /\ Spec.grows w w'
  /\ (to_insert st' = to_insert st
      \/ exists t,
           to_insert st' = to_insert st ++ [t]
           /\ Spec.queued_for env (map m_id (markets (conn w'))) log t).
Proof.
  unfold process_log, bindM, lift. intros E Hc.
  destruct (decode_order_filled_log log) as [d|] eqn:Hd; [|discriminate].
  destruct (decode_token_numeral _ _ Hd) as (n & Hlim & Hn).
  rewrite Hn in E. unfold _int_token at 1 in E.
  rewrite normalize_str_of_int in E by exact Hlim.
  pose proof (keeps_growing_ensure_market_cached env (Some (str_of_int n))
                slug (market_discovery_attempted st) w) as Hg.
  destruct (_ensure_market_cached env (Some (str_of_int n)) slug
              (market_discovery_attempted st) w) as [[[[m|] a]|e] w1] eqn:Ee;
    cbn [snd] in Hg; [| |discriminate].
  2:{ injection E as <- <-. cbn [timestamp_cache to_insert]. auto. }
  destruct (ensure_market_cached_row _ _ _ _ _ _ _ _ Hlim Ee) as (Hin & Hm).
  destruct (_int_token (m_yes_token_id m)) as [yes|] eqn:Hy; [|discriminate].
  assert (exists outcome w2,
            (outcome = "YES" \/ outcome = "NO")
            /\ (if bool_decide (Some (str_of_int n) = yes) then ret "YES"
                else
                  bindM (fun w => (_int_token (m_no_token_id m), w))
                    (fun no =>
                       ret (if bool_decide (Some (str_of_int n) = no)
                            then "NO" else "UNKNOWN"))) w1
               = (Ok outcome, w2) /\ w2 = w1
            \/ exists e,
                 (if bool_decide (Some (str_of_int n) = yes) then ret "YES"
                  else
                    bindM (fun w => (_int_token (m_no_token_id m), w))
                      (fun no =>
                         ret (if bool_decide (Some (str_of_int n) = no)
                              then "NO" else "UNKNOWN"))) w1
                 = (Raise e, w1)) as Ho.
  { destruct (bool_decide (Some (str_of_int n) = yes)) eqn:Eb.
    - exists "YES", w1. left. auto.
    - unfold bindM.
      destruct (_int_token (m_no_token_id m)) as [no|e] eqn:Hno.
      + exists "NO", w1. left. split; [auto|]. split; [|reflexivity].
        unfold ret.
        assert (no = Some (str_of_int n)) as ->.
        { unfold token_matches in Hm. apply orb_true_iff in Hm as [Hm|Hm];
            apply bool_decide_eq_true in Hm.
          - exfalso. rewrite Hm in Hy. unfold _int_token in Hy.
            rewrite normalize_str_of_int in Hy by exact Hlim.
            injection Hy as <-.
            apply bool_decide_eq_false in Eb. congruence.
          - rewrite Hm in Hno. unfold _int_token in Hno.
            rewrite normalize_str_of_int in Hno by exact Hlim.
            congruence. }
        rewrite bool_decide_eq_true_2 by reflexivity. reflexivity.
      + exists "", w1. right. eauto. }
  unfold bindM, lift in Ho.
  destruct Ho as (outcome & w2 & [(Hout & Ho & ->)|(e & Ho)]);
    rewrite Ho in E; [|discriminate].
  destruct (_get_block_timestamp_iso env (timestamp_cache st)
              (block_number d)) as [[ts cache]|] eqn:Et; [|discriminate].
  injection E as <- <-. cbn [timestamp_cache to_insert].
  destruct (cache_ok_step _ _ _ _ _ Hc Et) as (Hc' & t & Ht & ->).
  split; [exact Hc'|]. split; [exact Hg|]. right.
  eexists. split; [reflexivity|].
  exists d, (m_id m), outcome, t. repeat split; auto.
  apply in_map. exact Hin.
Qed.

Lemma queued_for_mono env ids ids' log t :
  incl ids ids' -> Spec.queued_for env ids log t ->
  Spec.queued_for env ids' log t.
Proof.
  intros Hi (d & mid & o & ts & H1 & H2 & H3). exists d, mid, o, ts.
  repeat split; try tauto. apply Hi. exact H2.
Qed.

(** The whole loop: the queue grows by the trades queued for some of
    the logs, in the order of the logs. *)
Lemma process_logs_queue env slug logs : forall st w st' w',
  process_logs env slug st logs w = (Ok st', w') ->
  Spec.cache_ok env (timestamp_cache st) ->
  Spec.cache_ok env (timestamp_cache st')
  /\ Spec.grows w w'
  /\ exists picked new,
       sublist picked logs
       /\ to_insert st' = to_insert st ++ new
       /\ Forall2 (Spec.queued_for env (map m_id (markets (conn w'))))
            picked new.
Proof.
  induction logs as [|log logs IH]; intros st w st' w'; cbn [process_logs].
  - intros [= <- <-] Hc. split; [exact Hc|]. split; [apply grows_refl|].
    exists [], []. rewrite app_nil_r. repeat split; constructor.
  - unfold bindM.
    destruct (process_log env slug st log w) as [[st1|] w1] eqn:E1;
      [|discriminate].
    intros E2 Hc.
    destruct (process_log_queue _ _ _ _ _ _ _ E1 Hc) as (Hc1 & Hg1 & Hq1).
    destruct (IH _ _ _ _ E2 Hc1) as (Hc2 & Hg2 & picked & new & Hs & Hn & Hf).
    split; [exact Hc2|]. split; [eapply grows_trans; eassumption|].
    destruct Hq1 as [Hsame|(t & Ht & Hq)].
    + exists picked, new. split; [apply sublist_cons; exact Hs|].
      split; [congruence|exact Hf].
    + exists (log :: picked), (t :: new).
      split; [apply sublist_skip; exact Hs|].
      split; [rewrite Hn, Ht, <- app_assoc; reflexivity|].
      constructor; [|exact Hf].
      eapply queued_for_mono; [exact Hg2|exact Hq].
Qed.

(** X18: what the loop of a run queues. When the loop over the logs
    finishes, the queued trades are the trades of some of the logs, in the
    order of the logs and at most one per log: each carries the decoded
    fields of its log, the id of a market row of the store, the text of
    its block's timestamp as the chain reports it, and the outcome YES or
    NO; no queued trade has the outcome UNKNOWN. *)
Theorem X18_loop_queues_decoded_trades (env : Env)
    (event_slug : option string) (logs : list RawLog) (w w' : World)
    (st : Loop) :
  process_logs env event_slug Spec.fresh_loop logs w = (Ok st, w') ->
  (exists picked,
     sublist picked logs
     /\ Forall2 (Spec.queued_for env (map m_id (markets (conn w'))))
          picked (to_insert st))
  /\ Forall (fun t => td_outcome t <> Some "UNKNOWN") (to_insert st).
Proof.
  intros E.
  assert (Spec.cache_ok env (timestamp_cache Spec.fresh_loop)) as Hc.
  { intros b ts Hl. cbn in Hl. rewrite lookup_empty in Hl. discriminate. }
  destruct (process_logs_queue _ _ _ _ _ _ _ E Hc)
    as (_ & _ & picked & new & Hs & Hn & Hf).
  cbn [Spec.fresh_loop to_insert app] in Hn. subst new.
  split; [exists picked; auto|].
  clear - Hf. induction Hf as [|l t ls ts Hq _ IH]; constructor; [|exact IH].
  destruct Hq as (d & mid & o & tsec & _ & _ & Ho & _ & ->).
  cbn [trade_dict td_outcome]. destruct Ho as [-> | ->]; discriminate.
Qed.

Lemma X18_loop_queues_decoded_trades_witness :
  exists st w',
    process_logs
      (Fixtures.env_with 500 [Fixtures.buy_log] [Some Fixtures.market_555])
      (Some "rain") Spec.fresh_loop
      [Fixtures.unknown_log; Fixtures.buy_log] Fixtures.world0 = (Ok st, w')
    /\ length (to_insert st) = 1%nat
    /\ Forall (fun t => td_outcome t <> Some "UNKNOWN") (to_insert st).
Proof.
  destruct (process_logs
              (Fixtures.env_with 500 [Fixtures.buy_log]
                 [Some Fixtures.market_555])
              (Some "rain") Spec.fresh_loop
              [Fixtures.unknown_log; Fixtures.buy_log] Fixtures.world0)
    as [[st|e] w'] eqn:E; [|vm_compute in E; discriminate E].
  exists st, w'. split; [reflexivity|]. split.
  - vm_compute in E. injection E as <- _. reflexivity.
  - exact (proj2 (X18_loop_queues_decoded_trades _ _ _ _ _ _ E)).
Defined.

(** ** What a run stores *)

(** The rows [insert_trades] adds: as many as it reports, each with the
    parameters of a trade of the batch. *)
Lemma insert_trades_rows now c batch n c' :
  insert_trades now c batch = Ok (n, c') ->
  markets c' = markets c
  /\ exists new,
       trades c' = trades c ++ new
       /\ n = Z.of_nat (length new)
       /\ (length new <= length batch)%nat
       /\ forall r, In r new ->
            exists t p mid tx li,
              In t batch /\ trade_params t = Ok p
              /\ td_market_id t = Some mid /\ td_tx_hash t = Some tx
              /\ td_log_index t = Some li
              /\ r = new_trade now p mid tx li (t_id r).
Proof.
  unfold insert_trades. destruct batch as [|t0 ts].
  { intros [= <- <-]. split; [reflexivity|]. exists [].
    rewrite app_nil_r. repeat split; auto. intros r []. }
  set (batch := t0 :: ts).
  destruct (all_params batch) as [ps|] eqn:Ep; cbn [bind]; [|discriminate].
  destruct (executemany now (trades c) ps) as [[rows k]|] eqn:Ex;
    cbn [bind]; [|discriminate].
  intros [= <- <-]. cbn [trades markets total_changes].
  pose proof (all_params_Forall2 _ _ Ep) as Hf.
  destruct (executemany_spec _ _ _ _ _ Ex)
    as (new & Hrows & Hk & Hlen & _ & _ & Hnew & _).
  split; [reflexivity|]. exists new. split; [exact Hrows|].
  split; [lia|]. split.
  { rewrite (Forall2_length _ _ _ Hf). exact Hlen. }
  intros r Hr.
  assert (In r rows) as Hin by (rewrite Hrows; apply in_app_iff; auto).
  destruct (executemany_rows _ _ _ _ _ Ex r Hin)
    as [Hold|(p & mid & tx & li & Hp & Hm & Htx & Hli & Hr')].
  - exfalso.
    pose proof (proj1 (List.Forall_forall _ _) Hnew r Hr) as Hfresh.
    apply Hfresh. apply in_map. exact Hold.
  - apply list_elem_of_In, list_elem_of_lookup in Hp as (i & Hi).
    destruct (Forall2_lookup_r _ _ _ _ _ Hf Hi) as (t & Ht & Htp).
    exists t, p, mid, tx, li.
    split; [apply list_elem_of_In; eapply list_elem_of_lookup_2; exact Ht|].
    split; [exact Htp|].
    params_of Htp.
    cbn [tp_market_id tp_tx_hash tp_log_index] in Hm, Htx, Hli. auto.
Qed.

(** The row of a queued trade stores the trade's log. *)
Lemma queued_row env ids log t now p mid tx li id :
  Spec.queued_for env ids log t ->
  trade_params t = Ok p ->
  td_market_id t = Some mid -> td_tx_hash t = Some tx ->
  td_log_index t = Some li ->
  Spec.stored_from env ids log (new_trade now p mid tx li id).
Proof.
  intros (d & m & o & tsec & Hd & Hm & Ho & Ht & ->).
  unfold trade_params.
  cbn [trade_dict td_token_id td_maker_asset_id td_taker_asset_id
       td_maker_amount_filled td_taker_amount_filled str_opt].
  destruct (decode_words_bound _ _ Hd) as (B1 & B2 & B3 & B4 & n & Bn & Hn).
  rewrite Hn, normalize_str_of_int by (apply word_within_limit, Bn).
  rewrite !str_word by assumption.
  cbn [bind]. intros [= <-].
  cbn [td_market_id td_tx_hash td_log_index]. intros [= <-] [= <-] [= <-].
  exists d, tsec. split; [exact Hd|]. split; [exact Ht|].
  split; [exact Hm|].
  split; [destruct Ho as [-> | ->]; [left|right]; reflexivity|].
  rewrite Hn. repeat split; reflexivity.
Qed.

Lemma Forall2_In_r {A B} (R : A -> B -> Prop) l k b :
  Forall2 R l k -> In b k -> exists a, In a l /\ R a b.
Proof.
  induction 1 as [|x y l k Hxy _ IH]; [intros []|].
  intros [<-|Hb].
  - exists x. split; [left; reflexivity|exact Hxy].
  - destruct (IH Hb) as (a & Ha & Hr). exists a. split; [right|]; auto.
Qed.

Lemma sublist_In {A} (l k : list A) a : sublist l k -> In a l -> In a k.
Proof.
  intros Hs Ha. apply list_elem_of_In.
  eapply elem_of_sublist; [|exact Hs]. apply list_elem_of_In. exact Ha.
Qed.

Lemma length_firstn_le {A} n (l : list A) : (length (firstn n l) <= n)%nat.
Proof. rewrite length_firstn. lia. Qed.

(** X19: what a run stores. A run that returns has collected the logs
    of the enabled addresses over its block range and has added rows to
    the trades table at its end, keeping the rows that were there: each
    added row stores one of the collected logs, with the decoded fields,
    the id of a market row of the store, the outcome YES or NO and the
    timestamp of the log's block; [inserted_trades] is the number of added
    rows, at most the number of collected logs; the summary repeats the
    block range and shows at most five sample trades. *)
Theorem X19_run_stores_decoded_logs (env : Env) (settings : Settings)
    (from_block to_block : Z) (exchange_address neg_risk_exchange : string)
    (include_exchange include_neg_risk : bool) (event_slug : option string)
    (w w' : World) (s : Summary) :
  run_indexer env settings from_block to_block exchange_address
    neg_risk_exchange include_exchange include_neg_risk event_slug w
  = (Ok s, w') ->
  exists addrs logs new,
    enabled_addresses env exchange_address neg_risk_exchange
      include_exchange include_neg_risk = Ok addrs
    /\ addrs <> []
    /\ _collect_logs env addrs from_block to_block
         (Z.max 1 (log_chunk_size settings)) = Ok logs
    /\ trades (conn w') = trades (conn w) ++ new
    /\ Forall (fun r =>
                 exists log,
                   In log logs
                   /\ Spec.stored_from env (map m_id (markets (conn w')))
                        log r) new
    /\ r_inserted_trades s = Z.of_nat (length new)
    /\ (length new <= length logs)%nat
    /\ r_from_block s = from_block /\ r_to_block s = to_block
    /\ (length (r_sample_trades s) <= 5)%nat.
Proof.
  unfold run_indexer, bindM, log_effect.
  set (w0 := {| conn := conn w; gamma_calls := gamma_calls w;
                clock_reads := clock_reads w;
                journal := journal w ++ [DiscoverCalled AtStart event_slug] |}).
  assert (trades (conn w0) = trades (conn w)) as T0 by reflexivity.
  clearbody w0.
  pose proof (keeps_quiet_discover_markets env event_slug w0) as (Q1 & _ & _).
  destruct (discover_markets env event_slug w0) as [[disc|e] w1];
    cbn [fst snd] in *; [|discriminate].
  unfold lift at 1.
  destruct (enabled_addresses env exchange_address neg_risk_exchange
              include_exchange include_neg_risk) as [addrs|e] eqn:Ha;
    [|discriminate].
  destruct addrs as [|a0 addrs]; [discriminate|].
  unfold lift at 1.
  destruct (_collect_logs env (a0 :: addrs) from_block to_block
              (Z.max 1 (log_chunk_size settings))) as [logs|e] eqn:Hl;
    [|discriminate].
  fold Spec.fresh_loop.
  pose proof (process_logs_spec env event_slug logs Spec.fresh_loop w1)
    as (L1 & _ & _ & (suf & _ & _ & _ & LR)).
  cbn zeta in *.
  destruct (process_logs env event_slug Spec.fresh_loop logs w1)
    as [[st|e] w2] eqn:Hp; cbn [fst snd] in *; [|discriminate].
  destruct LR as (_ & Llen). cbn [Spec.fresh_loop to_insert length] in Llen.
  assert (Spec.cache_ok env (timestamp_cache Spec.fresh_loop)) as Hc.
  { intros b ts Hlk. cbn in Hlk. rewrite lookup_empty in Hlk. discriminate. }
  destruct (process_logs_queue _ _ _ _ _ _ _ Hp Hc)
    as (_ & _ & picked & queue & Hs & Hn & Hf).
  cbn [Spec.fresh_loop to_insert app] in Hn. subst queue.
  unfold read_clock at 1. unfold on_conn at 1.
  cbn [conn gamma_calls clock_reads journal].
  match goal with
  | |- context [insert_trades ?now ?c ?ts] =>
      destruct (insert_trades now c ts) as [[n c3]|e] eqn:Hi;
        [|discriminate]
  end.
  destruct (insert_trades_rows _ _ _ _ _ Hi)
    as (Hm3 & new & Ht3 & Hn3 & Hlen3 & Hrows).
  unfold read_clock at 1. unfold on_conn at 1.
  cbn [conn gamma_calls clock_reads journal].
  match goal with
  | |- context [update_sync_state ?now ?c ?k ?b] =>
      destruct (update_sync_state now c k b) as [c4|e] eqn:Hu;
        cbn [bind ret]; [|discriminate]
  end.
  intros [= <- <-]. cbn [conn r_inserted_trades r_from_block r_to_block
                           r_sample_trades].
  assert (trades c4 = trades c3 /\ markets c4 = markets c3) as [Ht4 Hm4].
  { unfold update_sync_state in Hu.
    destruct (bind_int to_block); cbn [bind] in Hu; [|discriminate].
    injection Hu as <-. split; reflexivity. }
  exists (a0 :: addrs), logs, new.
  split; [reflexivity|]. split; [discriminate|]. split; [exact Hl|].
  split; [rewrite Ht4, Ht3, L1, Q1, T0; reflexivity|].
  split.
  { apply List.Forall_forall. intros r Hr.
    destruct (Hrows r Hr) as (t & p & mid & tx & li & Hin & Hp' & H1 & H2
                              & H3 & Hr').
    destruct (Forall2_In_r _ _ _ _ Hf Hin) as (log & Hlog & Hq).
    exists log. split; [exact (sublist_In _ _ _ Hs Hlog)|].
    rewrite Hr', Hm4, Hm3.
    eapply queued_row; eassumption. }
  split; [exact Hn3|]. split; [lia|].
  split; [reflexivity|]. split; [reflexivity|].
  rewrite length_map. apply length_firstn_le.
Qed.

Lemma X19_run_stores_decoded_logs_witness :
  exists s w' r,
    run_indexer
      (Fixtures.env_with 500 [Fixtures.buy_log] [Some Fixtures.market_555])
      Fixtures.settings 90 110 "0xE" "" true true (Some "rain")
      Fixtures.world0 = (Ok s, w')
    /\ trades (conn w') = [r]
    /\ Spec.stored_from
         (Fixtures.env_with 500 [Fixtures.buy_log] [Some Fixtures.market_555])
         (map m_id (markets (conn w'))) Fixtures.buy_log r.
Proof.
  destruct (run_indexer
              (Fixtures.env_with 500 [Fixtures.buy_log]
                 [Some Fixtures.market_555])
              Fixtures.settings 90 110 "0xE" "" true true (Some "rain")
              Fixtures.world0) as [[s|e] w'] eqn:E;
    [|vm_compute in E; discriminate E].
  destruct (X19_run_stores_decoded_logs _ _ _ _ _ _ _ _ _ _ _ _ E)
    as (addrs & logs & new & Ha & _ & Hl & Ht & Hf & Hn & _).
  assert (addrs = ["0xE"]) as -> by (vm_compute in Ha; congruence).
  assert (logs = [Fixtures.buy_log]) as ->.
  { change (Ok [Fixtures.buy_log] = Ok logs) in Hl. injection Hl as <-.
    reflexivity. }
  assert (r_inserted_trades s = 1) as Hone
    by (vm_compute in E; injection E as <- _; reflexivity).
  rewrite Hone in Hn. destruct new as [|r [|r' new]]; cbn in Hn; try lia.
  exists s, w', r. split; [reflexivity|]. split; [exact Ht|].
  apply Forall_cons in Hf as [(log & [<-|[]] & Hr) _]. exact Hr.
Defined.

(** ** Discovery *)

Lemma upsert_event_fetch now c p id c' :
  upsert_event now c p = Ok (id, c') ->
  exists slug r,
    ep_slug p = Some slug
    /\ fetch_event_by_slug c' slug = Some r /\ e_id r = id.
Proof.
  unfold upsert_event, fetch_event_by_slug.
  destruct (ep_slug p) as [slug|]; [|discriminate].
  destruct (find _ (events c)) as [old|] eqn:Ef.
  - destruct (event_id_taken _ _ _); [discriminate|]. intros [= <- <-].
    cbn [events]. exists slug, (update_event now p old).
    split; [reflexivity|]. split; [|reflexivity].
    pose proof (find_some _ _ Ef) as [_ Hs].
    rewrite find_map_same.
    + rewrite Ef. cbn. cbv beta in Hs. rewrite Hs. reflexivity.
    + intros a. destruct (bool_decide (e_slug a = slug)) eqn:E;
        cbn [update_event e_slug]; exact E.
  - destruct (event_id_taken _ _ _); [discriminate|]. intros [= <- <-].
    cbn [events]. eexists slug, _. split; [reflexivity|].
    rewrite find_snoc, Ef. cbn [new_event e_slug].
    rewrite bool_decide_eq_true_2 by reflexivity.
    split; reflexivity.
Qed.

(** The markets that belong to the event row [eid], by id. *)
Lemma upsert_market_of_event now c p eid id c' :
  upsert_market now c (with_event_id p eid) = Ok (id, c') ->
  events c' = events c
  /\ (exists m, In m (markets c') /\ m_id m = id /\ m_event_id m = Some eid)
  /\ (forall m, In m (markets c) -> m_event_id m = Some eid ->
        exists m', In m' (markets c') /\ m_id m' = m_id m
                   /\ m_event_id m' = Some eid).
Proof.
  unfold upsert_market. cbn [with_event_id mp_yes_token_id mp_no_token_id
                              mp_event_id mp_slug].
  destruct (normalize_token_id (mp_yes_token_id p)) as [yes|]; cbn [bind];
    [|discriminate].
  destruct (normalize_token_id (mp_no_token_id p)) as [no|]; cbn [bind];
    [|discriminate].
  destruct (bind_opt_int (Some eid)) as [e|] eqn:Eb; cbn [bind];
    [|discriminate].
  apply bind_opt_int_Ok in Eb. subst e.
  destruct (mp_slug p) as [slug|]; [|discriminate].
  destruct (find _ (markets c)) as [old|] eqn:Hf; intros [= <- <-];
    cbn [markets events]; (split; [reflexivity|]).
  - pose proof (find_some _ _ Hf) as [Hin Hs]. cbv beta in Hs. split.
    + eexists. split.
      * apply in_map_iff. exists old. split; [reflexivity|exact Hin].
      * rewrite Hs. split; reflexivity.
    + intros m Hm He. eexists. split.
      * apply in_map_iff. exists m. split; [reflexivity|exact Hm].
      * destruct (bool_decide (m_slug m = slug)); auto.
  - split.
    + eexists. split; [apply in_app_iff; right; left; reflexivity|].
      split; reflexivity.
    + intros m Hm He. exists m. split; [apply in_app_iff; auto|auto].
Qed.

Lemma upsert_markets_of_event env eid ms : forall ids w ids' w',
  upsert_markets env eid ms ids w = (Ok ids', w') ->
  Forall (fun id => exists m, In m (markets (conn w)) /\ m_id m = id
                              /\ m_event_id m = Some eid) ids ->
  events (conn w') = events (conn w)
  /\ Forall (fun id => exists m, In m (markets (conn w')) /\ m_id m = id
                                 /\ m_event_id m = Some eid) ids'
  /\ length ids' = (length ids + length (omap id ms))%nat.
Proof.
  induction ms as [|[p|] ms IH]; intros ids w ids' w'; cbn [upsert_markets].
  - intros [= <- <-] H. split; [reflexivity|]. split; [exact H|].
    cbn. lia.
  - unfold bindM, read_clock, on_conn at 1.
    cbn [conn gamma_calls clock_reads journal].
    destruct (upsert_market _ (conn w) (with_event_id p eid))
      as [[mid c1]|] eqn:Eu; [|discriminate].
    intros E H.
    destruct (upsert_market_of_event _ _ _ _ _ _ Eu) as (He & Hnew & Hold).
    apply IH in E.
    + cbn [conn] in E. destruct E as (E1 & E2 & E3).
      split; [congruence|]. split; [exact E2|].
      rewrite E3, length_app. cbn. lia.
    + cbn [conn]. apply Forall_app. split.
      * apply List.Forall_forall. intros i Hi.
        destruct (proj1 (List.Forall_forall _ _) H i Hi)
          as (m & Hm & <- & Hme).
        exact (Hold m Hm Hme).
      * constructor; [exact Hnew|constructor].
  - intros E H. destruct (IH _ _ _ _ E H) as (E1 & E2 & E3).
    split; [exact E1|]. split; [exact E2|]. rewrite E3. reflexivity.
Qed.

(** X20: what [discover_markets] leaves behind. Without a slug ([None]
    or the empty text) it asks nothing, changes nothing and returns an
    empty result. With a slug, a discovery that returns has asked the
    metadata service once for that slug; the event it returns is in the
    store under the returned slug with the returned id, and every returned
    market id is the id of a market row that points at this event row, one
    id for each market payload that was not discarded. *)
Theorem X20_discover_markets_result (env : Env)
    (event_slug : option string) (w w' : World) (d : Discovery) :
  discover_markets env event_slug w = (Ok d, w') ->
  if truthy event_slug then
    exists slug ev ms eid row,
      event_slug = Some slug
      /\ gamma_event_with_markets env (gamma_calls w) slug = Ok (ev, ms)
      /\ d_event_slug d
         = Some (if truthy (ep_slug ev) then default slug (ep_slug ev)
                 else slug)
      /\ d_event_id d = Some eid
      /\ fetch_event_by_slug (conn w') (default slug (d_event_slug d))
         = Some row
      /\ e_id row = eid
      /\ Forall (fun id => exists m, In m (markets (conn w')) /\ m_id m = id
                                     /\ m_event_id m = Some eid)
           (d_markets d)
      /\ length (d_markets d) = length (omap id ms)
  else
    w' = w
    /\ d = {| d_event_slug := None; d_event_id := None; d_markets := [] |}.
Proof.
  unfold discover_markets.
  destruct event_slug as [[|ch s]|]; cbn [truthy].
  1,3: intros [= <- <-]; split; reflexivity.
  set (slug := String ch s).
  unfold bindM, call_gamma at 1.
  destruct (gamma_event_with_markets env (gamma_calls w) slug)
    as [[ev ms]|] eqn:Eg; [|discriminate].
  unfold read_clock at 1, on_conn at 1.
  cbn [conn gamma_calls clock_reads journal].
  set (payload := if truthy (ep_slug ev) then ev else with_slug ev slug).
  destruct (upsert_event _ (conn w) payload) as [[eid c1]|] eqn:Eu;
    [|discriminate].
  match goal with
  | |- context [upsert_markets env eid ms [] ?w1] =>
      destruct (upsert_markets env eid ms [] w1) as [[ids|] w2] eqn:Em;
        [|discriminate]
  end.
  intros [= <- <-]. cbn [d_event_slug d_event_id d_markets].
  destruct (upsert_markets_of_event _ _ _ _ _ _ _ Em (List.Forall_nil _))
    as (He & Hids & Hlen).
  cbn [conn] in He.
  destruct (upsert_event_fetch _ _ _ _ _ Eu) as (sl & row & Hsl & Hrow & Hid).
  exists slug, ev, ms, eid, row.
  split; [reflexivity|]. split; [exact Eg|].
  assert (ep_slug payload
          = Some (if truthy (ep_slug ev) then default slug (ep_slug ev)
                  else slug)) as Hps.
  { unfold payload. destruct (truthy (ep_slug ev)) eqn:Et; [|reflexivity].
    destruct (ep_slug ev); [reflexivity|discriminate]. }
  split; [exact Hps|]. split; [reflexivity|].
  split.
  { rewrite Hsl. cbn [default]. unfold fetch_event_by_slug in *.
    rewrite He. exact Hrow. }
  split; [exact Hid|]. split; [exact Hids|exact Hlen].
Qed.

Lemma X20_discover_markets_result_witness :
  exists d w' row,
    discover_markets
      (Fixtures.env_with 500 [] [Some Fixtures.market_555; None])
      (Some "rain") Fixtures.world0 = (Ok d, w')
    /\ fetch_event_by_slug (conn w') "rain" = Some row
    /\ d_event_id d = Some (e_id row)
    /\ length (d_markets d) = 1%nat.
Proof.
  destruct (discover_markets
              (Fixtures.env_with 500 [] [Some Fixtures.market_555; None])
              (Some "rain") Fixtures.world0) as [[d|e] w'] eqn:E;
    [|vm_compute in E; discriminate E].
  pose proof (X20_discover_markets_result _ _ _ _ _ E) as H.
  cbn [truthy] in H.
  destruct H as (slug & ev & ms & eid & row & Hs & Hg & Hd & He & Hf & Hi
                 & _ & Hl).
  injection Hs as <-.
  unfold Fixtures.env_with in Hg. cbn [gamma_event_with_markets] in Hg.
  injection Hg as <- <-.
  assert (d_event_slug d = Some "rain") as Hd' by (rewrite Hd; reflexivity).
  rewrite Hd' in Hf. cbn [default] in Hf.
  exists d, w', row. split; [reflexivity|]. split; [exact Hf|].
  split; [rewrite He, Hi; reflexivity|exact Hl].
Defined.

(** ** The cursor of a run *)

(** A batch that was inserted is in the table: every trade with a
    market id and a key has a row under that key, inserted now or stored
    before. *)
Lemma insert_trades_covers now c batch n c' :
  insert_trades now c batch = Ok (n, c') ->
  forall t mid tx li,
    In t batch -> td_market_id t = Some mid -> td_tx_hash t = Some tx ->
    td_log_index t = Some li ->
    exists r, In r (trades c') /\ Spec.trade_key r = (tx, li).
Proof.
  unfold insert_trades. destruct batch as [|t0 ts].
  { intros _ t mid tx li []. }
  set (batch := t0 :: ts).
  destruct (all_params batch) as [ps|] eqn:Ep; cbn [bind]; [|discriminate].
  destruct (executemany now (trades c) ps) as [[rows k]|] eqn:Ex;
    cbn [bind]; [|discriminate].
  intros [= <- <-]. cbn [trades].
  pose proof (all_params_Forall2 _ _ Ep) as Hf.
  destruct (executemany_spec _ _ _ _ _ Ex) as (new & _ & _ & _ & Hign & _).
  intros t mid tx li Ht Hm Htx Hli.
  apply list_elem_of_In in Ht.
  apply list_elem_of_lookup in Ht as (i & Hi).
  destruct (Forall2_lookup_l _ _ _ _ _ Hf Hi) as (p & Hp & Htp).
  pose proof (proj1 (Forall_lookup _ _) Hign i p Hp) as Hig.
  cbv beta in Hig. params_of Htp. unfold Spec.ignored_on in Hig.
  cbn [tp_market_id tp_tx_hash tp_log_index] in Hig.
  rewrite Hm, Htx, Hli in Hig. apply same_key_In in Hig.
  apply in_map_iff in Hig as (r & Hk & Hr). eauto.
Qed.

(** The trades the loop of a run queues are in the table once the
    batch is inserted. *)
Lemma queue_persisted env slug logs w st w2 now n c3 :
  process_logs env slug Spec.fresh_loop logs w = (Ok st, w2) ->
  insert_trades now (conn w2) (to_insert st) = Ok (n, c3) ->
  Spec.persisted (to_insert st) (trades c3).
Proof.
  intros Hp Hi t Ht.
  assert (Spec.cache_ok env (timestamp_cache Spec.fresh_loop)) as Hc.
  { intros b ts Hlk. cbn in Hlk. rewrite lookup_empty in Hlk. discriminate. }
  destruct (process_logs_queue _ _ _ _ _ _ _ Hp Hc)
    as (_ & _ & picked & queue & _ & Hn & Hf).
  cbn [Spec.fresh_loop to_insert app] in Hn. subst queue.
  destruct (Forall2_In_r _ _ _ _ Hf Ht)
    as (log & _ & d & mid & o & tsec & _ & _ & _ & _ & Et).
  destruct (insert_trades_covers _ _ _ _ _ Hi t mid (tx_hash d) (log_index d)
              Ht) as (r & Hr & Hk); try (rewrite Et; reflexivity).
  exists r. split; [exact Hr|].
  unfold Spec.trade_key in Hk. injection Hk as -> ->.
  rewrite Et. split; reflexivity.
Qed.

(** A block number that fits 64 bits is written. *)
Lemma update_sync_state_fits now c key b :
  - 2 ^ 63 <= b <= 2 ^ 63 - 1 ->
  exists c', update_sync_state now c key b = Ok c'.
Proof.
  intros Hb. unfold update_sync_state, bind_int, between.
  rewrite (proj2 (Z.leb_le _ _) (proj1 Hb)), (proj2 (Z.leb_le _ _) (proj2 Hb)).
  cbn [andb bind]. eauto.
Qed.

(** C9: the cursor of an indexing run. A run that completes has gone
    through these steps in this order: the enabled addresses, the logs of
    the block range, the loop over the logs, which leaves the [trades]
    table and the cursors as they were and journals neither an insert nor
    a cursor write; then the batch insert of every trade the loop queued,
    after which each queued trade has a row of [trades] under its key and
    the cursors are still as they were; and then one write of the cursor,
    of [to_block] under ["trade_sync"], on the store the insert left, which
    keeps the rows. The journal of the run ends with the insert followed
    by that one cursor write, and the summary reports the inserted count.
    A run that raises, at whatever step, has written no cursor: the
    cursors are as they were. And the run does complete when discovery,
    the address list, the collection of logs, the loop and the insert
    return and [to_block] fits the 64 bits of the column. *)
Theorem C9_cursor_written_once_after_insert
    (env : Env) (settings : Settings) (from_block to_block : Z)
    (exchange_address neg_risk_exchange : string)
    (include_exchange include_neg_risk : bool)
    (event_slug : option string) (w : World) :
  let run := run_indexer env settings from_block to_block exchange_address
               neg_risk_exchange include_exchange include_neg_risk
               event_slug w in
  let start :=
    discover_markets env event_slug
      (log_effect (DiscoverCalled AtStart event_slug) w).2 in
  let addresses :=
    enabled_addresses env exchange_address neg_risk_exchange
      include_exchange include_neg_risk in
  let chunk := Z.max 1 (log_chunk_size settings) in
  (forall s, run.1 = Ok s ->
     exists addrs logs st w2 n c3 pre,
       addresses = Ok addrs
       /\ _collect_logs env addrs from_block to_block chunk = Ok logs
       /\ process_logs env event_slug Spec.fresh_loop logs start.2
          = (Ok st, w2)
       /\ trades (conn w2) = trades (conn w)
       /\ sync_state (conn w2) = sync_state (conn w)
       /\ journal w2 = journal w ++ pre
       /\ Spec.count Spec.is_cursor_write pre = 0%nat
       /\ Spec.count Spec.is_trades_insert pre = 0%nat
       /\ insert_trades (utc_now env (clock_reads w2)) (conn w2)
            (to_insert st) = Ok (n, c3)
       /\ Spec.persisted (to_insert st) (trades c3)
       /\ sync_state c3 = sync_state (conn w)
       /\ update_sync_state (utc_now env (S (clock_reads w2))) c3
            "trade_sync" to_block = Ok (conn run.2)
       /\ trades (conn run.2) = trades c3
       /\ get_sync_state (conn run.2) "trade_sync" = Some to_block
       /\ journal run.2
          = journal w2 ++ [TradesInserted (length (to_insert st)) n;
                           CursorWritten "trade_sync" to_block]
       /\ r_inserted_trades s = n)
  /\ (forall e, run.1 = Raise e ->
        sync_state (conn run.2) = sync_state (conn w)
        /\ exists suf,
             journal run.2 = journal w ++ suf
             /\ Spec.count Spec.is_cursor_write suf = 0%nat)
  /\ (forall addrs logs st w2 n c3,
        is_ok start.1 = true ->
        addresses = Ok addrs -> addrs <> [] ->
        _collect_logs env addrs from_block to_block chunk = Ok logs ->
        process_logs env event_slug Spec.fresh_loop logs start.2
        = (Ok st, w2) ->
        insert_trades (utc_now env (clock_reads w2)) (conn w2)
          (to_insert st) = Ok (n, c3) ->
        - 2 ^ 63 <= to_block <= 2 ^ 63 - 1 ->
        exists s, run.1 = Ok s /\ r_inserted_trades s = n).
Proof.
  cbv zeta.
  destruct (run_indexer env settings from_block to_block exchange_address
              neg_risk_exchange include_exchange include_neg_risk
              event_slug w) as [r w'] eqn:Hrun.
  cbn [fst snd]. revert Hrun.
  unfold run_indexer, bindM, log_effect. cbn [snd].
  set (w0 := {| conn := conn w; gamma_calls := gamma_calls w;
                clock_reads := clock_reads w;
                journal := journal w ++ [DiscoverCalled AtStart event_slug] |}).
  assert (journal w0 = journal w ++ [DiscoverCalled AtStart event_slug]) as J0
    by reflexivity.
  assert (trades (conn w0) = trades (conn w)) as T0 by reflexivity.
  assert (sync_state (conn w0) = sync_state (conn w)) as S0 by reflexivity.
  clearbody w0.
  pose proof (keeps_quiet_discover_markets env event_slug w0) as (Q1 & Q2 & Q3).
  destruct (discover_markets env event_slug w0) as [[disc|e] w1];
    cbn [fst snd] in *.
  2:{ intros [= <- <-]. split; [intros s [=]|]. split.
      - intros e0 _. split; [congruence|].
        exists [DiscoverCalled AtStart event_slug].
        split; [congruence|reflexivity].
      - intros ? ? ? ? ? ? [=]. }
  assert (journal w1 = journal w ++ [DiscoverCalled AtStart event_slug]) as J1
    by congruence.
  assert (trades (conn w1) = trades (conn w)) as T1 by congruence.
  assert (sync_state (conn w1) = sync_state (conn w)) as S1 by congruence.
  clear Q1 Q2 Q3 J0 T0 S0.
  unfold lift at 1.
  destruct (enabled_addresses env exchange_address neg_risk_exchange
              include_exchange include_neg_risk) as [addrs|e] eqn:Ha.
  2:{ intros [= <- <-]. split; [intros s [=]|]. split.
      - intros e0 _. split; [exact S1|].
        exists [DiscoverCalled AtStart event_slug].
        split; [exact J1|reflexivity].
      - intros ? ? ? ? ? ? _ [=]. }
  destruct addrs as [|a0 addrs].
  { cbn [lift]. intros [= <- <-]. split; [intros s [=]|]. split.
    - intros e0 _. split; [exact S1|].
      exists [DiscoverCalled AtStart event_slug].
      split; [exact J1|reflexivity].
    - intros ? ? ? ? ? ? _ [= <-] Hne. congruence. }
  unfold lift at 1.
  destruct (_collect_logs env (a0 :: addrs) from_block to_block
              (Z.max 1 (log_chunk_size settings))) as [logs|e] eqn:Hl.
  2:{ intros [= <- <-]. split; [intros s [=]|]. split.
      - intros e0 _. split; [exact S1|].
        exists [DiscoverCalled AtStart event_slug].
        split; [exact J1|reflexivity].
      - intros ? ? ? ? ? ? _ [= <-]. rewrite Hl. intros _ [=]. }
  fold Spec.fresh_loop.
  pose proof (process_logs_spec env event_slug logs Spec.fresh_loop w1)
    as (L1 & L2 & _ & (suf & LJ & LM & _ & _)).
  cbn zeta in *.
  destruct (count_miss_only suf LM) as (_ & C2 & C3).
  destruct (process_logs env event_slug Spec.fresh_loop logs w1)
    as [[st|e] w2] eqn:Hp; cbn [fst snd] in *.
  2:{ intros [= <- <-]. split; [intros s [=]|]. split.
      - intros e0 _. split; [congruence|].
        exists ([DiscoverCalled AtStart event_slug] ++ suf).
        split; [rewrite LJ, J1, <- app_assoc; reflexivity|].
        rewrite count_app, C2. reflexivity.
      - intros ? ? ? ? ? ? _ [= <-]. rewrite Hl. intros _ [= <-].
        rewrite Hp. intros [=]. }
  assert (journal w2
          = journal w ++ ([DiscoverCalled AtStart event_slug] ++ suf)) as J2
    by (rewrite LJ, J1, <- app_assoc; reflexivity).
  assert (Spec.count Spec.is_cursor_write
            ([DiscoverCalled AtStart event_slug] ++ suf) = 0%nat) as K2
    by (rewrite count_app, C2; reflexivity).
  assert (Spec.count Spec.is_trades_insert
            ([DiscoverCalled AtStart event_slug] ++ suf) = 0%nat) as K3
    by (rewrite count_app, C3; reflexivity).
  assert (trades (conn w2) = trades (conn w)) as T2 by congruence.
  assert (sync_state (conn w2) = sync_state (conn w)) as S2 by congruence.
  unfold read_clock at 1. unfold on_conn at 1.
  cbn [conn gamma_calls clock_reads journal].
  destruct (insert_trades (utc_now env (clock_reads w2)) (conn w2)
              (to_insert st)) as [[n c3]|e] eqn:Hi.
  2:{ intros [= <- <-]. cbn [conn journal]. split; [intros s [=]|]. split.
      - intros e0 _. split; [exact S2|]. eexists. split; [exact J2|exact K2].
      - intros ? ? ? ? ? ? _ [= <-]. rewrite Hl. intros _ [= <-].
        rewrite Hp. intros [= <- <-]. rewrite Hi. intros [=]. }
  pose proof (insert_trades_frame _ _ _ _ _ Hi) as S3.
  pose proof (queue_persisted _ _ _ _ _ _ _ _ _ Hp Hi) as P3.
  unfold read_clock at 1. unfold on_conn at 1.
  cbn [conn gamma_calls clock_reads journal].
  destruct (update_sync_state (utc_now env (S (clock_reads w2))) c3
              "trade_sync" to_block) as [c4|e] eqn:Hu;
    cbn [bind ret]; intros [= <- <-]; cbn [conn journal].
  2:{ split; [intros s [=]|]. split.
      - intros e0 _. split; [congruence|].
        eexists. split; [rewrite J2, <- app_assoc; reflexivity|].
        rewrite !count_app, C2. reflexivity.
      - intros ? ? ? ? ? ? _ _ _ _ _ _ Hb.
        destruct (update_sync_state_fits (utc_now env (S (clock_reads w2)))
                    c3 "trade_sync" to_block Hb) as (c' & Hc').
        congruence. }
  pose proof (update_sync_state_spec _ _ _ _ _ Hu) as (G4 & T4).
  split; [|split].
  - intros s [= <-]. cbn [r_inserted_trades].
    exists (a0 :: addrs), logs, st, w2, n, c3,
      ([DiscoverCalled AtStart event_slug] ++ suf).
    repeat (split; [first [reflexivity|assumption|congruence]|]).
    split; [rewrite <- app_assoc; reflexivity|reflexivity].
  - intros e0 [=].
  - intros ? ? ? ? ? ? _ [= <-]. rewrite Hl. intros _ [= <-].
    rewrite Hp. intros [= <- <-]. rewrite Hi. intros [= <- <-] _.
    eexists. split; reflexivity.
Qed.

Lemma C9_cursor_written_once_after_insert_witness :
  let run :=
    run_indexer
      (Fixtures.env_with 500 [Fixtures.buy_log] [Some Fixtures.market_555])
      Fixtures.settings 90 110 "0xE" "" true true (Some "rain")
      Fixtures.world0 in
  exists s,
    run.1 = Ok s
    /\ r_inserted_trades s = 1
    /\ get_sync_state (conn run.2) "trade_sync" = Some 110
    /\ exists r,
         In r (trades (conn run.2))
         /\ t_tx_hash r = hash_value (transactionHash Fixtures.buy_log).
Proof.
  intros run.
  set (env := Fixtures.env_with 500 [Fixtures.buy_log]
                [Some Fixtures.market_555]) in *.
  pose proof (C9_cursor_written_once_after_insert env Fixtures.settings
                90 110 "0xE" "" true true (Some "rain") Fixtures.world0) as H.
  cbv zeta in H. fold run in H. destruct H as (Hdone & _ & Hruns).
  set (w1 := (discover_markets env (Some "rain")
                (log_effect (DiscoverCalled AtStart (Some "rain"))
                   Fixtures.world0).2).2) in *.
  set (p := process_logs env (Some "rain") Spec.fresh_loop
              [Fixtures.buy_log] w1).
  set (st := match p.1 with Ok st => st | Raise _ => Spec.fresh_loop end).
  set (i := insert_trades (utc_now env (clock_reads p.2)) (conn p.2)
              (to_insert st)).
  set (n := match i with Ok (n, _) => n | Raise _ => 0 end).
  set (c3 := match i with Ok (_, c) => c | Raise _ => conn p.2 end).
  destruct (Hruns ["0xE"] [Fixtures.buy_log] st p.2 n c3) as (s & Hs & Hn).
  - vm_compute. reflexivity.
  - vm_compute. reflexivity.
  - discriminate.
  - vm_compute. reflexivity.
  - vm_compute. reflexivity.
  - vm_compute. reflexivity.
  - lia.
  - exists s. split; [exact Hs|]. split; [rewrite Hn; vm_compute; reflexivity|].
    destruct (Hdone s Hs)
      as (addrs & logs & st' & w2 & n' & c3' & pre & Ha & Hl & Hp & _ & _ & _
          & _ & _ & _ & Hpers & _ & _ & Ht & Hg & _).
    split; [exact Hg|].
    assert (addrs = ["0xE"]) as -> by (vm_compute in Ha; congruence).
    change (Ok [Fixtures.buy_log] = Ok logs) in Hl. injection Hl as <-.
    fold p in Hp.
    assert (st' = st) as -> by (unfold st; rewrite Hp; reflexivity).
    assert (exists t, In t (to_insert st)
                      /\ td_tx_hash t
                         = Some (hash_value
                                   (transactionHash Fixtures.buy_log)))
      as (t & Hin & Htx).
    { vm_compute. eexists. split; [left; reflexivity|reflexivity]. }
    destruct (Hpers t Hin) as (r & Hr & Hk & _).
    exists r. split; [rewrite Ht; exact Hr|]. congruence.
Defined.

(** ** A run with no exchange *)

(** X21: a run with no exchange enabled. When each exchange is switched
    off or has an empty address, [run_indexer] raises, and it does so
    after the start-up discovery: the world it leaves is the one
    discovery leaves, events and markets included; it raises the
    ValueError about the addresses when discovery returns and the error
    of discovery otherwise. No trade is stored and the cursor is not
    written. *)
Theorem X21_run_without_exchange (env : Env) (settings : Settings)
    (from_block to_block : Z) (exchange_address neg_risk_exchange : string)
    (include_exchange include_neg_risk : bool) (event_slug : option string)
    (w : World) :
  include_exchange && truthy (Some exchange_address) = false ->
  include_neg_risk && truthy (Some neg_risk_exchange) = false ->
  let started := (log_effect (DiscoverCalled AtStart event_slug) w).2 in
  let discovered := discover_markets env event_slug started in
  let r := run_indexer env settings from_block to_block exchange_address
             neg_risk_exchange include_exchange include_neg_risk
             event_slug w in
  r.2 = discovered.2
  /\ r.1 = match discovered.1 with
           | Ok _ =>
               Raise (ValueError
                        "At least one exchange address must be enabled")
           | Raise e => Raise e
           end
  /\ trades (conn r.2) = trades (conn w)
  /\ sync_state (conn r.2) = sync_state (conn w)
  /\ journal r.2 = journal w ++ [DiscoverCalled AtStart event_slug].
Proof.
  intros H1 H2 started discovered r.
  assert (enabled_addresses env exchange_address neg_risk_exchange
            include_exchange include_neg_risk = Ok []) as Ha.
  { unfold enabled_addresses. rewrite H1, H2. reflexivity. }
  pose proof (keeps_quiet_discover_markets env event_slug started)
    as (Q1 & Q2 & Q3).
  fold discovered in Q1, Q2, Q3.
  assert (r = (match discovered.1 with
               | Ok _ =>
                   Raise (ValueError
                            "At least one exchange address must be enabled")
               | Raise e => Raise e
               end, discovered.2)) as Hr.
  { unfold r, discovered, started, run_indexer, bindM, log_effect.
    cbn [fst snd].
    destruct (discover_markets env event_slug _) as [[d|e] w1];
      cbn [fst snd]; [|reflexivity].
    unfold lift at 1. rewrite Ha. reflexivity. }
  rewrite Hr. cbn [fst snd].
  split; [reflexivity|]. split; [reflexivity|].
  split; [exact Q1|]. split; [exact Q2|]. exact Q3.
Qed.

Lemma X21_run_without_exchange_witness :
  let r := run_indexer
             (Fixtures.env_with 500 [Fixtures.buy_log]
                [Some Fixtures.market_555])
             Fixtures.settings 90 110 "" "0xN" true false (Some "rain")
             Fixtures.world0 in
  r.1 = Raise (ValueError "At least one exchange address must be enabled")
  /\ length (markets (conn r.2)) = 1%nat
  /\ trades (conn r.2) = [].
Proof.
  intros r.
  destruct (X21_run_without_exchange
              (Fixtures.env_with 500 [Fixtures.buy_log]
                 [Some Fixtures.market_555])
              Fixtures.settings 90 110 "" "0xN" true false (Some "rain")
              Fixtures.world0 eq_refl eq_refl)
    as (Hw & Hr & Ht & _).
  fold r in Hw, Hr, Ht.
  split; [rewrite Hr; vm_compute; reflexivity|].
  split; [rewrite Hw; vm_compute; reflexivity|exact Ht].
Defined.

(** ** The retries of [_get_json] *)

(** The loop from attempt [a] on, when the request of attempt [a + j]
    is the first that succeeds. *)
Lemma attempts_success net n url params v : forall (j m a : nat) errs last st,
  (j < m)%nat -> Z.of_nat (a + m) = n ->
  (forall i, Z.of_nat a <= i < n -> Gamma.sleep net i = None) ->
  (forall i, (i < j)%nat ->
     Gamma.http net (Gamma.requests st + i) url params
     = Gamma.Raised (errs i)) ->
  Gamma.http net (Gamma.requests st + j) url params = Gamma.Returned v ->
  Gamma.attempts net n url params (map Z.of_nat (seq a m)) last st
  = (Gamma.Returned v,
     {| Gamma.requests := Gamma.requests st + j + 1;
        Gamma.actions := Gamma.actions st ++ Spec.backoff url params a j
                           ++ [Gamma.Requested url params] |}).
Proof.
  induction j as [|j IH]; intros m a errs last st Hj Hn Hs He Hv.
  - destruct m as [|m]; [lia|]. cbn [seq map Gamma.attempts].
    rewrite Nat.add_0_r in Hv. rewrite Hv.
    rewrite Nat.add_0_r. cbn [Spec.backoff seq flat_map app].
    rewrite Nat.add_1_r. reflexivity.
  - destruct m as [|m]; [lia|]. cbn [seq map Gamma.attempts].
    pose proof (He 0%nat ltac:(lia)) as H0. rewrite Nat.add_0_r in H0.
    rewrite H0.
    destruct (Z.eqb_spec (Z.of_nat a + 1) n) as [Heq|_]; [lia|].
    rewrite (Hs (Z.of_nat a)) by lia.
    rewrite (IH m (S a) (fun i => errs (S i)) _ _).
    + cbn [Gamma.requests Gamma.actions]. f_equal. f_equal; [lia|].
      unfold Spec.backoff. cbn [seq flat_map].
      rewrite <- !app_assoc. reflexivity.
    + lia.
    + lia.
    + intros i Hi. apply Hs. lia.
    + intros i Hi. cbn [Gamma.requests].
      replace (S (Gamma.requests st) + i)%nat
        with (Gamma.requests st + S i)%nat by lia.
      apply He. lia.
    + cbn [Gamma.requests].
      replace (S (Gamma.requests st) + j)%nat
        with (Gamma.requests st + S j)%nat by lia.
      exact Hv.
Qed.

(** The loop from attempt [a] on, when every request fails. *)
Lemma attempts_failure net n url params : forall (m a : nat) errs last st,
  Z.of_nat (a + S m) = n ->
  (forall i, Z.of_nat a <= i < n -> Gamma.sleep net i = None) ->
  (forall i, (i <= m)%nat ->
     Gamma.http net (Gamma.requests st + i) url params
     = Gamma.Raised (errs i)) ->
  Gamma.attempts net n url params (map Z.of_nat (seq a (S m))) last st
  = (Gamma.Raised (errs m),
     {| Gamma.requests := Gamma.requests st + S m;
        Gamma.actions := Gamma.actions st ++ Spec.backoff url params a m
                           ++ [Gamma.Requested url params] |}).
Proof.
  induction m as [|m IH]; intros a errs last st Hn Hs He.
  - cbn [seq map Gamma.attempts].
    pose proof (He 0%nat ltac:(lia)) as H0. rewrite Nat.add_0_r in H0.
    rewrite H0.
    destruct (Z.eqb_spec (Z.of_nat a + 1) n) as [_|Hne]; [|lia].
    cbn [Gamma.after_loop Spec.backoff seq flat_map app].
    rewrite Nat.add_1_r. reflexivity.
  - remember (S m) as m' eqn:Em. cbn [seq map Gamma.attempts].
    pose proof (He 0%nat ltac:(lia)) as H0. rewrite Nat.add_0_r in H0.
    rewrite H0.
    destruct (Z.eqb_spec (Z.of_nat a + 1) n) as [Heq|_]; [lia|].
    rewrite (Hs (Z.of_nat a)) by lia. subst m'.
    rewrite (IH (S a) (fun i => errs (S i)) _ _).
    + cbn [Gamma.requests Gamma.actions]. f_equal. f_equal; [lia|].
      unfold Spec.backoff. cbn [seq flat_map].
      rewrite <- !app_assoc. reflexivity.
    + lia.
    + intros i Hi. apply Hs. lia.
    + intros i Hi. cbn [Gamma.requests].
      replace (S (Gamma.requests st) + i)%nat
        with (Gamma.requests st + S i)%nat by lia.
      apply He. lia.
Qed.

(** X22: the retries of [_get_json]. With sleeps that return, a call
    asks until a request succeeds and returns its body, or until
    [max_retries] requests have failed and raises the error of the last
    one. It sleeps after every failed request but the last, the sleep of
    attempt [i] being [retry_base_delay * 2 ** i], and never after a
    success. With [max_retries] at or below 0 it asks nothing and raises
    the RuntimeError. *)
Theorem X22_get_json_retries (net : Gamma.Net) (self : Gamma.GammaClient)
    (path : string) (params : Gamma.Params) (st : Gamma.State) :
  let n := Gamma.max_retries self in
  let url := Gamma.base self +:+ path in
  (forall i, 0 <= i < n -> Gamma.sleep net i = None) ->
  (n <= 0 ->
     Gamma._get_json net self path params st
     = (Gamma.Raised
          (Gamma.RuntimeError ("Gamma request failed for " +:+ url)), st))
  /\ (forall (j : nat) errs v,
        Z.of_nat j < n ->
        (forall i, (i < j)%nat ->
           Gamma.http net (Gamma.requests st + i) url params
           = Gamma.Raised (errs i)) ->
        Gamma.http net (Gamma.requests st + j) url params
        = Gamma.Returned v ->
        Gamma._get_json net self path params st
        = (Gamma.Returned v,
           {| Gamma.requests := Gamma.requests st + j + 1;
              Gamma.actions :=
                Gamma.actions st ++ Spec.backoff url params 0 j
                  ++ [Gamma.Requested url params] |}))
  /\ (forall (m : nat) errs,
        Z.of_nat (S m) = n ->
        (forall i, (i <= m)%nat ->
           Gamma.http net (Gamma.requests st + i) url params
           = Gamma.Raised (errs i)) ->
        Gamma._get_json net self path params st
        = (Gamma.Raised (errs m),
           {| Gamma.requests := Gamma.requests st + S m;
              Gamma.actions :=
                Gamma.actions st ++ Spec.backoff url params 0 m
                  ++ [Gamma.Requested url params] |})).
Proof.
  intros n url Hs. unfold Gamma._get_json, Gamma.range. fold n. fold url.
  split; [|split].
  - intros Hn. replace (Z.to_nat n) with 0%nat by lia. reflexivity.
  - intros j errs v Hj He Hv.
    apply (attempts_success net n url params v j (Z.to_nat n) 0 errs);
      auto; lia.
  - intros m errs Hm He.
    replace (Z.to_nat n) with (S m) by lia.
    apply (attempts_failure net n url params m 0 errs); auto.
Qed.

Lemma X22_get_json_retries_witness :
  let net :=
    {| Gamma.http := fun k _ _ =>
         if (k <? 2)%nat then Gamma.Raised (Gamma.Library "503")
         else Gamma.Returned Gamma.JNull;
       Gamma.sleep := fun _ => None |} in
  let self := Gamma.new_client "https://gamma/" 4 in
  Gamma._get_json net self "/events/rain" None
    {| Gamma.requests := 0; Gamma.actions := [] |}
  = (Gamma.Returned Gamma.JNull,
     {| Gamma.requests := 3;
        Gamma.actions :=
          [Gamma.Requested "https://gamma/events/rain" None; Gamma.Slept 0;
           Gamma.Requested "https://gamma/events/rain" None; Gamma.Slept 1;
           Gamma.Requested "https://gamma/events/rain" None] |}).
Proof.
  intros net self.
  refine (proj1 (proj2 (X22_get_json_retries net self "/events/rain" None
                          {| Gamma.requests := 0; Gamma.actions := [] |} _))
            2%nat (fun _ => Gamma.Library "503") Gamma.JNull _ _ _).
  - intros i _. reflexivity.
  - vm_compute. reflexivity.
  - intros i Hi. destruct i as [|[|i]]; [reflexivity|reflexivity|lia].
  - reflexivity.
Defined.

(** ** The requests of a discovery *)

Lemma attempts_bounds net n url params : forall todo last st,
  (Gamma.requests st
   <= Gamma.requests (Gamma.attempts net n url params todo last st).2
   <= Gamma.requests st + length todo)%nat.
Proof.
  induction todo as [|a todo IH]; intros last st; cbn [Gamma.attempts length].
  - cbn [snd]. lia.
  - cbv zeta.
    destruct (Gamma.http net (Gamma.requests st) url params) as [v|exc];
      [cbn [snd Gamma.requests]; lia|].
    destruct (a + 1 =? n); [cbn [snd Gamma.requests]; lia|].
    destruct (Gamma.sleep net a); [cbn [snd Gamma.requests]; lia|].
    specialize (IH (Some exc)
      {| Gamma.requests := S (Gamma.requests st);
         Gamma.actions := (Gamma.actions st ++ [Gamma.Requested url params])
                            ++ [Gamma.Slept a] |}).
    cbn [Gamma.requests Gamma.actions] in IH |- *. lia.
Qed.

Lemma get_json_bounds net self path params st :
  (Gamma.requests st
   <= Gamma.requests (Gamma._get_json net self path params st).2
   <= Gamma.requests st + Z.to_nat (Gamma.max_retries self))%nat.
Proof.
  unfold Gamma._get_json.
  pose proof (attempts_bounds net (Gamma.max_retries self)
                (Gamma.base self +:+ path) params
                (Gamma.range (Gamma.max_retries self)) None st) as H.
  unfold Gamma.range in H |- *. rewrite length_map, length_seq in H.
  exact H.
Qed.

Lemma get_event_bounds net self slug st :
  (Gamma.requests st
   <= Gamma.requests (Gamma.get_event_with_markets net self slug st).2
   <= Gamma.requests st + 2 * Z.to_nat (Gamma.max_retries self))%nat.
Proof.
  unfold Gamma.get_event_with_markets.
  pose proof (get_json_bounds net self ("/events/" +:+ slug) None st) as H1.
  destruct (Gamma._get_json net self ("/events/" +:+ slug) None st)
    as [r1 st1]. cbn [snd] in H1.
  pose proof (get_json_bounds net self "/events"
                (Some [("slug", Gamma.PStr slug); ("limit", Gamma.PInt 1)])
                st1) as H2.
  destruct (Gamma._get_json net self "/events" _ st1) as [r2 st2].
  cbn [snd] in H2.
  destruct r1 as [[]|]; cbn [snd]; try lia;
    destruct r2; cbn [snd]; lia.
Qed.

(** X23: the requests and the result of [get_markets_for_event]. A
    call makes at most three times [max_retries] requests, whatever it
    answers. When it returns, the event is a JSON object and every market
    is one. When the first request already answers an object with a
    non-empty list under [markets], this one request is all it makes, and
    it returns that object with the objects of that list. *)
Theorem X23_get_markets_for_event_result (net : Gamma.Net)
    (self : Gamma.GammaClient) (slug : string) (st : Gamma.State) :
  let r := Gamma.get_markets_for_event net self slug st in
  (Gamma.requests st <= Gamma.requests r.2
   <= Gamma.requests st + 3 * Z.to_nat (Gamma.max_retries self))%nat
  /\ (forall ev ms,
        r.1 = Gamma.Returned (ev, ms) ->
        Gamma.is_dict ev = true
        /\ Forall (fun m => Gamma.is_dict m = true) ms)
  /\ (forall d m ms,
        1 <= Gamma.max_retries self ->
        Gamma.http net (Gamma.requests st)
          (Gamma.base self +:+ "/events/" +:+ slug) None
        = Gamma.Returned (Gamma.JDict d) ->
        Gamma.get d "markets" = Some (Gamma.JList (m :: ms)) ->
        r = (Gamma.Returned
               (Gamma.JDict d, List.filter Gamma.is_dict (m :: ms)),
             {| Gamma.requests := Gamma.requests st + 1;
                Gamma.actions :=
                  Gamma.actions st
                  ++ [Gamma.Requested
                        (Gamma.base self +:+ "/events/" +:+ slug) None] |})).
Proof.
  intros r. split; [|split].
  - unfold r, Gamma.get_markets_for_event.
    pose proof (get_event_bounds net self slug st) as H1.
    destruct (Gamma.get_event_with_markets net self slug st) as [ev st1].
    cbn [snd] in H1.
    pose proof (get_json_bounds net self "/markets"
                  (Some [("eventSlug", Gamma.PStr slug);
                         ("limit", Gamma.PInt 500)]) st1) as H2.
    destruct (Gamma._get_json net self "/markets" _ st1) as [p st2].
    cbn [snd] in H2.
    destruct ev as [[| | | | |d]|]; cbn [snd]; try lia.
    destruct (Gamma.as_list (Gamma.get d "markets")) as [[|m ms]|];
      cbn [snd]; try lia; destruct p; cbn [snd]; lia.
  - intros ev ms. unfold r, Gamma.get_markets_for_event.
    destruct (Gamma.get_event_with_markets net self slug st) as [e st1].
    destruct (Gamma._get_json net self "/markets" _ st1) as [p st2].
    assert (forall l, Forall (fun m => Gamma.is_dict m = true)
                        (List.filter Gamma.is_dict l)) as Hfil.
    { intros l. apply List.Forall_forall. intros x Hx.
      apply filter_In in Hx. tauto. }
    destruct e as [[| | | | |d]|]; cbn [fst]; try discriminate.
    destruct (Gamma.as_list (Gamma.get d "markets")) as [[|m0 ms0]|];
      cbn [fst].
    + destruct p; cbn [fst]; [|discriminate]. intros [= <- <-].
      split; [reflexivity|apply Hfil].
    + intros [= <- <-]. split; [reflexivity|exact (Hfil (m0 :: ms0))].
    + destruct p; cbn [fst]; [|discriminate]. intros [= <- <-].
      split; [reflexivity|apply Hfil].
  - intros d m ms Hn Hh Hg.
    unfold r, Gamma.get_markets_for_event, Gamma.get_event_with_markets,
      Gamma._get_json, Gamma.range.
    destruct (Z.to_nat (Gamma.max_retries self)) as [|k] eqn:Ek; [lia|].
    cbn [seq map Gamma.attempts].
    rewrite Hh. rewrite Hg. cbn [Gamma.as_list]. rewrite Nat.add_1_r.
    reflexivity.
Qed.

Lemma X23_get_markets_for_event_result_witness :
  let event :=
    [("slug", Gamma.JStr "rain");
     ("markets", Gamma.JList [Gamma.JDict []; Gamma.JStr "x"])] in
  let net :=
    {| Gamma.http := fun _ _ _ => Gamma.Returned (Gamma.JDict event);
       Gamma.sleep := fun _ => None |} in
  Gamma.get_markets_for_event net (Gamma.new_client "https://gamma/" 4)
    "rain" {| Gamma.requests := 0; Gamma.actions := [] |}
  = (Gamma.Returned (Gamma.JDict event, [Gamma.JDict []]),
     {| Gamma.requests := 1;
        Gamma.actions :=
          [Gamma.Requested "https://gamma/events/rain" None] |}).
Proof.
  intros event net.
  refine (proj2 (proj2 (X23_get_markets_for_event_result net
                          (Gamma.new_client "https://gamma/" 4) "rain"
                          {| Gamma.requests := 0; Gamma.actions := [] |}))
            event (Gamma.JDict []) [Gamma.JStr "x"] _ _ _).
  - vm_compute. discriminate.
  - reflexivity.
  - reflexivity.
Defined.

(** ** The markets of an event *)

Lemma upsert_market_events now c p id c' :
  upsert_market now c p = Ok (id, c') -> events c' = events c.
Proof.
  unfold upsert_market.
  destruct (normalize_token_id _); cbn [bind]; [|discriminate].
  destruct (normalize_token_id _); cbn [bind]; [|discriminate].
  destruct (bind_opt_int _); cbn [bind]; [|discriminate].
  destruct (mp_slug p); [|discriminate].
  destruct (find _ _); intros [= _ <-]; reflexivity.
Qed.

Lemma insert_trades_tables now c ts n c' :
  insert_trades now c ts = Ok (n, c') ->
  events c' = events c /\ markets c' = markets c.
Proof.
  unfold insert_trades. destruct ts; [intros [= <- <-]; auto|].
  destruct (all_params _); cbn [bind]; [|discriminate].
  destruct (executemany _ _ _) as [[rows k]|]; cbn [bind]; [|discriminate].
  intros [= <- <-]. auto.
Qed.

(** The ids of the markets grow along the table. *)
Lemma upsert_market_sorted now c p id c' :
  upsert_market now c p = Ok (id, c') ->
  StronglySorted Z.lt (map m_id (markets c)) ->
  StronglySorted Z.lt (map m_id (markets c')).
Proof.
  unfold upsert_market.
  destruct (normalize_token_id _); cbn [bind]; [|discriminate].
  destruct (normalize_token_id _); cbn [bind]; [|discriminate].
  destruct (bind_opt_int _); cbn [bind]; [|discriminate].
  destruct (mp_slug p) as [slug|]; [|discriminate].
  destruct (find _ (markets c)); intros [= _ <-]; cbn [markets]; intros Hs.
  - rewrite (map_map_cond (fun r => bool_decide (m_slug r = slug)))
      by reflexivity.
    exact Hs.
  - rewrite map_app. apply StronglySorted_app_2.
    + intros x1 x2 H1 H2. apply list_elem_of_In in H1, H2.
      destruct H2 as [<-|[]]. cbn [new_market m_id].
      apply next_id_fresh. exact H1.
    + exact Hs.
    + repeat constructor.
Qed.

Lemma reachable_read_keys c :
  Spec.reachable c ->
  (NoDup (map e_slug (events c)) /\ NoDup (map e_id (events c))
   /\ NoDup (omap e_event_id (events c)))
  /\ StronglySorted Z.lt (map m_id (markets c)).
Proof.
  induction 1 as [|now c p id c' _ IH Hop|now c p id c' _ IH Hop
                  |now c ts n c' _ IH Hop|now c key b c' _ IH Hop].
  - cbn. repeat split; constructor.
  - destruct IH as (He & Hm). split.
    + exact (upsert_event_keys _ _ _ _ _ Hop He).
    + rewrite (upsert_event_markets _ _ _ _ _ Hop). exact Hm.
  - destruct IH as (He & Hm). split.
    + rewrite (upsert_market_events _ _ _ _ _ Hop). exact He.
    + exact (upsert_market_sorted _ _ _ _ _ Hop Hm).
  - destruct (insert_trades_tables _ _ _ _ _ Hop) as [-> ->]. exact IH.
  - unfold update_sync_state in Hop.
    destruct (bind_int b); cbn [bind] in Hop; [|discriminate].
    injection Hop as <-. exact IH.
Qed.

(** Under a key without duplicates, the rows of one key are the first
    one. *)
Lemma filter_unique_key {A B} `{EqDecision B} (key : A -> B) (k : B) l :
  NoDup (map key l) ->
  List.filter (fun x => bool_decide (key x = k)) l
  = match find (fun x => bool_decide (key x = k)) l with
    | Some e => [e]
    | None => []
    end.
Proof.
  induction l as [|a l IH]; [reflexivity|]. cbn [map List.filter find].
  intros Hnd. apply NoDup_cons in Hnd as [Ha Hnd].
  destruct (bool_decide (key a = k)) eqn:E.
  - apply bool_decide_eq_true in E. f_equal.
    rewrite IH by exact Hnd.
    destruct (find _ l) as [e|] eqn:Ef; [|reflexivity].
    exfalso. apply Ha. apply find_some in Ef as [Hin He].
    apply bool_decide_eq_true in He. rewrite E, <- He.
    apply list_elem_of_In, in_map, Hin.
  - apply IH. exact Hnd.
Qed.

Lemma filter_andb {A} (P Q : A -> bool) l :
  List.filter (fun x => P x && Q x) l = List.filter P (List.filter Q l).
Proof.
  induction l as [|a l IH]; [reflexivity|]. cbn [List.filter].
  destruct (Q a); cbn [List.filter]; destruct (P a); cbn; rewrite ?IH;
    reflexivity.
Qed.

Lemma flat_map_cond {A B} (P : A -> bool) (b : B) l :
  flat_map (fun m => map (fun _ => m) (if P m then [b] else [])) l
  = List.filter P l.
Proof.
  induction l as [|a l IH]; [reflexivity|]. cbn [flat_map List.filter].
  rewrite IH. destruct (P a); reflexivity.
Qed.

Lemma flat_map_nothing {A B} (l : list A) :
  flat_map (fun m => map (fun _ : B => m) []) l = [].
Proof. induction l; [reflexivity|exact IHl]. Qed.

Lemma StronglySorted_filter {A} (R : relation A) (P : A -> bool) l :
  StronglySorted R l -> StronglySorted R (List.filter P l).
Proof.
  induction 1 as [|a l Hs IH Ha]; [constructor|]. cbn [List.filter].
  destruct (P a); [|exact IH]. constructor; [exact IH|].
  apply List.Forall_forall. intros x Hx. apply filter_In in Hx as [Hx _].
  exact (proj1 (List.Forall_forall _ _) Ha x Hx).
Qed.

Lemma StronglySorted_map_lt {A} (f : A -> Z) l :
  StronglySorted Z.lt (map f l) ->
  StronglySorted (fun a b => f a < f b) l.
Proof.
  induction l as [|a l IH]; [constructor|]. cbn [map]. intros H.
  apply StronglySorted_inv in H as [Hs Ha]. constructor; [auto|].
  apply List.Forall_forall. intros x Hx.
  exact (proj1 (List.Forall_forall _ _) Ha (f x) (in_map f _ _ Hx)).
Qed.

#[local] Instance by_id_trans : Transitive Queries.by_id.
Proof. intros a b c. unfold Queries.by_id. lia. Qed.

#[local] Instance by_id_total : Total Queries.by_id.
Proof. intros a b. unfold Queries.by_id. lia. Qed.

(** A list already in strict order of its ids is what the sort
    returns. *)
Lemma sort_by_id_sorted l :
  StronglySorted (fun a b => m_id a < m_id b) l ->
  merge_sort Queries.by_id l = l.
Proof.
  intros Hs.
  apply (StronglySorted_unique_strong Queries.by_id).
  - intros x1 x2 H1 H2 R1 R2. unfold Queries.by_id in *.
    rewrite merge_sort_Permutation in H1.
    assert (m_id x1 = m_id x2) as Heq by lia. clear R1 R2.
    induction Hs as [|a l Hs IH Ha]; [inversion H1|].
    apply elem_of_cons in H1, H2.
    pose proof (proj1 (List.Forall_forall _ _) Ha) as Hlt.
    destruct H1 as [->|H1], H2 as [->|H2]; auto.
    + apply list_elem_of_In in H2. specialize (Hlt _ H2).
      cbv beta in Hlt. lia.
    + apply list_elem_of_In in H1. specialize (Hlt _ H1).
      cbv beta in Hlt. lia.
  - apply StronglySorted_merge_sort; apply _.
  - clear - Hs. induction Hs as [|a l Hs IH Ha]; constructor; [exact IH|].
    eapply List.Forall_impl; [|exact Ha]. intros x Hx.
    unfold Queries.by_id. cbv beta in Hx. lia.
  - apply merge_sort_Permutation.
Qed.

(** On a store the operations can produce the join is a filter of the
    markets table. *)
Lemma fetch_markets_for_event_reachable c event_slug :
  Spec.reachable c ->
  Queries.fetch_markets_for_event c event_slug
  = match fetch_event_by_slug c event_slug with
    | Some e =>
        List.filter (fun m => bool_decide (m_event_id m = Some (e_id e)))
                    (markets c)
    | None => []
    end.
Proof.
  intros Hr. destruct (reachable_read_keys c Hr) as ((Hslug & _) & Hsorted).
  unfold Queries.fetch_markets_for_event, fetch_event_by_slug.
  assert (forall m,
            List.filter (Queries.joins event_slug m) (events c)
            = match find (fun r => bool_decide (e_slug r = event_slug))
                      (events c) with
              | Some e =>
                  if bool_decide (m_event_id m = Some (e_id e))
                  then [e] else []
              | None => []
              end) as Hj.
  { intros m. unfold Queries.joins.
    rewrite (filter_andb
               (fun e => bool_decide (m_event_id m = Some (e_id e)))
               (fun e => bool_decide (e_slug e = event_slug))).
    rewrite (filter_unique_key e_slug event_slug _ Hslug).
    destruct (find _ (events c)) as [e|]; [|reflexivity].
    cbn [List.filter]. reflexivity. }
  rewrite (flat_map_ext _ _ (fun m => f_equal (map (fun _ => m)) (Hj m))).
  destruct (find _ (events c)) as [e|].
  - rewrite (flat_map_cond
               (fun m => bool_decide (m_event_id m = Some (e_id e)))).
    apply sort_by_id_sorted. apply StronglySorted_filter.
    apply StronglySorted_map_lt. exact Hsorted.
  - rewrite flat_map_nothing. reflexivity.
Qed.

(** X24: the markets of an event. In every store the operations can
    produce, [fetch_markets_for_event] returns the market rows whose
    [event_id] is the row id of the event with the given slug, each once
    and in the order of their ids, which is the order of the table; it
    returns no row when no event has the slug. *)
Theorem X24_fetch_markets_for_event (c : Conn) (event_slug : string) :
  Spec.reachable c ->
  Queries.fetch_markets_for_event c event_slug
  = match fetch_event_by_slug c event_slug with
    | Some e =>
        List.filter (fun m => bool_decide (m_event_id m = Some (e_id e)))
                    (markets c)
    | None => []
    end
  /\ StronglySorted Z.lt
       (map m_id (Queries.fetch_markets_for_event c event_slug)).
Proof.
  intros Hr. pose proof (fetch_markets_for_event_reachable c event_slug Hr)
    as Heq.
  destruct (reachable_read_keys c Hr) as (_ & Hsorted).
  split; [exact Heq|]. rewrite Heq.
  destruct (fetch_event_by_slug c event_slug) as [e|]; [|constructor].
  apply (StronglySorted_fmap m_id (fun a b => m_id a < m_id b)); [auto|].
  apply StronglySorted_filter, StronglySorted_map_lt, Hsorted.
Qed.

Lemma X24_fetch_markets_for_event_witness :
  let c :=
    Fixtures.after
      (upsert_market "t1" Fixtures.conn_one_event
         (with_event_id Fixtures.market_555 1))
      Fixtures.conn_one_event in
  map m_slug (Queries.fetch_markets_for_event c "rain") = ["will-it-rain"].
Proof.
  intros c.
  assert (Spec.reachable c) as Hr.
  { apply (Spec.reach_upsert_market "t1" Fixtures.conn_one_event
             (with_event_id Fixtures.market_555 1) 1 c).
    - apply (Spec.reach_upsert_event "t0" empty_conn Fixtures.event_rain 1
               Fixtures.conn_one_event); [constructor|].
      vm_compute. reflexivity.
    - vm_compute. reflexivity. }
  rewrite (proj1 (X24_fetch_markets_for_event c "rain" Hr)).
  vm_compute. reflexivity.
Defined.

(** ** Reading trades *)

Lemma newer_or_same_spec a b :
  Queries.newer_or_same a b = true <-> Spec.listed_before a b.
Proof.
  unfold Queries.newer_or_same, Spec.listed_before.
  destruct (t_block_number a) as [x|], (t_block_number b) as [y|].
  - rewrite orb_true_iff, andb_true_iff, Z.ltb_lt, Z.eqb_eq, Z.leb_le.
    reflexivity.
  - tauto.
  - split; [discriminate|tauto].
  - apply Z.leb_le.
Qed.

#[local] Instance newest_first_trans : Transitive Queries.newest_first.
Proof.
  intros a b c. unfold Queries.newest_first.
  rewrite !newer_or_same_spec. unfold Spec.listed_before.
  destruct (t_block_number a), (t_block_number b), (t_block_number c);
    try tauto; lia.
Qed.

#[local] Instance newest_first_total : Total Queries.newest_first.
Proof.
  intros a b. unfold Queries.newest_first.
  rewrite !newer_or_same_spec. unfold Spec.listed_before.
  destruct (t_block_number a), (t_block_number b); try tauto; lia.
Qed.

Lemma clauses_within r from_block to_block :
  Queries.clauses_hold r (Queries.trade_clauses from_block to_block).1
    (Queries.trade_clauses from_block to_block).2 = true
  <-> Spec.within from_block to_block r.
Proof.
  unfold Spec.within, Queries.trade_clauses.
  destruct from_block as [f|], to_block as [t|];
    cbn [fst snd app Queries.clauses_hold]; unfold Queries.clause_holds;
    destruct (t_block_number r) as [b|]; cbn [andb]; split.
  all: try (intros H; try discriminate H;
            rewrite ?andb_true_iff, ?Z.leb_le in H;
            split; intros x Hx; try discriminate Hx; injection Hx as <-;
            exists b; (split; [reflexivity|lia])).
  all: intros [Hf Ht].
  all: try (destruct (Hf _ eq_refl) as (b1 & Hb1 & Hle1);
            try discriminate Hb1; injection Hb1 as <-).
  all: try (destruct (Ht _ eq_refl) as (b2 & Hb2 & Hle2);
            try discriminate Hb2; injection Hb2 as <-).
  all: rewrite ?andb_true_iff, ?Z.leb_le; try tauto; try lia.
Qed.

Lemma sublist_StronglySorted {A} (R : relation A) l k :
  sublist l k -> StronglySorted R k -> StronglySorted R l.
Proof.
  induction 1 as [|x l k Hs IH|x l k Hs IH]; intros Hk.
  - constructor.
  - apply StronglySorted_inv in Hk as [Hk Hx]. constructor; [auto|].
    apply List.Forall_forall. intros y Hy.
    apply (proj1 (List.Forall_forall _ _) Hx).
    apply list_elem_of_In. eapply elem_of_sublist; [|exact Hs].
    apply list_elem_of_In. exact Hy.
  - apply StronglySorted_inv in Hk as [Hk _]. auto.
Qed.

Lemma StronglySorted_weaken {A} (R S : relation A) l :
  (forall a b, R a b -> S a b) -> StronglySorted R l -> StronglySorted S l.
Proof.
  intros H. induction 1 as [|a l Hs IH Ha]; constructor; [exact IH|].
  eapply List.Forall_impl; [|exact Ha]. intros b. apply H.
Qed.

Lemma limit_offset_sublist {A} limit offset (l : list A) :
  sublist (Queries.limit_offset limit offset l) l.
Proof.
  unfold Queries.limit_offset. destruct (limit <? 0).
  - apply sublist_drop.
  - etransitivity; [apply sublist_take|apply sublist_drop].
Qed.

Lemma limit_offset_length {A} limit offset (l : list A) :
  0 <= limit ->
  (length (Queries.limit_offset limit offset l) <= Z.to_nat limit)%nat.
Proof.
  intros H. unfold Queries.limit_offset.
  destruct (Z.ltb_spec limit 0); [lia|]. rewrite length_firstn. lia.
Qed.

Lemma limit_offset_all {A} limit offset (l : list A) :
  offset <= 0 -> limit < 0 \/ Z.of_nat (length l) <= limit ->
  Queries.limit_offset limit offset l = l.
Proof.
  intros Ho Hl. unfold Queries.limit_offset.
  replace (Z.to_nat offset) with 0%nat by lia. cbn [skipn].
  destruct (Z.ltb_spec limit 0); [reflexivity|].
  apply firstn_all2. lia.
Qed.

Lemma filter_sublist {A} (P : A -> bool) l : sublist (List.filter P l) l.
Proof.
  induction l as [|a l IH]; [constructor|]. cbn [List.filter].
  destruct (P a); [apply sublist_skip|apply sublist_cons]; exact IH.
Qed.

(** The rows of a query on the trades: some of the rows that satisfy
    the condition, none more often than the table has it, newest first,
    no more than the limit, and all of them without offset and limit. *)
Lemma query_rows (P : TradeRow -> bool) limit offset l :
  let rows :=
    Queries.limit_offset limit offset
      (merge_sort Queries.newest_first (List.filter P l)) in
  rows ⊆+ l
  /\ Forall (fun r => P r = true) rows
  /\ StronglySorted Spec.listed_before rows
  /\ (0 <= limit -> (length rows <= Z.to_nat limit)%nat)
  /\ (offset <= 0 -> limit < 0 \/ Z.of_nat (length l) <= limit ->
      forall r, In r l -> P r = true -> In r rows).
Proof.
  intros rows.
  assert (rows ⊆+ List.filter P l) as Hsub.
  { etransitivity; [apply sublist_submseteq, limit_offset_sublist|].
    apply Permutation_submseteq, merge_sort_Permutation. }
  split; [|split; [|split; [|split]]].
  - etransitivity; [exact Hsub|]. apply sublist_submseteq, filter_sublist.
  - apply List.Forall_forall. intros r Hr.
    assert (In r (List.filter P l)) as Hin.
    { apply list_elem_of_In. eapply elem_of_submseteq; [|exact Hsub].
      apply list_elem_of_In. exact Hr. }
    apply filter_In in Hin. tauto.
  - apply (StronglySorted_weaken Queries.newest_first).
    { intros a b. apply newer_or_same_spec. }
    eapply sublist_StronglySorted; [apply limit_offset_sublist|].
    apply StronglySorted_merge_sort; apply _.
  - apply limit_offset_length.
  - intros Ho Hl r Hr Hp. unfold rows.
    rewrite limit_offset_all; [|exact Ho|].
    + apply list_elem_of_In. rewrite merge_sort_Permutation.
      apply list_elem_of_In, filter_In. auto.
    + destruct Hl as [Hl|Hl]; [left; exact Hl|right].
      rewrite (Permutation_length (merge_sort_Permutation _ _)).
      pose proof (sublist_length _ _ (filter_sublist P l)). lia.
Qed.


(** X25: the trades of a market. When [fetch_trades_for_market]
    returns, every row it returns is a row of the trades table with the
    given market id and inside the block range, no row is returned more
    often than the table has it, the rows come newest first, by block
    number and then by log index, with the rows that have no block number
    last, and they are at most [limit] when the limit is not negative.
    With no offset and a limit that is negative or at least the size of
    the table, every such row of the table is returned. *)
Theorem X25_fetch_trades_for_market (c : Conn) (market_id limit offset : Z)
    (from_block to_block : option Z) (rows : list TradeRow) :
  Queries.fetch_trades_for_market c market_id limit offset from_block
    to_block = Ok rows ->
  rows ⊆+ trades c
  /\ Forall (fun r => t_market_id r = market_id
                      /\ Spec.within from_block to_block r) rows
  /\ StronglySorted Spec.listed_before rows
  /\ (0 <= limit -> (length rows <= Z.to_nat limit)%nat)
  /\ (offset <= 0 ->
      limit < 0 \/ Z.of_nat (length (trades c)) <= limit ->
      forall r, In r (trades c) -> t_market_id r = market_id ->
                Spec.within from_block to_block r -> In r rows).
Proof.
  unfold Queries.fetch_trades_for_market.
  pose proof (fun r => clauses_within r from_block to_block) as Hw.
  destruct (Queries.trade_clauses from_block to_block) as [clauses params].
  cbn [fst snd] in Hw.
  destruct (Queries.bind_ints _); cbn [bind]; [|discriminate].
  intros [= <-].
  destruct (query_rows
              (fun r => (t_market_id r =? market_id)
                        && Queries.clauses_hold r clauses params)
              limit offset (trades c)) as (H1 & H2 & H3 & H4 & H5).
  split; [exact H1|]. split.
  { eapply List.Forall_impl; [|exact H2]. intros r Hr. cbv beta in Hr.
    apply andb_true_iff in Hr as [Hm Hc]. apply Z.eqb_eq in Hm.
    split; [exact Hm|]. apply Hw. exact Hc. }
  split; [exact H3|]. split; [exact H4|].
  intros Ho Hl r Hr Hm Hin. apply (H5 Ho Hl r Hr).
  apply andb_true_iff. split; [apply Z.eqb_eq; exact Hm|].
  apply Hw. exact Hin.
Qed.

(** X26: the trades of a token. [fetch_trades_for_token] normalizes
    the token id first and raises when that raises. When it returns, the
    rows are rows of the trades table that store exactly the normalized
    token id and lie inside the block range, newest first and at most
    [limit] when the limit is not negative; a token id that normalizes to
    nothing returns no row. With no offset and a limit that is negative or
    at least the size of the table, every such row of the table is
    returned. *)
Theorem X26_fetch_trades_for_token (c : Conn) (token_id : option string)
    (limit offset : Z) (from_block to_block : option Z) :
  (forall e, normalize_token_id token_id = Raise e ->
     Queries.fetch_trades_for_token c token_id limit offset from_block
       to_block = Raise e)
  /\ (forall rows,
        Queries.fetch_trades_for_token c token_id limit offset from_block
          to_block = Ok rows ->
        exists normalized,
          normalize_token_id token_id = Ok normalized
          /\ (normalized = None -> rows = [])
          /\ rows ⊆+ trades c
          /\ Forall (fun r => t_token_id r = normalized
                              /\ Spec.within from_block to_block r) rows
          /\ StronglySorted Spec.listed_before rows
          /\ (0 <= limit -> (length rows <= Z.to_nat limit)%nat)
          /\ (offset <= 0 ->
              limit < 0 \/ Z.of_nat (length (trades c)) <= limit ->
              forall r tok,
                In r (trades c) -> normalized = Some tok ->
                t_token_id r = Some tok ->
                Spec.within from_block to_block r -> In r rows)).
Proof.
  unfold Queries.fetch_trades_for_token. split.
  { intros e ->. reflexivity. }
  intros rows.
  destruct (normalize_token_id token_id) as [normalized|]; cbn [bind];
    [|discriminate].
  pose proof (fun r => clauses_within r from_block to_block) as Hw.
  destruct (Queries.trade_clauses from_block to_block) as [clauses params].
  cbn [fst snd] in Hw.
  destruct (Queries.bind_ints _); cbn [bind]; [|discriminate].
  intros [= <-]. exists normalized. split; [reflexivity|].
  match goal with
  | |- context [List.filter ?P (trades c)] =>
      destruct (query_rows P limit offset (trades c))
        as (H1 & H2 & H3 & H4 & H5)
  end.
  assert (Forall (fun r => t_token_id r = normalized
                           /\ Spec.within from_block to_block r)
            (Queries.limit_offset limit offset
               (merge_sort Queries.newest_first
                  (List.filter
                     (fun r =>
                        match normalized with
                        | Some tok => bool_decide (t_token_id r = Some tok)
                        | None => false
                        end && Queries.clauses_hold r clauses params)
                     (trades c))))) as Hall.
  { eapply List.Forall_impl; [|exact H2]. intros r Hr. cbv beta in Hr.
    apply andb_true_iff in Hr as [Hm Hc].
    destruct normalized as [tok|]; [|discriminate].
    apply bool_decide_eq_true in Hm.
    split; [exact Hm|]. apply Hw. exact Hc. }
  split.
  { intros ->.
    destruct (Queries.limit_offset _ _ _) as [|r rest]; [reflexivity|].
    apply Forall_cons in H2 as [H2 _]. discriminate H2. }
  split; [exact H1|]. split; [exact Hall|].
  split; [exact H3|]. split; [exact H4|].
  intros Ho Hl r tok Hr -> Hm Hin. apply (H5 Ho Hl r Hr).
  apply andb_true_iff. split; [apply bool_decide_eq_true; exact Hm|].
  apply Hw. exact Hin.
Qed.

Lemma X25_fetch_trades_for_market_witness :
  let c :=
    Fixtures.after (insert_trades "t1" empty_conn [Fixtures.trade_a])
      empty_conn in
  exists rows,
    Queries.fetch_trades_for_market c 1 100 0 (Some 90) None = Ok rows
    /\ length rows = 1%nat
    /\ Forall (fun r => t_market_id r = 1
                        /\ Spec.within (Some 90) None r) rows.
Proof.
  intros c.
  destruct (Queries.fetch_trades_for_market c 1 100 0 (Some 90) None)
    as [rows|] eqn:E; [|vm_compute in E; discriminate E].
  exists rows. split; [reflexivity|]. split.
  - vm_compute in E. injection E as <-. reflexivity.
  - exact (proj1 (proj2 (X25_fetch_trades_for_market _ _ _ _ _ _ _ E))).
Defined.

Lemma X26_fetch_trades_for_token_witness :
  let c :=
    Fixtures.after (insert_trades "t1" empty_conn [Fixtures.trade_a])
      empty_conn in
  exists rows,
    Queries.fetch_trades_for_token c (Some "0x22b") 100 0 None (Some 100)
    = Ok rows
    /\ length rows = 1%nat
    /\ Forall (fun r => t_token_id r = Some "555"
                        /\ Spec.within None (Some 100) r) rows.
Proof.
  intros c.
  destruct (Queries.fetch_trades_for_token c (Some "0x22b") 100 0 None
              (Some 100)) as [rows|] eqn:E;
    [|vm_compute in E; discriminate E].
  exists rows. split; [reflexivity|]. split.
  - vm_compute in E. injection E as <-. reflexivity.
  - destruct (proj2 (X26_fetch_trades_for_token c (Some "0x22b") 100 0 None
                       (Some 100)) rows E)
      as (normalized & Hn & _ & _ & Hall & _).
    assert (normalized = Some "555") as ->
      by (vm_compute in Hn; congruence).
    exact Hall.
Defined.

(** ** Discovery, then the listing *)

Lemma upsert_markets_reachable env eid ms : forall ids w ids' w',
  upsert_markets env eid ms ids w = (Ok ids', w') ->
  Spec.reachable (conn w) -> Spec.reachable (conn w').
Proof.
  induction ms as [|[p|] ms IH]; intros ids w ids' w'; cbn [upsert_markets].
  - intros [= <- <-] H. exact H.
  - unfold bindM, read_clock, on_conn at 1.
    cbn [conn gamma_calls clock_reads journal].
    destruct (upsert_market _ (conn w) (with_event_id p eid))
      as [[mid c1]|] eqn:Eu; [|discriminate].
    intros E H. apply IH in E; [exact E|]. cbn [conn].
    eapply Spec.reach_upsert_market; eassumption.
  - apply IH.
Qed.

(** X27: discovery, then the listing. After a discovery on a store the
    operations can produce, the store is again such a store, and
    [fetch_markets_for_event] for the slug the discovery returns lists
    every market id the discovery returns. *)
Theorem X27_discovered_markets_are_listed (env : Env) (slug : string)
    (w w' : World) (d : Discovery) :
  Spec.reachable (conn w) ->
  truthy (Some slug) = true ->
  discover_markets env (Some slug) w = (Ok d, w') ->
  Spec.reachable (conn w')
  /\ exists s,
       d_event_slug d = Some s
       /\ forall id, In id (d_markets d) ->
            In id (map m_id (Queries.fetch_markets_for_event (conn w') s)).
Proof.
  intros Hr Ht. unfold discover_markets.
  destruct slug as [|ch s0]; [discriminate|].
  set (slug := String ch s0).
  unfold bindM, call_gamma at 1.
  destruct (gamma_event_with_markets env (gamma_calls w) slug)
    as [[ev ms]|] eqn:Eg; [|discriminate].
  unfold read_clock at 1, on_conn at 1.
  cbn [conn gamma_calls clock_reads journal].
  set (payload := if truthy (ep_slug ev) then ev else with_slug ev slug).
  destruct (upsert_event _ (conn w) payload) as [[eid c1]|] eqn:Eu;
    [|discriminate].
  match goal with
  | |- context [upsert_markets env eid ms [] ?w1] =>
      destruct (upsert_markets env eid ms [] w1) as [[ids|] w2] eqn:Em;
        [|discriminate]
  end.
  intros [= <- <-]. cbn [d_event_slug d_event_id d_markets].
  assert (Spec.reachable c1) as Hr1
    by (eapply Spec.reach_upsert_event; eassumption).
  pose proof (upsert_markets_reachable _ _ _ _ _ _ _ Em Hr1) as Hr2.
  split; [exact Hr2|].
  destruct (upsert_markets_of_event _ _ _ _ _ _ _ Em (List.Forall_nil _))
    as (He & Hids & _).
  cbn [conn] in He.
  destruct (upsert_event_fetch _ _ _ _ _ Eu) as (sl & row & Hsl & Hrow & Hid).
  exists sl. split; [exact Hsl|]. intros id Hin.
  rewrite (fetch_markets_for_event_reachable _ sl Hr2).
  assert (fetch_event_by_slug (conn w2) sl = Some row) as ->.
  { unfold fetch_event_by_slug in *. rewrite He. exact Hrow. }
  destruct (proj1 (List.Forall_forall _ _) Hids id Hin) as (m & Hm & <- & Hme).
  apply in_map. apply filter_In. split; [exact Hm|].
  apply bool_decide_eq_true. rewrite Hid. exact Hme.
Qed.

Lemma X27_discovered_markets_are_listed_witness :
  exists d w',
    discover_markets
      (Fixtures.env_with 500 [] [Some Fixtures.market_555])
      (Some "rain") Fixtures.world0 = (Ok d, w')
    /\ Spec.reachable (conn w')
    /\ d_markets d = [1].
Proof.
  destruct (discover_markets
              (Fixtures.env_with 500 [] [Some Fixtures.market_555])
              (Some "rain") Fixtures.world0) as [[d|e] w'] eqn:E;
    [|vm_compute in E; discriminate E].
  exists d, w'. split; [reflexivity|]. split.
  - refine (proj1 (X27_discovered_markets_are_listed _ "rain"
                     Fixtures.world0 w' d _ eq_refl E)).
    constructor.
  - vm_compute in E. injection E as <- _. reflexivity.
Defined.
